(** * BitBake parsing core: a shallow embedding of [bb.parse]

    The development follows the four modules of [bitbake/lib/bb/parse]:
    [metrics.py], [__init__.py], [parse_py/ConfHandler.py] and
    [parse_py/BBHandler.py].  Module-level Python variables become fields
    of one [State] record, the datastore [d] is a field of that record,
    and every function is a computation in a state-and-exception monad in
    which a raised exception keeps the mutations made before it, as in
    Python. *)

From Stdlib Require Import ZArith QArith Lqa Ascii String List Lia Bool.
From stdpp Require Import base option gmap list strings.

Local Open Scope string_scope.
Local Open Scope Z_scope.

(** ** Text primitives ([str] methods and [os.path]) *)

Module Str.

Fixpoint startswith (p s : string) : bool :=
  match p, s with
  | EmptyString, _ => true
  | String a p', String b s' => if Ascii.eqb a b then startswith p' s' else false
  | String _ _, EmptyString => false
  end.

Definition endswith (s suffix : string) : bool :=
  startswith (String.rev suffix) (String.rev s).

(** [drop n s] is the slice [s[n:]]. *)
Fixpoint drop (n : nat) (s : string) : string :=
  match n, s with
  | O, _ => s
  | S n', String _ s' => drop n' s'
  | S _, EmptyString => EmptyString
  end.

(** [needle in s] for two strings. *)
Fixpoint contains (needle s : string) : bool :=
  if startswith needle s then true
  else match s with
       | EmptyString => false
       | String _ s' => contains needle s'
       end.

(** [s.split(sep)] for a non-empty separator: the pieces between the
    non-overlapping occurrences of [sep], scanning from the left. *)
Fixpoint split_go (sep : string) (cur : string) (fuel : nat) (s : string)
  : list string :=
  match fuel with
  | O => [String.rev cur]
  | S fuel' =>
      match s with
      | EmptyString => [String.rev cur]
      | String c s' =>
          if startswith sep s
          then String.rev cur :: split_go sep "" fuel' (drop (String.length sep) s)
          else split_go sep (String c cur) fuel' s'
      end
  end.

Definition split (sep s : string) : list string :=
  split_go sep "" (String.length s) s.

(** Python's [str.isspace] on the ASCII range: tab, LF, VT, FF, CR,
    the four separators 0x1c-0x1f and the blank. *)
Definition isspace (c : ascii) : bool :=
  let n := nat_of_ascii c in
  ((9 <=? n)%nat && (n <=? 13)%nat) || ((28 <=? n)%nat && (n <=? 32)%nat).

(** [s.split()]: maximal runs of non-blank characters. *)
Fixpoint words_go (cur : option string) (s : string) : list string :=
  match s with
  | EmptyString => match cur with Some w => [String.rev w] | None => [] end
  | String c s' =>
      if isspace c
      then match cur with
           | Some w => String.rev w :: words_go None s'
           | None => words_go None s'
           end
      else words_go (Some (String c (default "" cur))) s'
  end.

Definition words (s : string) : list string := words_go None s.

Fixpoint lstrip (s : string) : string :=
  match s with
  | String c s' => if isspace c then lstrip s' else s
  | EmptyString => EmptyString
  end.

Definition rstrip (s : string) : string := String.rev (lstrip (String.rev s)).

Definition strip (s : string) : string := lstrip (rstrip s).

(** [sep.join(l)]. *)
Definition join (sep : string) (l : list string) : string := String.concat sep l.

Definition first (s : string) : option ascii :=
  match s with String c _ => Some c | EmptyString => None end.

Definition last (s : string) : option ascii := first (String.rev s).

(** [s[:-1]]. *)
Definition drop_last (s : string) : string :=
  String.rev (drop 1 (String.rev s)).

(** Truth value of a string: non-empty. *)
Definition truthy (s : string) : bool :=
  match s with EmptyString => false | _ => true end.

End Str.

Module Path.

(** [os.path.isabs] on POSIX. *)
Definition isabs (p : string) : bool := Str.startswith "/" p.

(** [os.path.join(a, b)] on POSIX. *)
Definition join (a b : string) : string :=
  if Str.startswith "/" b then b
  else if negb (Str.truthy a) || Str.endswith a "/" then a +:+ b
  else a +:+ "/" +:+ b.

(** Position-independent helpers for [basename], [dirname] and
    [splitext]: the text after and before the last ["/"]. *)
Fixpoint after_last_slash (acc s : string) : string :=
  match s with
  | EmptyString => String.rev acc
  | String c s' =>
      if Ascii.eqb c "/" then after_last_slash "" s'
      else after_last_slash (String c acc) s'
  end.

Definition basename (p : string) : string := after_last_slash "" p.

Fixpoint all_slashes (s : string) : bool :=
  match s with
  | EmptyString => true
  | String c s' => Ascii.eqb c "/" && all_slashes s'
  end.

Fixpoint rstrip_slash (r : string) : string :=
  match r with
  | String c r' => if Ascii.eqb c "/" then rstrip_slash r' else r
  | EmptyString => EmptyString
  end.

(** [os.path.dirname]: the head up to the last slash, with trailing
    slashes removed unless the head is made of slashes only. *)
Definition dirname (p : string) : string :=
  let n := (String.length p - String.length (basename p))%nat in
  let head := String.substring 0 n p in
  if all_slashes head then head
  else String.rev (rstrip_slash (String.rev head)).

(** [os.path.splitext] applied to a base name: the extension starts at
    the last dot, unless only dots precede it. *)
Fixpoint ext_go (seen_nondot : bool) (best : option string) (s : string)
  : option string :=
  match s with
  | EmptyString => best
  | String c s' =>
      if Ascii.eqb c "."
      then ext_go seen_nondot (if seen_nondot then Some s else best) s'
      else ext_go true best s'
  end.

Definition splitext_ext (p : string) : string :=
  default "" (ext_go false None (basename p)).

Definition splitext_root (p : string) : string :=
  String.substring 0 (String.length p - String.length (splitext_ext p)) p.

(** [os.path.normpath] on POSIX: empty and ["."] components are
    dropped, [".."] cancels the component before it, and exactly two
    leading slashes are kept. *)
Fixpoint norm_comps (rooted : bool) (acc : list string) (comps : list string)
  : list string :=
  match comps with
  | [] => rev acc
  | c :: comps' =>
      if bool_decide (c = "") || bool_decide (c = ".") then norm_comps rooted acc comps'
      else if negb (bool_decide (c = ".."))
              || (negb rooted && bool_decide (acc = []))
              || bool_decide (head acc = Some "..")
      then norm_comps rooted (c :: acc) comps'
      else norm_comps rooted (tail acc) comps'
  end.

Definition normpath (p : string) : string :=
  if negb (Str.truthy p) then "."
  else
    let slashes :=
      if Str.startswith "/" p
      then if Str.startswith "//" p && negb (Str.startswith "///" p) then "//" else "/"
      else "" in
    let body := Str.join "/" (norm_comps (Str.truthy slashes) [] (Str.split "/" p)) in
    let r := slashes +:+ body in
    if Str.truthy r then r else ".".

(** [os.path.abspath], with the working directory made explicit. *)
Definition abspath (cwd p : string) : string :=
  normpath (if isabs p then p else join cwd p).

End Path.


(** ** The operating system as the parser sees it

    The file system is read-only for the parser (only the metrics sidecar
    is appended to), so one [OS] value describes it for a whole run.
    [os.path.exists], [isfile] and [isdir] are derived from [os.stat] as
    CPython derives them. *)

Inductive FileKind := Regular | Directory | Special.

Record stat_result := {
  st_kind : FileKind;
  st_mtime_ns : Z;
  st_size : Z;
  st_ino : Z }.

Record DirEntry := { de_name : string; de_is_file : bool }.

Record OS := {
  getcwd : string;
  os_stat : string -> option stat_result;        (* [None]: [OSError] *)
  environ_get : string -> option string;
  scandir : string -> option (list DirEntry);    (* [None]: [OSError] *)
  open_read : string -> option (list string);    (* the lines; [None]: [OSError] *)
  os_errno : string -> Z;                        (* errno of a failed call *)
  appendable : string -> bool;                   (* makedirs, open 'a', write *)
  perf_tick : nat -> N;                          (* ns between clock readings *)
  wall_time : nat -> Q;                          (* [time.time()] readings *)
  getpid : Z }.

Definition exists_ (os : OS) (p : string) : bool :=
  bool_decide (is_Some (os_stat os p)).

Definition kind_is (k : FileKind) (r : stat_result) : bool :=
  match k, st_kind r with
  | Regular, Regular | Directory, Directory | Special, Special => true
  | _, _ => false
  end.

Definition isfile (os : OS) (p : string) : bool :=
  from_option (kind_is Regular) false (os_stat os p).

Definition isdir (os : OS) (p : string) : bool :=
  from_option (kind_is Directory) false (os_stat os p).

(** An environment switch is on when the variable is set and non-empty. *)
Definition env_on (os : OS) (name : string) : bool :=
  from_option Str.truthy false (environ_get os name).

Definition ENOENT : Z := 2.

(** ** Data model *)

(** The triple stored by the mtime cache. *)
Abbreviation MtimeTriple := (Z * Z * Z)%type.

(** The second component of a dependency pair: the integer [0] for a file
    that could not be stat'd, the triple otherwise. *)
Inductive Stamp := Stamp0 | StampOf (t : MtimeTriple).

Abbreviation Dep := (string * Stamp)%type.

Global Instance Stamp_eq_dec : EqDecision Stamp.
Proof. solve_decision. Defined.

Definition triple_of (r : stat_result) : MtimeTriple :=
  (st_mtime_ns r, st_size r, st_ino r).

(** Statement nodes.  The [ast] module is not part of the sources at
    hand; the node kinds and their payloads are those the line feeders
    pass to the [ast.handle*] constructors. *)
Inductive Payload :=
| DataAssign (groupd : list (string * option string))
| Include (what_file : string) (required : bool)
| IncludeAll (what_file : string)
| Export (var : string)
| Unset (var : string)
| UnsetFlag (var flag : string)
| AddPyLib (libdir namespace : string)
| AddFragments (a b c e : string)
| ShellMethod (func_name : string) (body : list string) (python fakeroot : bool)
| LanguageMethod (function modulename : string) (body : list string)
| ExportFuncs (fns classname : string)
| AddTask (tasks before after : string)
| DelTask (tasks : string)
| AddHandler (fns : string)
| Inherit (classes : string)
| InheritDeferred (classes : string).

Record Node := { n_file : string; n_line : Z; n_payload : Payload }.

Abbreviation StatementGroup := (list Node)%type.

(** The datastore: string variables, and the list-valued reserved
    variables the core interprets.  [None] is an unset variable. *)
Record Datastore := {
  d_vars : gmap string string;
  d_depends : option (list Dep);                        (* __depends *)
  d_inherit_cache : option (list string);               (* __inherit_cache *)
  d_definherits : option (list (string * string * Z));  (* __BBDEFINHERITS *)
  d_skipped : bool }.                                   (* __SKIPPED *)

(** ** Exceptions *)

Inductive IOMsg :=
| NotFoundIn (fn : string) (bbpath : option string)  (* "file %s not found in %s" *)
| NotFound (fn : string)                             (* "file %s not found" *)
| OpenFailed (fn : string)
| StatFailed (fn : string).

Inductive ParseMsg :=
| NotABitBakeFile
| CouldNotInherit (file : option string)
| CouldNotInheritFrom (fn : string)
| CouldNot (verb fn : string)
| CouldNotBecause (verb fn : string)
| ErrorParsing (fn : string)
| UnparsedLines (fn : string) (residue : list string)
| UnclosedFunctionLines (fn : string) (body : list string)
| ShellFunctionNeverClosed (name : string)
| LeftoverData (residue : list string) (fn : string)
| TaskKeyword (te : string) (keywords : list string)
| EmptyVariableName (s : string)
| UnparsedLine (s : string).

Inductive Exn :=
| IOError (errno : Z) (msg : IOMsg)
| ParseError (msg : ParseMsg) (filename : string) (lineno : Z)
| SkipRecipe
| Fatal (lineno : Z) (fn : string)       (* [bb.fatal] *)
| IndexError
| TypeError
| RecursionError.

(** What the core consumes from code outside the parse package: the
    keyword table [bb.data_smart.__setvar_keyword__], the datastore's
    [expand], here a function of the string variables,
    the hooks user interfaces register in [ConfHandler.confFilters], and
    the effect of [ast.multi_finalize] on the datastore it is given, and
    the evaluation of the statement nodes that do not re-enter the parser
    ([eval_leaf]: the new datastore, or the exception raised). *)
Record External := {
  __setvar_keyword__ : list string;
  expand : gmap string string -> string -> string;
  confFilters : list (string -> Datastore -> Datastore);
  multi_finalize : string -> Datastore -> Datastore;
  eval_leaf : Node -> Datastore -> Exn + Datastore }.

(** What a handler returns: the datastore, the datastore wrapped in a
    one-entry map after [SkipRecipe], or the result of [multi_finalize]. *)
Inductive Handled := Data | SkippedMap | Finalized.

(** ** Process-wide state *)

(** [metrics.py]: [_totals], [_times], [_metrics_path] and the [_seq]
    counter (the next value [next(_seq)] returns). *)
Record Timer := { seconds : Q; count : Z }.

Record MetricsState := {
  m_totals : gmap string (gmap string Z);
  m_times : gmap string Timer;
  m_path : option string;
  m_seq : Z }.

(** One line of the metrics file. *)
Record MetricsRecord := {
  rec_ts : Q;
  rec_pid : Z;
  rec_seq : Z;
  rec_note : option string;
  rec_totals : gmap string (gmap string Z);
  rec_time : gmap string Timer }.

(** The monotonic clock behind [perf_counter] and the number of readings
    taken of it and of the wall clock. *)
Record Clock := { perf_ns : N; perf_reads : nat; wall_reads : nat }.

Inductive HandlerId := ConfH | BBH.

Global Instance HandlerId_eq_dec : EqDecision HandlerId.
Proof. solve_decision. Defined.

(** Key of the [resolve_file] memo: [(fn, False, bbpath)]. *)
Abbreviation RKey := (string * bool * option string)%type.

(** [bb/parse/__init__.py]: [__mtime_cache], [_resolve_cache],
    [_resolve_cache_order] and [_supports_cache]. *)
Record ParseState := {
  mtime_cache : gmap string MtimeTriple;
  resolve_cache : gmap RKey (string * list string);
  resolve_cache_order : list RKey;
  supports_cache : gmap string (option HandlerId) }.

Abbreviation Fingerprint := (list (string * Z * Z))%type.

(** The open shell function [__infunc__]: name, file, line, python and
    fakeroot flags. *)
Record InFunc := {
  if_name : string; if_fn : string; if_lineno : Z; if_py : bool; if_fr : bool }.

(** Key of the inherit memo: [(origfile, classtype, bbpath)]. *)
Abbreviation IKey := (string * option string * option string)%type.

(** [BBHandler.py] module variables. *)
Record BBState := {
  infunc : option InFunc;
  inpython : option string;
  body : list string;
  classname : string;
  residue : list string;
  cached_statements : gmap string StatementGroup;
  inherit_resolved_cache : gmap IKey (option string * list string);
  inherit_resolved_order : list IKey;
  class_index_cache : gmap (string * string) (Fingerprint * gmap string string);
  class_index_order : list (string * string) }.

(** Key of the include memo: [(fn, dname, BBPATH)]. *)
Abbreviation CKey := (string * string * option string)%type.

(** [ConfHandler.py] module variables. *)
Record ConfState := {
  conf_statements_cache : gmap (string * bool) StatementGroup;
  include_index_cache : gmap (string * string) (Fingerprint * gmap string string);
  include_index_order : list (string * string);
  include_resolve_cache : gmap CKey (option string * list string);
  include_resolve_order : list CKey }.

(** Observable events that are not part of any Python value: warnings,
    files opened for reading, and calls of the dispatcher made by
    [inherit]. *)
Inductive Event :=
| Warned (fn : string) (lineno : Z)
| Opened (path : string)
| DuplicateInclusion (fn : string)
| Dispatched (fn : string)
| InheritDispatched (file : string).

Global Instance Event_eq_dec : EqDecision Event.
Proof. solve_decision. Defined.

Record State := {
  st_d : Datastore;
  st_metrics : MetricsState;
  st_clock : Clock;
  st_parse : ParseState;
  st_bb : BBState;
  st_conf : ConfState;
  st_files : gmap string (list MetricsRecord);   (* lines appended this run *)
  st_log : list Event }.

Definition upd_d (f : Datastore -> Datastore) (s : State) : State :=
  {| st_d := f (st_d s); st_metrics := st_metrics s; st_clock := st_clock s;
     st_parse := st_parse s; st_bb := st_bb s; st_conf := st_conf s;
     st_files := st_files s; st_log := st_log s |}.

Definition upd_metrics (f : MetricsState -> MetricsState) (s : State) : State :=
  {| st_d := st_d s; st_metrics := f (st_metrics s); st_clock := st_clock s;
     st_parse := st_parse s; st_bb := st_bb s; st_conf := st_conf s;
     st_files := st_files s; st_log := st_log s |}.

Definition upd_clock (f : Clock -> Clock) (s : State) : State :=
  {| st_d := st_d s; st_metrics := st_metrics s; st_clock := f (st_clock s);
     st_parse := st_parse s; st_bb := st_bb s; st_conf := st_conf s;
     st_files := st_files s; st_log := st_log s |}.

Definition upd_parse (f : ParseState -> ParseState) (s : State) : State :=
  {| st_d := st_d s; st_metrics := st_metrics s; st_clock := st_clock s;
     st_parse := f (st_parse s); st_bb := st_bb s; st_conf := st_conf s;
     st_files := st_files s; st_log := st_log s |}.

Definition upd_bb (f : BBState -> BBState) (s : State) : State :=
  {| st_d := st_d s; st_metrics := st_metrics s; st_clock := st_clock s;
     st_parse := st_parse s; st_bb := f (st_bb s); st_conf := st_conf s;
     st_files := st_files s; st_log := st_log s |}.

Definition upd_conf (f : ConfState -> ConfState) (s : State) : State :=
  {| st_d := st_d s; st_metrics := st_metrics s; st_clock := st_clock s;
     st_parse := st_parse s; st_bb := st_bb s; st_conf := f (st_conf s);
     st_files := st_files s; st_log := st_log s |}.

Definition upd_files (f : gmap string (list MetricsRecord) -> gmap string (list MetricsRecord))
  (s : State) : State :=
  {| st_d := st_d s; st_metrics := st_metrics s; st_clock := st_clock s;
     st_parse := st_parse s; st_bb := st_bb s; st_conf := st_conf s;
     st_files := f (st_files s); st_log := st_log s |}.

Definition upd_log (f : list Event -> list Event) (s : State) : State :=
  {| st_d := st_d s; st_metrics := st_metrics s; st_clock := st_clock s;
     st_parse := st_parse s; st_bb := st_bb s; st_conf := st_conf s;
     st_files := st_files s;
     st_log := f (st_log s) |}.

(** ** The monad of Python computations

    A computation takes the state and gives the new state together with a
    returned value or a raised exception. *)

Inductive Result (A : Type) := Ret (a : A) | Raise (e : Exn).
Arguments Ret {A} a.
Arguments Raise {A} e.

Definition M (A : Type) : Type := State -> Result A * State.

Definition ret {A} (a : A) : M A := fun s => (Ret a, s).
Definition raise {A} (e : Exn) : M A := fun s => (Raise e, s).

Definition bind {A B} (c : M A) (k : A -> M B) : M B :=
  fun s => match c s with
           | (Ret a, s') => k a s'
           | (Raise e, s') => (Raise e, s')
           end.

Definition get_state : M State := fun s => (Ret s, s).
Definition modify (f : State -> State) : M unit := fun s => (Ret tt, f s).
Definition gets {A} (f : State -> A) : M A := fun s => (Ret (f s), s).

(** [try: c  except <filter>: h]. *)
Definition try_except {A} (c : M A) (h : Exn -> option (M A)) : M A :=
  fun s => match c s with
           | (Ret a, s') => (Ret a, s')
           | (Raise e, s') =>
               match h e with
               | Some handler => handler s'
               | None => (Raise e, s')
               end
           end.

(** [try: c  finally: f], for a [finally] block that does not raise. *)
Definition try_finally {A} (c : M A) (f : M unit) : M A :=
  fun s => match c s with
           | (r, s') => (r, snd (f s'))
           end.

Declare Scope py_scope.
Delimit Scope py_scope with py.
Notation "x <- c ;; k" := (bind c (fun x => k))
  (at level 100, c at next level, right associativity) : py_scope.
Notation "c ;;; k" := (bind c (fun _ => k))
  (at level 100, right associativity) : py_scope.
Local Open Scope py_scope.

(** [for x in l: body x]. *)
Fixpoint for_each {A} (l : list A) (body : A -> M unit) : M unit :=
  match l with
  | [] => ret tt
  | x :: l' => body x ;;; for_each l' body
  end.

Definition when (b : bool) (c : M unit) : M unit := if b then c else ret tt.

Definition log_event (e : Event) : M unit := modify (upd_log (fun l => (l ++ [e])%list)).

(** ** [metrics.py] *)

Module Metrics.
Section WithOS.
Context (os : OS).

Definition counter_sections : list string :=
  ["which"; "resolve_file"; "inherit"; "include"; "conf_ast"; "supports";
   "include_index"; "class_index"; "which_dir_index"].

Definition timer_sections : list string :=
  ["which"; "resolve_file"; "inherit"; "include"; "conf_ast_parse";
   "conf_eval"; "supports"].

Definition zero_counters : gmap string Z :=
  <["hits" := 0]> (<["misses" := 0]> (<["evictions" := 0]> ∅)).

Definition zero_timer : Timer := {| seconds := 0; count := 0 |}.

(** The module as first imported. *)
Definition initial : MetricsState :=
  {| m_totals := list_to_map (map (fun s => (s, zero_counters)) counter_sections);
     m_times := list_to_map (map (fun s => (s, zero_timer)) timer_sections);
     m_path := None;
     m_seq := 1 |}.

Definition set_totals (t : gmap string (gmap string Z)) (m : MetricsState) : MetricsState :=
  {| m_totals := t; m_times := m_times m; m_path := m_path m; m_seq := m_seq m |}.

Definition set_times (t : gmap string Timer) (m : MetricsState) : MetricsState :=
  {| m_totals := m_totals m; m_times := t; m_path := m_path m; m_seq := m_seq m |}.

Definition set_path (p : option string) (m : MetricsState) : MetricsState :=
  {| m_totals := m_totals m; m_times := m_times m; m_path := p; m_seq := m_seq m |}.

Definition set_seq (n : Z) (m : MetricsState) : MetricsState :=
  {| m_totals := m_totals m; m_times := m_times m; m_path := m_path m; m_seq := n |}.

Definition metrics_file : string := "bb-cache-metrics.jsonl".

Definition set_tmpdir (tmpdir : option string) : M unit :=
  match tmpdir with
  | Some t =>
      if Str.truthy t
      then modify (upd_metrics (set_path (Some (Path.join t metrics_file))))
      else ret tt
  | None => ret tt
  end.

(** [_totals[section][field] += n]; a missing section or field is a
    [KeyError], which is swallowed. *)
Definition bump_totals (section field : string) (n : Z) (m : MetricsState) : MetricsState :=
  match m_totals m !! section with
  | Some ent =>
      match ent !! field with
      | Some v => set_totals (<[section := <[field := v + n]> ent]> (m_totals m)) m
      | None => m
      end
  | None => m
  end.

Definition _bump (section field : string) (n : Z) : M unit :=
  modify (upd_metrics (bump_totals section field n)).

Definition hit (section : string) : M unit := _bump section "hits" 1.
Definition miss (section : string) : M unit := _bump section "misses" 1.
Definition evict (section : string) : M unit := _bump section "evictions" 1.

Definition seconds_of_ns (n : N) : Q := Z.of_N n # 1000000000.

(** [perf_counter()]: the present reading; the clock then moves on by
    the amount the environment decides. *)
Definition perf_counter : M Q :=
  fun s =>
    let c := st_clock s in
    (Ret (seconds_of_ns (perf_ns c)),
     upd_clock (fun _ => {| perf_ns := perf_ns c + perf_tick os (perf_reads c);
                            perf_reads := S (perf_reads c);
                            wall_reads := wall_reads c |}) s).

Definition time : M Q :=
  fun s =>
    let c := st_clock s in
    (Ret (wall_time os (wall_reads c)),
     upd_clock (fun _ => {| perf_ns := perf_ns c; perf_reads := perf_reads c;
                            wall_reads := S (wall_reads c) |}) s).

Definition time_start (section : string) : M (option (string * Q)) :=
  t <- perf_counter ;; ret (Some (section, t)).

Definition add_time (section : string) (dt : Q) (m : MetricsState) : MetricsState :=
  let ent := default zero_timer (m_times m !! section) in
  set_times (<[section := {| seconds := seconds ent + dt; count := count ent + 1 |}]>
               (m_times m)) m.

Definition time_end (section : string) (token : option (string * Q)) : M unit :=
  match token with
  | None => ret tt
  | Some (sec, t0) =>
      let section := if bool_decide (sec ≠ section) then sec else section in
      now <- perf_counter ;;
      modify (upd_metrics (add_time section (now - t0)))
  end.

Definition append_line (p : string) (r : MetricsRecord)
  (files : gmap string (list MetricsRecord)) : gmap string (list MetricsRecord) :=
  <[p := (default [] (files !! p) ++ [r])%list]> files.

(** [flush]: the totals are written as they stand and are not reset. *)
Definition flush (note : option string) : M unit :=
  m0 <- gets st_metrics ;;
  let fallback :=
    Path.join (if env_on os "TMPDIR" then default "" (environ_get os "TMPDIR") else "/tmp")
      metrics_file in
  let p := match m_path m0 with
           | Some p => if Str.truthy p then p else fallback
           | None => fallback
           end in
  ts <- time ;;
  modify (upd_metrics (set_seq (m_seq m0 + 1))) ;;;
  m <- gets st_metrics ;;
  let payload := {| rec_ts := ts; rec_pid := getpid os; rec_seq := m_seq m0;
                    rec_note := note; rec_totals := m_totals m; rec_time := m_times m |} in
  when (appendable os p) (modify (upd_files (append_line p payload))).

Definition _on_exit : M unit := flush (Some "exit").

End WithOS.
End Metrics.

(** ** [bb/parse/__init__.py]: mtime cache and dependency marking *)

Module Parse.
Section WithOS.
Context (os : OS) (ext : External).

Definition set_mtime_cache (c : gmap string MtimeTriple) (p : ParseState) : ParseState :=
  {| mtime_cache := c; resolve_cache := resolve_cache p;
     resolve_cache_order := resolve_cache_order p; supports_cache := supports_cache p |}.

Definition set_resolve (c : gmap RKey (string * list string)) (o : list RKey)
  (p : ParseState) : ParseState :=
  {| mtime_cache := mtime_cache p; resolve_cache := c;
     resolve_cache_order := o; supports_cache := supports_cache p |}.

Definition set_supports_cache (c : gmap string (option HandlerId)) (p : ParseState) : ParseState :=
  {| mtime_cache := mtime_cache p; resolve_cache := resolve_cache p;
     resolve_cache_order := resolve_cache_order p; supports_cache := c |}.

Definition _RESOLVE_CACHE_MAX : Z := 8192.

Definition stat_or_raise (f : string) : M stat_result :=
  match os_stat os f with
  | Some r => ret r
  | None => raise (IOError (os_errno os f) (StatFailed f))
  end.

Definition store_mtime (f : string) (t : MtimeTriple) : M unit :=
  modify (upd_parse (fun p => set_mtime_cache (<[f := t]> (mtime_cache p)) p)).

Definition cached_mtime (f : string) : M MtimeTriple :=
  c <- gets (fun s => mtime_cache (st_parse s)) ;;
  match c !! f with
  | Some t => ret t
  | None =>
      res <- stat_or_raise f ;;
      store_mtime f (triple_of res) ;;;
      ret (triple_of res)
  end.

Definition cached_mtime_noerror (f : string) : M Stamp :=
  c <- gets (fun s => mtime_cache (st_parse s)) ;;
  match c !! f with
  | Some t => ret (StampOf t)
  | None =>
      match os_stat os f with
      | Some res => store_mtime f (triple_of res) ;;; ret (StampOf (triple_of res))
      | None => ret Stamp0
      end
  end.

Definition check_mtime (f : string) (mtime : Stamp) : M bool :=
  match os_stat os f with
  | Some res =>
      store_mtime f (triple_of res) ;;;
      ret (bool_decide (StampOf (triple_of res) = mtime))
  | None => ret (bool_decide (Stamp0 = mtime))
  end.

Definition update_mtime (f : string) : M Stamp :=
  match os_stat os f with
  | Some res => store_mtime f (triple_of res) ;;; ret (StampOf (triple_of res))
  | None =>
      modify (upd_parse (fun p => set_mtime_cache (delete f (mtime_cache p)) p)) ;;;
      ret Stamp0
  end.

Definition update_cache (f : string) : M unit :=
  c <- gets (fun s => mtime_cache (st_parse s)) ;;
  match c !! f with
  | Some _ => update_mtime f ;;; ret tt
  | None => ret tt
  end.

Definition clear_cache : M unit :=
  modify (upd_parse (set_mtime_cache ∅)).

(** *** Datastore access *)

Definition getVar (name : string) (expand_it : bool) : M (option string) :=
  gets (fun s =>
          let v := d_vars (st_d s) !! name in
          if expand_it then expand ext (d_vars (st_d s)) <$> v else v).

Definition set_vars (v : gmap string string) (d : Datastore) : Datastore :=
  {| d_vars := v; d_depends := d_depends d; d_inherit_cache := d_inherit_cache d;
     d_definherits := d_definherits d; d_skipped := d_skipped d |}.

Definition set_depends (l : option (list Dep)) (d : Datastore) : Datastore :=
  {| d_vars := d_vars d; d_depends := l; d_inherit_cache := d_inherit_cache d;
     d_definherits := d_definherits d; d_skipped := d_skipped d |}.

Definition set_inherit_cache (l : option (list string)) (d : Datastore) : Datastore :=
  {| d_vars := d_vars d; d_depends := d_depends d; d_inherit_cache := l;
     d_definherits := d_definherits d; d_skipped := d_skipped d |}.

Definition set_definherits (l : option (list (string * string * Z))) (d : Datastore) : Datastore :=
  {| d_vars := d_vars d; d_depends := d_depends d; d_inherit_cache := d_inherit_cache d;
     d_definherits := l; d_skipped := d_skipped d |}.

Definition set_skipped (b : bool) (d : Datastore) : Datastore :=
  {| d_vars := d_vars d; d_depends := d_depends d; d_inherit_cache := d_inherit_cache d;
     d_definherits := d_definherits d; d_skipped := b |}.

Definition setVar (name value : string) : M unit :=
  modify (upd_d (fun d => set_vars (<[name := value]> (d_vars d)) d)).

(** [d.getVar('__depends', False) or []]. *)
Definition depends_or_nil (d : Datastore) : list Dep := default [] (d_depends d).

(** The path [mark_dependency] records for [f]. *)
Definition dep_path (f : string) : string :=
  if Str.startswith "./" f then getcwd os +:+ "/" +:+ Str.drop 2 f else f.

Definition mark_dependency (f : string) : M unit :=
  let f := dep_path f in
  deps <- gets (fun s => depends_or_nil (st_d s)) ;;
  stamp <- cached_mtime_noerror f ;;
  let s := (f, stamp) in
  if bool_decide (s ∈ deps) then ret tt
  else modify (upd_d (set_depends (Some (deps ++ [s])%list))).

Definition check_dependency (f : string) : M bool :=
  stamp <- cached_mtime_noerror f ;;
  deps <- gets (fun s => depends_or_nil (st_d s)) ;;
  ret (bool_decide ((f, stamp) ∈ deps)).

(** *** [bb.utils.which] *)

(** Modelled from the spec: [bb.utils.which(path, item, history=True)]
    is not among the sources.  It walks the directories of the
    colon-separated [path] in order, tests [join(dir, item)] for
    existence, and the first existing path wins, made absolute; every
    path tested is appended to the attempts.  Nothing found is the
    empty string. *)
Fixpoint which_go (dirs : list string) (item : string) (hist : list string)
  : string * list string :=
  match dirs with
  | [] => ("", hist)
  | p :: dirs' =>
      let next := Path.join p item in
      let hist := (hist ++ [next])%list in
      if exists_ os next
      then (if Path.isabs next then next else Path.abspath (getcwd os) next, hist)
      else which_go dirs' item hist
  end.

Definition which (path : option string) (item : string) : string * list string :=
  which_go (Str.split ":" (default "" path)) item [].

(** *** [resolve_file] *)

(** [deque.remove(key)] guarded by [except ValueError: pass]: the first
    occurrence goes, if there is one. *)
Fixpoint remove_first {A} `{EqDecision A} (x : A) (l : list A) : list A :=
  match l with
  | [] => []
  | y :: l' => if decide (x = y) then l' else y :: remove_first x l'
  end.

Definition resolve_lookup (cap : Z) (fn : string) (bbpath : option string)
  : M (string * list string) :=
  let key : RKey := (fn, false, bbpath) in
  let disable_cache := env_on os "BB_OPT_DISABLE_RESOLVE_CACHE" in
  ps <- gets st_parse ;;
  match (if disable_cache then None else resolve_cache ps !! key) with
  | Some cached =>
      modify (upd_parse
                (set_resolve (resolve_cache ps)
                   (remove_first key (resolve_cache_order ps) ++ [key])%list)) ;;;
      Metrics.hit "resolve_file" ;;;
      ret cached
  | None =>
      let r := which bbpath fn in
      when (negb disable_cache)
        (let c := <[key := r]> (resolve_cache ps) in
         let o := (resolve_cache_order ps ++ [key])%list in
         if cap <? Z.of_nat (length o)
         then
           match o with
           | old :: o' =>
               modify (upd_parse (set_resolve (delete old c) o')) ;;;
               Metrics.evict "resolve_file"
           | [] => ret tt
           end
         else modify (upd_parse (set_resolve c o))) ;;;
      Metrics.miss "resolve_file" ;;;
      ret r
  end.

Definition resolve_file_with (cap : Z) (fn : string) : M string :=
  _tok <- Metrics.time_start os "resolve_file" ;;
  try_finally
    (fn <- (if negb (Path.isabs fn)
            then
              bbpath <- getVar "BBPATH" true ;;
              r <- resolve_lookup cap fn bbpath ;;
              for_each (snd r) mark_dependency ;;;
              if negb (Str.truthy (fst r))
              then raise (IOError ENOENT (NotFoundIn fn bbpath))
              else ret (fst r)
            else
              mark_dependency fn ;;; ret fn) ;;
     if negb (isfile os fn)
     then raise (IOError ENOENT (NotFound fn))
     else ret fn)
    (Metrics.time_end os "resolve_file" _tok).

Definition resolve_file (fn : string) : M string :=
  resolve_file_with _RESOLVE_CACHE_MAX fn.

End WithOS.
End Parse.

(** ** Regular expressions

    The feeders recognise lines with Python [re] patterns.  [Re] is the
    fragment those patterns use, and [Re.run] a backtracking matcher with
    Python's priorities: the left alternative first, greedy repetition
    longest first, lazy repetition shortest first.  Characters are ASCII. *)

Module Re.

Inductive t :=
| Eps
| Chr (p : ascii -> bool)
| Lit (s : string)
| Cat (r1 r2 : t)
| Alt (r1 r2 : t)
| Star (greedy : bool) (r : t)
| Group (name : string) (r : t)
| Ahead (positive : bool) (r : t)
| Backref (name : string)
| Bos
| Eos.

Definition Caps : Type := list (string * string).

(** The text a group captured last, [None] if it took no part. *)
Fixpoint group (name : string) (caps : Caps) : option string :=
  match caps with
  | [] => None
  | (n, v) :: caps' => if String.eqb n name then Some v else group name caps'
  end.

Definition orelse {R} (a b : option R) : option R :=
  match a with Some _ => a | None => b end.

Definition LF : ascii := ascii_of_nat 10.

(** [go r pos s caps k]: match [r] against [s], the input from offset
    [pos] on, and hand the rest to [k]. *)
Fixpoint go {R} (r : t) (pos : nat) (s : string) (caps : Caps)
  (k : nat -> string -> Caps -> option R) {struct r} : option R :=
  match r with
  | Eps => k pos s caps
  | Chr p =>
      match s with
      | String c s' => if p c then k (S pos) s' caps else None
      | EmptyString => None
      end
  | Lit l =>
      if Str.startswith l s
      then k (pos + String.length l)%nat (Str.drop (String.length l) s) caps
      else None
  | Cat r1 r2 => go r1 pos s caps (fun pos' s' caps' => go r2 pos' s' caps' k)
  | Alt r1 r2 => orelse (go r1 pos s caps k) (go r2 pos s caps k)
  | Star greedy r1 =>
      (fix star (fuel : nat) (pos : nat) (s : string) (caps : Caps) : option R :=
         match fuel with
         | O => k pos s caps
         | S fuel' =>
             let again :=
               go r1 pos s caps
                 (fun pos' s' caps' =>
                    if (pos' =? pos)%nat then None else star fuel' pos' s' caps') in
             if greedy then orelse again (k pos s caps)
             else orelse (k pos s caps) again
         end) (String.length s) pos s caps
  | Group name r1 =>
      go r1 pos s caps
        (fun pos' s' caps' =>
           k pos' s' ((name, String.substring 0 (pos' - pos) s) :: caps'))
  | Ahead positive r1 =>
      match go r1 pos s caps (fun _ _ caps' => Some caps') with
      | Some caps' => if positive then k pos s caps' else None
      | None => if positive then None else k pos s caps
      end
  | Backref name =>
      match group name caps with
      | Some l =>
          if Str.startswith l s
          then k (pos + String.length l)%nat (Str.drop (String.length l) s) caps
          else None
      | None => None
      end
  | Bos => if (pos =? 0)%nat then k pos s caps else None
  | Eos =>
      if bool_decide (s = "") || bool_decide (s = String LF "")
      then k pos s caps else None
  end.

(** [pattern.match(s)]: anchored at the start, any rest allowed. *)
Definition run (r : t) (s : string) : option Caps :=
  go r 0 s [] (fun _ _ caps => Some caps).

Definition Plus (greedy : bool) (r : t) : t := Cat r (Star greedy r).
Definition Opt (r : t) : t := Alt r Eps.

Fixpoint seq (rs : list t) : t :=
  match rs with
  | [] => Eps
  | [r] => r
  | r :: rs' => Cat r (seq rs')
  end.

Fixpoint alts (rs : list t) : t :=
  match rs with
  | [] => Eps
  | [r] => r
  | r :: rs' => Alt r (alts rs')
  end.

(** Character classes. *)
Definition char (c : ascii) : ascii -> bool := Ascii.eqb c.

Definition one_of (cs : string) (c : ascii) : bool :=
  existsb (Ascii.eqb c) (list_ascii_of_string cs).

Definition between (lo hi : ascii) (c : ascii) : bool :=
  (nat_of_ascii lo <=? nat_of_ascii c)%nat && (nat_of_ascii c <=? nat_of_ascii hi)%nat.

Definition alnum (c : ascii) : bool :=
  between "a" "z" c || between "A" "Z" c || between "0" "9" c.

Definition word (c : ascii) : bool := alnum c || char "_" c.         (* \w *)
Definition space : ascii -> bool := Str.isspace.                    (* \s *)
Definition dot (c : ascii) : bool := negb (Ascii.eqb c LF).          (* . *)

Definition ws_star : t := Star true (Chr space).
Definition ws_plus : t := Plus true (Chr space).
Definition any_plus : t := Plus true (Chr dot).
Definition any_star : t := Star true (Chr dot).

End Re.

(** ** [parse_py/ConfHandler.py]: the configuration line grammar *)

Module ConfHandler.

Import Re.

Definition DQ : ascii := ascii_of_nat 34.
Definition BACKSLASH : ascii := ascii_of_nat 92.

Definition var_char (c : ascii) : bool := alnum c || one_of "-_+.${}/~:" c.
Definition name_char (c : ascii) : bool := alnum c || one_of "-_+.${}/~" c.
Definition flag_first (c : ascii) : bool := alnum c || one_of "-_+." c.
Definition flag_char (c : ascii) : bool := alnum c || one_of "-_+.@/" c.
Definition unset_flag_char (c : ascii) : bool := alnum c || one_of "-_+.@" c.

(** [(?!q[^q]*q[^q]*q$)]: not a value holding a third quote [q]. *)
Definition no_inner_quote (q : ascii) : Re.t :=
  let notq := Star true (Chr (fun c => negb (Ascii.eqb c q))) in
  Ahead false (seq [Chr (char q); notq; Chr (char q); notq; Chr (char q); Eos]).

Definition __config_regexp__ : Re.t :=
  seq [ Bos;
        Opt (Group "exp" (Cat (Lit "export") ws_plus));
        Group "var" (Star false (Chr var_char));
        Opt (seq [Lit "["; Group "flag" (Cat (Chr flag_first) (Star true (Chr flag_char)));
                  Lit "]"]);
        Group "whitespace" ws_star;
        alts [ Group "colon" (Lit ":=");
               Group "lazyques" (Lit "??=");
               Group "ques" (Lit "?=");
               Group "append" (Lit "+=");
               Group "prepend" (Lit "=+");
               Group "predot" (Lit "=.");
               Group "postdot" (Lit ".=");
               Lit "=" ];
        Group "whitespace2" ws_star;
        no_inner_quote "'";
        no_inner_quote DQ;
        Group "apo" (Chr (fun c => Ascii.eqb c "'" || Ascii.eqb c DQ));
        Group "value" any_star;
        Backref "apo";
        Eos ].

Definition config_groups : list string :=
  ["exp"; "var"; "flag"; "whitespace"; "colon"; "lazyques"; "ques"; "append";
   "prepend"; "predot"; "postdot"; "whitespace2"; "apo"; "value"].

(** [m.groupdict()]. *)
Definition groupdict (caps : Caps) : list (string * option string) :=
  map (fun n => (n, group n caps)) config_groups.

Definition __include_regexp__ : Re.t := seq [Lit "include"; ws_plus; Group "1" any_plus].
Definition __require_regexp__ : Re.t := seq [Lit "require"; ws_plus; Group "1" any_plus].
Definition __includeall_regexp__ : Re.t := seq [Lit "include_all"; ws_plus; Group "1" any_plus].
Definition __export_regexp__ : Re.t :=
  seq [Lit "export"; ws_plus; Group "1" (Plus true (Chr name_char)); Eos].
Definition __unset_regexp__ : Re.t :=
  seq [Lit "unset"; ws_plus; Group "1" (Plus true (Chr name_char)); Eos].
Definition __unset_flag_regexp__ : Re.t :=
  seq [Lit "unset"; ws_plus; Group "1" (Plus true (Chr name_char)); Lit "[";
       Group "2" (Cat (Chr flag_first) (Plus true (Chr unset_flag_char))); Lit "]"; Eos].
Definition __addpylib_regexp__ : Re.t :=
  seq [Lit "addpylib"; ws_plus; Group "1" any_plus; ws_plus; Group "2" any_plus].
Definition __addfragments_regexp__ : Re.t :=
  seq [Lit "addfragments"; ws_plus; Group "1" any_plus; ws_plus; Group "2" any_plus;
       ws_plus; Group "3" any_plus; ws_plus; Group "4" any_plus].

(** [m.group(n)] of a group that took part in the match. *)
Definition grp (n : string) (caps : Caps) : string := default "" (group n caps).

(** [statements.append(Node(fn, lineno, ...))], as the [ast.handle*]
    functions do. *)
Definition emit (statements : StatementGroup) (fn : string) (lineno : Z) (p : Payload)
  : StatementGroup :=
  (statements ++ [{| n_file := fn; n_line := lineno; n_payload := p |}])%list.

Local Open Scope py_scope.

Definition feeder (lineno : Z) (s : string) (fn : string) (statements : StatementGroup)
  (baseconfig conffile : bool) : M StatementGroup :=
  match run __config_regexp__ s with
  | Some m =>
      if bool_decide (group "var" m = Some "")
      then raise (ParseError (EmptyVariableName s) fn lineno)
      else
        when (negb (Str.truthy (grp "whitespace" m)) || negb (Str.truthy (grp "whitespace2" m)))
          (log_event (Warned fn lineno)) ;;;
        ret (emit statements fn lineno (DataAssign (groupdict m)))
  | None =>
  match run __include_regexp__ s with
  | Some m => ret (emit statements fn lineno (Include (grp "1" m) false))
  | None =>
  match run __require_regexp__ s with
  | Some m => ret (emit statements fn lineno (Include (grp "1" m) true))
  | None =>
  match run __includeall_regexp__ s with
  | Some m => ret (emit statements fn lineno (IncludeAll (grp "1" m)))
  | None =>
  match run __export_regexp__ s with
  | Some m => ret (emit statements fn lineno (Export (grp "1" m)))
  | None =>
  match run __unset_regexp__ s with
  | Some m => ret (emit statements fn lineno (Unset (grp "1" m)))
  | None =>
  match run __unset_flag_regexp__ s with
  | Some m => ret (emit statements fn lineno (UnsetFlag (grp "1" m) (grp "2" m)))
  | None =>
  match (if baseconfig && conffile then run __addpylib_regexp__ s else None) with
  | Some m => ret (emit statements fn lineno (AddPyLib (grp "1" m) (grp "2" m)))
  | None =>
  match run __addfragments_regexp__ s with
  | Some m =>
      ret (emit statements fn lineno
             (AddFragments (grp "1" m) (grp "2" m) (grp "3" m) (grp "4" m)))
  | None => raise (ParseError (UnparsedLine s) fn lineno)
  end end end end end end end end end.

Section WithOS.
Context (os : OS) (ext : External).

Definition init : M unit := ret tt.

Definition supports (fn : string) : bool :=
  bool_decide (Str.drop (String.length fn - 5) fn = ".conf").

Definition set_conf_statements_cache (c : gmap (string * bool) StatementGroup)
  (st : ConfState) : ConfState :=
  {| conf_statements_cache := c;
     include_index_cache := include_index_cache st;
     include_index_order := include_index_order st;
     include_resolve_cache := include_resolve_cache st;
     include_resolve_order := include_resolve_order st |}.

Definition set_include_index
  (c : gmap (string * string) (Fingerprint * gmap string string))
  (o : list (string * string)) (st : ConfState) : ConfState :=
  {| conf_statements_cache := conf_statements_cache st;
     include_index_cache := c;
     include_index_order := o;
     include_resolve_cache := include_resolve_cache st;
     include_resolve_order := include_resolve_order st |}.

Definition set_include_resolve (c : gmap CKey (option string * list string))
  (o : list CKey) (st : ConfState) : ConfState :=
  {| conf_statements_cache := conf_statements_cache st;
     include_index_cache := include_index_cache st;
     include_index_order := include_index_order st;
     include_resolve_cache := c;
     include_resolve_order := o |}.

(** *** Reading a configuration file

    The [for] loop over the file and the [readline] calls of the inner
    [while] loop share one iterator.  [i] is the counter of
    [enumerate], which the inner loop does not advance; [pending] is
    the logical line being joined inside the [while] loop together
    with [lineno] and [origlineno]. *)

Definition finish_line (abs_fn : string) (baseconfig : bool) (lineno : Z) (s : string)
  (statements : StatementGroup) : M StatementGroup :=
  if bool_decide (Str.first s = Some "#"%char) then ret statements
  else feeder lineno s abs_fn statements baseconfig true.

Definition ends_with_backslash (s : string) : bool :=
  bool_decide (Str.last s = Some BACKSLASH).

Fixpoint conf_lines (abs_fn : string) (baseconfig : bool) (lines : list string) (i : Z)
  (pending : option (string * Z * Z)) (statements : StatementGroup) : M StatementGroup :=
  match lines with
  | [] =>
      match pending with
      | None => ret statements
      | Some (s, lineno, _) => finish_line abs_fn baseconfig lineno s statements
      end
  | line :: rest =>
      match pending with
      | Some (s, lineno, origlineno) =>
          if negb (Str.truthy line)
          then
            statements <- finish_line abs_fn baseconfig lineno s statements ;;
            conf_lines abs_fn baseconfig rest i None statements
          else
            let s2 := Str.rstrip line in
            let lineno := lineno + 1 in
            if (negb (Str.truthy s2) || negb (bool_decide (Str.first s2 = Some "#"%char)))
               && bool_decide (Str.first s = Some "#"%char)
            then raise (Fatal origlineno abs_fn)
            else
              let s := Str.drop_last s +:+ s2 in
              if negb (Str.truthy s) then raise IndexError
              else if ends_with_backslash s
              then conf_lines abs_fn baseconfig rest i (Some (s, lineno, origlineno)) statements
              else
                statements <- finish_line abs_fn baseconfig lineno s statements ;;
                conf_lines abs_fn baseconfig rest i None statements
      | None =>
          let i := i + 1 in
          if negb (Str.truthy (Str.strip line))
          then conf_lines abs_fn baseconfig rest i None statements
          else
            let s := Str.rstrip line in
            if ends_with_backslash s
            then conf_lines abs_fn baseconfig rest i (Some (s, i, i)) statements
            else
              statements <- finish_line abs_fn baseconfig i s statements ;;
              conf_lines abs_fn baseconfig rest i None statements
      end
  end.

(** [open(path, 'r')]: the lines of the file, each with its newline. *)
Definition open_lines (path : string) : M (list string) :=
  log_event (Opened path) ;;;
  match open_read os path with
  | Some lines => ret lines
  | None => raise (IOError (os_errno os path) (OpenFailed path))
  end.

Definition _get_conf_statements (abs_fn : string) (baseconfig : bool) : M StatementGroup :=
  let key := (abs_fn, baseconfig) in
  let disabled := env_on os "BB_OPT_DISABLE_CONF_AST_CACHE" in
  c <- gets (fun s => conf_statements_cache (st_conf s)) ;;
  match (if disabled then None else c !! key) with
  | Some st => Metrics.hit "conf_ast" ;;; ret st
  | None =>
      _tok <- Metrics.time_start os "conf_ast_parse" ;;
      lines <- open_lines abs_fn ;;
      statements <- conf_lines abs_fn baseconfig lines 0 None [] ;;
      when (negb disabled)
        (modify (upd_conf (fun st =>
           set_conf_statements_cache (<[key := statements]> (conf_statements_cache st)) st))) ;;;
      Metrics.miss "conf_ast" ;;;
      Metrics.time_end os "conf_ast_parse" _tok ;;;
      ret statements
  end.

(** *** The include index *)

Definition _include_search_dirs (dname : string) (bbpath : option string) : list string :=
  ((if Str.truthy dname then [dname] else [])
     ++ filter (fun p => Str.truthy p = true) (Str.split ":" (default "" bbpath)))%list.

Definition _dirs_fingerprint (dirs : list string) : Fingerprint :=
  map (fun d => match os_stat os d with
                | Some st => (d, st_mtime_ns st, st_ino st)
                | None => (d, 0, 0)
                end) dirs.

(** One directory scanned into the mapping; the first entry of a name
    stays. *)
Definition index_dir (d : string) (mapping : gmap string string) : gmap string string :=
  match scandir os d with
  | Some entries =>
      fold_left (fun m de =>
                   if de_is_file de
                   then match m !! de_name de with
                        | Some _ => m
                        | None => <[de_name de := Path.join d (de_name de)]> m
                        end
                   else m) entries mapping
  | None => mapping
  end.

Definition _build_include_index (dname : string) (bbpath : option string)
  : Fingerprint * gmap string string :=
  let dirs := _include_search_dirs dname bbpath in
  (_dirs_fingerprint dirs, fold_left (fun m d => index_dir d m) dirs ∅).

Definition _include_index_max : Z := 256.

Definition _get_include_index (dname : string) (bbpath : option string)
  : M (gmap string string) :=
  let key := (dname, default "" bbpath) in
  st <- gets st_conf ;;
  let fp := _dirs_fingerprint (_include_search_dirs dname bbpath) in
  let rebuild : M (gmap string string) :=
    let built := _build_include_index dname bbpath in
    let c := <[key := built]> (include_index_cache st) in
    let o := (include_index_order st ++ [key])%list in
    modify (upd_conf (if _include_index_max <? Z.of_nat (length o)
                      then set_include_index (delete (default key (head o)) c) (tail o)
                      else set_include_index c o)) ;;;
    ret (snd built) in
  match include_index_cache st !! key with
  | Some (cfp, cmap) =>
      if bool_decide (cfp = fp)
      then
        modify (upd_conf (set_include_index (include_index_cache st)
                            (Parse.remove_first key (include_index_order st) ++ [key])%list)) ;;;
        ret cmap
      else rebuild
  | None => rebuild
  end.

Definition _include_index_resolve (dname : string) (bbpath : option string)
  (filename : string) : M (option string * list string) :=
  cmap <- _get_include_index dname bbpath ;;
  ret (cmap !! filename,
       map (fun d => Path.abspath (getcwd os) (Path.join d filename))
         (_include_search_dirs dname bbpath)).

(** *** [include] and [include_single_file] *)

Definition _include_resolve_max : Z := 8192.

(** Truth value of a resolved path that may be [None] or empty. *)
Definition found (p : option string) : bool := from_option Str.truthy false p.

(** The memo lookup: [order.remove(key)] raises [ValueError] for an
    absent key and the lookup is skipped; otherwise the key moves to
    the end and [cache[key]] is read. *)
Definition include_cache_get (key : CKey) : M (option (option string * list string)) :=
  if env_on os "BB_OPT_DISABLE_INCLUDE_LRU" then ret None
  else
    st <- gets st_conf ;;
    if bool_decide (key ∈ include_resolve_order st)
    then
      modify (upd_conf (set_include_resolve (include_resolve_cache st)
                          (Parse.remove_first key (include_resolve_order st) ++ [key])%list)) ;;;
      ret (include_resolve_cache st !! key)
    else ret None.

Definition include_cache_put (key : CKey) (v : option string * list string) : M unit :=
  if env_on os "BB_OPT_DISABLE_INCLUDE_LRU" then ret tt
  else
    st <- gets st_conf ;;
    let c := <[key := v]> (include_resolve_cache st) in
    let o := (include_resolve_order st ++ [key])%list in
    if _include_resolve_max <? Z.of_nat (length o)
    then
      modify (upd_conf (set_include_resolve (delete (default key (head o)) c) (tail o))) ;;;
      Metrics.evict "include"
    else modify (upd_conf (set_include_resolve c o)).

Definition include_resolve (dname fn : string) (bbpath_var : option string)
  : M (option string * list string) :=
  let bbpath := dname +:+ ":" +:+ default "None" bbpath_var in
  let key : CKey := (fn, dname, bbpath_var) in
  cached <- include_cache_get key ;;
  match cached with
  | Some r => Metrics.hit "include" ;;; ret r
  | None =>
      _tok <- Metrics.time_start os "include" ;;
      r <- try_finally
             (if negb (Str.contains "/" fn) && negb (env_on os "BB_OPT_DISABLE_INCLUDE_INDEX")
              then
                r <- _include_index_resolve dname bbpath_var fn ;;
                (if found (fst r) then Metrics.hit "include_index"
                 else Metrics.miss "include_index") ;;;
                ret r
              else
                let r := Parse.which os (Some bbpath) fn in
                when (negb (Str.contains "/" fn)) (Metrics.miss "include_index") ;;;
                ret (Some (fst r), snd r))
             (Metrics.time_end os "include" _tok) ;;
      include_cache_put key r ;;;
      Metrics.miss "include" ;;;
      ret r
  end.

Definition include_single_file (handle : string -> bool -> M Handled)
  (parentfn fn : string) (lineno : Z) (error_out : option string) : M unit :=
  if bool_decide (parentfn = fn) then ret tt
  else
    fn <- (if negb (Path.isabs fn)
           then
             let dname := Path.dirname parentfn in
             bbpath_var <- Parse.getVar ext "BBPATH" true ;;
             r <- include_resolve dname fn bbpath_var ;;
             dup <- (if found (fst r) then Parse.check_dependency os (default "" (fst r))
                     else ret false) ;;
             when dup (log_event (DuplicateInclusion (default "" (fst r)))) ;;;
             for_each (snd r) (Parse.mark_dependency os) ;;;
             ret (if found (fst r) then default "" (fst r) else fn)
           else
             dup <- Parse.check_dependency os fn ;;
             when dup (log_event (DuplicateInclusion fn)) ;;;
             ret fn) ;;
    try_except (handle fn true ;;; ret tt)
      (fun exc =>
         match exc with
         | IOError errno _ =>
             Some (if bool_decide (errno = ENOENT)
                   then match error_out with
                        | Some verb =>
                            if Str.truthy verb
                            then raise (ParseError (CouldNot verb fn) parentfn lineno)
                            else ret tt
                        | None => ret tt
                        end
                   else match error_out with
                        | Some verb =>
                            if Str.truthy verb
                            then raise (ParseError (CouldNotBecause verb fn) parentfn lineno)
                            else raise (ParseError (ErrorParsing fn) parentfn lineno)
                        | None => raise (ParseError (ErrorParsing fn) parentfn lineno)
                        end)
         | _ => None
         end).

Definition include (handle : string -> bool -> M Handled)
  (parentfn fns : string) (lineno : Z) (error_out : option string) : M unit :=
  vars <- gets (fun s => d_vars (st_d s)) ;;
  let fns := expand ext vars fns in
  let parentfn := expand ext vars parentfn in
  for_each (Str.words fns) (fun fn => include_single_file handle parentfn fn lineno error_out).

(** *** [handle]: the definition in force, which shadows the earlier
    one of the same name and reuses cached statement trees. *)
Definition handle (eval : StatementGroup -> M unit)
  (fn : string) (include baseconfig : bool) : M Handled :=
  init ;;;
  tmpdir <- Parse.getVar ext "TMPDIR" true ;;
  Metrics.set_tmpdir tmpdir ;;;
  oldfile <- (if include then Parse.getVar ext "FILE" false else ret None) ;;
  abs_fn <- Parse.resolve_file os ext fn ;;
  statements <- _get_conf_statements abs_fn baseconfig ;;
  Parse.setVar "FILE" abs_fn ;;;
  _tok <- Metrics.time_start os "conf_eval" ;;
  eval statements ;;;
  Metrics.time_end os "conf_eval" _tok ;;;
  when (found oldfile) (Parse.setVar "FILE" (default "" oldfile)) ;;;
  for_each (confFilters ext) (fun f => modify (upd_d (f fn))) ;;;
  when (negb include) (Metrics.flush os (Some "confhandler")) ;;;
  ret Data.

End WithOS.
End ConfHandler.

(** ** [parse_py/BBHandler.py] *)

Module BBHandler.

Import Re.
Local Open Scope py_scope.

Definition func_char (c : ascii) : bool := word c || one_of ".-+{}$:" c.

Definition __func_start_regexp__ : Re.t :=
  seq [ Star true
          (Cat (Alt (Group "py" (Cat (Lit "python")
                                   (Ahead true (Alt (Chr space) (Lit "(")))))
                    (Group "fr" (Cat (Lit "fakeroot") (Ahead true (Chr space)))))
               ws_star);
        Opt (Group "func" (Plus true (Chr func_char)));
        ws_star; Lit "("; ws_star; Lit ")"; ws_star; Lit "{"; Eos ].

Definition __inherit_regexp__ : Re.t := seq [Lit "inherit"; ws_plus; Group "1" any_plus].
Definition __inherit_def_regexp__ : Re.t :=
  seq [Lit "inherit_defer"; ws_plus; Group "1" any_plus].
Definition __export_func_regexp__ : Re.t :=
  seq [Lit "EXPORT_FUNCTIONS"; ws_plus; Group "1" any_plus].

Definition not_hash_nl (c : ascii) : bool := negb (Ascii.eqb c "#") && negb (Ascii.eqb c LF).

Definition task_tail : Re.t :=
  Group "comment" (Alt (Cat (Lit "#") any_star) (Star false (Chr dot))).

Definition __addtask_regexp__ : Re.t :=
  seq [Lit "addtask"; ws_plus; Group "1" (Plus true (Chr not_hash_nl)); task_tail].
Definition __deltask_regexp__ : Re.t :=
  seq [Lit "deltask"; ws_plus; Group "1" (Plus true (Chr not_hash_nl)); task_tail].
Definition __addhandler_regexp__ : Re.t := seq [Lit "addhandler"; ws_plus; Group "1" any_plus].
Definition __def_regexp__ : Re.t :=
  seq [Lit "def"; ws_plus; Group "1" (Plus true (Chr word)); any_star; Lit ":"].
Definition __python_func_regexp__ : Re.t :=
  alts [Group "1" (Cat ws_plus any_star); Group "2" (Cat Bos Eos);
        Group "3" (Cat Bos (Lit "#"))].
Definition __python_tab_regexp__ : Re.t :=
  Cat (Star true (Chr (char " "))) (Chr (char (ascii_of_nat 9))).

Section WithOS.
Context (os : OS) (ext : External).

Definition _inherit_resolved_max : Z := 8192.
Definition _class_index_max : Z := 128.

Definition set_parser (f : option InFunc) (p : option string) (b : list string)
  (c : string) (r : list string) (st : BBState) : BBState :=
  {| infunc := f; inpython := p; body := b; classname := c; residue := r;
     cached_statements := cached_statements st;
     inherit_resolved_cache := inherit_resolved_cache st;
     inherit_resolved_order := inherit_resolved_order st;
     class_index_cache := class_index_cache st;
     class_index_order := class_index_order st |}.

Definition set_cached_statements (c : gmap string StatementGroup) (st : BBState) : BBState :=
  {| infunc := infunc st; inpython := inpython st; body := body st;
     classname := classname st; residue := residue st;
     cached_statements := c;
     inherit_resolved_cache := inherit_resolved_cache st;
     inherit_resolved_order := inherit_resolved_order st;
     class_index_cache := class_index_cache st;
     class_index_order := class_index_order st |}.

Definition set_inherit_resolved (c : gmap IKey (option string * list string))
  (o : list IKey) (st : BBState) : BBState :=
  {| infunc := infunc st; inpython := inpython st; body := body st;
     classname := classname st; residue := residue st;
     cached_statements := cached_statements st;
     inherit_resolved_cache := c;
     inherit_resolved_order := o;
     class_index_cache := class_index_cache st;
     class_index_order := class_index_order st |}.

Definition set_class_index
  (c : gmap (string * string) (Fingerprint * gmap string string))
  (o : list (string * string)) (st : BBState) : BBState :=
  {| infunc := infunc st; inpython := inpython st; body := body st;
     classname := classname st; residue := residue st;
     cached_statements := cached_statements st;
     inherit_resolved_cache := inherit_resolved_cache st;
     inherit_resolved_order := inherit_resolved_order st;
     class_index_cache := c;
     class_index_order := o |}.

(** [str(classtype)]. *)
Definition str_of (classtype : option string) : string := default "None" classtype.

(** The two class directories tried under each layer. *)
Definition class_dirs (classtype : option string) : list string :=
  ["classes-" +:+ str_of classtype; "classes"].

Definition bbpath_entries (bbpath : option string) : list string :=
  filter (fun p => Str.truthy p = true) (Str.split ":" (default "" bbpath)).

Definition _bbpath_dirs_for_classes (bbpath classtype : option string) : list string :=
  concat (map (fun p =>
                 filter (fun d => isdir os d = true)
                   (map (fun t => Path.join p t) (class_dirs classtype)))
            (bbpath_entries bbpath)).

Definition _dirs_fingerprint (dirs : list string) : Fingerprint :=
  map (fun d => match os_stat os d with
                | Some st => (d, st_mtime_ns st, st_ino st)
                | None => (d, 0, 0)
                end) dirs.

Definition index_class_dir (d : string) (mapping : gmap string string) : gmap string string :=
  match scandir os d with
  | Some entries =>
      fold_left (fun m de =>
                   let name := de_name de in
                   if Str.endswith name ".bbclass"
                   then
                     let cls := String.substring 0 (String.length name - 8) name in
                     match m !! cls with
                     | Some _ => m
                     | None => <[cls := Path.join d name]> m
                     end
                   else m) entries mapping
  | None => mapping
  end.

Definition _build_class_index (bbpath classtype : option string)
  : Fingerprint * gmap string string :=
  let dirs := _bbpath_dirs_for_classes bbpath classtype in
  (_dirs_fingerprint dirs, fold_left (fun m d => index_class_dir d m) dirs ∅).

Definition _get_class_index (bbpath classtype : option string) : M (gmap string string) :=
  let key := (str_of classtype, default "" bbpath) in
  st <- gets st_bb ;;
  let fp := _dirs_fingerprint (_bbpath_dirs_for_classes bbpath classtype) in
  let rebuild : M (gmap string string) :=
    let built := _build_class_index bbpath classtype in
    let c := <[key := built]> (class_index_cache st) in
    let o := (class_index_order st ++ [key])%list in
    modify (upd_bb (if _class_index_max <? Z.of_nat (length o)
                    then set_class_index (delete (default key (head o)) c) (tail o)
                    else set_class_index c o)) ;;;
    ret (snd built) in
  match class_index_cache st !! key with
  | Some (cfp, cmap) =>
      if bool_decide (cfp = fp)
      then
        modify (upd_bb (set_class_index (class_index_cache st)
                          (Parse.remove_first key (class_index_order st) ++ [key])%list)) ;;;
        ret cmap
      else rebuild
  | None => rebuild
  end.

(** *** The inherit memo *)

Definition _inherit_cache_get (key : IKey) : M (option (option string * list string)) :=
  st <- gets st_bb ;;
  if bool_decide (key ∈ inherit_resolved_order st)
  then
    modify (upd_bb (set_inherit_resolved (inherit_resolved_cache st)
                      (Parse.remove_first key (inherit_resolved_order st) ++ [key])%list)) ;;;
    match inherit_resolved_cache st !! key with
    | Some val => Metrics.hit "inherit" ;;; ret (Some val)
    | None => Metrics.miss "inherit" ;;; ret None
    end
  else Metrics.miss "inherit" ;;; ret None.

Definition _inherit_cache_put (key : IKey) (value : option string * list string) : M unit :=
  st <- gets st_bb ;;
  let c := <[key := value]> (inherit_resolved_cache st) in
  let o := (inherit_resolved_order st ++ [key])%list in
  if _inherit_resolved_max <? Z.of_nat (length o)
  then
    modify (upd_bb (set_inherit_resolved (delete (default key (head o)) c) (tail o))) ;;;
    Metrics.evict "inherit"
  else modify (upd_bb (set_inherit_resolved c o)).

(** The path-based search: [which] under each class directory in turn,
    the attempts accumulated, stopping at the first directory that has
    the class. *)
Fixpoint which_classes (bbpath : option string) (origfile : string) (ts : list string)
  (attempts_accum : list string) : option string * list string :=
  match ts with
  | [] => (None, attempts_accum)
  | t :: ts' =>
      let cand := Path.join t (origfile +:+ ".bbclass") in
      let r := Parse.which os bbpath cand in
      let attempts_accum := (attempts_accum ++ snd r)%list in
      if Str.truthy (fst r) then (Some (fst r), attempts_accum)
      else which_classes bbpath origfile ts' attempts_accum
  end.

(** The attempts recorded for a class found through the index: every
    candidate in search order. *)
Definition index_attempts (bbpath classtype : option string) (origfile : string)
  : list string :=
  concat (map (fun p =>
                 map (fun t => Path.abspath (getcwd os)
                                 (Path.join (Path.join p t) (origfile +:+ ".bbclass")))
                   (class_dirs classtype))
            (bbpath_entries bbpath)).

Definition _resolve_inherit_file (origfile : string) : M (option string * list string) :=
  _tok <- Metrics.time_start os "inherit" ;;
  try_finally
    (classtype <- Parse.getVar ext "__bbclasstype" false ;;
     bbpath <- Parse.getVar ext "BBPATH" true ;;
     let key : IKey := (origfile, classtype, bbpath) in
     if negb (Path.isabs origfile) && negb (Str.endswith origfile ".bbclass")
     then
       cached <- _inherit_cache_get key ;;
       match cached with
       | Some val => ret val
       | None =>
           val <- (if Str.contains "/" origfile
                   then ret (which_classes bbpath origfile (class_dirs classtype) [])
                   else
                     r <- (if env_on os "BB_OPT_DISABLE_CLASS_INDEX"
                           then
                             Metrics.miss "class_index" ;;;
                             ret (which_classes bbpath origfile (class_dirs classtype) [])
                           else
                             cmap <- _get_class_index bbpath classtype ;;
                             let resolved := cmap !! origfile in
                             (if ConfHandler.found resolved then Metrics.hit "class_index"
                              else Metrics.miss "class_index") ;;;
                             ret (resolved, [])) ;;
                     ret (fst r, (snd r ++ index_attempts bbpath classtype origfile)%list)) ;;
           _inherit_cache_put key val ;;;
           ret val
       end
     else ret (if exists_ os origfile then Some origfile else None, []))
    (Metrics.time_end os "inherit" _tok).

Definition supports (fn : string) : bool :=
  bool_decide (Path.splitext_ext fn ∈ [".bb"; ".bbclass"; ".inc"]).

Definition inherit_defer (expression fn : string) (lineno : Z) : M unit :=
  modify (upd_d (fun d =>
    Parse.set_definherits
      (Some (default [] (d_definherits d) ++ [(expression, fn, lineno)])%list) d)).

(** *** [inherit]

    [handle] is the dispatcher [bb.parse.handle].  The local variable
    [__inherit_cache] is threaded through the loop as [cache]. *)

Definition inherit_cache_or_nil (d : Datastore) : list string :=
  default [] (d_inherit_cache d).

Definition inherit_one (handle : string -> bool -> M Handled)
  (fn : string) (lineno : Z) (deferred : bool) (cache : list string) (file : string)
  : M (list string) :=
  defer_var <- Parse.getVar ext "BB_DEFER_BBCLASSES" true ;;
  let defer := Str.words (default "" defer_var) in
  if negb deferred && bool_decide (file ∈ defer)
  then inherit_defer file fn lineno ;;; ret cache
  else
    let origfile := file in
    r <- _resolve_inherit_file origfile ;;
    for_each (snd r)
      (fun af => if bool_decide (Some af ≠ fst r) then Parse.mark_dependency os af else ret tt) ;;;
    match fst r with
    | Some file =>
        if negb (Str.truthy file) || negb (exists_ os file)
        then raise (ParseError (CouldNotInherit (Some file)) fn lineno)
        else if bool_decide (file ∈ cache) then ret cache
        else
          let cache := (cache ++ [file])%list in
          modify (upd_d (Parse.set_inherit_cache (Some cache))) ;;;
          log_event (InheritDispatched file) ;;;
          try_except (handle file true ;;; ret tt)
            (fun exc =>
               match exc with
               | IOError _ _ => Some (raise (ParseError (CouldNotInheritFrom fn) fn lineno))
               | _ => None
               end) ;;;
          gets (fun s => inherit_cache_or_nil (st_d s))
    | None => raise (ParseError (CouldNotInherit None) fn lineno)
    end.

Fixpoint inherit_loop (handle : string -> bool -> M Handled)
  (fn : string) (lineno : Z) (deferred : bool) (files : list string) (cache : list string)
  : M unit :=
  match files with
  | [] => ret tt
  | file :: files' =>
      cache <- inherit_one handle fn lineno deferred cache file ;;
      inherit_loop handle fn lineno deferred files' cache
  end.

Definition inherit (handle : string -> bool -> M Handled)
  (files fn : string) (lineno : Z) (deferred : bool) : M unit :=
  d <- gets st_d ;;
  let __inherit_cache := inherit_cache_or_nil d in
  let files := Str.words (expand ext (d_vars d) files) in
  inherit_loop handle fn lineno deferred files __inherit_cache.

(** *** The recipe line feeder *)

Definition anonymous : string := "__anonymous".

(** [__residue__[0][0]] compared with [#]; an empty first element is
    an [IndexError]. *)
Definition residue_starts_with_hash (r : list string) : M bool :=
  match r with
  | [] => ret false
  | r0 :: _ =>
      match r0 with
      | EmptyString => raise IndexError
      | String c _ => ret (Ascii.eqb c "#")
      end
  end.

(** The task names of an [addtask] line: the text before the first
    [" before "] and [" after "]. *)
Definition addtask_tasks (g1 : string) : string :=
  default "" (head (Str.split " after " (default "" (head (Str.split " before " g1))))).

(** The text gathered after [key] in the pieces obtained by splitting
    on [other]. *)
Definition addtask_clause (other key g1 : string) : string :=
  fold_left (fun acc exp =>
               let exp2 := Str.split key exp in
               if (1 <? length exp2)%nat then acc +:+ Str.join " " (tail exp2) else acc)
    (Str.split other g1) "".

(** The first token of the line that embeds a keyword followed by an
    underscore. *)
Definition has_keyword (te : string) : bool :=
  existsb (fun keyword => Str.contains (keyword +:+ "_") te) (__setvar_keyword__ ext).

Definition feeder (lineno : Z) (s : string) (fn root : string)
  (statements : StatementGroup) (eof : bool) : M StatementGroup :=
  st <- gets st_bb ;;
  when (bool_decide (is_Some (inpython st))
        || match infunc st with
           | Some f => bool_decide (if_name f = anonymous) || if_py f
           | None => false
           end)
    (when (bool_decide (is_Some (run __python_tab_regexp__ s)))
       (log_event (Warned root lineno))) ;;;
  match infunc st with
  | Some f =>
      if bool_decide (s = "}")
      then
        modify (upd_bb (set_parser None (inpython st) [] (classname st) (residue st))) ;;;
        ret (ConfHandler.emit statements fn lineno
               (ShellMethod (if_name f) (body st ++ [""])%list (if_py f) (if_fr f)))
      else
        modify (upd_bb (set_parser (infunc st) (inpython st) (body st ++ [s])%list
                          (classname st) (residue st))) ;;;
        ret statements
  | None =>
  (* [cont]: the rest of the function once no python body is open *)
  let cont (statements : StatementGroup) : M StatementGroup :=
    st <- gets st_bb ;;
    (if bool_decide (Str.first s = Some "#"%char)
     then
       h <- residue_starts_with_hash (residue st) ;;
       if negb (bool_decide (residue st = [])) && negb h
       then raise (Fatal lineno fn) else ret tt
     else ret tt) ;;;
    h <- (if negb (bool_decide (residue st = []))
          then residue_starts_with_hash (residue st) else ret false) ;;
    (if h && negb (bool_decide (Str.first s = Some "#"%char))
     then raise (Fatal (lineno - Z.of_nat (length (residue st))) fn) else ret tt) ;;;
    if bool_decide (Str.last s = Some ConfHandler.BACKSLASH)
    then
      modify (upd_bb (set_parser (infunc st) (inpython st) (body st) (classname st)
                        (residue st ++ [Str.drop_last s])%list)) ;;;
      ret statements
    else
      let s := Str.join "" (residue st) +:+ s in
      modify (upd_bb (set_parser (infunc st) (inpython st) (body st) (classname st) [])) ;;;
      if negb (Str.truthy s) then ret statements
      else if bool_decide (Str.first s = Some "#"%char) then ret statements
      else
      match run __func_start_regexp__ s with
      | Some m =>
          let name := match group "func" m with
                      | Some f => if Str.truthy f then f else anonymous
                      | None => anonymous
                      end in
          modify (upd_bb (set_parser
                            (Some {| if_name := name; if_fn := fn; if_lineno := lineno;
                                     if_py := bool_decide (is_Some (group "py" m));
                                     if_fr := bool_decide (is_Some (group "fr" m)) |})
                            (inpython st) (body st) (classname st) [])) ;;;
          ret statements
      | None =>
      match run __def_regexp__ s with
      | Some m =>
          modify (upd_bb (set_parser (infunc st) (Some (ConfHandler.grp "1" m))
                            (body st ++ [s])%list (classname st) [])) ;;;
          ret statements
      | None =>
      match run __export_func_regexp__ s with
      | Some m =>
          ret (ConfHandler.emit statements fn lineno
                 (ExportFuncs (ConfHandler.grp "1" m) (classname st)))
      | None =>
      match run __addtask_regexp__ s with
      | Some m =>
          let g1 := ConfHandler.grp "1" m in
          let tasks := addtask_tasks g1 in
          let after := addtask_clause " before " " after " g1 in
          let before := addtask_clause " after " " before " g1 in
          match filter (fun te => has_keyword te = true) (Str.words s) with
          | te :: _ => raise (ParseError (TaskKeyword te (__setvar_keyword__ ext)) fn 0)
          | [] => ret (ConfHandler.emit statements fn lineno (AddTask tasks before after))
          end
      | None =>
      match run __deltask_regexp__ s with
      | Some m => ret (ConfHandler.emit statements fn lineno (DelTask (ConfHandler.grp "1" m)))
      | None =>
      match run __addhandler_regexp__ s with
      | Some m => ret (ConfHandler.emit statements fn lineno (AddHandler (ConfHandler.grp "1" m)))
      | None =>
      match run __inherit_regexp__ s with
      | Some m => ret (ConfHandler.emit statements fn lineno (Inherit (ConfHandler.grp "1" m)))
      | None =>
      match run __inherit_def_regexp__ s with
      | Some m =>
          ret (ConfHandler.emit statements fn lineno (InheritDeferred (ConfHandler.grp "1" m)))
      | None => ConfHandler.feeder lineno s fn statements false false
      end end end end end end end end
  in
  match inpython st with
  | Some name =>
      if bool_decide (is_Some (run __python_func_regexp__ s)) && negb eof
      then
        modify (upd_bb (set_parser (infunc st) (inpython st) (body st ++ [s])%list
                          (classname st) (residue st))) ;;;
        ret statements
      else
        modify (upd_bb (set_parser (infunc st) None [] (classname st) (residue st))) ;;;
        let statements :=
          ConfHandler.emit statements fn lineno (LanguageMethod name root (body st)) in
        if eof then ret statements else cont statements
  | None => cont statements
  end
  end.

(** *** [get_statements] *)

(** The [for] loop over the lines of the file; it gives the statements
    and the last value of [lineno]. *)
Fixpoint feed_lines (filename base_name : string) (lines : list string) (lineno : Z)
  (statements : StatementGroup) : M (StatementGroup * Z) :=
  match lines with
  | [] => ret (statements, lineno)
  | line :: rest =>
      let lineno := lineno + 1 in
      statements <- feeder lineno (Str.rstrip line) filename base_name statements false ;;
      feed_lines filename base_name rest lineno statements
  end.

Definition get_statements (filename absolute_filename base_name : string)
  : M StatementGroup :=
  c <- gets (fun s => cached_statements (st_bb s)) ;;
  match c !! absolute_filename with
  | Some statements => ret statements
  | None =>
      lines <- ConfHandler.open_lines os absolute_filename ;;
      r <- feed_lines filename base_name lines 0 [] ;;
      let lineno := snd r in
      st <- gets st_bb ;;
      statements <- (if bool_decide (is_Some (inpython st))
                     then feeder lineno "" filename base_name (fst r) true
                     else ret (fst r)) ;;
      st <- gets st_bb ;;
      if negb (bool_decide (residue st = []))
      then raise (ParseError (UnparsedLines filename (residue st)) filename lineno)
      else if negb (bool_decide (body st = []))
      then raise (ParseError (UnclosedFunctionLines filename (body st)) filename lineno)
      else
        when (Str.endswith filename ".bbclass" || Str.endswith filename ".inc")
          (modify (upd_bb (fun st =>
             set_cached_statements (<[absolute_filename := statements]> (cached_statements st)) st))) ;;;
        ret statements
  end.

(** *** [handle]

    [eval] stands for [statements.eval(d)]. *)
Definition handle (eval : StatementGroup -> M unit)
  (fn : string) (include baseconfig : bool) : M Handled :=
  modify (upd_bb (fun st => set_parser None (inpython st) [] "" [] st)) ;;;
  let base_name := Path.basename fn in
  let root := Path.splitext_root base_name in
  let ext_ := Path.splitext_ext base_name in
  ConfHandler.init ;;;
  tmpdir <- Parse.getVar ext "TMPDIR" true ;;
  Metrics.set_tmpdir tmpdir ;;;
  when (bool_decide (ext_ = ".bbclass"))
    (modify (upd_bb (fun st =>
               set_parser (infunc st) (inpython st) (body st) root (residue st) st)) ;;;
     cache <- gets (fun s => inherit_cache_or_nil (st_d s)) ;;
     when (negb (bool_decide (fn ∈ cache)))
       (modify (upd_d (Parse.set_inherit_cache (Some (cache ++ [fn])%list))))) ;;;
  oldfile <- (if include then Parse.getVar ext "FILE" false else ret None) ;;
  abs_fn <- Parse.resolve_file os ext fn ;;
  statements <- get_statements fn abs_fn base_name ;;
  when (negb (bool_decide (ext_ = ".bbclass")) && bool_decide (Some abs_fn ≠ oldfile))
    (Parse.setVar "FILE" abs_fn) ;;;
  skipped <- try_except (eval statements ;;; ret false)
               (fun exc =>
                  match exc with
                  | SkipRecipe =>
                      Some (modify (upd_d (Parse.set_skipped true)) ;;; ret true)
                  | _ => None
                  end) ;;
  if skipped && negb include
  then Metrics.flush os (Some "bbhandler") ;;; ret SkippedMap
  else
    st <- gets st_bb ;;
    match infunc st with
    | Some f =>
        raise (ParseError (ShellFunctionNeverClosed (if_name f)) (if_fn f) (if_lineno f))
    | None =>
        if negb (bool_decide (residue st = [])) then raise TypeError
        else if negb (bool_decide (ext_ = ".bbclass")) && negb include
        then
          Metrics.flush os (Some "bbhandler") ;;;
          modify (upd_d (multi_finalize ext fn)) ;;;
          ret Finalized
        else
          when (negb (bool_decide (ext_ = ".bbclass")) && ConfHandler.found oldfile
                && bool_decide (Some abs_fn ≠ oldfile))
            (Parse.setVar "FILE" (default "" oldfile)) ;;;
          ret Data
    end.

End WithOS.
End BBHandler.

(** ** The dispatcher of [bb/parse/__init__.py] and statement evaluation *)

Module Dispatch.
Section WithOS.
Context (os : OS) (ext : External).
Local Open Scope py_scope.

(** The registry, in registration order. *)
Definition handlers : list HandlerId := [ConfH; BBH].

Definition handler_supports (h : HandlerId) (fn : string) : bool :=
  match h with
  | ConfH => ConfHandler.supports fn
  | BBH => BBHandler.supports fn
  end.

Definition _get_handler (fn : string) : M (option HandlerId) :=
  let ext_ := Path.splitext_ext fn in
  let disabled := env_on os "BB_OPT_DISABLE_SUPPORTS_CACHE" in
  c <- gets (fun s => supports_cache (st_parse s)) ;;
  match (if disabled then None else c !! ext_) with
  | Some h => Metrics.hit "supports" ;;; ret h
  | None =>
      let h := head (filter (fun h => handler_supports h fn = true) handlers) in
      when (negb disabled)
        (modify (upd_parse (fun p =>
           Parse.set_supports_cache (<[ext_ := h]> (supports_cache p)) p))) ;;;
      Metrics.miss "supports" ;;;
      ret h
  end.

Definition supports (fn : string) : M Z :=
  h <- _get_handler fn ;;
  ret (match h with Some _ => 1 | None => 0 end).

(** Modelled from the spec: the [ast] module is not among the sources.
    Statements evaluate in source order.  An include node includes its
    files inline, a required one failing when a file is missing; an
    inherit node enters the inherit engine; a deferred inherit is
    recorded under [__BBDEFINHERITS].  Every other node is evaluated by
    the external engine on the datastore alone. *)
Definition eval_node (handle : string -> bool -> M Handled) (n : Node) : M unit :=
  match n_payload n with
  | Include what_file required =>
      ConfHandler.include os ext handle (n_file n) what_file (n_line n)
        (if required then Some "require" else None)
  | Inherit classes => BBHandler.inherit os ext handle classes (n_file n) (n_line n) false
  | InheritDeferred classes => BBHandler.inherit_defer classes (n_file n) (n_line n)
  | _ =>
      fun s => match eval_leaf ext n (st_d s) with
               | inr d => (Ret tt, upd_d (fun _ => d) s)
               | inl e => (Raise e, s)
               end
  end.

Definition eval (handle : string -> bool -> M Handled) (statements : StatementGroup)
  : M unit :=
  for_each statements (eval_node handle).

(** One level of [bb.parse.handle]; [again] is the same function for
    the includes and inherits met while evaluating. *)
Definition handle_step (again : string -> bool -> M Handled)
  (fn : string) (include baseconfig : bool) : M Handled :=
  log_event (Dispatched fn) ;;;
  h <- _get_handler fn ;;
  match h with
  | Some ConfH => ConfHandler.handle os ext (eval again) fn include baseconfig
  | Some BBH => BBHandler.handle os ext (eval again) fn include baseconfig
  | None => raise (ParseError NotABitBakeFile fn 0)
  end.

(** [bb.parse.handle] with the depth of nested includes and inherits
    bounded by [depth], past which the interpreter gives up. *)
Fixpoint handle (depth : nat) (fn : string) (include baseconfig : bool) : M Handled :=
  match depth with
  | O => raise RecursionError
  | S depth' => handle_step (fun fn include => handle depth' fn include false) fn include baseconfig
  end.

Definition inherit (depth : nat) (files fn : string) (lineno : Z) (deferred : bool) : M unit :=
  BBHandler.inherit os ext (fun fn include => handle depth fn include false)
    files fn lineno deferred.

Definition include_single_file (depth : nat) (parentfn fn : string) (lineno : Z)
  (error_out : option string) : M unit :=
  ConfHandler.include_single_file os ext (fun fn include => handle depth fn include false)
    parentfn fn lineno error_out.

End WithOS.
End Dispatch.

(** ** The process at start-up, and a small world to run it in *)

Module Init.

Definition datastore (vars : list (string * string)) : Datastore :=
  {| d_vars := list_to_map vars; d_depends := None; d_inherit_cache := None;
     d_definherits := None; d_skipped := false |}.

(** Every module variable as the import of the package leaves it. *)
Definition state (d : Datastore) : State :=
  {| st_d := d;
     st_metrics := Metrics.initial;
     st_clock := {| perf_ns := 0; perf_reads := 0; wall_reads := 0 |};
     st_parse := {| mtime_cache := ∅; resolve_cache := ∅; resolve_cache_order := [];
                    supports_cache := ∅ |};
     st_bb := {| infunc := None; inpython := None; body := []; classname := "";
                 residue := []; cached_statements := ∅;
                 inherit_resolved_cache := ∅; inherit_resolved_order := [];
                 class_index_cache := ∅; class_index_order := [] |};
     st_conf := {| conf_statements_cache := ∅; include_index_cache := ∅;
                   include_index_order := []; include_resolve_cache := ∅;
                   include_resolve_order := [] |};
     st_files := ∅;
     st_log := [] |}.

End Init.

Module Sample.

Definition LF : string := String (ascii_of_nat 10) "".

Definition reg (ino size : Z) : stat_result :=
  {| st_kind := Regular; st_mtime_ns := 1000 + ino; st_size := size; st_ino := ino |}.

Definition dir (ino : Z) : stat_result :=
  {| st_kind := Directory; st_mtime_ns := 500 + ino; st_size := 4096; st_ino := ino |}.

(** A layer [/L] with the classes [base] and [other], a second layer
    [/b] holding [foo.conf], and a recipe under [/r]. *)
Definition tree : list (string * stat_result * option (list string)) :=
  [ ("/L", dir 1, None);
    ("/L/classes", dir 2, None);
    ("/L/classes/base.bbclass", reg 3 14, Some ["inherit other" +:+ LF]);
    ("/L/classes/other.bbclass", reg 4 8, Some ["A = 'one'" +:+ LF]);
    ("/b", dir 5, None);
    ("/b/foo.conf", reg 6 8, Some ["B = 'two'" +:+ LF]);
    ("/r", dir 7, None);
    ("/r/x.bb", reg 8 13, Some ["inherit base" +:+ LF]);
    ("/r/t.inc", reg 9 10, Some ["addtask do_x" +:+ LF]) ].

Definition entry (p : string) : option (stat_result * option (list string)) :=
  (fun e => (snd (fst e), snd e)) <$> head (filter (fun e => fst (fst e) = p) tree).

Definition children (d : string) : list DirEntry :=
  omap (fun e => let p := fst (fst e) in
                 if bool_decide (Path.dirname p = d) && negb (bool_decide (p = d))
                 then Some {| de_name := Path.basename p;
                              de_is_file := kind_is Regular (snd (fst e)) |}
                 else None) tree.

Definition os : OS :=
  {| getcwd := "/r";
     os_stat := fun p => fst <$> entry (Path.normpath p);
     environ_get := fun _ => None;
     scandir := fun p => if bool_decide (is_Some (entry (Path.normpath p)))
                         then Some (children (Path.normpath p)) else None;
     open_read := fun p => entry (Path.normpath p) ≫= snd;
     os_errno := fun _ => ENOENT;
     appendable := fun _ => true;
     perf_tick := fun _ => 1000%N;
     wall_time := fun n => inject_Z (Z.of_nat n);
     getpid := 4242 |}.

(** Leaf statements: an assignment with [=] sets the variable, every
    other leaf leaves the datastore alone. *)
Definition assign (n : Node) (d : Datastore) : Exn + Datastore :=
  match n_payload n with
  | DataAssign groupd =>
      match (list_to_map groupd : gmap string (option string)) !! "var",
            (list_to_map groupd : gmap string (option string)) !! "value" with
      | Some (Some var), Some (Some value) =>
          inr (Parse.set_vars (<[var := value]> (d_vars d)) d)
      | _, _ => inr d
      end
  | _ => inr d
  end.

Definition ext : External :=
  {| __setvar_keyword__ := [":append"; ":prepend"; ":remove"];
     expand := fun _ s => s;
     confFilters := [];
     multi_finalize := fun _ d => d;
     eval_leaf := assign |}.

End Sample.

(** ** Reference descriptions used in the statements below *)

Module Spec.

(** How many times [x] occurs in [l]. *)
Definition occurrences {A} `{EqDecision A} (x : A) (l : list A) : nat :=
  length (filter (fun y => y = x) l).

(** What an [except] clause can tell exceptions apart by: the class
    and, for an [OSError], its [errno]. *)
Definition exn_kind (e : Exn) : string * option Z :=
  match e with
  | IOError errno _ => ("OSError", Some errno)
  | ParseError _ _ _ => ("ParseError", None)
  | SkipRecipe => ("SkipRecipe", None)
  | Fatal _ _ => ("BBHandledException", None)
  | IndexError => ("IndexError", None)
  | TypeError => ("TypeError", None)
  | RecursionError => ("RecursionError", None)
  end.

(** The computation [c] leaves the part [view] of the state as it
    found it, whether it returns or raises. *)
Definition keeps {T A} (view : State -> T) (c : M A) : Prop :=
  forall s, view (snd (c s)) = view s.

(** The statement cache of the recipe handler. *)
Definition statement_cache (s : State) : gmap string StatementGroup :=
  cached_statements (st_bb s).

(** The value of [__inherit_cache or []], and how many times
    [inherit] has entered the dispatcher for the class file [c]. *)
Definition inherit_cache (s : State) : list string :=
  BBHandler.inherit_cache_or_nil (st_d s).

Definition dispatched (c : string) (s : State) : nat :=
  occurrences (InheritDispatched c) (st_log s).

Definition inherit_view (c : string) (s : State) : option (list string) * nat :=
  (d_inherit_cache (st_d s), dispatched c s).

(** What can happen to the class file [c] between two states: it stays
    in the list once it is there, it does not get there twice, and
    [inherit] enters the dispatcher for it only on adding it. *)
Definition inherit_step (c : string) (s s' : State) : Prop :=
  (occurrences c (inherit_cache s) <= occurrences c (inherit_cache s'))%nat
  /\ (occurrences c (inherit_cache s')
      <= Nat.max (occurrences c (inherit_cache s)) 1)%nat
  /\ (dispatched c s <= dispatched c s')%nat
  /\ (dispatched c s' + occurrences c (inherit_cache s)
      <= dispatched c s + occurrences c (inherit_cache s'))%nat.

(** [(d.getVar("BB_DEFER_BBCLASSES") or "").split()]. *)
Definition defer_list (ext : External) (s : State) : list string :=
  match fst (Parse.getVar ext "BB_DEFER_BBCLASSES" true s) with
  | Ret v => Str.words (default "" v)
  | Raise _ => []
  end.

(** Every run of [c] takes the state to one related to it by [R]. *)
Definition evolves {A} (R : State -> State -> Prop) (c : M A) : Prop :=
  forall s, R s (snd (c s)).

(** The engine outside the sources leaves [__inherit_cache] alone. *)
Definition leaves_inherit_cache (ext : External) : Prop :=
  (forall n d d', eval_leaf ext n d = inr d' -> d_inherit_cache d' = d_inherit_cache d)
  /\ (forall f fn d, f ∈ confFilters ext -> d_inherit_cache (f fn d) = d_inherit_cache d).

(** One call of [inherit]. *)
Record InheritCall : Type := {
  ic_depth : nat;
  ic_files : string;
  ic_fn : string;
  ic_lineno : Z;
  ic_deferred : bool
}.

(** [d.getVar(name, False) or []] for a list-valued variable. *)
Definition or_nil {A} (v : option (list A)) : list A := default [] v.

(** Counters that did not go down: every counter of [t1] is in [t2]
    with a value at least as large. *)
Definition totals_le (t1 t2 : gmap string (gmap string Z)) : Prop :=
  forall sec f v1, t1 !! sec ≫= (fun ent => ent !! f) = Some v1 ->
    exists v2, t2 !! sec ≫= (fun ent => ent !! f) = Some v2 /\ v1 <= v2.

Definition times_le (t1 t2 : gmap string Timer) : Prop :=
  forall sec e1, t1 !! sec = Some e1 ->
    exists e2, t2 !! sec = Some e2 /\ (seconds e1 <= seconds e2)%Q /\ count e1 <= count e2.

(** The counts of the timers did not go down. *)
Definition counts_le (t1 t2 : gmap string Timer) : Prop :=
  forall sec e1, t1 !! sec = Some e1 ->
    exists e2, t2 !! sec = Some e2 /\ count e1 <= count e2.

(** [r2] was flushed after [r1]: a larger sequence number, and no
    counter and no count of a timer below its value in [r1]. *)
Definition later_record (r1 r2 : MetricsRecord) : Prop :=
  rec_seq r1 < rec_seq r2
  /\ totals_le (rec_totals r1) (rec_totals r2)
  /\ counts_le (rec_time r1) (rec_time r2).

(** A call of the metrics interface, with whatever arguments; the
    token handed to [time_end] is any value of the shape
    [time_start] returns, or none. *)
Inductive MetricsCall :=
| CallHit (section : string)
| CallMiss (section : string)
| CallEvict (section : string)
| CallTimeStart (section : string)
| CallTimeEnd (section : string) (token : option (string * Q))
| CallSetTmpdir (tmpdir : option string)
| CallFlush (note : option string).

Definition is_flush (c : MetricsCall) : bool :=
  match c with CallFlush _ => true | _ => false end.

(** The present reading of [perf_counter], in seconds. *)
Definition now (s : State) : Q := Metrics.seconds_of_ns (perf_ns (st_clock s)).

(** The timer of a section, zero for a section not timed yet. *)
Definition timer_of (section : string) (s : State) : Timer :=
  default Metrics.zero_timer (m_times (st_metrics s) !! section).

Section WithOS.
Context (os : OS) (ext : External).

(** The stamp a path gets when marked with mtime cache [c]. *)
Definition stamp_at (c : gmap string MtimeTriple) (p : string) : Stamp :=
  match c !! p with
  | Some t => StampOf t
  | None =>
      match os_stat os p with
      | Some r => StampOf (triple_of r)
      | None => Stamp0
      end
  end.

(** The mtime cache after the stamp of [p] has been asked for. *)
Definition cache_after (c : gmap string MtimeTriple) (p : string) : gmap string MtimeTriple :=
  match c !! p with
  | Some _ => c
  | None =>
      match os_stat os p with
      | Some r => <[p := triple_of r]> c
      | None => c
      end
  end.

(** The dependency pair recorded for an attempted path [f]. *)
Definition dep_of (c : gmap string MtimeTriple) (f : string) : Dep :=
  (Parse.dep_path os f, stamp_at c (Parse.dep_path os f)).

(** Marking [f], on the two things it touches: the mtime cache and
    the value of [__depends]. *)
Definition mark1 (f : string) (cd : gmap string MtimeTriple * option (list Dep))
  : gmap string MtimeTriple * option (list Dep) :=
  let deps := default [] (snd cd) in
  (cache_after (fst cd) (Parse.dep_path os f),
   if bool_decide (dep_of (fst cd) f ∈ deps) then snd cd
   else Some (deps ++ [dep_of (fst cd) f])%list).

Definition marks (fs : list string) (cd : gmap string MtimeTriple * option (list Dep))
  : gmap string MtimeTriple * option (list Dep) :=
  fold_left (fun cd f => mark1 f cd) fs cd.

Definition marked (s : State) : gmap string MtimeTriple * option (list Dep) :=
  (mtime_cache (st_parse s), d_depends (st_d s)).

Definition with_marked (cd : gmap string MtimeTriple * option (list Dep)) (s : State) : State :=
  upd_d (Parse.set_depends (snd cd)) (upd_parse (Parse.set_mtime_cache (fst cd)) s).

(** The state once the paths [fs] have been marked in turn. *)
Definition mark_all (fs : list string) (s : State) : State :=
  with_marked (marks fs (marked s)) s.

(** What [resolve_file] works from for a relative name: the memo entry
    when the memo is enabled and has one, the search otherwise. *)
Definition resolution (fn : string) (s : State) : string * list string :=
  let bbpath := expand ext (d_vars (st_d s)) <$> (d_vars (st_d s) !! "BBPATH") in
  match (if env_on os "BB_OPT_DISABLE_RESOLVE_CACHE" then None
         else resolve_cache (st_parse s) !! ((fn, false, bbpath) : RKey)) with
  | Some cached => cached
  | None => Parse.which os bbpath fn
  end.

(** The paths [resolve_file] attempts for [fn]. *)
Definition attempts (fn : string) (s : State) : list string :=
  if Path.isabs fn then [fn] else snd (resolution fn s).

(** The candidate [resolve_file] settles on; empty when there is none. *)
Definition candidate (fn : string) (s : State) : string :=
  if Path.isabs fn then fn else fst (resolution fn s).

Definition bbpath_of (s : State) : option string :=
  expand ext (d_vars (st_d s)) <$> (d_vars (st_d s) !! "BBPATH").

(** Whether the lookup of [fn] is served from the memo. *)
Definition memo_hit (fn : string) (s : State) : bool :=
  negb (env_on os "BB_OPT_DISABLE_RESOLVE_CACHE")
  && bool_decide (is_Some (resolve_cache (st_parse s) !! ((fn, false, bbpath_of s) : RKey))).

(** The memo, its recency order and the counters once a relative [fn]
    has been looked up. *)
Definition lookup_state (cap : Z) (fn : string) (s : State) : State :=
  let key : RKey := (fn, false, bbpath_of s) in
  let ps := st_parse s in
  if memo_hit fn s
  then
    upd_metrics (Metrics.bump_totals "resolve_file" "hits" 1)
      (upd_parse (Parse.set_resolve (resolve_cache ps)
                    (Parse.remove_first key (resolve_cache_order ps) ++ [key])%list) s)
  else if env_on os "BB_OPT_DISABLE_RESOLVE_CACHE"
  then upd_metrics (Metrics.bump_totals "resolve_file" "misses" 1) s
  else
    let c := <[key := Parse.which os (bbpath_of s) fn]> (resolve_cache ps) in
    let o := (resolve_cache_order ps ++ [key])%list in
    upd_metrics (Metrics.bump_totals "resolve_file" "misses" 1)
      (if cap <? Z.of_nat (length o)
       then upd_metrics (Metrics.bump_totals "resolve_file" "evictions" 1)
              (upd_parse (Parse.set_resolve (delete (default key (head o)) c) (tail o)) s)
       else upd_parse (Parse.set_resolve c o) s).

(** How a call of [resolve_file] ends. *)
Definition outcome (fn : string) (s : State) : Result string :=
  let c := candidate fn s in
  if negb (Path.isabs fn) && negb (Str.truthy c)
  then Raise (IOError ENOENT (NotFoundIn fn (bbpath_of s)))
  else if isfile os c then Ret c
  else Raise (IOError ENOENT (NotFound c)).

(** The state in which the body of [resolve_file] leaves the process,
    started from [s]. *)
Definition body_state (cap : Z) (fn : string) (s : State) : State :=
  mark_all (attempts fn s) (if Path.isabs fn then s else lookup_state cap fn s).

Definition start_state (s : State) : State :=
  snd (Metrics.perf_counter os s).

Definition end_state (section : string) (t0 : Q) (s : State) : State :=
  snd (Metrics.time_end os section (Some (section, t0)) s).

Definition resolve_state (cap : Z) (fn : string) (s : State) : State :=
  end_state "resolve_file" (Metrics.seconds_of_ns (perf_ns (st_clock s)))
    (body_state cap fn (start_state s)).

(** The recency order mentions only keys the memo holds. *)
Definition memo_consistent (s : State) : Prop :=
  forall k : RKey, k ∈ resolve_cache_order (st_parse s) ->
                   is_Some (resolve_cache (st_parse s) !! k).

(** A logical line that the recipe feeder, with no function body open
    and no continuation pending, takes to its [addtask] branch. *)
Definition addtask_line (s : string) : bool :=
  negb (bool_decide (Str.last s = Some ConfHandler.BACKSLASH))
  && Str.truthy s
  && negb (bool_decide (Str.first s = Some "#"%char))
  && bool_decide (Re.run BBHandler.__func_start_regexp__ s = None)
  && bool_decide (Re.run BBHandler.__def_regexp__ s = None)
  && bool_decide (Re.run BBHandler.__export_func_regexp__ s = None)
  && bool_decide (is_Some (Re.run BBHandler.__addtask_regexp__ s)).

(** The node an accepted [addtask] line contributes. *)
Definition addtask_node (fn : string) (lineno : Z) (s : string) : Node :=
  let g1 := ConfHandler.grp "1" (default [] (Re.run BBHandler.__addtask_regexp__ s)) in
  {| n_file := fn; n_line := lineno;
     n_payload := AddTask (BBHandler.addtask_tasks g1)
                    (BBHandler.addtask_clause " after " " before " g1)
                    (BBHandler.addtask_clause " before " " after " g1) |}.

(** Modelled from the spec: [bb.data_smart.__setvar_keyword__] is not
    among the sources.  The spec names the reserved prefixes [append_],
    [prepend_] and [remove_]; the feeder adds the underscore itself, so
    the keywords are what precedes it. *)
Definition spec_setvar_keyword : list string := ["append"; "prepend"; "remove"].

Definition with_keywords (kws : list string) : External :=
  {| __setvar_keyword__ := kws;
     expand := expand ext;
     confFilters := confFilters ext;
     multi_finalize := multi_finalize ext;
     eval_leaf := eval_leaf ext |}.

(** The memo key of a relative name. *)
Definition key_of (fn : string) (s : State) : RKey := (fn, false, bbpath_of s).

(** The value of a metrics counter, if the section and field exist. *)
Definition counter (section field : string) (s : State) : option Z :=
  m_totals (st_metrics s) !! section ≫= (fun ent => ent !! field).

(** The state after resolving each of [names] in turn with a memo of
    capacity [cap], whatever each call returns or raises. *)
Definition resolve_each (cap : Z) (names : list string) (s : State) : State :=
  fold_left (fun s fn => snd (Parse.resolve_file_with os ext cap fn s)) names s.

(** The memo holds exactly the keys [ks], in this order of recency,
    least recent first. *)
Definition memo_is (ks : list RKey) (s : State) : Prop :=
  resolve_cache_order (st_parse s) = ks
  /\ NoDup ks
  /\ forall k : RKey, is_Some (resolve_cache (st_parse s) !! k) <-> k ∈ ks.

(** The state after the calls of [inherit] in [calls], in turn,
    whatever each call returns or raises. *)
Definition inherit_calls (calls : list InheritCall) (s : State) : State :=
  fold_left
    (fun s c =>
       snd (Dispatch.inherit os ext (ic_depth c) (ic_files c) (ic_fn c) (ic_lineno c)
              (ic_deferred c) s))
    calls s.

(** The file [flush] writes to in state [s]: the path [set_tmpdir]
    left, or [bb-cache-metrics.jsonl] under [$TMPDIR] or [/tmp]. *)
Definition flush_path (s : State) : string :=
  let fallback :=
    Path.join (if env_on os "TMPDIR" then default "" (environ_get os "TMPDIR") else "/tmp")
      Metrics.metrics_file in
  match m_path (st_metrics s) with
  | Some p => if Str.truthy p then p else fallback
  | None => fallback
  end.

(** The state after one call, whatever it returns. *)
Definition run_call (c : MetricsCall) (s : State) : State :=
  match c with
  | CallHit sec => snd (Metrics.hit sec s)
  | CallMiss sec => snd (Metrics.miss sec s)
  | CallEvict sec => snd (Metrics.evict sec s)
  | CallTimeStart sec => snd (Metrics.time_start os sec s)
  | CallTimeEnd sec token => snd (Metrics.time_end os sec token s)
  | CallSetTmpdir t => snd (Metrics.set_tmpdir t s)
  | CallFlush note => snd (Metrics.flush os note s)
  end.

Definition run_calls (cs : list MetricsCall) (s : State) : State :=
  fold_left (fun s c => run_call c s) cs s.

(** No token handed to [time_end] in the run is from the future: the
    time it carries is not after the reading of the clock at that
    call.  The tokens [time_start] returned earlier are such. *)
Fixpoint tokens_past (cs : list MetricsCall) (s : State) : Prop :=
  match cs with
  | [] => True
  | c :: cs' =>
      match c with
      | CallTimeEnd _ (Some (_, t0)) => (t0 <= now s)%Q
      | _ => True
      end
      /\ tokens_past cs' (run_call c s)
  end.

End WithOS.
End Spec.

(** * Further functions of the package *)

(** ** [bb/parse/__init__.py]: splitting a recipe file name *)

Module ParseUtil.

(** What [vars_from_file] gives: the parts of the name, [None] standing
    for a missing one, or the [ParseError] for a name with too many
    underscores. *)
Inductive VarsResult :=
| Parts (parts : list (option string))
| TooManyUnderscores (mypkg : string).

(** The module variable [__pkgsplit_cache__]. *)
Abbreviation PkgsplitCache := (gmap string (list (option string))).

(** The [while exp != 0] loop: [exp] times [None]. *)
Fixpoint tmplist (exp : nat) : list (option string) :=
  match exp with
  | O => []
  | S exp' => None :: tmplist exp'
  end.

(** [vars_from_file(mypkg, d)]; the datastore is not used.  The list
    stored in the cache is the list object that is extended afterwards,
    so the cache holds the padded list; when the name has too many
    underscores the list is stored before the exception is raised. *)
Definition vars_from_file (mypkg : option string) (cache : PkgsplitCache)
  : VarsResult * PkgsplitCache :=
  match mypkg with
  | None => (Parts [None; None; None], cache)
  | Some p =>
      if negb (Str.truthy p) || negb (Str.endswith p ".bb" || Str.endswith p ".bbappend")
      then (Parts [None; None; None], cache)
      else
        match cache !! p with
        | Some parts => (Parts parts, cache)
        | None =>
            let myfile0 := Path.splitext_root (Path.basename p) in
            let parts := map Some (Str.split "_" myfile0) in
            if (3 <? length parts)%nat
            then (TooManyUnderscores p, <[p := parts]> cache)
            else
              let parts := (parts ++ tmplist (3 - length parts))%list in
              (Parts parts, <[p := parts]> cache)
        end
  end.

End ParseUtil.

(** * Beyond the dependency and cache claims: reference descriptions *)

Module Props.

(** The stamp of [f] in the file system as it is now: the triple of
    [os.stat(f)], or the integer [0] when the call fails. *)
Definition stat_stamp (os : OS) (f : string) : Stamp :=
  match os_stat os f with
  | Some r => StampOf (triple_of r)
  | None => Stamp0
  end.

(** Every entry of the mtime cache is the present stamp of its path. *)
Definition coherent_cache (os : OS) (c : gmap string MtimeTriple) : Prop :=
  forall f t, c !! f = Some t -> stat_stamp os f = StampOf t.

Definition coherent (os : OS) (s : State) : Prop :=
  coherent_cache os (mtime_cache (st_parse s)).

(** A call of one of the functions of the package that read or write
    the mtime cache. *)
Inductive MtimeOp :=
| OpCachedMtime (f : string)
| OpCachedMtimeNoerror (f : string)
| OpCheckMtime (f : string) (mtime : Stamp)
| OpUpdateMtime (f : string)
| OpUpdateCache (f : string)
| OpClearCache
| OpMarkDependency (f : string)
| OpCheckDependency (f : string)
| OpResolveFile (fn : string).

Definition run_mtime_op (os : OS) (ext : External) (op : MtimeOp) (s : State) : State :=
  match op with
  | OpCachedMtime f => snd (Parse.cached_mtime os f s)
  | OpCachedMtimeNoerror f => snd (Parse.cached_mtime_noerror os f s)
  | OpCheckMtime f m => snd (Parse.check_mtime os f m s)
  | OpUpdateMtime f => snd (Parse.update_mtime os f s)
  | OpUpdateCache f => snd (Parse.update_cache os f s)
  | OpClearCache => snd (Parse.clear_cache s)
  | OpMarkDependency f => snd (Parse.mark_dependency os f s)
  | OpCheckDependency f => snd (Parse.check_dependency os f s)
  | OpResolveFile fn => snd (Parse.resolve_file os ext fn s)
  end.

(** The state after the calls [ops], in turn, whatever each returns or
    raises. *)
Definition run_mtime_ops (os : OS) (ext : External) (ops : list MtimeOp) (s : State)
  : State :=
  fold_left (fun s op => run_mtime_op os ext op s) ops s.

(** The handler the loop over the registry settles on for [fn]: the
    first one whose [supports] accepts the name. *)
Definition handler_for (fn : string) : option HandlerId :=
  head (filter (fun h => Dispatch.handler_supports h fn = true) Dispatch.handlers).

(** Between [s] and [s'] nothing changed but the table of counters. *)
Definition only_counters (s s' : State) : Prop :=
  s' = upd_metrics (Metrics.set_totals (m_totals (st_metrics s'))) s.

(** The timer of a section, zero for a section not timed yet. *)
Definition timer (section : string) (s : State) : Timer :=
  default Metrics.zero_timer (m_times (st_metrics s) !! section).

(** The present reading of the monotonic clock, in seconds. *)
Definition clock_now (s : State) : Q :=
  Metrics.seconds_of_ns (perf_ns (st_clock s)).

(** The node is located in [fn], at a line from [lo] to [hi]. *)
Definition located (fn : string) (lo hi : Z) (n : Node) : Prop :=
  n_file n = fn /\ lo <= n_line n <= hi.

(** The exception is one a parse of [fn] can end in, and when it
    carries a position the position is in [fn], at a line from [lo] to
    [hi]. *)
Definition error_located (fn : string) (lo hi : Z) (e : Exn) : Prop :=
  match e with
  | ParseError _ f ln => f = fn /\ lo <= ln <= hi
  | Fatal ln f => f = fn /\ lo <= ln <= hi
  | IndexError => True
  | IOError _ (OpenFailed f) => f = fn
  | _ => False
  end.

(** The outcome of a parse of [fn]: a tree that extends [statements] by
    nodes located in [fn], or a located error. *)
Definition parse_located (fn : string) (lo hi : Z) (statements : StatementGroup)
  (r : Result StatementGroup) : Prop :=
  match r with
  | Ret out => exists added, out = (statements ++ added)%list /\ Forall (located fn lo hi) added
  | Raise e => error_located fn lo hi e
  end.

(** Reading a configuration file line by line, with no joining of
    lines: blank lines and comment lines are passed over, every other
    line is fed, right-stripped, under its own number.  [i] is the
    number of the line before the first of [lines]. *)
Fixpoint feed_each_line (abs_fn : string) (baseconfig : bool) (lines : list string) (i : Z)
  (statements : StatementGroup) : M StatementGroup :=
  match lines with
  | [] => ret statements
  | line :: rest =>
      if negb (Str.truthy (Str.strip line)) then
        feed_each_line abs_fn baseconfig rest (i + 1) statements
      else if bool_decide (Str.first (Str.rstrip line) = Some "#"%char) then
        feed_each_line abs_fn baseconfig rest (i + 1) statements
      else
        bind (ConfHandler.feeder (i + 1) (Str.rstrip line) abs_fn statements baseconfig true)
          (fun statements => feed_each_line abs_fn baseconfig rest (i + 1) statements)
  end.

(** No line of [lines] ends, once right-stripped, in a backslash. *)
Definition no_continuation (lines : list string) : bool :=
  forallb (fun line => negb (ConfHandler.ends_with_backslash (Str.rstrip line))) lines.

(** Whatever the state, when [c] returns a tree it is [statements]
    followed by nodes located in [fn], at lines from [lo] to [hi]. *)
Definition adds (fn : string) (lo hi : Z) (statements : StatementGroup)
  (c : M StatementGroup) : Prop :=
  forall s, match fst (c s) with
            | Ret out =>
                exists added, out = (statements ++ added)%list
                              /\ Forall (located fn lo hi) added
            | Raise _ => True
            end.

(** A memo with an eviction order within its capacity: every key of
    the table is on the order list, and the list is no longer than
    the capacity. *)
Definition lru_ok {K V} `{Countable K} (cap : Z) (c : gmap K V) (o : list K) : Prop :=
  (forall k, is_Some (c !! k) -> k ∈ o) /\ Z.of_nat (length o) <= cap.

(** The five bounded memos of the package: the one of [resolve_file],
    the include index and the include memo of the configuration
    handler, the class index and the inherit memo of the recipe
    handler, each with the capacity the source gives it. *)
Definition caches_bounded (s : State) : Prop :=
  lru_ok Parse._RESOLVE_CACHE_MAX
    (resolve_cache (st_parse s)) (resolve_cache_order (st_parse s))
  /\ lru_ok ConfHandler._include_index_max
       (include_index_cache (st_conf s)) (include_index_order (st_conf s))
  /\ lru_ok ConfHandler._include_resolve_max
       (include_resolve_cache (st_conf s)) (include_resolve_order (st_conf s))
  /\ lru_ok BBHandler._class_index_max
       (class_index_cache (st_bb s)) (class_index_order (st_bb s))
  /\ lru_ok BBHandler._inherit_resolved_max
       (inherit_resolved_cache (st_bb s)) (inherit_resolved_order (st_bb s)).

(** Every run of [c] started where [I] holds ends where [I] holds,
    whether it returns or raises. *)
Definition preserves {A} (I : State -> Prop) (c : M A) : Prop :=
  forall s, I s -> I (snd (c s)).

End Props.

(** * Properties *)

Local Open Scope py_scope.
Local Open Scope list_scope.

(** ** The monad *)

Lemma bind_ret_run {A B} (c : M A) (k : A -> M B) (s s' : State) (a : A) :
  c s = (Ret a, s') -> bind c k s = k a s'.
Proof. intros H. unfold bind. rewrite H. reflexivity. Qed.

Lemma bind_raise_run {A B} (c : M A) (k : A -> M B) (s s' : State) (e : Exn) :
  c s = (Raise e, s') -> bind c k s = (Raise e, s').
Proof. intros H. unfold bind. rewrite H. reflexivity. Qed.

Lemma for_each_total {A} (body : A -> M unit) (step : A -> State -> State) (l : list A) :
  (forall x s, body x s = (Ret tt, step x s)) ->
  forall s, for_each l body s = (Ret tt, fold_left (fun s x => step x s) l s).
Proof.
  intros Hbody. induction l as [|x l IH]; intros s; simpl.
  - reflexivity.
  - rewrite (bind_ret_run _ _ s (step x s) tt) by apply Hbody. apply IH.
Qed.

(** ** Dependency marking *)

Section Marks.
Context (os : OS) (ext : External).

Lemma cached_mtime_noerror_run (f : string) (s : State) :
  Parse.cached_mtime_noerror os f s =
    (Ret (Spec.stamp_at os (mtime_cache (st_parse s)) f),
     upd_parse (Parse.set_mtime_cache (Spec.cache_after os (mtime_cache (st_parse s)) f)) s).
Proof.
  unfold Parse.cached_mtime_noerror, Spec.stamp_at, Spec.cache_after, bind, gets.
  destruct s as [d m c p b cf fl lg]; destruct p as [mc rc ro sc]; simpl.
  destruct (mc !! f) as [t|] eqn:Hc; simpl.
  - reflexivity.
  - destruct (os_stat os f) as [r|]; reflexivity.
Qed.

Lemma with_marked_id (s : State) : Spec.with_marked (Spec.marked s) s = s.
Proof. destruct s as [[] ? ? [] ? ? ? ?]; reflexivity. Qed.

Lemma with_marked_twice cd cd' (s : State) :
  Spec.with_marked cd (Spec.with_marked cd' s) = Spec.with_marked cd s.
Proof. reflexivity. Qed.

Lemma marked_with_marked cd (s : State) : Spec.marked (Spec.with_marked cd s) = cd.
Proof. destruct cd; reflexivity. Qed.

Lemma mark_dependency_run (f : string) (s : State) :
  Parse.mark_dependency os f s = (Ret tt, Spec.mark_all os [f] s).
Proof.
  unfold Parse.mark_dependency, Spec.mark_all, Spec.marks, Spec.mark1, Spec.dep_of.
  unfold bind at 1. unfold gets at 1.
  rewrite (bind_ret_run _ _ _ _ _ (cached_mtime_noerror_run _ _)).
  destruct s as [[] ? ? [] ? ? ? ?]; simpl.
  unfold Parse.depends_or_nil; simpl.
  repeat case_bool_decide; try reflexivity; contradiction.
Qed.

Lemma mark_all_app (fs gs : list string) (s : State) :
  Spec.mark_all os (fs ++ gs) s = Spec.mark_all os gs (Spec.mark_all os fs s).
Proof.
  unfold Spec.mark_all, Spec.marks. rewrite fold_left_app.
  rewrite marked_with_marked. reflexivity.
Qed.

Lemma mark_all_nil (s : State) : Spec.mark_all os [] s = s.
Proof. apply with_marked_id. Qed.

Lemma mark_all_run (fs : list string) (s : State) :
  for_each fs (Parse.mark_dependency os) s = (Ret tt, Spec.mark_all os fs s).
Proof.
  revert s. induction fs as [|f fs IH]; intros s; simpl.
  - rewrite mark_all_nil. reflexivity.
  - rewrite (bind_ret_run _ _ _ _ _ (mark_dependency_run f s)).
    rewrite IH. rewrite <- mark_all_app. reflexivity.
Qed.

End Marks.

(** ** What marking does to the dependency record *)

Lemma occurrences_app {A} `{EqDecision A} (x : A) (l1 l2 : list A) :
  Spec.occurrences x (l1 ++ l2) = (Spec.occurrences x l1 + Spec.occurrences x l2)%nat.
Proof. unfold Spec.occurrences. rewrite filter_app, length_app. reflexivity. Qed.

Lemma occurrences_notin {A} `{EqDecision A} (x : A) (l : list A) :
  x ∉ l -> Spec.occurrences x l = 0%nat.
Proof.
  unfold Spec.occurrences. induction l as [|y l IH]; intros Hx; [reflexivity|].
  rewrite filter_cons. destruct (decide (y = x)) as [->|Hne].
  - exfalso. apply Hx. left.
  - apply IH. intros Hin. apply Hx. right. exact Hin.
Qed.

Lemma occurrences_nodup {A} `{EqDecision A} (x : A) (l : list A) :
  NoDup l -> x ∈ l -> Spec.occurrences x l = 1%nat.
Proof.
  unfold Spec.occurrences. induction 1 as [|y l Hy Hnd IH]; intros Hx.
  - inversion Hx.
  - rewrite filter_cons. destruct (decide (y = x)) as [->|Hne].
    + simpl. f_equal. apply (occurrences_notin x l Hy).
    + apply IH. inversion Hx; subst; [congruence|assumption].
Qed.

Section MarkProps.
Context (os : OS).

Lemma stamp_at_cache_after (c : gmap string MtimeTriple) (p q : string) :
  Spec.stamp_at os (Spec.cache_after os c p) q = Spec.stamp_at os c q.
Proof.
  unfold Spec.stamp_at, Spec.cache_after.
  destruct (c !! p) as [t|] eqn:Hp; [reflexivity|].
  destruct (os_stat os p) as [r|] eqn:Hs; [|reflexivity].
  destruct (decide (p = q)) as [->|Hne].
  - rewrite lookup_insert_eq, Hp, Hs. reflexivity.
  - rewrite lookup_insert_ne by assumption. reflexivity.
Qed.

Lemma stamp_at_marks (fs : list string) cd (q : string) :
  Spec.stamp_at os (fst (Spec.marks os fs cd)) q = Spec.stamp_at os (fst cd) q.
Proof.
  revert cd. induction fs as [|f fs IH]; intros cd; [reflexivity|].
  simpl. rewrite IH. simpl. apply stamp_at_cache_after.
Qed.

Lemma dep_of_marks (fs : list string) cd (f : string) :
  Spec.dep_of os (fst (Spec.marks os fs cd)) f = Spec.dep_of os (fst cd) f.
Proof. unfold Spec.dep_of. rewrite stamp_at_marks. reflexivity. Qed.

Lemma mark1_deps (f : string) cd :
  Spec.or_nil (snd (Spec.mark1 os f cd)) =
    if bool_decide (Spec.dep_of os (fst cd) f ∈ (Spec.or_nil (snd cd))) then (Spec.or_nil (snd cd))
    else (Spec.or_nil (snd cd)) ++ [Spec.dep_of os (fst cd) f].
Proof.
  unfold Spec.mark1, Spec.or_nil. simpl. case_bool_decide; reflexivity.
Qed.

(** The record only grows at its end, by pairs of marked paths that it
    did not hold, none of them twice. *)
Lemma marks_grow (fs : list string) cd :
  exists added,
    Spec.or_nil (snd (Spec.marks os fs cd)) = (Spec.or_nil (snd cd)) ++ added
    /\ NoDup added
    /\ forall x, x ∈ added ->
         (x ∉ Spec.or_nil (snd cd)) /\ exists f, f ∈ fs /\ x = Spec.dep_of os (fst cd) f.
Proof.
  revert cd. induction fs as [|f fs IH]; intros cd.
  - exists []. simpl. rewrite app_nil_r. split; [reflexivity|].
    split; [constructor|]. intros x Hx. inversion Hx.
  - simpl. destruct (IH (Spec.mark1 os f cd)) as (added & Heq & Hnd & Hnew).
    rewrite Heq, mark1_deps. case_bool_decide as Hin.
    + exists added. split; [reflexivity|]. split; [assumption|].
      intros x Hx. destruct (Hnew x Hx) as (Hnot & g & Hg & ->).
      rewrite mark1_deps in Hnot. rewrite bool_decide_eq_true_2 in Hnot by assumption.
      split; [assumption|]. exists g. split; [right; assumption|].
      unfold Spec.dep_of. simpl. rewrite stamp_at_cache_after. reflexivity.
    + exists (Spec.dep_of os (fst cd) f :: added).
      rewrite <- app_assoc. split; [reflexivity|].
      assert (Hfresh : forall x, x ∈ added ->
                (x ∉ (Spec.or_nil (snd cd)) ++ [Spec.dep_of os (fst cd) f])
                /\ exists g, g ∈ fs /\ x = Spec.dep_of os (fst cd) g).
      { intros x Hx. destruct (Hnew x Hx) as (Hnot & g & Hg & ->).
        rewrite mark1_deps in Hnot. rewrite bool_decide_eq_false_2 in Hnot by assumption.
        split; [assumption|]. exists g. split; [assumption|].
        unfold Spec.dep_of. simpl. rewrite stamp_at_cache_after. reflexivity. }
      split.
      * constructor; [|assumption].
        intros Hx. destruct (Hfresh _ Hx) as [Hnot _]. apply Hnot.
        apply elem_of_app. right. left.
      * intros x Hx. inversion Hx; subst.
        -- split; [assumption|]. exists f. split; [left|reflexivity].
        -- destruct (Hfresh x) as (Hnot & g & Hg & ->); [assumption|].
           split.
           ++ intros Hd. apply Hnot. apply elem_of_app. left. assumption.
           ++ exists g. split; [right; assumption|reflexivity].
Qed.

Lemma marks_mono (fs : list string) cd (x : Dep) :
  x ∈ (Spec.or_nil (snd cd)) -> x ∈ Spec.or_nil (snd (Spec.marks os fs cd)).
Proof.
  intros Hx. destruct (marks_grow fs cd) as (added & -> & _).
  apply elem_of_app. left. assumption.
Qed.

(** Every marked path is in the record afterwards. *)
Lemma marks_recorded (fs : list string) cd (f : string) :
  f ∈ fs -> Spec.dep_of os (fst cd) f ∈ Spec.or_nil (snd (Spec.marks os fs cd)).
Proof.
  revert cd. induction fs as [|g fs IH]; intros cd Hf; [inversion Hf|].
  simpl. inversion Hf; subst.
  - apply marks_mono. rewrite mark1_deps. case_bool_decide; [assumption|].
    apply elem_of_app. right. left.
  - specialize (IH (Spec.mark1 os g cd) H1).
    unfold Spec.dep_of in *. simpl in IH. rewrite stamp_at_cache_after in IH. exact IH.
Qed.

(** Marking paths whose pairs are all recorded changes nothing in the
    record. *)
Lemma marks_fixed (fs : list string) cd :
  (forall f, f ∈ fs -> Spec.dep_of os (fst cd) f ∈ (Spec.or_nil (snd cd))) ->
  snd (Spec.marks os fs cd) = snd cd.
Proof.
  revert cd. induction fs as [|g fs IH]; intros cd Hall; [reflexivity|].
  simpl. assert (Hg : Spec.dep_of os (fst cd) g ∈ (Spec.or_nil (snd cd))) by (apply Hall; left).
  assert (H1 : snd (Spec.mark1 os g cd) = snd cd).
  { unfold Spec.mark1. simpl. rewrite bool_decide_eq_true_2; [reflexivity|exact Hg]. }
  rewrite IH.
  - exact H1.
  - intros f Hf. rewrite H1. unfold Spec.dep_of. simpl. rewrite stamp_at_cache_after.
    apply Hall. right. assumption.
Qed.

Lemma marks_occurrences (fs : list string) cd (f : string) :
  f ∈ fs ->
  Spec.occurrences (Spec.dep_of os (fst cd) f) (Spec.or_nil (snd (Spec.marks os fs cd))) =
    if bool_decide (Spec.dep_of os (fst cd) f ∈ (Spec.or_nil (snd cd)))
    then Spec.occurrences (Spec.dep_of os (fst cd) f) (Spec.or_nil (snd cd))
    else 1%nat.
Proof.
  intros Hf. pose proof (marks_recorded fs cd f Hf) as Hin.
  destruct (marks_grow fs cd) as (added & Heq & Hnd & Hnew).
  rewrite Heq in *. rewrite occurrences_app. case_bool_decide as Hold.
  - rewrite (occurrences_notin _ added); [lia|].
    intros Hx. destruct (Hnew _ Hx) as [Hnot _]. contradiction.
  - rewrite (occurrences_notin _ (Spec.or_nil (snd cd))) by assumption.
    apply occurrences_nodup; [assumption|].
    apply elem_of_app in Hin. destruct Hin; [contradiction|assumption].
Qed.

End MarkProps.

(** ** [resolve_file] step by step *)

Section ResolveRun.
Context (os : OS) (ext : External).

Lemma getVar_run (name : string) (e : bool) (s : State) :
  Parse.getVar ext name e s =
    (Ret (if e then expand ext (d_vars (st_d s)) <$> (d_vars (st_d s) !! name)
          else d_vars (st_d s) !! name), s).
Proof. reflexivity. Qed.

Lemma resolve_lookup_run (cap : Z) (fn : string) (s : State) :
  Parse.resolve_lookup os cap fn (Spec.bbpath_of ext s) s =
    (Ret (Spec.resolution os ext fn s), Spec.lookup_state os ext cap fn s).
Proof.
  unfold Parse.resolve_lookup, Spec.resolution, Spec.lookup_state, Spec.memo_hit.
  fold (Spec.bbpath_of ext s).
  unfold bind at 1. unfold gets at 1.
  destruct (env_on os "BB_OPT_DISABLE_RESOLVE_CACHE") eqn:Hen; simpl.
  - reflexivity.
  - destruct (resolve_cache (st_parse s) !! (fn, false, Spec.bbpath_of ext s)) as [cached|] eqn:Hc.
    + rewrite bool_decide_eq_true_2 by eauto. rewrite ?Hc. reflexivity.
    + rewrite bool_decide_eq_false_2 by (intros [? ?]; congruence). rewrite ?Hc.
      destruct (cap <? _) eqn:Hcap.
      * destruct (resolve_cache_order (st_parse s)); reflexivity.
      * reflexivity.
Qed.

Lemma resolve_body_run (cap : Z) (fn : string) (s : State) :
  (bind (if negb (Path.isabs fn)
         then
           bind (Parse.getVar ext "BBPATH" true) (fun bbpath =>
           bind (Parse.resolve_lookup os cap fn bbpath) (fun r =>
           bind (for_each (snd r) (Parse.mark_dependency os)) (fun _ =>
           if negb (Str.truthy (fst r))
           then raise (IOError ENOENT (NotFoundIn fn bbpath))
           else ret (fst r))))
         else bind (Parse.mark_dependency os fn) (fun _ => ret fn))
     (fun fn => if negb (isfile os fn)
                then raise (IOError ENOENT (NotFound fn))
                else ret fn)) s
  = (Spec.outcome os ext fn s, Spec.body_state os ext cap fn s).
Proof.
  unfold Spec.outcome, Spec.body_state, Spec.attempts, Spec.candidate.
  destruct (Path.isabs fn) eqn:Habs; simpl.
  - unfold bind at 1.
    rewrite (bind_ret_run _ _ _ _ _ (mark_dependency_run os fn s)).
    unfold ret at 1. destruct (isfile os fn); reflexivity.
  - unfold bind at 1. unfold bind at 1. rewrite getVar_run.
    fold (Spec.bbpath_of ext s).
    rewrite (bind_ret_run _ _ _ _ _ (resolve_lookup_run cap fn s)).
    rewrite (bind_ret_run _ _ _ _ _ (mark_all_run os _ _)).
    destruct (Str.truthy (fst (Spec.resolution os ext fn s))); simpl.
    + unfold ret at 1.
      destruct (isfile os (fst (Spec.resolution os ext fn s))); reflexivity.
    + reflexivity.
Qed.

Lemma resolve_file_run (cap : Z) (fn : string) (s : State) :
  Parse.resolve_file_with os ext cap fn s =
    (Spec.outcome os ext fn s, Spec.resolve_state os ext cap fn s).
Proof.
  unfold Parse.resolve_file_with, Metrics.time_start.
  unfold bind at 1. unfold bind at 1.
  unfold Spec.resolve_state, Spec.end_state, Spec.start_state.
  destruct (Metrics.perf_counter os s) as [r s1] eqn:Hpc.
  unfold Metrics.perf_counter in Hpc. injection Hpc as <- <-.
  unfold ret at 1. unfold try_finally.
  rewrite resolve_body_run. reflexivity.
Qed.

End ResolveRun.

(** ** What [resolve_file] leaves alone *)

Section ResolveFrame.
Context (os : OS) (ext : External).

Lemma marked_lookup_state (cap : Z) (fn : string) (s : State) :
  Spec.marked (Spec.lookup_state os ext cap fn s) = Spec.marked s.
Proof.
  unfold Spec.lookup_state, Spec.marked.
  repeat match goal with |- context [if ?b then _ else _] => destruct b end; reflexivity.
Qed.

Lemma st_d_lookup_state (cap : Z) (fn : string) (s : State) :
  st_d (Spec.lookup_state os ext cap fn s) = st_d s.
Proof.
  unfold Spec.lookup_state.
  repeat match goal with |- context [if ?b then _ else _] => destruct b end; reflexivity.
Qed.

Lemma st_d_mark_all (fs : list string) (s : State) :
  st_d (Spec.mark_all os fs s) =
    Parse.set_depends (snd (Spec.marks os fs (Spec.marked s))) (st_d s).
Proof. reflexivity. Qed.

Lemma marked_mark_all (fs : list string) (s : State) :
  Spec.marked (Spec.mark_all os fs s) = Spec.marks os fs (Spec.marked s).
Proof. unfold Spec.mark_all. apply marked_with_marked. Qed.

Lemma st_d_body_state (cap : Z) (fn : string) (s : State) :
  st_d (Spec.body_state os ext cap fn s) = st_d (Spec.mark_all os (Spec.attempts os ext fn s) s).
Proof.
  unfold Spec.body_state. rewrite !st_d_mark_all.
  destruct (Path.isabs fn); [reflexivity|].
  rewrite marked_lookup_state, st_d_lookup_state. reflexivity.
Qed.

Lemma marked_body_state (cap : Z) (fn : string) (s : State) :
  Spec.marked (Spec.body_state os ext cap fn s) =
    Spec.marks os (Spec.attempts os ext fn s) (Spec.marked s).
Proof.
  unfold Spec.body_state. rewrite marked_mark_all.
  destruct (Path.isabs fn); [reflexivity|].
  rewrite marked_lookup_state. reflexivity.
Qed.

Lemma st_d_resolve_state (cap : Z) (fn : string) (s : State) :
  st_d (Spec.resolve_state os ext cap fn s) =
    st_d (Spec.mark_all os (Spec.attempts os ext fn s) s).
Proof.
  unfold Spec.resolve_state, Spec.end_state.
  change (st_d (snd (Metrics.time_end os "resolve_file" ?t ?x))) with (st_d x).
  rewrite st_d_body_state. reflexivity.
Qed.

Lemma marked_resolve_state (cap : Z) (fn : string) (s : State) :
  Spec.marked (Spec.resolve_state os ext cap fn s) =
    Spec.marks os (Spec.attempts os ext fn s) (Spec.marked s).
Proof.
  unfold Spec.resolve_state, Spec.end_state.
  change (Spec.marked (snd (Metrics.time_end os "resolve_file" ?t ?x))) with (Spec.marked x).
  rewrite marked_body_state. reflexivity.
Qed.

Lemma body_state_upd_clock (cap : Z) (fn : string) (g : Clock -> Clock) (s : State) :
  Spec.body_state os ext cap fn (upd_clock g s) =
    upd_clock g (Spec.body_state os ext cap fn s).
Proof.
  unfold Spec.body_state, Spec.lookup_state, Spec.memo_hit, Spec.bbpath_of.
  simpl.
  repeat match goal with |- context [if ?b then _ else _] => destruct b end; reflexivity.
Qed.

Lemma st_parse_resolve_state (cap : Z) (fn : string) (s : State) :
  st_parse (Spec.resolve_state os ext cap fn s) =
    st_parse (Spec.body_state os ext cap fn s).
Proof.
  unfold Spec.resolve_state, Spec.end_state, Spec.start_state, Metrics.perf_counter.
  simpl snd. rewrite body_state_upd_clock. reflexivity.
Qed.

(** The memo after a call: untouched for an absolute name, as the
    lookup leaves it otherwise. *)
Lemma resolve_cache_resolve_state (cap : Z) (fn : string) (s : State) :
  resolve_cache (st_parse (Spec.resolve_state os ext cap fn s)) =
    resolve_cache (st_parse (if Path.isabs fn then s
                             else Spec.lookup_state os ext cap fn s))
  /\ resolve_cache_order (st_parse (Spec.resolve_state os ext cap fn s)) =
       resolve_cache_order (st_parse (if Path.isabs fn then s
                                      else Spec.lookup_state os ext cap fn s)).
Proof.
  rewrite st_parse_resolve_state. unfold Spec.body_state.
  destruct (Path.isabs fn); split; reflexivity.
Qed.

End ResolveFrame.

(** ** Repeated resolution *)

Section Repeat.
Context (os : OS) (ext : External).

Lemma bbpath_of_resolve_state (cap : Z) (fn : string) (s : State) :
  Spec.bbpath_of ext (Spec.resolve_state os ext cap fn s) = Spec.bbpath_of ext s.
Proof. unfold Spec.bbpath_of. rewrite st_d_resolve_state. reflexivity. Qed.

(** A second lookup of the same name works from the same candidate and
    attempts as the first: the entry the first call found or stored is
    still there, or it was dropped at once and the search is redone on
    the same file system. *)
Lemma resolution_stable (cap : Z) (fn : string) (s : State) :
  Path.isabs fn = false ->
  Spec.resolution os ext fn (Spec.resolve_state os ext cap fn s) =
    Spec.resolution os ext fn s.
Proof.
  intros Habs. unfold Spec.resolution.
  fold (Spec.bbpath_of ext (Spec.resolve_state os ext cap fn s)).
  fold (Spec.bbpath_of ext s).
  rewrite bbpath_of_resolve_state.
  destruct (env_on os "BB_OPT_DISABLE_RESOLVE_CACHE") eqn:Hen; [reflexivity|].
  destruct (resolve_cache_resolve_state os ext cap fn s) as [-> _].
  rewrite Habs. unfold Spec.lookup_state, Spec.memo_hit. rewrite Hen. simpl.
  destruct (resolve_cache (st_parse s) !! (fn, false, Spec.bbpath_of ext s)) as [e|] eqn:Hc.
  - rewrite bool_decide_eq_true_2 by eauto. simpl. rewrite Hc. reflexivity.
  - rewrite bool_decide_eq_false_2 by (intros [? ?]; congruence). simpl.
    destruct (cap <? _); simpl.
    + destruct (decide (default (fn, false, Spec.bbpath_of ext s)
                          (head (resolve_cache_order (st_parse s) ++
                                 [(fn, false, Spec.bbpath_of ext s)]))
                        = (fn, false, Spec.bbpath_of ext s))) as [->|Hne].
      * rewrite lookup_delete_eq. reflexivity.
      * rewrite lookup_delete_ne by assumption. rewrite lookup_insert_eq. reflexivity.
    + rewrite lookup_insert_eq. reflexivity.
Qed.

Lemma attempts_stable (cap : Z) (fn : string) (s : State) :
  Spec.attempts os ext fn (Spec.resolve_state os ext cap fn s) =
    Spec.attempts os ext fn s.
Proof.
  unfold Spec.attempts. destruct (Path.isabs fn) eqn:Habs; [reflexivity|].
  rewrite resolution_stable by assumption. reflexivity.
Qed.

Lemma depends_resolve_state (cap : Z) (fn : string) (s : State) :
  d_depends (st_d (Spec.resolve_state os ext cap fn s)) =
    snd (Spec.marks os (Spec.attempts os ext fn s) (Spec.marked s)).
Proof. rewrite st_d_resolve_state. reflexivity. Qed.

Lemma depends_resolve_twice (cap : Z) (fn : string) (s : State) :
  d_depends (st_d (Spec.resolve_state os ext cap fn (Spec.resolve_state os ext cap fn s))) =
    d_depends (st_d (Spec.resolve_state os ext cap fn s)).
Proof.
  rewrite (depends_resolve_state cap fn (Spec.resolve_state os ext cap fn s)).
  rewrite attempts_stable, marked_resolve_state, depends_resolve_state.
  apply marks_fixed. intros f Hf. rewrite dep_of_marks.
  apply marks_recorded. assumption.
Qed.

Lemma second_lookup_hits (cap : Z) (fn : string) (s : State) :
  0 < cap ->
  Path.isabs fn = false ->
  env_on os "BB_OPT_DISABLE_RESOLVE_CACHE" = false ->
  Spec.memo_consistent s ->
  Spec.memo_hit os ext fn (Spec.resolve_state os ext cap fn s) = true.
Proof.
  intros Hcap Habs Hen Hcons. unfold Spec.memo_hit at 1. rewrite Hen.
  rewrite bbpath_of_resolve_state.
  destruct (resolve_cache_resolve_state os ext cap fn s) as [-> _].
  rewrite Habs. unfold Spec.lookup_state, Spec.memo_hit. rewrite Hen. simpl.
  apply bool_decide_eq_true_2.
  destruct (resolve_cache (st_parse s) !! (fn, false, Spec.bbpath_of ext s)) as [e|] eqn:Hc.
  - rewrite bool_decide_eq_true_2 by eauto. simpl. rewrite Hc. eauto.
  - rewrite bool_decide_eq_false_2 by (intros [? ?]; congruence). simpl.
    destruct (cap <? _) eqn:Hlt; simpl.
    + destruct (resolve_cache_order (st_parse s)) as [|k0 o] eqn:Ho.
      * simpl in Hlt. apply Z.ltb_lt in Hlt. lia.
      * simpl. rewrite lookup_delete_ne.
        -- rewrite lookup_insert_eq. eauto.
        -- intros ->. destruct (Hcons (fn, false, Spec.bbpath_of ext s)) as [? Hk].
           ++ rewrite Ho. left.
           ++ congruence.
    + rewrite lookup_insert_eq. eauto.
Qed.

End Repeat.

(** ** The search *)

Section Which.
Context (os : OS).

Lemma normpath_truthy (p : string) : Str.truthy (Path.normpath p) = true.
Proof.
  unfold Path.normpath. destruct (Str.truthy p); simpl; [|reflexivity].
  match goal with |- context [if Str.truthy ?r then _ else _] =>
    destruct (Str.truthy r) eqn:Hr end; [assumption|reflexivity].
Qed.

Lemma isabs_truthy (p : string) : Path.isabs p = true -> Str.truthy p = true.
Proof. destruct p; [discriminate|reflexivity]. Qed.

Lemma dot_slash_relative (fn : string) :
  Str.startswith "./" fn = true -> Path.isabs fn = false.
Proof.
  destruct fn as [|c fn]; [discriminate|]. unfold Path.isabs.
  cbn [Str.startswith]. destruct (Ascii.eqb "." c) eqn:E; [|discriminate].
  apply Ascii.eqb_eq in E. subst c. reflexivity.
Qed.

(** The attempts are the candidates of a leading part of the search
    path, in order. *)
Lemma which_go_attempts (dirs : list string) (item : string) (hist : list string) :
  exists k, snd (Parse.which_go os dirs item hist) =
              hist ++ map (fun d => Path.join d item) (take k dirs).
Proof.
  revert hist. induction dirs as [|p dirs IH]; intros hist; simpl.
  - exists 0%nat. rewrite app_nil_r. reflexivity.
  - destruct (exists_ os (Path.join p item)).
    + exists 1%nat. reflexivity.
    + destruct (IH (hist ++ [Path.join p item])) as [k Hk].
      exists (S k). rewrite Hk, <- app_assoc. reflexivity.
Qed.

(** Nothing is found exactly when none of the attempted paths exists. *)
Lemma which_go_nothing (dirs : list string) (item : string) (hist : list string) :
  (forall p, p ∈ hist -> exists_ os p = false) ->
  Str.truthy (fst (Parse.which_go os dirs item hist)) = false <->
  forall p, p ∈ snd (Parse.which_go os dirs item hist) -> exists_ os p = false.
Proof.
  revert hist. induction dirs as [|d dirs IH]; intros hist Hhist; simpl.
  - split; [intros _; exact Hhist|reflexivity].
  - destruct (exists_ os (Path.join d item)) eqn:Hex; simpl.
    + split.
      * intros Hf. exfalso.
        destruct (Path.isabs (Path.join d item)) eqn:Habs.
        -- rewrite (isabs_truthy _ Habs) in Hf. discriminate.
        -- unfold Path.abspath in Hf. rewrite normpath_truthy in Hf. discriminate.
      * intros Hall. specialize (Hall (Path.join d item)).
        rewrite Hex in Hall. exfalso.
        assert (true = false); [|discriminate].
        apply Hall. apply elem_of_app. right. left.
    + apply IH. intros p Hp. apply elem_of_app in Hp. destruct Hp as [Hp|Hp].
      * apply Hhist. assumption.
      * apply list_elem_of_singleton in Hp. subst. assumption.
Qed.

(** What is found exists, and it is the last attempt made absolute. *)
Lemma which_go_found (dirs : list string) (item : string) (hist : list string) :
  Str.truthy (fst (Parse.which_go os dirs item hist)) = true ->
  exists p, last (snd (Parse.which_go os dirs item hist)) = Some p
            /\ exists_ os p = true
            /\ fst (Parse.which_go os dirs item hist) =
                 (if Path.isabs p then p else Path.abspath (getcwd os) p).
Proof.
  revert hist. induction dirs as [|d dirs IH]; intros hist; simpl.
  - discriminate.
  - destruct (exists_ os (Path.join d item)) eqn:Hex; simpl.
    + intros _. exists (Path.join d item). rewrite last_snoc. auto.
    + apply IH.
Qed.

End Which.

(** ** Claims about the resolver and the mtime cache *)

(** C9, as stated, fails: with an entry in the mtime cache, [cached_mtime]
    gives the entry back and leaves it in place, although a fresh stat
    of the file would give another triple. *)
Lemma cached_mtime_stale_counterexample :
  let s := upd_parse (Parse.set_mtime_cache {[ "/b/foo.conf" := (1, 1, 1) ]})
             (Init.state (Init.datastore [])) in
  let r := Parse.cached_mtime Sample.os "/b/foo.conf" s in
  triple_of <$> os_stat Sample.os "/b/foo.conf" = Some (1006, 8, 6)
  /\ fst r = Ret (1, 1, 1)
  /\ mtime_cache (st_parse (snd r)) !! "/b/foo.conf" = Some (1, 1, 1).
Proof. vm_compute. repeat split; reflexivity. Qed.

(** C9, amended: [cached_mtime] stats a path and stores the triple only
    when the mtime cache has no entry for it; with an entry it returns
    the entry and changes nothing, whatever the file system holds. *)
Theorem cached_mtime_stats_when_absent (os : OS) (f : string) (s : State) :
  (forall t, mtime_cache (st_parse s) !! f = Some t ->
             Parse.cached_mtime os f s = (Ret t, s))
  /\ (forall r, mtime_cache (st_parse s) !! f = None ->
                os_stat os f = Some r ->
                Parse.cached_mtime os f s =
                  (Ret (triple_of r),
                   upd_parse (Parse.set_mtime_cache
                                (<[f := triple_of r]> (mtime_cache (st_parse s)))) s))
  /\ (mtime_cache (st_parse s) !! f = None ->
      os_stat os f = None ->
      Parse.cached_mtime os f s = (Raise (IOError (os_errno os f) (StatFailed f)), s)).
Proof.
  unfold Parse.cached_mtime, Parse.stat_or_raise, Parse.store_mtime, bind, gets, modify, ret, raise.
  repeat split.
  - intros t Ht. rewrite Ht. reflexivity.
  - intros r Hc Hs. rewrite Hc, Hs. reflexivity.
  - intros Hc Hs. rewrite Hc, Hs. reflexivity.
Qed.

Lemma cached_mtime_stats_when_absent_witness :
  let s := upd_parse (Parse.set_mtime_cache {[ "/b/foo.conf" := (1, 1, 1) ]})
             (Init.state (Init.datastore [])) in
  Parse.cached_mtime Sample.os "/b/foo.conf" s = (Ret (1, 1, 1), s)
  /\ fst (Parse.cached_mtime Sample.os "/b/foo.conf" (Init.state (Init.datastore [])))
     = Ret (1006, 8, 6).
Proof.
  split.
  - apply (proj1 (cached_mtime_stats_when_absent Sample.os "/b/foo.conf" _)).
    vm_compute. reflexivity.
  - rewrite (proj1 (proj2 (cached_mtime_stats_when_absent Sample.os "/b/foo.conf" _))
               (Sample.reg 6 8)); [reflexivity| vm_compute; reflexivity | vm_compute; reflexivity].
Defined.

(** C1, as stated, fails: for ["./foo.conf"] the search path is walked,
    two dependencies are marked, neither is the rewritten path
    ["/r/foo.conf"], and a path is returned although the rewritten path
    does not exist. *)
Lemma resolve_file_dot_slash_counterexample :
  let s := Init.state (Init.datastore [("BBPATH", "/a:/b:/c")]) in
  let r := Parse.resolve_file Sample.os Sample.ext "./foo.conf" s in
  Parse.dep_path Sample.os "./foo.conf" = "/r/foo.conf"
  /\ exists_ Sample.os "/r/foo.conf" = false
  /\ fst r = Ret "/b/./foo.conf"
  /\ d_depends (st_d (snd r)) =
       Some [("/a/./foo.conf", Stamp0); ("/b/./foo.conf", StampOf (1006, 8, 6))].
Proof. vm_compute. repeat split; reflexivity. Qed.

(** C1, amended: a name that starts with ["./"] is a relative name like
    any other.  [resolve_file] resolves it through the memo or by walking
    the search path, candidate by candidate; it marks every attempted
    path in order and nothing else; and it returns the first existing
    candidate if that is a regular file, failing otherwise. *)
Theorem resolve_file_dot_slash (os : OS) (ext : External) (fn : string) (s : State) :
  Str.startswith "./" fn = true ->
  let r := Parse.resolve_file os ext fn s in
  Path.isabs fn = false
  /\ fst r = Spec.outcome os ext fn s
  /\ st_d (snd r) = st_d (Spec.mark_all os (snd (Spec.resolution os ext fn s)) s)
  /\ (Spec.memo_hit os ext fn s = false ->
      exists k, snd (Spec.resolution os ext fn s) =
                  map (fun d => Path.join d fn)
                    (take k (Str.split ":" (default "" (Spec.bbpath_of ext s))))).
Proof.
  intros Hdot r. pose proof (dot_slash_relative fn Hdot) as Habs.
  subst r. unfold Parse.resolve_file. rewrite resolve_file_run. simpl fst. simpl snd.
  split; [assumption|]. split; [reflexivity|]. split.
  - rewrite st_d_resolve_state. unfold Spec.attempts. rewrite Habs. reflexivity.
  - intros Hmiss. unfold Spec.resolution. fold (Spec.bbpath_of ext s).
    unfold Spec.memo_hit in Hmiss.
    destruct (env_on os "BB_OPT_DISABLE_RESOLVE_CACHE"); simpl in Hmiss.
    + apply (which_go_attempts os _ fn []).
    + apply bool_decide_eq_false in Hmiss.
      destruct (resolve_cache (st_parse s) !! (fn, false, Spec.bbpath_of ext s)) eqn:Hc.
      * exfalso. apply Hmiss. eauto.
      * apply (which_go_attempts os _ fn []).
Qed.

Lemma resolve_file_dot_slash_witness :
  let s := Init.state (Init.datastore [("BBPATH", "/a:/b:/c")]) in
  fst (Parse.resolve_file Sample.os Sample.ext "./foo.conf" s) =
    Spec.outcome Sample.os Sample.ext "./foo.conf" s.
Proof.
  intros s.
  exact (proj1 (proj2 (resolve_file_dot_slash Sample.os Sample.ext "./foo.conf" s eq_refl))).
Defined.

(** C2: calling [resolve_file] twice with the same name on the same
    datastore and file system leaves [__depends] after the second call as
    it was after the first; the second call works from the same attempts
    (served by the memo when the memo is in use); and the pair of every
    attempted path occurs exactly once in the record, unless the record
    held that pair before the first call, in which case nothing was
    appended for it. *)
Theorem resolve_file_marks_once (os : OS) (ext : External) (fn : string) (s : State) :
  let s1 := snd (Parse.resolve_file os ext fn s) in
  let s2 := snd (Parse.resolve_file os ext fn s1) in
  d_depends (st_d s2) = d_depends (st_d s1)
  /\ Spec.attempts os ext fn s1 = Spec.attempts os ext fn s
  /\ (forall f, f ∈ Spec.attempts os ext fn s ->
        let x := Spec.dep_of os (mtime_cache (st_parse s)) f in
        Spec.occurrences x (Spec.or_nil (d_depends (st_d s2))) =
          if bool_decide (x ∈ Spec.or_nil (d_depends (st_d s)))
          then Spec.occurrences x (Spec.or_nil (d_depends (st_d s)))
          else 1%nat)
  /\ (Path.isabs fn = false ->
      env_on os "BB_OPT_DISABLE_RESOLVE_CACHE" = false ->
      Spec.memo_consistent s ->
      Spec.memo_hit os ext fn s1 = true).
Proof.
  intros s1 s2. subst s1 s2. unfold Parse.resolve_file.
  rewrite !resolve_file_run. simpl snd.
  split; [apply depends_resolve_twice|].
  split; [apply attempts_stable|].
  split.
  - intros f Hf. cbv zeta.
    rewrite depends_resolve_twice, depends_resolve_state.
    apply (marks_occurrences os _ (Spec.marked s) f Hf).
  - intros Habs Hen Hcons. apply second_lookup_hits; try assumption. reflexivity.
Qed.

Lemma resolve_file_marks_once_witness :
  let s := Init.state (Init.datastore [("BBPATH", "/a:/b:/c")]) in
  let s1 := snd (Parse.resolve_file Sample.os Sample.ext "foo.conf" s) in
  let s2 := snd (Parse.resolve_file Sample.os Sample.ext "foo.conf" s1) in
  d_depends (st_d s2) = d_depends (st_d s1)
  /\ Spec.occurrences ("/a/foo.conf", Stamp0) (Spec.or_nil (d_depends (st_d s2))) = 1%nat
  /\ Spec.memo_hit Sample.os Sample.ext "foo.conf" s1 = true.
Proof.
  intros s s1 s2.
  destruct (resolve_file_marks_once Sample.os Sample.ext "foo.conf" s) as (H1 & _ & H3 & H4).
  split; [exact H1|]. split.
  - apply (H3 "/a/foo.conf"). vm_compute. left.
  - apply H4; [reflexivity|reflexivity|]. intros k Hk. inversion Hk.
Defined.

(** C7, as stated, fails: the failure for a candidate that exists but is
    not a regular file and the failure for no candidate at all are the
    same kind of exception, an [OSError] with [errno] ENOENT. *)
Lemma resolve_file_one_failure_kind_counterexample :
  let missing := Parse.resolve_file Sample.os Sample.ext "nothere.conf"
                   (Init.state (Init.datastore [("BBPATH", "/a:/b:/c")])) in
  let directory := Parse.resolve_file Sample.os Sample.ext "classes"
                     (Init.state (Init.datastore [("BBPATH", "/L")])) in
  fst missing = Raise (IOError ENOENT (NotFoundIn "nothere.conf" (Some "/a:/b:/c")))
  /\ exists_ Sample.os "/L/classes" = true
  /\ isfile Sample.os "/L/classes" = false
  /\ fst directory = Raise (IOError ENOENT (NotFound "/L/classes"))
  /\ Spec.exn_kind (IOError ENOENT (NotFound "/L/classes")) =
       Spec.exn_kind (IOError ENOENT (NotFoundIn "nothere.conf" (Some "/a:/b:/c"))).
Proof. vm_compute. repeat split; reflexivity. Qed.

(** C7, amended: [resolve_file] has one failure kind, an [OSError] with
    [errno] ENOENT.  It fails so when there is no candidate (which, when
    the search is run, is exactly when none of the attempted paths
    exists) and when the candidate is not a regular file; the two
    failures differ in their message only.  In every case the attempted
    paths are marked, and in all other cases the candidate is returned. *)
Theorem resolve_file_failures (os : OS) (ext : External) (fn : string) (s : State) :
  let r := Parse.resolve_file os ext fn s in
  let c := Spec.candidate os ext fn s in
  fst r = (if negb (Path.isabs fn) && negb (Str.truthy c)
           then Raise (IOError ENOENT (NotFoundIn fn (Spec.bbpath_of ext s)))
           else if isfile os c then Ret c
           else Raise (IOError ENOENT (NotFound c)))
  /\ (forall e, fst r = Raise e -> Spec.exn_kind e = ("OSError", Some ENOENT))
  /\ (forall f, f ∈ Spec.attempts os ext fn s ->
        Spec.dep_of os (mtime_cache (st_parse s)) f ∈ Spec.or_nil (d_depends (st_d (snd r))))
  /\ (Path.isabs fn = false ->
      Spec.memo_hit os ext fn s = false ->
      (Str.truthy c = false <->
       forall p, p ∈ Spec.attempts os ext fn s -> exists_ os p = false)).
Proof.
  intros r c. subst r c. unfold Parse.resolve_file. rewrite resolve_file_run.
  simpl fst. simpl snd. split; [reflexivity|]. split; [|split].
  - unfold Spec.outcome. intros e.
    destruct (negb (Path.isabs fn) && negb (Str.truthy (Spec.candidate os ext fn s))).
    + intros [= <-]. reflexivity.
    + destruct (isfile os (Spec.candidate os ext fn s)); [discriminate|].
      intros [= <-]. reflexivity.
  - intros f Hf. rewrite depends_resolve_state.
    apply (marks_recorded os _ (Spec.marked s) f Hf).
  - intros Habs Hmiss. unfold Spec.candidate, Spec.attempts. rewrite Habs.
    assert (Hres : Spec.resolution os ext fn s = Parse.which os (Spec.bbpath_of ext s) fn).
    { unfold Spec.resolution. fold (Spec.bbpath_of ext s). unfold Spec.memo_hit in Hmiss.
      destruct (env_on os "BB_OPT_DISABLE_RESOLVE_CACHE"); [reflexivity|].
      simpl in Hmiss. apply bool_decide_eq_false in Hmiss.
      destruct (resolve_cache (st_parse s) !! (fn, false, Spec.bbpath_of ext s)) eqn:Hc;
        [|reflexivity].
      exfalso. apply Hmiss. eauto. }
    rewrite Hres. apply which_go_nothing. intros p Hp. inversion Hp.
Qed.

Lemma resolve_file_failures_witness :
  let s := Init.state (Init.datastore [("BBPATH", "/a:/b:/c")]) in
  Str.truthy (Spec.candidate Sample.os Sample.ext "nothere.conf" s) = false
  /\ Spec.dep_of Sample.os ∅ "/c/nothere.conf"
       ∈ Spec.or_nil (d_depends (st_d (snd (Parse.resolve_file Sample.os Sample.ext
                                              "nothere.conf" s)))).
Proof.
  intros s.
  destruct (resolve_file_failures Sample.os Sample.ext "nothere.conf" s) as (_ & _ & H3 & H4).
  split.
  - apply H4; [reflexivity|reflexivity|].
    intros p Hp. vm_compute in Hp.
    repeat (apply elem_of_cons in Hp; destruct Hp as [->|Hp]; [reflexivity|]).
    inversion Hp.
  - apply (H3 "/c/nothere.conf"). vm_compute. right. right. left.
Defined.

(** ** Claims about the line feeders and the inclusion engine *)

(** C8: [include_single_file(f, f, ...)] returns at once.  The state it
    leaves is the state it was given: no dependency is marked, no file is
    opened, the dispatcher [handle] is not called, and the datastore is
    as before. *)
Theorem include_single_file_self (os : OS) (ext : External)
  (handle : string -> bool -> M Handled) (f : string) (lineno : Z)
  (error_out : option string) (s : State) :
  ConfHandler.include_single_file os ext handle f f lineno error_out s = (Ret tt, s).
Proof.
  unfold ConfHandler.include_single_file.
  rewrite bool_decide_eq_true_2 by reflexivity. reflexivity.
Qed.

(** C3, as stated, fails: the line [addtask do_x_append] is accepted and
    gives an [AddTask] node, with the keyword table of the spec and with
    the table of colon-prefixed operators alike. *)
Lemma addtask_do_x_append_counterexample :
  let s := Init.state (Init.datastore []) in
  let node := {| n_file := "x.bb"; n_line := 7; n_payload := AddTask "do_x_append" "" "" |} in
  fst (BBHandler.feeder (Spec.with_keywords Sample.ext Spec.spec_setvar_keyword)
         7 "addtask do_x_append" "x.bb" "x.bb" [] false s) = Ret [node]
  /\ fst (BBHandler.feeder (Spec.with_keywords Sample.ext [":append"; ":prepend"; ":remove"])
            7 "addtask do_x_append" "x.bb" "x.bb" [] false s) = Ret [node].
Proof. vm_compute. split; reflexivity. Qed.

Ltac feeder_cbn :=
  cbn -[Re.run Str.words Str.first Str.last Str.truthy filter BBHandler.has_keyword
        BBHandler.__func_start_regexp__ BBHandler.__def_regexp__
        BBHandler.__export_func_regexp__ BBHandler.__addtask_regexp__
        BBHandler.__deltask_regexp__ BBHandler.__addhandler_regexp__
        BBHandler.__inherit_regexp__ BBHandler.__inherit_def_regexp__
        String.append];
  change (String.append "" ?x) with x.

(** C3, amended: an [addtask] line raises [ParseError] exactly when one
    of its blank-separated tokens contains a keyword of the table
    immediately followed by an underscore; otherwise the feeder emits the
    [AddTask] node.  (In [do_x_append] the keyword ends the name, no
    underscore follows it.) *)
Theorem addtask_keyword_check (ext : External) (lineno : Z) (s fn root : string)
  (statements : StatementGroup) (st : State) :
  infunc (st_bb st) = None ->
  inpython (st_bb st) = None ->
  residue (st_bb st) = [] ->
  Spec.addtask_line s = true ->
  let r := fst (BBHandler.feeder ext lineno s fn root statements false st) in
  ((exists te, te ∈ Str.words s /\ BBHandler.has_keyword ext te = true) ->
   exists te, te ∈ Str.words s /\ BBHandler.has_keyword ext te = true
              /\ r = Raise (ParseError (TaskKeyword te (__setvar_keyword__ ext)) fn 0))
  /\ ((forall te, te ∈ Str.words s -> BBHandler.has_keyword ext te = false) ->
      r = Ret (statements ++ [Spec.addtask_node fn lineno s])).
Proof.
  intros Hinf Hinp Hres Hline r.
  unfold Spec.addtask_line in Hline.
  rewrite !andb_true_iff in Hline.
  destruct Hline as ((((((Hbs & Htr) & Hhash) & Hfs) & Hdef) & Hexp) & Hadd).
  repeat match goal with
         | H : negb _ = true |- _ => apply negb_true_iff in H
         | H : bool_decide _ = true |- _ => apply bool_decide_eq_true in H
         | H : bool_decide _ = false |- _ => apply bool_decide_eq_false in H
         end.
  assert (Hr : r = match filter (fun te => BBHandler.has_keyword ext te = true) (Str.words s) with
                   | te :: _ => Raise (ParseError (TaskKeyword te (__setvar_keyword__ ext)) fn 0)
                   | [] => Ret (statements ++ [Spec.addtask_node fn lineno s])
                   end).
  { subst r. unfold BBHandler.feeder, Spec.addtask_node.
    destruct st as [d m c p b cf fl lg].
    destruct b as [inf inp bd cn rs cs irc iro cic cio]. simpl in Hinf, Hinp, Hres. subst.
    unfold bind, gets, when, ret, modify, raise, BBHandler.residue_starts_with_hash.
    feeder_cbn.
    rewrite !(bool_decide_eq_false_2 (Str.first s = Some "#"%char)) by assumption.
    feeder_cbn.
    rewrite (bool_decide_eq_false_2 (Str.last s = Some ConfHandler.BACKSLASH)) by assumption.
    feeder_cbn.
    rewrite Htr.
    feeder_cbn.
    rewrite Hfs, Hdef, Hexp.
    destruct Hadd as [m' Hm]. rewrite Hm.
    feeder_cbn.
    destruct (filter _ (Str.words s)); reflexivity. }
  rewrite Hr. split.
  - intros (te & Hin & Hkw).
    destruct (filter (fun te => BBHandler.has_keyword ext te = true) (Str.words s))
      as [|te0 l] eqn:Hf.
    + exfalso. assert (Hte : te ∈ filter (fun te => BBHandler.has_keyword ext te = true) (Str.words s))
        by (apply list_elem_of_filter; auto).
      rewrite Hf in Hte. inversion Hte.
    + assert (Hte0 : te0 ∈ filter (fun te => BBHandler.has_keyword ext te = true) (Str.words s))
        by (rewrite Hf; left).
      apply list_elem_of_filter in Hte0. destruct Hte0. exists te0. auto.
  - intros Hnone.
    destruct (filter (fun te => BBHandler.has_keyword ext te = true) (Str.words s))
      as [|te0 l] eqn:Hf; [reflexivity|].
    exfalso. assert (Hte0 : te0 ∈ filter (fun te => BBHandler.has_keyword ext te = true) (Str.words s))
      by (rewrite Hf; left).
    apply list_elem_of_filter in Hte0. destruct Hte0 as [Hk Hin].
    rewrite (Hnone _ Hin) in Hk. discriminate.
Qed.

Lemma addtask_keyword_check_witness :
  exists te,
    fst (BBHandler.feeder Sample.ext 7 "addtask do_x:append_y" "x.bb" "x.bb" [] false
           (Init.state (Init.datastore []))) =
      Raise (ParseError (TaskKeyword te (__setvar_keyword__ Sample.ext)) "x.bb" 0).
Proof.
  destruct (addtask_keyword_check Sample.ext 7 "addtask do_x:append_y" "x.bb" "x.bb" []
              (Init.state (Init.datastore [])) eq_refl eq_refl eq_refl eq_refl) as [H _].
  destruct H as (te & _ & _ & Hr).
  - exists "do_x:append_y". split; [vm_compute; right; left|reflexivity].
  - exists te. exact Hr.
Defined.

(** ** The resolver memo as an LRU *)

Section Lru.
Context (os : OS) (ext : External).

Lemma counter_bump_same (sec f : string) (n : Z) (s : State) :
  Spec.counter sec f (upd_metrics (Metrics.bump_totals sec f n) s) =
    (fun v => v + n) <$> Spec.counter sec f s.
Proof.
  unfold Spec.counter, Metrics.bump_totals. simpl.
  destruct (m_totals (st_metrics s) !! sec) as [ent|] eqn:Hs; simpl.
  - destruct (ent !! f) as [v|] eqn:Hf; simpl.
    + rewrite lookup_insert_eq. simpl. rewrite lookup_insert_eq. reflexivity.
    + rewrite Hs. simpl. rewrite Hf. reflexivity.
  - rewrite Hs. reflexivity.
Qed.

Lemma counter_bump_other (sec f f' : string) (n : Z) (s : State) :
  f <> f' ->
  Spec.counter sec f (upd_metrics (Metrics.bump_totals sec f' n) s) = Spec.counter sec f s.
Proof.
  intros Hne. unfold Spec.counter, Metrics.bump_totals. simpl.
  destruct (m_totals (st_metrics s) !! sec) as [ent|] eqn:Hs; simpl.
  - destruct (ent !! f') as [v|] eqn:Hf; simpl.
    + rewrite lookup_insert_eq. simpl. rewrite lookup_insert_ne by congruence. reflexivity.
    + rewrite Hs. reflexivity.
  - rewrite Hs. reflexivity.
Qed.

Lemma totals_resolve_state (cap : Z) (fn : string) (s : State) :
  m_totals (st_metrics (Spec.resolve_state os ext cap fn s)) =
    m_totals (st_metrics (if Path.isabs fn then s else Spec.lookup_state os ext cap fn s)).
Proof.
  unfold Spec.resolve_state, Spec.end_state, Spec.start_state, Metrics.perf_counter.
  simpl snd. rewrite body_state_upd_clock. unfold Spec.body_state.
  destruct (Path.isabs fn); reflexivity.
Qed.

Lemma counter_resolve_state (cap : Z) (fn : string) (sec f : string) (s : State) :
  Spec.counter sec f (Spec.resolve_state os ext cap fn s) =
    Spec.counter sec f (if Path.isabs fn then s else Spec.lookup_state os ext cap fn s).
Proof. unfold Spec.counter. rewrite totals_resolve_state. reflexivity. Qed.

(** One lookup of a name that the memo does not hold. *)
Lemma lookup_miss (cap : Z) (fn : string) (s : State) :
  env_on os "BB_OPT_DISABLE_RESOLVE_CACHE" = false ->
  resolve_cache (st_parse s) !! Spec.key_of ext fn s = None ->
  let key := Spec.key_of ext fn s in
  let c := <[key := Parse.which os (Spec.bbpath_of ext s) fn]> (resolve_cache (st_parse s)) in
  let o := resolve_cache_order (st_parse s) ++ [key] in
  let s' := Spec.lookup_state os ext cap fn s in
  (if cap <? Z.of_nat (length o)
   then resolve_cache (st_parse s') = delete (default key (head o)) c
        /\ resolve_cache_order (st_parse s') = tail o
        /\ Spec.counter "resolve_file" "evictions" s' =
             (fun v => v + 1) <$> Spec.counter "resolve_file" "evictions" s
   else resolve_cache (st_parse s') = c
        /\ resolve_cache_order (st_parse s') = o
        /\ Spec.counter "resolve_file" "evictions" s' =
             Spec.counter "resolve_file" "evictions" s).
Proof.
  intros Hen Hc key c o s'. subst s'. unfold Spec.lookup_state, Spec.memo_hit.
  rewrite Hen. unfold Spec.key_of in *. simpl negb. rewrite andb_true_l.
  rewrite bool_decide_eq_false_2 by (rewrite Hc; intros [? ?]; congruence).
  fold key. fold c. fold o.
  destruct (cap <? Z.of_nat (length o)).
  - split; [reflexivity|]. split; [reflexivity|].
    rewrite counter_bump_other by discriminate.
    rewrite counter_bump_same. reflexivity.
  - split; [reflexivity|]. split; [reflexivity|].
    rewrite counter_bump_other by discriminate. reflexivity.
Qed.

(** One lookup of a name that the memo holds. *)
Lemma lookup_hit (cap : Z) (fn : string) (s : State) :
  Spec.memo_hit os ext fn s = true ->
  let key := Spec.key_of ext fn s in
  let s' := Spec.lookup_state os ext cap fn s in
  resolve_cache (st_parse s') = resolve_cache (st_parse s)
  /\ resolve_cache_order (st_parse s') =
       Parse.remove_first key (resolve_cache_order (st_parse s)) ++ [key]
  /\ Spec.counter "resolve_file" "evictions" s' = Spec.counter "resolve_file" "evictions" s.
Proof.
  intros Hhit key s'. subst s'. unfold Spec.lookup_state. rewrite Hhit.
  split; [reflexivity|]. split; [reflexivity|].
  rewrite counter_bump_other by discriminate. reflexivity.
Qed.

End Lru.

Section LruSteps.
Context (os : OS) (ext : External).

Lemma remove_first_notin {A} `{EqDecision A} (x : A) (l : list A) :
  NoDup l -> x ∉ Parse.remove_first x l.
Proof.
  induction 1 as [|y l Hy Hnd IH]; simpl.
  - intros Hx. inversion Hx.
  - destruct (decide (x = y)) as [->|Hne]; [assumption|].
    intros Hx. inversion Hx; subst; [congruence|contradiction].
Qed.

Lemma remove_first_subset {A} `{EqDecision A} (x y : A) (l : list A) :
  y ∈ Parse.remove_first x l -> y ∈ l.
Proof.
  induction l as [|z l IH]; simpl; [auto|].
  destruct (decide (x = z)) as [->|Hne].
  - intros Hy. right. assumption.
  - intros Hy. inversion Hy; subst; [left|right; auto].
Qed.

Lemma remove_first_nodup {A} `{EqDecision A} (x : A) (l : list A) :
  NoDup l -> NoDup (Parse.remove_first x l).
Proof.
  induction 1 as [|y l Hy Hnd IH]; simpl; [constructor|].
  destruct (decide (x = y)); [assumption|].
  constructor; [|assumption]. intros Hin. apply Hy. eapply remove_first_subset. eassumption.
Qed.

(** A new key while there is room: it is appended, nothing is evicted. *)
Lemma resolve_new_key_room (cap : Z) (fn : string) (ks : list RKey) (s : State) :
  env_on os "BB_OPT_DISABLE_RESOLVE_CACHE" = false ->
  Path.isabs fn = false ->
  Spec.memo_is ks s ->
  Spec.key_of ext fn s ∉ ks ->
  Z.of_nat (length ks) < cap ->
  let s' := Spec.resolve_state os ext cap fn s in
  Spec.memo_is (ks ++ [Spec.key_of ext fn s]) s'
  /\ Spec.bbpath_of ext s' = Spec.bbpath_of ext s
  /\ Spec.counter "resolve_file" "evictions" s' = Spec.counter "resolve_file" "evictions" s.
Proof.
  intros Hen Habs (Ho & Hnd & Hdom) Hnew Hroom s'. subst s'.
  assert (Hc : resolve_cache (st_parse s) !! Spec.key_of ext fn s = None).
  { destruct (resolve_cache (st_parse s) !! Spec.key_of ext fn s) eqn:E; [|reflexivity].
    exfalso. apply Hnew. apply Hdom. eauto. }
  pose proof (lookup_miss os ext cap fn s Hen Hc) as Hm. cbv zeta in Hm.
  rewrite Ho in Hm. rewrite length_app in Hm. simpl length in Hm.
  match type of Hm with context [cap <? ?n] => destruct (cap <? n) eqn:Hlt end;
    [apply Z.ltb_lt in Hlt; lia|].
  destruct Hm as (Hc' & Ho' & He').
  destruct (resolve_cache_resolve_state os ext cap fn s) as [Hrc Hro].
  rewrite Habs in Hrc, Hro.
  split; [|split].
  - split; [|split].
    + rewrite Hro. exact Ho'.
    + apply NoDup_app. split; [assumption|]. split.
      * intros x Hx Hx'. apply list_elem_of_singleton in Hx'. subst. contradiction.
      * apply NoDup_singleton.
    + intros k. rewrite Hrc, Hc'. rewrite elem_of_app, list_elem_of_singleton.
      destruct (decide (Spec.key_of ext fn s = k)) as [<-|Hne].
      * rewrite lookup_insert_eq. split; eauto.
      * rewrite lookup_insert_ne by assumption. rewrite Hdom.
        split; [auto|]. intros [?|?]; [assumption|congruence].
  - apply bbpath_of_resolve_state.
  - rewrite counter_resolve_state, Habs. exact He'.
Qed.

(** A new key when the memo is full: it is appended and the least
    recent key goes, with one eviction counted. *)
Lemma resolve_new_key_full (cap : Z) (fn : string) (k0 : RKey) (ks : list RKey) (s : State) :
  env_on os "BB_OPT_DISABLE_RESOLVE_CACHE" = false ->
  Path.isabs fn = false ->
  Spec.memo_is (k0 :: ks) s ->
  Spec.key_of ext fn s ∉ k0 :: ks ->
  cap <= Z.of_nat (length (k0 :: ks)) ->
  let s' := Spec.resolve_state os ext cap fn s in
  Spec.memo_is (ks ++ [Spec.key_of ext fn s]) s'
  /\ Spec.bbpath_of ext s' = Spec.bbpath_of ext s
  /\ Spec.counter "resolve_file" "evictions" s' =
       (fun v => v + 1) <$> Spec.counter "resolve_file" "evictions" s.
Proof.
  intros Hen Habs (Ho & Hnd & Hdom) Hnew Hfull s'. subst s'.
  assert (Hc : resolve_cache (st_parse s) !! Spec.key_of ext fn s = None).
  { destruct (resolve_cache (st_parse s) !! Spec.key_of ext fn s) eqn:E; [|reflexivity].
    exfalso. apply Hnew. apply Hdom. eauto. }
  pose proof (lookup_miss os ext cap fn s Hen Hc) as Hm. cbv zeta in Hm.
  rewrite Ho in Hm. rewrite length_app in Hm. simpl length in Hm, Hfull.
  match type of Hm with context [cap <? ?n] => destruct (cap <? n) eqn:Hlt end;
    [|apply Z.ltb_ge in Hlt; lia].
  simpl in Hm. destruct Hm as (Hc' & Ho' & He').
  destruct (resolve_cache_resolve_state os ext cap fn s) as [Hrc Hro].
  rewrite Habs in Hrc, Hro.
  apply NoDup_cons in Hnd. destruct Hnd as [Hk0 Hnd].
  split; [|split].
  - split; [|split].
    + rewrite Hro. exact Ho'.
    + apply NoDup_app. split; [assumption|]. split.
      * intros x Hx Hx'. apply list_elem_of_singleton in Hx'. subst.
        apply Hnew. right. assumption.
      * apply NoDup_singleton.
    + intros k. rewrite Hrc, Hc'. rewrite elem_of_app, list_elem_of_singleton.
      destruct (decide (k0 = k)) as [<-|Hk].
      * rewrite lookup_delete_eq. split.
        -- intros [? ?]. discriminate.
        -- intros [?| ->]; [contradiction|]. exfalso. apply Hnew. left.
      * rewrite lookup_delete_ne by assumption.
        destruct (decide (Spec.key_of ext fn s = k)) as [<-|Hne].
        -- rewrite lookup_insert_eq. split; eauto.
        -- rewrite lookup_insert_ne by assumption. rewrite Hdom.
           split.
           ++ intros Hin. inversion Hin; subst; [congruence|auto].
           ++ intros [?|?]; [right; assumption|congruence].
  - apply bbpath_of_resolve_state.
  - rewrite counter_resolve_state, Habs. exact He'.
Qed.

End LruSteps.

Section LruFill.
Context (os : OS) (ext : External).

Lemma resolve_each_snoc (cap : Z) (names : list string) (fn : string) (s : State) :
  Spec.resolve_each os ext cap (names ++ [fn]) s =
    Spec.resolve_state os ext cap fn (Spec.resolve_each os ext cap names s).
Proof.
  unfold Spec.resolve_each. rewrite fold_left_app. simpl.
  rewrite resolve_file_run. reflexivity.
Qed.

Lemma key_of_inj (fn fn' : string) (s : State) :
  Spec.key_of ext fn s = Spec.key_of ext fn' s -> fn = fn'.
Proof. unfold Spec.key_of. congruence. Qed.

Lemma key_of_bbpath (fn : string) (s s' : State) :
  Spec.bbpath_of ext s' = Spec.bbpath_of ext s ->
  Spec.key_of ext fn s' = Spec.key_of ext fn s.
Proof. unfold Spec.key_of. congruence. Qed.

Lemma key_notin_map (fn : string) (names : list string) (s : State) :
  fn ∉ names -> Spec.key_of ext fn s ∉ map (fun n => Spec.key_of ext n s) names.
Proof.
  intros Hn Hin. apply list_elem_of_fmap in Hin. destruct Hin as (n & Heq & Hin).
  apply key_of_inj in Heq. subst. contradiction.
Qed.

(** Distinct relative names resolved one after the other while the memo
    has room: the memo holds their keys in call order and nothing is
    evicted. *)
Lemma resolve_each_fills (cap : Z) (names : list string) (s0 : State) :
  env_on os "BB_OPT_DISABLE_RESOLVE_CACHE" = false ->
  Spec.memo_is [] s0 ->
  NoDup names ->
  (forall n, n ∈ names -> Path.isabs n = false) ->
  Z.of_nat (length names) <= cap ->
  let s' := Spec.resolve_each os ext cap names s0 in
  Spec.memo_is (map (fun n => Spec.key_of ext n s0) names) s'
  /\ Spec.bbpath_of ext s' = Spec.bbpath_of ext s0
  /\ Spec.counter "resolve_file" "evictions" s' = Spec.counter "resolve_file" "evictions" s0.
Proof.
  intros Hen Hempty. induction names as [|fn names IH] using rev_ind;
    intros Hnd Hrel Hlen; cbv zeta.
  - simpl. auto.
  - apply NoDup_app in Hnd. destruct Hnd as (Hnd & Hfresh & _).
    rewrite length_app in Hlen. simpl in Hlen.
    destruct IH as (Hmemo & Hbb & Hcnt).
    + assumption.
    + intros n Hn. apply Hrel. apply elem_of_app. left. assumption.
    + lia.
    + rewrite resolve_each_snoc, map_app. simpl map.
      set (s := Spec.resolve_each os ext cap names s0) in *.
      rewrite <- (key_of_bbpath fn s0 s Hbb).
      destruct (resolve_new_key_room os ext cap fn
                  (map (fun n => Spec.key_of ext n s0) names) s Hen) as (H1 & H2 & H3).
      * apply Hrel. apply elem_of_app. right. left.
      * exact Hmemo.
      * rewrite (key_of_bbpath fn s0 s Hbb). apply key_notin_map.
        intros Hin. apply (Hfresh fn Hin). left.
      * rewrite length_map. lia.
      * split; [exact H1|]. split; congruence.
Qed.

End LruFill.

(** C6: the memo of [resolve_file] is keyed by [(fn, False, BBPATH)] and
    has capacity 8192.  For a memo of capacity [cap]: after [cap + 1]
    distinct relative names have been resolved from an empty memo,
    exactly one eviction has been counted, the key of the first name is
    gone, and the keys of the [cap] later names are held, in call order.
    A hit moves its key to the most recent end, and the key is still
    held after the next call, whatever that call evicts. *)
Theorem resolve_memo_is_lru (os : OS) (ext : External) :
  (Parse._RESOLVE_CACHE_MAX = 8192
   /\ forall fn, Parse.resolve_file os ext fn = Parse.resolve_file_with os ext 8192 fn)
  /\ (forall (cap : Z) (first : string) (rest : list string) (s0 : State),
        0 < cap ->
        env_on os "BB_OPT_DISABLE_RESOLVE_CACHE" = false ->
        resolve_cache (st_parse s0) = ∅ ->
        resolve_cache_order (st_parse s0) = [] ->
        NoDup (first :: rest) ->
        (forall n, n ∈ first :: rest -> Path.isabs n = false) ->
        Z.of_nat (length rest) = cap ->
        let s' := Spec.resolve_each os ext cap (first :: rest) s0 in
        Spec.counter "resolve_file" "evictions" s' =
          (fun v => v + 1) <$> Spec.counter "resolve_file" "evictions" s0
        /\ resolve_cache (st_parse s') !! Spec.key_of ext first s0 = None
        /\ (forall n, n ∈ rest ->
              is_Some (resolve_cache (st_parse s') !! Spec.key_of ext n s0))
        /\ resolve_cache_order (st_parse s') = map (fun n => Spec.key_of ext n s0) rest)
  /\ (forall (cap : Z) (fn fn2 : string) (s : State),
        1 < cap ->
        NoDup (resolve_cache_order (st_parse s)) ->
        Path.isabs fn = false ->
        Path.isabs fn2 = false ->
        Spec.memo_hit os ext fn s = true ->
        let s1 := snd (Parse.resolve_file_with os ext cap fn s) in
        let s2 := snd (Parse.resolve_file_with os ext cap fn2 s1) in
        last (resolve_cache_order (st_parse s1)) = Some (Spec.key_of ext fn s)
        /\ is_Some (resolve_cache (st_parse s2) !! Spec.key_of ext fn s)).
Proof.
  split; [split; reflexivity|]. split.
  - intros cap first rest s0 Hcap Hen Hc0 Ho0 Hnd Hrel Hlen. cbv zeta.
    destruct rest as [|x rest' _] using rev_ind; [simpl in Hlen; lia|].
    set (front := first :: rest').
    assert (Hnames : first :: rest' ++ [x] = front ++ [x]) by reflexivity.
    rewrite Hnames in *. clear Hnames.
    rewrite length_app in Hlen. simpl in Hlen.
    apply NoDup_app in Hnd. destruct Hnd as (Hndf & Hfresh & _).
    assert (Hempty : Spec.memo_is [] s0).
    { split; [assumption|]. split; [constructor|].
      intros k. rewrite Hc0, lookup_empty. split.
      - intros [? ?]. discriminate.
      - intros Hk. inversion Hk. }
    destruct (resolve_each_fills os ext cap front s0 Hen Hempty Hndf) as (Hmemo & Hbb & Hcnt).
    { intros n Hn. apply Hrel. apply elem_of_app. left. assumption. }
    { subst front. simpl. lia. }
    rewrite resolve_each_snoc.
    set (s := Spec.resolve_each os ext cap front s0) in *.
    subst front. simpl map in Hmemo.
    destruct (resolve_new_key_full os ext cap x (Spec.key_of ext first s0)
                (map (fun n => Spec.key_of ext n s0) rest') s Hen) as ((Ho & Hnd' & Hdom) & _ & He).
    { apply Hrel. apply elem_of_app. right. left. }
    { exact Hmemo. }
    { rewrite (key_of_bbpath ext x s0 s Hbb).
      apply (key_notin_map ext x (first :: rest') s0).
      intros Hin. apply (Hfresh x Hin). left. }
    { simpl. rewrite length_map. lia. }
    rewrite (key_of_bbpath ext x s0 s Hbb) in Ho, Hnd', Hdom.
    assert (Hkeys : map (fun n => Spec.key_of ext n s0) rest' ++ [Spec.key_of ext x s0]
                    = map (fun n => Spec.key_of ext n s0) (rest' ++ [x]))
      by (rewrite map_app; reflexivity).
    rewrite Hkeys in Ho, Hnd', Hdom.
    split; [rewrite He, Hcnt; reflexivity|]. split; [|split].
    + destruct (resolve_cache _ !! Spec.key_of ext first s0) eqn:E; [|reflexivity].
      exfalso. assert (Hin : Spec.key_of ext first s0 ∈
                               map (fun n => Spec.key_of ext n s0) (rest' ++ [x]))
        by (apply Hdom; eauto).
      apply list_elem_of_fmap in Hin. destruct Hin as (n & Heq & Hin).
      apply key_of_inj in Heq. subst n.
      apply elem_of_app in Hin. destruct Hin as [Hin|Hin].
      * apply NoDup_cons in Hndf. destruct Hndf. contradiction.
      * apply (Hfresh first); [left|assumption].
    + intros n Hn. apply Hdom. apply list_elem_of_fmap. exists n. auto.
    + exact Ho.
  - intros cap fn fn2 s Hcap Hnd Habs Habs2 Hhit. cbv zeta.
    rewrite !resolve_file_run. simpl snd.
    set (k := Spec.key_of ext fn s).
    set (s1 := Spec.resolve_state os ext cap fn s).
    destruct (lookup_hit os ext cap fn s Hhit) as (Hc1 & Ho1 & _).
    destruct (resolve_cache_resolve_state os ext cap fn s) as [Hrc1 Hro1].
    rewrite Habs in Hrc1, Hro1. rewrite Hc1 in Hrc1. rewrite Ho1 in Hro1.
    fold s1 in Hrc1, Hro1. fold k in Hro1.
    assert (Hbb : Spec.bbpath_of ext s1 = Spec.bbpath_of ext s)
      by apply bbpath_of_resolve_state.
    assert (Hk : is_Some (resolve_cache (st_parse s1) !! k)).
    { rewrite Hrc1. unfold Spec.memo_hit in Hhit. apply andb_true_iff in Hhit.
      destruct Hhit as [_ Hh]. apply bool_decide_eq_true in Hh. exact Hh. }
    assert (Hen : env_on os "BB_OPT_DISABLE_RESOLVE_CACHE" = false).
    { unfold Spec.memo_hit in Hhit. apply andb_true_iff in Hhit.
      destruct Hhit as [Hh _]. apply negb_true_iff in Hh. exact Hh. }
    split; [rewrite Hro1; apply last_snoc|].
    destruct (resolve_cache_resolve_state os ext cap fn2 s1) as [Hrc2 _].
    rewrite Habs2 in Hrc2. rewrite Hrc2.
    destruct (Spec.memo_hit os ext fn2 s1) eqn:Hhit2.
    + destruct (lookup_hit os ext cap fn2 s1 Hhit2) as (-> & _ & _). exact Hk.
    + assert (Hc2 : resolve_cache (st_parse s1) !! Spec.key_of ext fn2 s1 = None).
      { unfold Spec.memo_hit in Hhit2. rewrite Hen in Hhit2. simpl in Hhit2.
        apply bool_decide_eq_false in Hhit2.
        destruct (resolve_cache (st_parse s1) !! Spec.key_of ext fn2 s1) as [p|] eqn:E;
          [|reflexivity].
        exfalso. apply Hhit2. exists p. exact E. }
      pose proof (lookup_miss os ext cap fn2 s1 Hen Hc2) as Hm. cbv zeta in Hm.
      match type of Hm with context [cap <? ?n] => destruct (cap <? n) eqn:Hlt end.
      * destruct Hm as (-> & _ & _). rewrite Hro1.
        destruct (Parse.remove_first k (resolve_cache_order (st_parse s))) as [|h t] eqn:Hrf.
        -- rewrite Hro1 in Hlt. simpl in Hlt. apply Z.ltb_lt in Hlt. lia.
        -- simpl. assert (Hh : h <> k).
           { intros ->. apply (remove_first_notin k _ Hnd). rewrite Hrf. left. }
           rewrite lookup_delete_ne by assumption.
           destruct (decide (Spec.key_of ext fn2 s1 = k)) as [->|Hne].
           ++ rewrite lookup_insert_eq. eauto.
           ++ rewrite lookup_insert_ne by assumption. exact Hk.
      * destruct Hm as (-> & _ & _).
        destruct (decide (Spec.key_of ext fn2 s1 = k)) as [->|Hne].
        -- rewrite lookup_insert_eq. eauto.
        -- rewrite lookup_insert_ne by assumption. exact Hk.
Qed.

Lemma resolve_memo_is_lru_witness :
  let s0 := Init.state (Init.datastore []) in
  let s' := Spec.resolve_each Sample.os Sample.ext 2 ["a"; "b"; "c"] s0 in
  let s1 := snd (Parse.resolve_file_with Sample.os Sample.ext 2 "a" s0) in
  let s3 := snd (Parse.resolve_file_with Sample.os Sample.ext 2 "b"
                   (snd (Parse.resolve_file_with Sample.os Sample.ext 2 "a" s1))) in
  (Spec.counter "resolve_file" "evictions" s' = Some 1
   /\ resolve_cache_order (st_parse s') = [("b", false, None); ("c", false, None)])
  /\ is_Some (resolve_cache (st_parse s3) !! Spec.key_of Sample.ext "a" s1).
Proof.
  intros s0 s' s1 s3.
  destruct (resolve_memo_is_lru Sample.os Sample.ext) as (_ & Hfill & Hhit). split.
  - destruct (Hfill 2 "a" ["b"; "c"] s0) as (He & _ & _ & Ho).
    + lia.
    + reflexivity.
    + reflexivity.
    + reflexivity.
    + repeat (apply NoDup_cons_2;
              [intros Hin;
               repeat (apply elem_of_cons in Hin; destruct Hin as [Hin|Hin]; [discriminate|]);
               inversion Hin|]).
      apply NoDup_nil_2.
    + intros n Hn. repeat (apply elem_of_cons in Hn; destruct Hn as [->|Hn]; [reflexivity|]).
      inversion Hn.
    + reflexivity.
    + split; [subst s'; rewrite He; reflexivity|exact Ho].
  - apply (Hhit 2 "a" "b" s1).
    + lia.
    + vm_compute. apply NoDup_singleton.
    + reflexivity.
    + reflexivity.
    + vm_compute. reflexivity.
Defined.

(** ** The metrics sidecar *)

Section MetricsOrder.

Lemma totals_le_refl t : Spec.totals_le t t.
Proof. intros sec f v Hv. exists v. split; [assumption|lia]. Qed.

Lemma totals_le_trans t1 t2 t3 :
  Spec.totals_le t1 t2 -> Spec.totals_le t2 t3 -> Spec.totals_le t1 t3.
Proof.
  intros H12 H23 sec f v1 Hv1.
  destruct (H12 sec f v1 Hv1) as (v2 & Hv2 & Hle2).
  destruct (H23 sec f v2 Hv2) as (v3 & Hv3 & Hle3).
  exists v3. split; [assumption|lia].
Qed.

Lemma times_le_refl t : Spec.times_le t t.
Proof. intros sec e He. exists e. split; [assumption|]. split; [lra|lia]. Qed.

Lemma times_le_trans t1 t2 t3 :
  Spec.times_le t1 t2 -> Spec.times_le t2 t3 -> Spec.times_le t1 t3.
Proof.
  intros H12 H23 sec e1 He1.
  destruct (H12 sec e1 He1) as (e2 & He2 & Hs2 & Hc2).
  destruct (H23 sec e2 He2) as (e3 & He3 & Hs3 & Hc3).
  exists e3. split; [assumption|]. split; [lra|lia].
Qed.

Lemma bump_totals_le (sec f : string) (n : Z) (m : MetricsState) :
  0 <= n -> Spec.totals_le (m_totals m) (m_totals (Metrics.bump_totals sec f n m)).
Proof.
  intros Hn. unfold Metrics.bump_totals.
  destruct (m_totals m !! sec) as [ent|] eqn:Hs; [|apply totals_le_refl].
  destruct (ent !! f) as [v|] eqn:Hf; [|apply totals_le_refl].
  simpl. intros sec' f' v1 Hv1.
  destruct (decide (sec = sec')) as [<-|Hne].
  - rewrite lookup_insert_eq. simpl. rewrite Hs in Hv1. simpl in Hv1.
    destruct (decide (f = f')) as [<-|Hnf].
    + rewrite lookup_insert_eq. exists (v + n). split; [reflexivity|].
      rewrite Hf in Hv1. injection Hv1 as <-. lia.
    + rewrite lookup_insert_ne by assumption. exists v1. split; [assumption|lia].
  - rewrite lookup_insert_ne by assumption. exists v1. split; [assumption|lia].
Qed.

Lemma add_time_le (sec : string) (dt : Q) (m : MetricsState) :
  (0 <= dt)%Q -> Spec.times_le (m_times m) (m_times (Metrics.add_time sec dt m)).
Proof.
  intros Hdt. unfold Metrics.add_time. simpl. intros sec' e1 He1.
  destruct (decide (sec = sec')) as [<-|Hne].
  - rewrite lookup_insert_eq. rewrite He1. simpl.
    eexists. split; [reflexivity|]. simpl. split; [lra|lia].
  - rewrite lookup_insert_ne by assumption. exists e1.
    split; [assumption|]. split; [lra|lia].
Qed.

Lemma counts_le_refl t : Spec.counts_le t t.
Proof. intros sec e He. exists e. split; [assumption|lia]. Qed.

Lemma counts_le_trans t1 t2 t3 :
  Spec.counts_le t1 t2 -> Spec.counts_le t2 t3 -> Spec.counts_le t1 t3.
Proof.
  intros H12 H23 sec e1 He1.
  destruct (H12 sec e1 He1) as (e2 & He2 & Hc2).
  destruct (H23 sec e2 He2) as (e3 & He3 & Hc3).
  exists e3. split; [assumption|lia].
Qed.

Lemma add_time_counts_le (sec : string) (dt : Q) (m : MetricsState) :
  Spec.counts_le (m_times m) (m_times (Metrics.add_time sec dt m)).
Proof.
  unfold Metrics.add_time. simpl. intros sec' e1 He1.
  destruct (decide (sec = sec')) as [<-|Hne].
  - rewrite lookup_insert_eq. rewrite He1. simpl.
    eexists. split; [reflexivity|]. simpl. lia.
  - rewrite lookup_insert_ne by assumption. exists e1. split; [assumption|lia].
Qed.

End MetricsOrder.

Section MetricsSteps.
Context (os : OS).

(** What [flush] does: one record with the present sequence number and
    the tables as they stand, appended to the file when the write
    goes through; the tables stay and the sequence number moves on by
    one, written or not. *)
Lemma flush_step (note : option string) (s : State) :
  let s' := snd (Metrics.flush os note s) in
  let p := Spec.flush_path os s in
  exists r,
    rec_seq r = m_seq (st_metrics s)
    /\ rec_note r = note
    /\ rec_totals r = m_totals (st_metrics s)
    /\ rec_time r = m_times (st_metrics s)
    /\ st_files s' = (if appendable os p
                      then <[p := Spec.or_nil (st_files s !! p) ++ [r]]> (st_files s)
                      else st_files s)
    /\ m_seq (st_metrics s') = m_seq (st_metrics s) + 1
    /\ m_totals (st_metrics s') = m_totals (st_metrics s)
    /\ m_times (st_metrics s') = m_times (st_metrics s)
    /\ m_path (st_metrics s') = m_path (st_metrics s).
Proof.
  cbv zeta. unfold Spec.flush_path.
  set (fallback := Path.join (if env_on os "TMPDIR"
                              then default "" (environ_get os "TMPDIR") else "/tmp")
                     Metrics.metrics_file).
  set (p := match m_path (st_metrics s) with
            | Some p => if Str.truthy p then p else fallback
            | None => fallback
            end).
  unfold Metrics.flush, Metrics.time, bind, gets, modify, when, ret. simpl.
  fold fallback. fold p.
  eexists.
  destruct (appendable os p); simpl; repeat split; reflexivity.
Qed.

Lemma bump_totals_frame (sec f : string) (n : Z) (m : MetricsState) :
  m_times (Metrics.bump_totals sec f n m) = m_times m
  /\ m_seq (Metrics.bump_totals sec f n m) = m_seq m
  /\ m_path (Metrics.bump_totals sec f n m) = m_path m.
Proof.
  unfold Metrics.bump_totals.
  destruct (m_totals m !! sec) as [ent|]; [destruct (ent !! f)|]; auto.
Qed.

(** A call that is not a [flush] writes nothing and takes no sequence
    number; it lowers no counter and no count, and no timer when the
    token it is given is not from the future. *)
Lemma call_step (c : Spec.MetricsCall) (s : State) :
  Spec.is_flush c = false ->
  let s1 := Spec.run_call os c s in
  st_files s1 = st_files s
  /\ m_seq (st_metrics s1) = m_seq (st_metrics s)
  /\ Spec.totals_le (m_totals (st_metrics s)) (m_totals (st_metrics s1))
  /\ Spec.counts_le (m_times (st_metrics s)) (m_times (st_metrics s1))
  /\ (match c with
      | Spec.CallTimeEnd _ (Some (_, t0)) => (t0 <= Spec.now s)%Q
      | _ => True
      end -> Spec.times_le (m_times (st_metrics s)) (m_times (st_metrics s1)))
  /\ ((forall t, c <> Spec.CallSetTmpdir t) ->
      m_path (st_metrics s1) = m_path (st_metrics s)).
Proof.
  intros Hnf. cbv zeta.
  assert (Hbump : forall sec f,
            let s1 := snd (Metrics._bump sec f 1 s) in
            st_files s1 = st_files s
            /\ m_seq (st_metrics s1) = m_seq (st_metrics s)
            /\ Spec.totals_le (m_totals (st_metrics s)) (m_totals (st_metrics s1))
            /\ Spec.counts_le (m_times (st_metrics s)) (m_times (st_metrics s1))
            /\ (True -> Spec.times_le (m_times (st_metrics s)) (m_times (st_metrics s1)))
            /\ m_path (st_metrics s1) = m_path (st_metrics s)).
  { intros sec f. simpl.
    destruct (bump_totals_frame sec f 1 (st_metrics s)) as (Ht & Hs & Hp).
    split; [reflexivity|]. split; [exact Hs|].
    split; [apply bump_totals_le; lia|].
    rewrite Ht. split; [apply counts_le_refl|]. split; [intros _; apply times_le_refl|].
    exact Hp. }
  destruct c as [sec|sec|sec|sec|sec [[sec0 t0]|]|t|note]; try discriminate.
  - destruct (Hbump sec "hits") as (? & ? & ? & ? & ? & ?). repeat split; auto.
  - destruct (Hbump sec "misses") as (? & ? & ? & ? & ? & ?). repeat split; auto.
  - destruct (Hbump sec "evictions") as (? & ? & ? & ? & ? & ?). repeat split; auto.
  - simpl. repeat split; auto using totals_le_refl, counts_le_refl, times_le_refl.
  - simpl. split; [reflexivity|]. split; [reflexivity|].
    split; [apply totals_le_refl|]. split; [apply add_time_counts_le|].
    split; [|reflexivity].
    intros Htok. apply add_time_le. unfold Spec.now in Htok. lra.
  - simpl. repeat split; auto using totals_le_refl, counts_le_refl, times_le_refl.
  - split; [|split; [|split; [|split; [|split]]]].
    6: { intros Hne. exfalso. apply (Hne t). reflexivity. }
    all: unfold Spec.run_call, Metrics.set_tmpdir;
      destruct t as [t|]; [destruct (Str.truthy t)|]; simpl;
      try intros _; auto using totals_le_refl, counts_le_refl, times_le_refl.
Qed.

End MetricsSteps.

Section MetricsRun.
Context (os : OS).

#[local] Abbreviation tot s := (m_totals (st_metrics s)).
#[local] Abbreviation tim s := (m_times (st_metrics s)).
#[local] Abbreviation flushes calls :=
  (length (filter (fun c => Spec.is_flush c = true) calls)).

Lemma or_nil_insert_snoc (p q : string) (r : MetricsRecord)
  (files : gmap string (list MetricsRecord)) :
  Spec.or_nil (<[q := Spec.or_nil (files !! q) ++ [r]]> files !! p) =
    Spec.or_nil (files !! p) ++ (if bool_decide (p = q) then [r] else []).
Proof.
  case_bool_decide as Hpq.
  - subst. rewrite lookup_insert_eq. reflexivity.
  - rewrite lookup_insert_ne by congruence. rewrite app_nil_r. reflexivity.
Qed.

Lemma flush_path_same (s s1 : State) :
  m_path (st_metrics s1) = m_path (st_metrics s) ->
  Spec.flush_path os s1 = Spec.flush_path os s.
Proof. intros H. unfold Spec.flush_path. rewrite H. reflexivity. Qed.

(** What a run of calls leaves in the metrics files. *)
Lemma run_calls_records (calls : list Spec.MetricsCall) :
  forall s : State,
    let s' := Spec.run_calls os calls s in
    m_seq (st_metrics s') = m_seq (st_metrics s) + Z.of_nat (flushes calls)
    /\ Spec.totals_le (tot s) (tot s')
    /\ Spec.counts_le (tim s) (tim s')
    /\ (Spec.tokens_past os calls s -> Spec.times_le (tim s) (tim s'))
    /\ forall p, exists added,
         Spec.or_nil (st_files s' !! p) = Spec.or_nil (st_files s !! p) ++ added
         /\ (length added <= flushes calls)%nat
         /\ (forall r, r ∈ added ->
               m_seq (st_metrics s) <= rec_seq r
                 < m_seq (st_metrics s) + Z.of_nat (flushes calls)
               /\ Spec.totals_le (tot s) (rec_totals r)
               /\ Spec.counts_le (tim s) (rec_time r)
               /\ (Spec.tokens_past os calls s -> Spec.times_le (tim s) (rec_time r)))
         /\ (forall i r1 r2, added !! i = Some r1 -> added !! S i = Some r2 ->
               Spec.later_record r1 r2
               /\ (Spec.tokens_past os calls s ->
                   Spec.times_le (rec_time r1) (rec_time r2)))
         /\ (length added = flushes calls ->
             forall i r, added !! i = Some r ->
               rec_seq r = m_seq (st_metrics s) + Z.of_nat i)
         /\ ((forall t, Spec.CallSetTmpdir t ∉ calls) ->
             appendable os (Spec.flush_path os s) = true ->
             p = Spec.flush_path os s ->
             length added = flushes calls).
Proof.
  induction calls as [|c calls IH]; intros s; cbv zeta.
  - simpl. split; [lia|]. split; [apply totals_le_refl|].
    split; [apply counts_le_refl|]. split; [intros _; apply times_le_refl|].
    intros p. exists []. rewrite app_nil_r. split; [reflexivity|]. split; [simpl; lia|].
    split; [intros r Hr; inversion Hr|]. split; [intros i r1 r2 H; discriminate|].
    split; [intros _ i r H; discriminate|]. reflexivity.
  - change (Spec.run_calls os (c :: calls) s)
      with (Spec.run_calls os calls (Spec.run_call os c s)).
    set (s1 := Spec.run_call os c s).
    destruct (IH s1) as (Hseq & Htot & Hcnt & Htim & Hfiles). clear IH.
    assert (Htail : Spec.tokens_past os (c :: calls) s -> Spec.tokens_past os calls s1).
    { intros [_ H]. exact H. }
    assert (Hnoset : (forall t, Spec.CallSetTmpdir t ∉ c :: calls) ->
                     (forall t, c <> Spec.CallSetTmpdir t)
                     /\ (forall t, Spec.CallSetTmpdir t ∉ calls)).
    { intros H. split.
      - intros t ->. apply (H t). left.
      - intros t Ht. apply (H t). right. exact Ht. }
    destruct (Spec.is_flush c) eqn:Hfl.
    + destruct c as [| | | | | |note]; try discriminate.
      pose proof (flush_step os note s) as Hfs. cbv zeta in Hfs.
      change (snd (Metrics.flush os note s)) with s1 in Hfs.
      destruct Hfs as (r & Hrs & _ & Hrt & Hrtm & Hf & Hs1 & Ht1 & Htm1 & Hp1).
      rewrite filter_cons_True by exact Hfl. cbn [length].
      rewrite Ht1, Htm1 in *.
      split; [lia|]. split; [exact Htot|]. split; [exact Hcnt|].
      split; [intros H; apply Htim, Htail, H|].
      intros p. destruct (Hfiles p) as (added & Ha & Hlen & Hel & Hpair & Hcons & Hall).
      set (a1 := if appendable os (Spec.flush_path os s) && bool_decide (p = Spec.flush_path os s)
                 then [r] else []).
      assert (Ha1 : Spec.or_nil (st_files s1 !! p) = Spec.or_nil (st_files s !! p) ++ a1).
      { rewrite Hf. subst a1. destruct (appendable os (Spec.flush_path os s)); simpl.
        - apply or_nil_insert_snoc.
        - rewrite app_nil_r. reflexivity. }
      assert (Hr : m_seq (st_metrics s) <= rec_seq r
                     < m_seq (st_metrics s) + Z.of_nat (S (flushes calls))
                   /\ Spec.totals_le (tot s) (rec_totals r)
                   /\ Spec.counts_le (tim s) (rec_time r)
                   /\ Spec.times_le (tim s) (rec_time r)).
      { rewrite Hrs, Hrt, Hrtm. split; [lia|].
        split; [apply totals_le_refl|]. split; [apply counts_le_refl|apply times_le_refl]. }
      assert (Hel' : forall r', r' ∈ added ->
                 m_seq (st_metrics s) + 1 <= rec_seq r'
                   < m_seq (st_metrics s) + Z.of_nat (S (flushes calls))
                 /\ Spec.totals_le (tot s) (rec_totals r')
                 /\ Spec.counts_le (tim s) (rec_time r')
                 /\ (Spec.tokens_past os (Spec.CallFlush note :: calls) s ->
                     Spec.times_le (tim s) (rec_time r'))).
      { intros r' Hr'. destruct (Hel r' Hr') as (Hb & H1 & H2 & H3).
        split; [lia|]. split; [exact H1|]. split; [exact H2|].
        intros H. apply H3, Htail, H. }
      exists (a1 ++ added). split; [rewrite Ha, Ha1, app_assoc; reflexivity|].
      assert (Hl1 : (length a1 <= 1)%nat) by (subst a1; destruct (_ && _); simpl; lia).
      split; [rewrite length_app; lia|].
      split; [|split; [|split]].
      * intros r0 Hr0. apply elem_of_app in Hr0 as [Hr0|Hr0].
        -- subst a1. destruct (_ && _); [|inversion Hr0].
           apply list_elem_of_singleton in Hr0 as ->.
           destruct Hr as (Hb & H1 & H2 & H3). auto.
        -- destruct (Hel' r0 Hr0) as (Hb & H1 & H2 & H3).
           split; [lia|]. auto.
      * intros i r1 r2 H1 H2. subst a1. destruct (_ && _); simpl in H1, H2.
        -- destruct i as [|i]; simpl in H1, H2.
           ++ injection H1 as <-.
              assert (Hin : r2 ∈ added) by (eapply list_elem_of_lookup_2; exact H2).
              destruct (Hel' r2 Hin) as (Hb & Ht2 & Hc2 & Htm2).
              split.
              ** split; [rewrite Hrs; lia|]. rewrite Hrt, Hrtm. auto.
              ** intros H. rewrite Hrtm. apply Htm2, H.
           ++ destruct (Hpair i r1 r2 H1 H2) as [Hl Ht']. split; [exact Hl|].
              intros H. apply Ht', Htail, H.
        -- destruct (Hpair i r1 r2 H1 H2) as [Hl Ht']. split; [exact Hl|].
           intros H. apply Ht', Htail, H.
      * intros Hfull i r0 Hi. rewrite length_app in Hfull.
        assert (Hla : length added = flushes calls) by lia.
        assert (Hl1' : length a1 = 1%nat) by lia.
        subst a1. destruct (_ && _); [|discriminate].
        destruct i as [|i]; simpl in Hi.
        -- injection Hi as <-. rewrite Hrs. lia.
        -- rewrite (Hcons Hla i r0 Hi). lia.
      * intros Hns Happ ->. destruct (Hnoset Hns) as [_ Hns'].
        rewrite length_app.
        rewrite (Hall Hns'); [| |symmetry; apply flush_path_same; exact Hp1].
        -- subst a1. rewrite Happ. rewrite bool_decide_eq_true_2 by reflexivity.
           simpl. reflexivity.
        -- rewrite (flush_path_same s s1 Hp1). exact Happ.
    + destruct (call_step os c s Hfl) as (Hf & Hs1 & Ht1 & Hc1 & Htm1 & Hp1).
      fold s1 in Hf, Hs1, Ht1, Hc1, Htm1, Hp1.
      rewrite filter_cons_False by (rewrite Hfl; discriminate).
      assert (Hhead : Spec.tokens_past os (c :: calls) s ->
                      Spec.times_le (tim s) (tim s1)).
      { intros [H _]. apply Htm1. exact H. }
      split; [lia|]. split; [eapply totals_le_trans; eassumption|].
      split; [eapply counts_le_trans; eassumption|].
      split; [intros H; eapply times_le_trans; [apply Hhead, H|apply Htim, Htail, H]|].
      intros p. destruct (Hfiles p) as (added & Ha & Hlen & Hel & Hpair & Hcons & Hall).
      exists added. rewrite <- Hf, <- Hs1.
      split; [exact Ha|]. split; [exact Hlen|].
      split; [|split; [|split]].
      * intros r0 Hr0. destruct (Hel r0 Hr0) as (Hb & H1 & H2 & H3).
        split; [exact Hb|]. split; [eapply totals_le_trans; eassumption|].
        split; [eapply counts_le_trans; eassumption|].
        intros H. eapply times_le_trans; [apply Hhead, H|apply H3, Htail, H].
      * intros i r1 r2 H1 H2. destruct (Hpair i r1 r2 H1 H2) as [Hl Ht'].
        split; [exact Hl|]. intros H. apply Ht', Htail, H.
      * exact Hcons.
      * intros Hns Happ ->. destruct (Hnoset Hns) as [Hc Hns'].
        apply (Hall Hns').
        -- rewrite (flush_path_same s s1 (Hp1 Hc)). exact Happ.
        -- symmetry. apply flush_path_same. exact (Hp1 Hc).
Qed.

End MetricsRun.

(** C10, as stated, fails twice over.  The sequence number is taken by
    every [flush], written or not, so the records of a file need not be
    one apart: here the first and the third [flush] reach the file under
    [/good] and the second, aimed at a directory that cannot be written,
    leaves no record anywhere, so the file holds the numbers 1 and 3.
    And [time_end] adds the clock reading minus the time in the token,
    whatever the token: handed a token from the future it takes the
    seconds of the section down, here from 0 in the first record to
    below 0 in the next. *)
Lemma metrics_seq_gap_counterexample :
  let os := {| getcwd := "/"; os_stat := fun _ => None; environ_get := fun _ => None;
               scandir := fun _ => None; open_read := fun _ => None;
               os_errno := fun _ => ENOENT;
               appendable := fun p => negb (Str.startswith "/ro/" p);
               perf_tick := fun _ => 1000%N; wall_time := fun _ => 0%Q; getpid := 1 |} in
  let calls := [Spec.CallSetTmpdir (Some "/good"); Spec.CallFlush None;
                Spec.CallSetTmpdir (Some "/ro");
                Spec.CallTimeEnd "which" (Some ("which", 5%Q));
                Spec.CallFlush None;
                Spec.CallSetTmpdir (Some "/good"); Spec.CallFlush None] in
  let s' := Spec.run_calls os calls (Init.state (Init.datastore [])) in
  exists r1 r3 e1 e3,
    st_files s' !! "/good/bb-cache-metrics.jsonl" = Some [r1; r3]
    /\ st_files s' !! "/ro/bb-cache-metrics.jsonl" = None
    /\ rec_seq r1 = 1 /\ rec_seq r3 = 3
    /\ rec_time r1 !! "which" = Some e1 /\ rec_time r3 !! "which" = Some e3
    /\ seconds e1 = 0%Q /\ (seconds e3 < 0)%Q.
Proof.
  vm_compute. do 4 eexists.
  repeat split; try reflexivity.
Qed.

(** C10, amended: within one process the metrics records are cumulative.
    [flush] builds one record with the next sequence number and the
    tables as they stand and appends it to the metrics file when the
    write goes through; written or not, it takes the number and resets
    nothing.  [hit], [miss] and [evict] add one to their counter;
    [time_end] adds one to the count of the token's section and the
    clock reading minus the token's time to its seconds.  So, over any
    run of [hit], [miss], [evict], [time_start], [time_end],
    [set_tmpdir] and [flush] calls with any arguments, the records added
    to a metrics file carry sequence numbers of this run, and of two
    successive ones the second has a larger sequence number and no
    counter ([hits], [misses], [evictions]) and no [count] below the
    first; no [seconds] either when no token handed to [time_end] is
    from the future.  The sequence numbers of a file are one apart
    when every [flush] of the run reached it, as when the path is not
    changed and can be written. *)
Theorem metrics_records_monotone (os : OS) (calls : list Spec.MetricsCall) (s : State) :
  let s' := Spec.run_calls os calls s in
  let n := length (filter (fun c => Spec.is_flush c = true) calls) in
  (forall note s0,
     let s1 := snd (Metrics.flush os note s0) in
     let p := Spec.flush_path os s0 in
     exists r,
       rec_seq r = m_seq (st_metrics s0)
       /\ rec_note r = note
       /\ rec_totals r = m_totals (st_metrics s0)
       /\ rec_time r = m_times (st_metrics s0)
       /\ st_files s1 = (if appendable os p
                         then <[p := Spec.or_nil (st_files s0 !! p) ++ [r]]> (st_files s0)
                         else st_files s0)
       /\ m_seq (st_metrics s1) = m_seq (st_metrics s0) + 1
       /\ m_totals (st_metrics s1) = m_totals (st_metrics s0)
       /\ m_times (st_metrics s1) = m_times (st_metrics s0))
  /\ (forall section s0,
        Spec.counter section "hits" (snd (Metrics.hit section s0)) =
          (fun v => v + 1) <$> Spec.counter section "hits" s0
        /\ Spec.counter section "misses" (snd (Metrics.miss section s0)) =
             (fun v => v + 1) <$> Spec.counter section "misses" s0
        /\ Spec.counter section "evictions" (snd (Metrics.evict section s0)) =
             (fun v => v + 1) <$> Spec.counter section "evictions" s0)
  /\ (forall section sec t0 s0,
        Spec.timer_of sec (snd (Metrics.time_end os section (Some (sec, t0)) s0)) =
          {| seconds := seconds (Spec.timer_of sec s0) + (Spec.now s0 - t0);
             count := count (Spec.timer_of sec s0) + 1 |})
  /\ m_seq (st_metrics s') = m_seq (st_metrics s) + Z.of_nat n
  /\ Spec.totals_le (m_totals (st_metrics s)) (m_totals (st_metrics s'))
  /\ Spec.counts_le (m_times (st_metrics s)) (m_times (st_metrics s'))
  /\ (Spec.tokens_past os calls s ->
      Spec.times_le (m_times (st_metrics s)) (m_times (st_metrics s')))
  /\ forall p, exists added,
       Spec.or_nil (st_files s' !! p) = Spec.or_nil (st_files s !! p) ++ added
       /\ (length added <= n)%nat
       /\ (forall r, r ∈ added ->
             m_seq (st_metrics s) <= rec_seq r < m_seq (st_metrics s) + Z.of_nat n
             /\ Spec.totals_le (m_totals (st_metrics s)) (rec_totals r)
             /\ Spec.counts_le (m_times (st_metrics s)) (rec_time r)
             /\ (Spec.tokens_past os calls s ->
                 Spec.times_le (m_times (st_metrics s)) (rec_time r)))
       /\ (forall i r1 r2, added !! i = Some r1 -> added !! S i = Some r2 ->
             Spec.later_record r1 r2
             /\ (Spec.tokens_past os calls s ->
                 Spec.times_le (rec_time r1) (rec_time r2)))
       /\ (length added = n ->
           forall i r, added !! i = Some r ->
             rec_seq r = m_seq (st_metrics s) + Z.of_nat i)
       /\ ((forall t, Spec.CallSetTmpdir t ∉ calls) ->
           appendable os (Spec.flush_path os s) = true ->
           p = Spec.flush_path os s ->
           length added = n).
Proof.
  cbv zeta. split; [|split; [|split]].
  - intros note s0.
    destruct (flush_step os note s0) as (r & H1 & H2 & H3 & H4 & H5 & H6 & H7 & H8 & _).
    exists r. auto 10.
  - intros section s0. unfold Metrics.hit, Metrics.miss, Metrics.evict, Metrics._bump.
    simpl. rewrite !counter_bump_same. auto.
  - intros section sec t0 s0.
    unfold Metrics.time_end, Metrics.perf_counter, bind, modify. simpl.
    assert (Hsec : (if bool_decide (sec <> section) then sec else section) = sec).
    { case_bool_decide as H; [reflexivity|].
      destruct (decide (sec = section)); [congruence|contradiction]. }
    rewrite Hsec. unfold Spec.timer_of, Metrics.add_time. simpl.
    rewrite lookup_insert_eq. reflexivity.
  - apply (run_calls_records os calls s).
Qed.

Lemma metrics_records_monotone_witness :
  let calls := [Spec.CallSetTmpdir (Some "/t"); Spec.CallHit "include";
                Spec.CallTimeStart "include";
                Spec.CallTimeEnd "include" (Some ("include", 0%Q));
                Spec.CallFlush None; Spec.CallMiss "include";
                Spec.CallFlush (Some "exit")] in
  let s := Init.state (Init.datastore []) in
  let s' := Spec.run_calls Sample.os calls s in
  exists r1 r2,
    st_files s' !! "/t/bb-cache-metrics.jsonl" = Some [r1; r2]
    /\ rec_seq r1 = 1 /\ rec_seq r2 = 2
    /\ Spec.later_record r1 r2
    /\ Spec.times_le (rec_time r1) (rec_time r2).
Proof.
  intros calls s s'.
  destruct (proj2 (proj2 (proj2 (proj2 (proj2 (proj2 (proj2
              (metrics_records_monotone Sample.os calls s))))))) "/t/bb-cache-metrics.jsonl")
    as (added & Ha & _ & _ & Hpair & Hcons & Hall).
  assert (Hfile : exists r1 r2, st_files s' !! "/t/bb-cache-metrics.jsonl" = Some [r1; r2]).
  { vm_compute. eexists _, _. reflexivity. }
  destruct Hfile as (r1 & r2 & Hfile).
  assert (Hadd : added = [r1; r2]).
  { change (st_files (Spec.run_calls Sample.os calls s) !! "/t/bb-cache-metrics.jsonl")
      with (st_files s' !! "/t/bb-cache-metrics.jsonl") in Ha.
    rewrite Hfile in Ha. exact (eq_sym Ha). }
  subst added.
  assert (Htok : Spec.tokens_past Sample.os calls s).
  { repeat split. vm_compute. discriminate. }
  exists r1, r2.
  split; [exact Hfile|].
  split; [exact (Hcons eq_refl 0%nat r1 eq_refl)|].
  split; [exact (Hcons eq_refl 1%nat r2 eq_refl)|].
  destruct (Hpair 0%nat r1 r2 eq_refl eq_refl) as [Hl Ht].
  split; [exact Hl|exact (Ht Htok)].
Defined.

(** ** Frame reasoning: what a computation leaves alone *)

Section Keeps.
Context {T : Type} (view : State -> T).

Lemma keeps_ret {A} (a : A) : Spec.keeps view (ret a).
Proof. intros s. reflexivity. Qed.

Lemma keeps_raise {A} (e : Exn) : Spec.keeps view (@raise A e).
Proof. intros s. reflexivity. Qed.

Lemma keeps_gets {A} (f : State -> A) : Spec.keeps view (gets f).
Proof. intros s. reflexivity. Qed.

Lemma keeps_modify (f : State -> State) :
  (forall s, view (f s) = view s) -> Spec.keeps view (modify f).
Proof. intros Hf s. apply Hf. Qed.

Lemma keeps_bind {A B} (c : M A) (k : A -> M B) :
  Spec.keeps view c -> (forall a, Spec.keeps view (k a)) -> Spec.keeps view (bind c k).
Proof.
  intros Hc Hk s. unfold bind. specialize (Hc s).
  destruct (c s) as [[a|e] s1]; simpl in *.
  - rewrite (Hk a s1). exact Hc.
  - exact Hc.
Qed.

Lemma keeps_when (b : bool) (c : M unit) : Spec.keeps view c -> Spec.keeps view (when b c).
Proof. destruct b; [auto|]. intros _. apply keeps_ret. Qed.

Lemma keeps_for_each {A} (l : list A) (body : A -> M unit) :
  (forall x, Spec.keeps view (body x)) -> Spec.keeps view (for_each l body).
Proof.
  intros Hb. induction l as [|x l IH]; simpl.
  - apply keeps_ret.
  - apply keeps_bind; [apply Hb|]. intros _. exact IH.
Qed.

Lemma keeps_try_except {A} (c : M A) (h : Exn -> option (M A)) :
  Spec.keeps view c -> (forall e c', h e = Some c' -> Spec.keeps view c') ->
  Spec.keeps view (try_except c h).
Proof.
  intros Hc Hh s. unfold try_except. specialize (Hc s).
  destruct (c s) as [[a|e] s1]; simpl in *; [exact Hc|].
  destruct (h e) as [c'|] eqn:He; simpl; [|exact Hc].
  rewrite (Hh e c' He s1). exact Hc.
Qed.

Lemma keeps_try_finally {A} (c : M A) (f : M unit) :
  Spec.keeps view c -> Spec.keeps view f -> Spec.keeps view (try_finally c f).
Proof.
  intros Hc Hf s. unfold try_finally. specialize (Hc s).
  destruct (c s) as [r s1]; simpl in *. rewrite (Hf s1). exact Hc.
Qed.

End Keeps.

(** One step of a frame proof: the combinators of the monad, then a case
    analysis on what the computation branches on. *)
Create HintDb keeps discriminated.
#[global] Hint Constants Opaque : keeps.
#[global] Hint Variables Opaque : keeps.

Ltac keeps_step :=
  first
    [ solve [auto 2 with keeps nocore]
    | apply keeps_ret
    | apply keeps_raise
    | apply keeps_gets
    | apply keeps_bind; [|intros ?]
    | apply keeps_when
    | apply keeps_for_each; intros ?
    | apply keeps_try_finally
    | apply keeps_modify; intros ?; reflexivity
    | match goal with
      | |- Spec.keeps _ (if ?b then _ else _) => destruct b
      | |- Spec.keeps _ (match ?x with _ => _ end) => destruct x
      | |- Spec.keeps _ (let _ := _ in _) => cbv zeta
      end ].

Ltac keeps_tac := repeat keeps_step.

(** ** The statement cache of the recipe handler *)

Section StatementCache.
Context (os : OS) (ext : External).

Lemma log_event_keeps_cache (e : Event) : Spec.keeps Spec.statement_cache (log_event e).
Proof. unfold log_event. keeps_tac. Qed.

Lemma conf_feeder_keeps_cache lineno s fn statements baseconfig conffile :
  Spec.keeps Spec.statement_cache
    (ConfHandler.feeder lineno s fn statements baseconfig conffile).
Proof.
  pose proof log_event_keeps_cache.
  unfold ConfHandler.feeder. keeps_tac; auto.
Qed.

Lemma feeder_keeps_cache lineno s fn root statements eof :
  Spec.keeps Spec.statement_cache (BBHandler.feeder ext lineno s fn root statements eof).
Proof.
  pose proof log_event_keeps_cache. pose proof conf_feeder_keeps_cache.
  unfold BBHandler.feeder, BBHandler.residue_starts_with_hash. keeps_tac; auto.
Qed.

Lemma feed_lines_keeps_cache filename base_name lines lineno statements :
  Spec.keeps Spec.statement_cache
    (BBHandler.feed_lines ext filename base_name lines lineno statements).
Proof.
  revert lineno statements. induction lines as [|line rest IH]; intros; simpl.
  - keeps_tac.
  - apply keeps_bind; [apply feeder_keeps_cache|]. intros ?. apply IH.
Qed.

Lemma open_lines_keeps_cache path :
  Spec.keeps Spec.statement_cache (ConfHandler.open_lines os path).
Proof.
  pose proof log_event_keeps_cache. unfold ConfHandler.open_lines. keeps_tac; auto.
Qed.

End StatementCache.

Section GetStatements.
Context (os : OS) (ext : External).

Lemma endswith_bb_not_cacheable (filename : string) :
  Str.endswith filename ".bb" = true ->
  Str.endswith filename ".bbclass" || Str.endswith filename ".inc" = false.
Proof.
  unfold Str.endswith. generalize (String.rev filename). intros r.
  change (String.rev ".bb") with "bb.".
  change (String.rev ".bbclass") with "ssalcbb.".
  change (String.rev ".inc") with "cni.".
  destruct r as [|c r]; [discriminate|].
  cbn [Str.startswith]. destruct (Ascii.eqb "b" c) eqn:E; [|discriminate].
  apply Ascii.eqb_eq in E. subst c. reflexivity.
Qed.

(** On a miss, [get_statements] changes the cache only by storing the
    parsed tree under the absolute path, and only for a cacheable
    name. *)
Lemma get_statements_miss (filename abs base : string) (s : State) :
  Spec.statement_cache s !! abs = None ->
  let r := BBHandler.get_statements os ext filename abs base s in
  Spec.statement_cache (snd r) =
    match fst r with
    | Ret t =>
        if Str.endswith filename ".bbclass" || Str.endswith filename ".inc"
        then <[abs := t]> (Spec.statement_cache s)
        else Spec.statement_cache s
    | Raise _ => Spec.statement_cache s
    end.
Proof.
  intros Hmiss. cbv zeta.
  destruct (BBHandler.get_statements os ext filename abs base s) as [res s'] eqn:Hr.
  unfold BBHandler.get_statements in Hr.
  unfold bind at 1 in Hr. unfold gets at 1 in Hr.
  unfold Spec.statement_cache in Hmiss. rewrite Hmiss in Hr.
  unfold bind at 1 in Hr.
  pose proof (open_lines_keeps_cache os abs s) as H1.
  destruct (ConfHandler.open_lines os abs s) as [[lines|e] s1]; simpl in H1;
    [|injection Hr as <- <-; exact H1].
  unfold bind at 1 in Hr.
  pose proof (feed_lines_keeps_cache ext filename base lines 0 [] s1) as H2.
  destruct (BBHandler.feed_lines ext filename base lines 0 [] s1) as [[r|e] s2];
    simpl in H2; [|injection Hr as <- <-; cbn [fst snd]; congruence].
  unfold bind at 1 in Hr. unfold gets at 1 in Hr. unfold bind at 1 in Hr.
  assert (H3 : Spec.keeps Spec.statement_cache
                 (if bool_decide (is_Some (inpython (st_bb s2)))
                  then BBHandler.feeder ext (snd r) "" filename base (fst r) true
                  else ret (fst r))).
  { destruct (bool_decide _); [apply feeder_keeps_cache|apply keeps_ret]. }
  specialize (H3 s2).
  destruct ((if bool_decide (is_Some (inpython (st_bb s2)))
             then BBHandler.feeder ext (snd r) "" filename base (fst r) true
             else ret (fst r)) s2) as [[statements|e] s3];
    simpl in H3; [|injection Hr as <- <-; cbn [fst snd]; congruence].
  unfold bind at 1 in Hr. unfold gets at 1 in Hr.
  destruct (negb (bool_decide (residue (st_bb s3) = [])));
    [injection Hr as <- <-; cbn [fst snd]; congruence|].
  destruct (negb (bool_decide (body (st_bb s3) = [])));
    [injection Hr as <- <-; cbn [fst snd]; congruence|].
  destruct (Str.endswith filename ".bbclass" || Str.endswith filename ".inc");
    injection Hr as <- <-; cbn [fst snd].
  - unfold Spec.statement_cache in *. simpl. congruence.
  - congruence.
Qed.

End GetStatements.

(** C5, as stated, fails on the key: the statement cache has no flags
    component.  A call that differs from an earlier one in the requested
    name and the base name, but not in the absolute path, is answered
    with the tree built for the earlier call (its nodes carry the earlier
    name), where a parse of its own would give another tree; the cache
    holds one entry, under the path. *)
Lemma statement_cache_key_counterexample :
  let s0 := Init.state (Init.datastore []) in
  let first := BBHandler.get_statements Sample.os Sample.ext "t.inc" "/r/t.inc" "t.inc" s0 in
  let again := BBHandler.get_statements Sample.os Sample.ext "./t.inc" "/r/t.inc" "other.inc"
                 (snd first) in
  let fresh := BBHandler.get_statements Sample.os Sample.ext "./t.inc" "/r/t.inc" "other.inc" s0 in
  fst first = Ret [{| n_file := "t.inc"; n_line := 1; n_payload := AddTask "do_x" "" "" |}]
  /\ fst again = fst first
  /\ fst fresh = Ret [{| n_file := "./t.inc"; n_line := 1; n_payload := AddTask "do_x" "" "" |}]
  /\ map fst (map_to_list (Spec.statement_cache (snd again))) = ["/r/t.inc"].
Proof. vm_compute. repeat split; reflexivity. Qed.

(** C5, amended: the statement cache is keyed on the absolute path alone.
    An entry for the path answers every call for that path, with the
    state unchanged; on a miss the cache changes only by storing the
    parsed tree under the absolute path, and only when the parse succeeds
    and the requested name ends in [.bbclass] or [.inc]; so a second
    parse of such a file returns the cached tree, and parsing a [.bb]
    file never adds an entry. *)
Theorem statement_cache_by_path (os : OS) (ext : External)
  (filename abs base : string) (s : State) :
  let r := BBHandler.get_statements os ext filename abs base s in
  let cacheable := Str.endswith filename ".bbclass" || Str.endswith filename ".inc" in
  (forall t, Spec.statement_cache s !! abs = Some t -> r = (Ret t, s))
  /\ (Spec.statement_cache s !! abs = None ->
      Spec.statement_cache (snd r) =
        match fst r with
        | Ret t => if cacheable then <[abs := t]> (Spec.statement_cache s)
                   else Spec.statement_cache s
        | Raise _ => Spec.statement_cache s
        end)
  /\ (forall t, fst r = Ret t -> cacheable = true ->
        forall filename' base',
          BBHandler.get_statements os ext filename' abs base' (snd r) = (Ret t, snd r))
  /\ (Str.endswith filename ".bb" = true ->
      Spec.statement_cache (snd r) = Spec.statement_cache s).
Proof.
  cbv zeta.
  assert (Hhit : forall fn b s0 t, Spec.statement_cache s0 !! abs = Some t ->
                   BBHandler.get_statements os ext fn abs b s0 = (Ret t, s0)).
  { intros fn b s0 t Ht. unfold BBHandler.get_statements, bind, gets.
    unfold Spec.statement_cache in Ht. rewrite Ht. reflexivity. }
  split; [apply Hhit|]. split; [apply get_statements_miss|]. split.
  - intros t Hr Hc filename' base'. apply Hhit.
    destruct (Spec.statement_cache s !! abs) as [t0|] eqn:Hs.
    + rewrite (Hhit filename base s t0 Hs) in Hr |- *. simpl in *. congruence.
    + rewrite (get_statements_miss os ext filename abs base s Hs).
      rewrite Hr, Hc. apply lookup_insert_eq.
  - intros Hbb. destruct (Spec.statement_cache s !! abs) as [t0|] eqn:Hs.
    + rewrite (Hhit filename base s t0 Hs). reflexivity.
    + rewrite (get_statements_miss os ext filename abs base s Hs).
      rewrite (endswith_bb_not_cacheable filename Hbb).
      destruct (fst _); reflexivity.
Qed.

Lemma statement_cache_by_path_witness :
  let s0 := Init.state (Init.datastore []) in
  let first := BBHandler.get_statements Sample.os Sample.ext "t.inc" "/r/t.inc" "t.inc" s0 in
  let recipe := BBHandler.get_statements Sample.os Sample.ext "/r/x.bb" "/r/x.bb" "x.bb" s0 in
  BBHandler.get_statements Sample.os Sample.ext "t.inc" "/r/t.inc" "t.inc" (snd first) =
    (Ret [{| n_file := "t.inc"; n_line := 1; n_payload := AddTask "do_x" "" "" |}], snd first)
  /\ Spec.statement_cache (snd recipe) = Spec.statement_cache s0.
Proof.
  intros s0 first recipe. split.
  - apply (proj1 (proj2 (proj2 (statement_cache_by_path Sample.os Sample.ext
                                  "t.inc" "/r/t.inc" "t.inc" s0)))).
    + vm_compute. reflexivity.
    + reflexivity.
  - apply (proj2 (proj2 (proj2 (statement_cache_by_path Sample.os Sample.ext
                                  "/r/x.bb" "/r/x.bb" "x.bb" s0)))).
    reflexivity.
Defined.

(** ** What leaves [__inherit_cache] and the inherit dispatches alone *)

Lemma occurrences_snoc_ne {A} `{EqDecision A} (x y : A) (l : list A) :
  y <> x -> Spec.occurrences x (l ++ [y]) = Spec.occurrences x l.
Proof.
  intros Hne. unfold Spec.occurrences. rewrite filter_app, length_app.
  rewrite filter_cons_False by exact Hne. simpl. lia.
Qed.

Lemma occurrences_snoc_eq {A} `{EqDecision A} (x : A) (l : list A) :
  Spec.occurrences x (l ++ [x]) = S (Spec.occurrences x l).
Proof.
  unfold Spec.occurrences. rewrite filter_app, length_app.
  rewrite filter_cons_True by reflexivity. simpl. lia.
Qed.

Lemma occurrences_zero {A} `{EqDecision A} (x : A) (l : list A) :
  x ∉ l -> Spec.occurrences x l = 0%nat.
Proof.
  intros Hx. unfold Spec.occurrences.
  destruct (filter (fun y => y = x) l) as [|y l'] eqn:E; [reflexivity|].
  assert (Hy : y ∈ filter (fun y => y = x) l) by (rewrite E; left).
  apply list_elem_of_filter in Hy as [-> Hy]. contradiction.
Qed.

Lemma occurrences_pos {A} `{EqDecision A} (x : A) (l : list A) :
  x ∈ l <-> (0 < Spec.occurrences x l)%nat.
Proof.
  split.
  - intros Hx. unfold Spec.occurrences.
    assert (Hy : x ∈ filter (fun y => y = x) l) by (apply list_elem_of_filter; auto).
    destruct (filter (fun y => y = x) l); [inversion Hy|simpl; lia].
  - intros Hpos. destruct (decide (x ∈ l)) as [Hx|Hx]; [exact Hx|].
    rewrite (occurrences_zero x l Hx) in Hpos. lia.
Qed.

Section InheritFrame.
Context (os : OS) (ext : External) (c : string).

#[local] Abbreviation view := (Spec.inherit_view c).

Lemma log_event_keeps_view (e : Event) :
  e <> InheritDispatched c -> Spec.keeps view (log_event e).
Proof.
  intros Hne s. unfold log_event, modify, Spec.inherit_view, Spec.dispatched. simpl.
  rewrite occurrences_snoc_ne by exact Hne. reflexivity.
Qed.

Ltac frame :=
  keeps_tac; try (apply log_event_keeps_view; discriminate).

Lemma set_tmpdir_keeps_view t : Spec.keeps view (Metrics.set_tmpdir t).
Proof. unfold Metrics.set_tmpdir. frame. Qed.

Lemma _bump_keeps_view sec f n : Spec.keeps view (Metrics._bump sec f n).
Proof. unfold Metrics._bump. frame. Qed.

Lemma hit_keeps_view sec : Spec.keeps view (Metrics.hit sec).
Proof. apply _bump_keeps_view. Qed.

Lemma miss_keeps_view sec : Spec.keeps view (Metrics.miss sec).
Proof. apply _bump_keeps_view. Qed.

Lemma evict_keeps_view sec : Spec.keeps view (Metrics.evict sec).
Proof. apply _bump_keeps_view. Qed.

Lemma perf_counter_keeps_view : Spec.keeps view (Metrics.perf_counter os).
Proof. unfold Metrics.perf_counter. frame. Qed.

Lemma time_start_keeps_view sec : Spec.keeps view (Metrics.time_start os sec).
Proof. pose proof perf_counter_keeps_view. unfold Metrics.time_start. frame; auto. Qed.

Lemma time_end_keeps_view sec tok : Spec.keeps view (Metrics.time_end os sec tok).
Proof.
  pose proof perf_counter_keeps_view.
  unfold Metrics.time_end, Metrics.add_time. frame; auto.
Qed.

Lemma flush_keeps_view note : Spec.keeps view (Metrics.flush os note).
Proof. unfold Metrics.flush, Metrics.time, Metrics.append_line. frame. Qed.

#[local] Hint Resolve set_tmpdir_keeps_view _bump_keeps_view hit_keeps_view miss_keeps_view
  evict_keeps_view perf_counter_keeps_view time_start_keeps_view time_end_keeps_view
  flush_keeps_view : keeps.

(** *** The package *)

Lemma stat_or_raise_keeps_view f : Spec.keeps view (Parse.stat_or_raise os f).
Proof. unfold Parse.stat_or_raise. frame. Qed.

Lemma store_mtime_keeps_view f t : Spec.keeps view (Parse.store_mtime f t).
Proof. unfold Parse.store_mtime. frame. Qed.

#[local] Hint Resolve stat_or_raise_keeps_view store_mtime_keeps_view : keeps.

Lemma cached_mtime_keeps_view f : Spec.keeps view (Parse.cached_mtime os f).
Proof. unfold Parse.cached_mtime. frame. Qed.

Lemma cached_mtime_noerror_keeps_view f : Spec.keeps view (Parse.cached_mtime_noerror os f).
Proof. unfold Parse.cached_mtime_noerror. frame. Qed.

Lemma getVar_keeps_view name e : Spec.keeps view (Parse.getVar ext name e).
Proof. unfold Parse.getVar. frame. Qed.

Lemma setVar_keeps_view name value : Spec.keeps view (Parse.setVar name value).
Proof. unfold Parse.setVar. frame. Qed.

#[local] Hint Resolve cached_mtime_keeps_view cached_mtime_noerror_keeps_view
  getVar_keeps_view setVar_keeps_view : keeps.

Lemma mark_dependency_keeps_view f : Spec.keeps view (Parse.mark_dependency os f).
Proof. unfold Parse.mark_dependency. frame. Qed.

Lemma check_dependency_keeps_view f : Spec.keeps view (Parse.check_dependency os f).
Proof. unfold Parse.check_dependency. frame. Qed.

Lemma resolve_lookup_keeps_view cap fn bbpath :
  Spec.keeps view (Parse.resolve_lookup os cap fn bbpath).
Proof. unfold Parse.resolve_lookup. frame. Qed.

#[local] Hint Resolve mark_dependency_keeps_view check_dependency_keeps_view
  resolve_lookup_keeps_view : keeps.

Lemma resolve_file_with_keeps_view cap fn :
  Spec.keeps view (Parse.resolve_file_with os ext cap fn).
Proof. unfold Parse.resolve_file_with. frame. Qed.

Lemma resolve_file_keeps_view fn : Spec.keeps view (Parse.resolve_file os ext fn).
Proof. apply resolve_file_with_keeps_view. Qed.

#[local] Hint Resolve resolve_file_keeps_view : keeps.

(** *** The configuration handler *)

Lemma conf_feeder_keeps_view lineno l fn statements baseconfig conffile :
  Spec.keeps view (ConfHandler.feeder lineno l fn statements baseconfig conffile).
Proof. unfold ConfHandler.feeder. frame. Qed.

#[local] Hint Resolve conf_feeder_keeps_view : keeps.

Lemma finish_line_keeps_view abs_fn baseconfig lineno l statements :
  Spec.keeps view (ConfHandler.finish_line abs_fn baseconfig lineno l statements).
Proof. unfold ConfHandler.finish_line. frame. Qed.

#[local] Hint Resolve finish_line_keeps_view : keeps.

Lemma conf_lines_keeps_view abs_fn baseconfig lines i pending statements :
  Spec.keeps view (ConfHandler.conf_lines abs_fn baseconfig lines i pending statements).
Proof.
  revert i pending statements.
  induction lines as [|line rest IH]; intros i pending statements; simpl.
  - frame.
  - destruct pending as [[[l lineno] origlineno]|]; frame; apply IH.
Qed.

Lemma open_lines_keeps_view path : Spec.keeps view (ConfHandler.open_lines os path).
Proof. unfold ConfHandler.open_lines. frame. Qed.

#[local] Hint Resolve conf_lines_keeps_view open_lines_keeps_view : keeps.

Lemma _get_conf_statements_keeps_view abs_fn baseconfig :
  Spec.keeps view (ConfHandler._get_conf_statements os abs_fn baseconfig).
Proof. unfold ConfHandler._get_conf_statements. frame. Qed.

Lemma _get_include_index_keeps_view dname bbpath :
  Spec.keeps view (ConfHandler._get_include_index os dname bbpath).
Proof. unfold ConfHandler._get_include_index. frame. Qed.

#[local] Hint Resolve _get_conf_statements_keeps_view _get_include_index_keeps_view : keeps.

Lemma _include_index_resolve_keeps_view dname bbpath filename :
  Spec.keeps view (ConfHandler._include_index_resolve os dname bbpath filename).
Proof. unfold ConfHandler._include_index_resolve. frame. Qed.

Lemma include_cache_get_keeps_view key :
  Spec.keeps view (ConfHandler.include_cache_get os key).
Proof. unfold ConfHandler.include_cache_get. frame. Qed.

Lemma include_cache_put_keeps_view key v :
  Spec.keeps view (ConfHandler.include_cache_put os key v).
Proof. unfold ConfHandler.include_cache_put. frame. Qed.

#[local] Hint Resolve _include_index_resolve_keeps_view include_cache_get_keeps_view
  include_cache_put_keeps_view : keeps.

Lemma include_resolve_keeps_view dname fn bbpath_var :
  Spec.keeps view (ConfHandler.include_resolve os dname fn bbpath_var).
Proof. unfold ConfHandler.include_resolve. frame. Qed.

#[local] Hint Resolve include_resolve_keeps_view : keeps.

(** *** The recipe handler *)

Lemma _get_class_index_keeps_view bbpath classtype :
  Spec.keeps view (BBHandler._get_class_index os bbpath classtype).
Proof. unfold BBHandler._get_class_index. frame. Qed.

Lemma _inherit_cache_get_keeps_view key : Spec.keeps view (BBHandler._inherit_cache_get key).
Proof. unfold BBHandler._inherit_cache_get. frame. Qed.

Lemma _inherit_cache_put_keeps_view key v :
  Spec.keeps view (BBHandler._inherit_cache_put key v).
Proof. unfold BBHandler._inherit_cache_put. frame. Qed.

#[local] Hint Resolve _get_class_index_keeps_view _inherit_cache_get_keeps_view
  _inherit_cache_put_keeps_view : keeps.

Lemma _resolve_inherit_file_keeps_view origfile :
  Spec.keeps view (BBHandler._resolve_inherit_file os ext origfile).
Proof. unfold BBHandler._resolve_inherit_file. frame. Qed.

Lemma inherit_defer_keeps_view expression fn lineno :
  Spec.keeps view (BBHandler.inherit_defer expression fn lineno).
Proof. unfold BBHandler.inherit_defer. frame. Qed.

Lemma feeder_keeps_view lineno l fn root statements eof :
  Spec.keeps view (BBHandler.feeder ext lineno l fn root statements eof).
Proof. unfold BBHandler.feeder, BBHandler.residue_starts_with_hash. frame. Qed.

#[local] Hint Resolve _resolve_inherit_file_keeps_view inherit_defer_keeps_view
  feeder_keeps_view : keeps.

Lemma feed_lines_keeps_view filename base_name lines lineno statements :
  Spec.keeps view (BBHandler.feed_lines ext filename base_name lines lineno statements).
Proof.
  revert lineno statements. induction lines as [|line rest IH]; intros; simpl.
  - frame.
  - frame.
Qed.

#[local] Hint Resolve feed_lines_keeps_view : keeps.

Lemma get_statements_keeps_view filename abs base :
  Spec.keeps view (BBHandler.get_statements os ext filename abs base).
Proof. unfold BBHandler.get_statements. frame. Qed.

Lemma _get_handler_keeps_view fn : Spec.keeps view (Dispatch._get_handler os fn).
Proof. unfold Dispatch._get_handler. frame. Qed.

End InheritFrame.

#[global] Hint Resolve set_tmpdir_keeps_view hit_keeps_view miss_keeps_view evict_keeps_view
  time_start_keeps_view time_end_keeps_view flush_keeps_view getVar_keeps_view
  setVar_keeps_view mark_dependency_keeps_view check_dependency_keeps_view
  resolve_file_keeps_view _get_conf_statements_keeps_view include_resolve_keeps_view
  _resolve_inherit_file_keeps_view inherit_defer_keeps_view get_statements_keeps_view
  _get_handler_keeps_view : keeps.

(** ** Inherit: what can happen to one class file *)

Section InheritStep.
Context (c : string).

#[local] Abbreviation R := (Spec.inherit_step c).

Lemma inherit_step_refl (s : State) : R s s.
Proof. unfold Spec.inherit_step. lia. Qed.

Lemma inherit_step_trans (s1 s2 s3 : State) : R s1 s2 -> R s2 s3 -> R s1 s3.
Proof. unfold Spec.inherit_step. lia. Qed.

Lemma view_eq_step (s s' : State) :
  Spec.inherit_view c s' = Spec.inherit_view c s ->
  R s s' /\ Spec.inherit_cache s' = Spec.inherit_cache s.
Proof.
  unfold Spec.inherit_view, Spec.inherit_step, Spec.inherit_cache,
    BBHandler.inherit_cache_or_nil.
  intros H. injection H as H1 H2. rewrite H1, H2. split; [lia|reflexivity].
Qed.

Lemma keeps_evolves {A} (cmd : M A) :
  Spec.keeps (Spec.inherit_view c) cmd -> Spec.evolves R cmd.
Proof. intros H s. apply view_eq_step, H. Qed.

Lemma evolves_ret {A} (a : A) : Spec.evolves R (ret a).
Proof. intros s. apply inherit_step_refl. Qed.

Lemma evolves_raise {A} (e : Exn) : Spec.evolves R (@raise A e).
Proof. intros s. apply inherit_step_refl. Qed.

Lemma evolves_gets {A} (f : State -> A) : Spec.evolves R (gets f).
Proof. intros s. apply inherit_step_refl. Qed.

Lemma evolves_bind {A B} (cmd : M A) (k : A -> M B) :
  Spec.evolves R cmd -> (forall a, Spec.evolves R (k a)) -> Spec.evolves R (bind cmd k).
Proof.
  intros Hc Hk s. unfold bind. specialize (Hc s).
  destruct (cmd s) as [[a|e] s1]; simpl in *; [|exact Hc].
  exact (inherit_step_trans _ _ _ Hc (Hk a s1)).
Qed.

Lemma evolves_when (b : bool) (cmd : M unit) :
  Spec.evolves R cmd -> Spec.evolves R (when b cmd).
Proof. destruct b; [auto|]. intros _. apply evolves_ret. Qed.

Lemma evolves_for_each {A} (l : list A) (body : A -> M unit) :
  (forall x, x ∈ l -> Spec.evolves R (body x)) -> Spec.evolves R (for_each l body).
Proof.
  induction l as [|x l IH]; intros Hb; simpl.
  - apply evolves_ret.
  - apply evolves_bind; [apply Hb; left|].
    intros _. apply IH. intros y Hy. apply Hb. right. exact Hy.
Qed.

Lemma evolves_try_except {A} (cmd : M A) (h : Exn -> option (M A)) :
  Spec.evolves R cmd ->
  (forall e, match h e with Some cmd' => Spec.evolves R cmd' | None => True end) ->
  Spec.evolves R (try_except cmd h).
Proof.
  intros Hc Hh s. unfold try_except. specialize (Hc s).
  destruct (cmd s) as [[a|e] s1]; simpl in *; [exact Hc|].
  specialize (Hh e). destruct (h e) as [cmd'|]; simpl; [|exact Hc].
  exact (inherit_step_trans _ _ _ Hc (Hh s1)).
Qed.

Lemma evolves_try_finally {A} (cmd : M A) (f : M unit) :
  Spec.evolves R cmd -> Spec.evolves R f -> Spec.evolves R (try_finally cmd f).
Proof.
  intros Hc Hf s. unfold try_finally. specialize (Hc s).
  destruct (cmd s) as [r s1]; simpl in *.
  exact (inherit_step_trans _ _ _ Hc (Hf s1)).
Qed.

End InheritStep.

Create HintDb evolves discriminated.
#[global] Hint Constants Opaque : evolves.
#[global] Hint Variables Opaque : evolves.

Ltac evolves_step :=
  first
    [ solve [apply keeps_evolves; auto 2 with keeps nocore]
    | solve [apply keeps_evolves; apply log_event_keeps_view; discriminate]
    | solve [apply keeps_evolves; apply keeps_modify; intros ?; reflexivity]
    | solve [auto 4 with evolves nocore]
    | exact I
    | apply evolves_ret | apply evolves_raise | apply evolves_gets
    | apply evolves_bind; [|intros ?] | apply evolves_when
    | apply evolves_for_each; intros ? ? | apply evolves_try_finally
    | apply evolves_try_except; [|intros ?]
    | match goal with
      | |- Spec.evolves _ (if ?b then _ else _) => destruct b
      | |- Spec.evolves _ (match ?x with _ => _ end) => destruct x
      | |- Spec.evolves _ (let _ := _ in _) => cbv zeta
      | |- match match ?x with _ => _ end with _ => _ end => destruct x
      | |- match (if ?b then _ else _) with _ => _ end => destruct b
      end ].

Ltac evolves_tac := repeat evolves_step.

Section Inherit.
Context (os : OS) (ext : External) (c : string).
Hypothesis Hext : Spec.leaves_inherit_cache ext.

#[local] Abbreviation R := (Spec.inherit_step c).

(** *** The statements the external engine evaluates *)

Lemma eval_leaf_step (n : Node) :
  Spec.evolves R
    (fun s => match eval_leaf ext n (st_d s) with
              | inr d => (Ret tt, upd_d (fun _ => d) s)
              | inl e => (Raise e, s)
              end).
Proof.
  intros s. destruct (eval_leaf ext n (st_d s)) as [e|d] eqn:E; simpl.
  - apply inherit_step_refl.
  - apply view_eq_step. unfold Spec.inherit_view. simpl.
    rewrite (proj1 Hext n _ _ E). reflexivity.
Qed.

Lemma conf_filters_step (fn : string) :
  Spec.evolves R (for_each (confFilters ext) (fun f => modify (upd_d (f fn)))).
Proof.
  apply evolves_for_each. intros f Hf s. apply view_eq_step.
  unfold Spec.inherit_view. simpl. rewrite (proj2 Hext f fn _ Hf). reflexivity.
Qed.

(** *** A class file handled directly is put on the list *)

Lemma register_class_step (fn : string) :
  Spec.evolves R
    (cache <- gets (fun s => BBHandler.inherit_cache_or_nil (st_d s)) ;;
     when (negb (bool_decide (fn ∈ cache)))
       (modify (upd_d (Parse.set_inherit_cache (Some (cache ++ [fn])%list))))).
Proof.
  intros s. unfold bind, gets, when, modify. simpl.
  case_bool_decide as Hin; simpl; [apply inherit_step_refl|].
  unfold Spec.inherit_step, Spec.inherit_cache, Spec.dispatched,
    BBHandler.inherit_cache_or_nil. simpl.
  destruct (decide (fn = c)) as [->|Hne].
  - rewrite occurrences_snoc_eq.
    rewrite (occurrences_zero c _ Hin). lia.
  - rewrite occurrences_snoc_ne by exact Hne. lia.
Qed.

(** *** [inherit] *)

Lemma inherit_one_step (handle : string -> bool -> M Handled)
  (fn : string) (lineno : Z) (deferred : bool) (cache : list string) (file : string)
  (s : State) :
  (forall f, Spec.evolves R (handle f true)) ->
  cache = Spec.inherit_cache s ->
  let r := BBHandler.inherit_one os ext handle fn lineno deferred cache file s in
  R s (snd r) /\ (forall cache', fst r = Ret cache' -> cache' = Spec.inherit_cache (snd r)).
Proof.
  intros Hh Hc. cbv zeta.
  destruct (BBHandler.inherit_one os ext handle fn lineno deferred cache file s)
    as [res s'] eqn:Hr.
  unfold BBHandler.inherit_one in Hr.
  unfold bind at 1 in Hr. rewrite getVar_run in Hr.
  destruct (negb deferred && bool_decide _).
  - unfold bind at 1 in Hr.
    pose proof (inherit_defer_keeps_view c file fn lineno s) as Hk.
    apply view_eq_step in Hk as [HR Hcache].
    destruct (BBHandler.inherit_defer file fn lineno s) as [[[]|e] s1];
      injection Hr as <- <-; (split; [exact HR|]); cbn [fst snd] in *.
    + intros cache' [= <-]. congruence.
    + intros cache' [=].
  - cbv zeta in Hr. unfold bind at 1 in Hr.
    pose proof (_resolve_inherit_file_keeps_view os ext c file s) as H1.
    apply view_eq_step in H1 as [HR1 Hc1].
    destruct (BBHandler._resolve_inherit_file os ext file s) as [[r|e] s1];
      cbn [fst snd] in *; [|injection Hr as <- <-; split; [exact HR1|intros ? [=]]].
    unfold bind at 1 in Hr.
    assert (H2 : Spec.keeps (Spec.inherit_view c)
                   (for_each (snd r)
                      (fun af => if bool_decide (Some af <> fst r)
                                 then Parse.mark_dependency os af else ret tt))).
    { apply keeps_for_each. intros af. destruct (bool_decide _); keeps_tac. }
    specialize (H2 s1). apply view_eq_step in H2 as [HR2 Hc2].
    pose proof (inherit_step_trans c _ _ _ HR1 HR2) as HR12.
    destruct (for_each _ _ s1) as [[[]|e] s2];
      cbn [fst snd] in *; [|injection Hr as <- <-; split; [exact HR12|intros ? [=]]].
    destruct (fst r) as [file'|];
      [|injection Hr as <- <-; split; [exact HR12|intros ? [=]]].
    destruct (negb (Str.truthy file') || negb (exists_ os file'));
      [injection Hr as <- <-; split; [exact HR12|intros ? [=]]|].
    case_bool_decide as Hin.
    + injection Hr as <- <-. split; [exact HR12|]. cbn [fst snd].
      intros cache' [= <-]. congruence.
    + cbv zeta in Hr.
      unfold bind at 1 in Hr. unfold modify at 1 in Hr.
      unfold bind at 1 in Hr. unfold log_event at 1, modify at 1 in Hr.
      set (s3 := upd_log _ _) in Hr.
      assert (HR3 : R s2 s3).
      { subst s3. unfold Spec.inherit_step, Spec.inherit_cache, Spec.dispatched,
          BBHandler.inherit_cache_or_nil. simpl.
        assert (Hs2 : default [] (d_inherit_cache (st_d s2)) = cache).
        { rewrite Hc. unfold Spec.inherit_cache, BBHandler.inherit_cache_or_nil in *.
          congruence. }
        rewrite Hs2.
        destruct (decide (file' = c)) as [->|Hne].
        - rewrite !occurrences_snoc_eq. rewrite (occurrences_zero c _ Hin). lia.
        - rewrite !occurrences_snoc_ne by congruence. lia. }
      pose proof (inherit_step_trans c _ _ _ HR12 HR3) as HR123.
      unfold bind at 1 in Hr. unfold try_except at 1 in Hr. unfold bind at 1 in Hr.
      pose proof (Hh file' s3) as HR4.
      destruct (handle file' true s3) as [[h|e] s4]; cbn [fst snd] in *.
      * unfold ret at 1 in Hr. unfold gets in Hr. injection Hr as <- <-.
        split; [exact (inherit_step_trans c _ _ _ HR123 HR4)|].
        cbn [fst snd]. intros cache' [= <-]. reflexivity.
      * destruct e; injection Hr as <- <-;
          (split; [exact (inherit_step_trans c _ _ _ HR123 HR4)|intros ? [=]]).
Qed.

Lemma inherit_loop_step (handle : string -> bool -> M Handled)
  (fn : string) (lineno : Z) (deferred : bool) (files : list string) :
  (forall f, Spec.evolves R (handle f true)) ->
  forall (cache : list string) (s : State),
    cache = Spec.inherit_cache s ->
    R s (snd (BBHandler.inherit_loop os ext handle fn lineno deferred files cache s)).
Proof.
  intros Hh. induction files as [|file files IH]; intros cache s Hc; simpl.
  - apply inherit_step_refl.
  - unfold bind.
    destruct (inherit_one_step handle fn lineno deferred cache file s Hh Hc) as [HR Hc'].
    destruct (BBHandler.inherit_one os ext handle fn lineno deferred cache file s)
      as [[cache'|e] s1]; cbn [fst snd] in *; [|exact HR].
    exact (inherit_step_trans c _ _ _ HR (IH cache' s1 (Hc' cache' eq_refl))).
Qed.

Lemma inherit_evolves (handle : string -> bool -> M Handled)
  (files fn : string) (lineno : Z) (deferred : bool) :
  (forall f, Spec.evolves R (handle f true)) ->
  Spec.evolves R (BBHandler.inherit os ext handle files fn lineno deferred).
Proof.
  intros Hh s. unfold BBHandler.inherit, bind, gets. cbn [fst snd].
  apply inherit_loop_step; [exact Hh|reflexivity].
Qed.

(** *** [include], statement evaluation and the handlers *)

#[local] Hint Resolve eval_leaf_step conf_filters_step register_class_step
  inherit_evolves : evolves.

Lemma include_single_file_evolves (handle : string -> bool -> M Handled)
  (parentfn fn : string) (lineno : Z) (error_out : option string) :
  (forall f, Spec.evolves R (handle f true)) ->
  Spec.evolves R (ConfHandler.include_single_file os ext handle parentfn fn lineno error_out).
Proof. intros Hh. unfold ConfHandler.include_single_file. evolves_tac. Qed.

#[local] Hint Resolve include_single_file_evolves : evolves.

Lemma include_evolves (handle : string -> bool -> M Handled)
  (parentfn fns : string) (lineno : Z) (error_out : option string) :
  (forall f, Spec.evolves R (handle f true)) ->
  Spec.evolves R (ConfHandler.include os ext handle parentfn fns lineno error_out).
Proof. intros Hh. unfold ConfHandler.include. evolves_tac. Qed.

#[local] Hint Resolve include_evolves : evolves.

Lemma eval_node_evolves (handle : string -> bool -> M Handled) (n : Node) :
  (forall f, Spec.evolves R (handle f true)) ->
  Spec.evolves R (Dispatch.eval_node os ext handle n).
Proof. intros Hh. unfold Dispatch.eval_node. evolves_tac. Qed.

#[local] Hint Resolve eval_node_evolves : evolves.

Lemma eval_evolves (handle : string -> bool -> M Handled) (statements : StatementGroup) :
  (forall f, Spec.evolves R (handle f true)) ->
  Spec.evolves R (Dispatch.eval os ext handle statements).
Proof. intros Hh. unfold Dispatch.eval. evolves_tac. Qed.

#[local] Hint Resolve eval_evolves : evolves.

Lemma conf_handle_evolves (eval : StatementGroup -> M unit)
  (fn : string) (include baseconfig : bool) :
  (forall statements, Spec.evolves R (eval statements)) ->
  Spec.evolves R (ConfHandler.handle os ext eval fn include baseconfig).
Proof. intros He. unfold ConfHandler.handle, ConfHandler.init. evolves_tac. Qed.

(** The recipe handler, entered for an include or an inherit: nothing
    is finalised. *)
Lemma bb_handle_evolves (eval : StatementGroup -> M unit) (fn : string) (baseconfig : bool) :
  (forall statements, Spec.evolves R (eval statements)) ->
  Spec.evolves R (BBHandler.handle os ext eval fn true baseconfig).
Proof.
  intros He. unfold BBHandler.handle, ConfHandler.init.
  rewrite !andb_false_r. evolves_tac.
Qed.

#[local] Hint Resolve conf_handle_evolves bb_handle_evolves : evolves.

Lemma handle_step_evolves (again : string -> bool -> M Handled)
  (fn : string) (baseconfig : bool) :
  (forall f, Spec.evolves R (again f true)) ->
  Spec.evolves R (Dispatch.handle_step os ext again fn true baseconfig).
Proof. intros Hh. unfold Dispatch.handle_step. evolves_tac. Qed.

Lemma handle_evolves (depth : nat) (fn : string) (baseconfig : bool) :
  Spec.evolves R (Dispatch.handle os ext depth fn true baseconfig).
Proof.
  revert fn baseconfig. induction depth as [|depth IH]; intros fn baseconfig; simpl.
  - apply evolves_raise.
  - apply handle_step_evolves. intros f. apply IH.
Qed.

Lemma dispatch_inherit_evolves (depth : nat) (files fn : string) (lineno : Z)
  (deferred : bool) :
  Spec.evolves R (Dispatch.inherit os ext depth files fn lineno deferred).
Proof.
  unfold Dispatch.inherit. apply inherit_evolves. intros f. apply handle_evolves.
Qed.

Lemma inherit_calls_step (calls : list Spec.InheritCall) (s : State) :
  R s (Spec.inherit_calls os ext calls s).
Proof.
  revert s. induction calls as [|call calls IH]; intros s; simpl.
  - apply inherit_step_refl.
  - eapply inherit_step_trans; [apply dispatch_inherit_evolves|apply IH].
Qed.

(** *** The call that inherits [c] *)

Lemma inherit_step_after (s s' : State) :
  R s s' -> Spec.occurrences c (Spec.inherit_cache s) = 1%nat ->
  Spec.occurrences c (Spec.inherit_cache s') = 1%nat
  /\ Spec.dispatched c s' = Spec.dispatched c s.
Proof. unfold Spec.inherit_step. lia. Qed.

Lemma inherit_one_first (handle : string -> bool -> M Handled)
  (fn : string) (lineno : Z) (deferred : bool) (file : string) (attempts : list string)
  (s : State) :
  (forall f, Spec.evolves R (handle f true)) ->
  (c ∉ Spec.inherit_cache s) ->
  negb deferred && bool_decide (file ∈ Spec.defer_list ext s) = false ->
  fst (BBHandler._resolve_inherit_file os ext file s) = Ret (Some c, attempts) ->
  Str.truthy c = true ->
  exists_ os c = true ->
  let r := BBHandler.inherit_one os ext handle fn lineno deferred (Spec.inherit_cache s)
             file s in
  Spec.occurrences c (Spec.inherit_cache (snd r)) = 1%nat
  /\ Spec.dispatched c (snd r) = S (Spec.dispatched c s).
Proof.
  intros Hh Hnew Hdef Hres Htr Hex. cbv zeta.
  destruct (BBHandler.inherit_one os ext handle fn lineno deferred (Spec.inherit_cache s)
              file s) as [res s'] eqn:Hr.
  unfold BBHandler.inherit_one in Hr.
  unfold bind at 1 in Hr. rewrite getVar_run in Hr.
  unfold Spec.defer_list in Hdef. rewrite getVar_run in Hdef. cbn [fst] in Hdef.
  rewrite Hdef in Hr.
  cbv zeta in Hr. unfold bind at 1 in Hr.
  pose proof (_resolve_inherit_file_keeps_view os ext c file s) as H1.
  apply view_eq_step in H1 as [HR1 Hc1].
  destruct (BBHandler._resolve_inherit_file os ext file s) as [[r|e] s1];
    cbn [fst snd] in *; [|discriminate].
  injection Hres as ->. cbn [fst snd] in Hr.
  unfold bind at 1 in Hr.
  assert (H2 : Spec.keeps (Spec.inherit_view c)
                 (for_each attempts
                    (fun af => if bool_decide (Some af <> Some c)
                               then Parse.mark_dependency os af else ret tt))).
  { apply keeps_for_each. intros af. destruct (bool_decide _); keeps_tac. }
  specialize (H2 s1). apply view_eq_step in H2 as [HR2 Hc2].
  pose proof (inherit_step_trans c _ _ _ HR1 HR2) as HR12.
  assert (Hzero : Spec.occurrences c (Spec.inherit_cache s) = 0%nat)
    by (apply occurrences_zero; exact Hnew).
  assert (Hfe : exists s2,
             for_each attempts
               (fun af => if bool_decide (Some af <> Some c)
                          then Parse.mark_dependency os af else ret tt) s1 = (Ret tt, s2)).
  { eexists.
    apply (for_each_total _
             (fun af s0 => if bool_decide (Some af <> Some c)
                           then Spec.mark_all os [af] s0 else s0)).
    intros af s0. destruct (bool_decide (Some af <> Some c));
      [apply mark_dependency_run|reflexivity]. }
  destruct Hfe as [s2 Hfe]. rewrite Hfe in Hr, HR2, Hc2, HR12. cbn [fst snd] in *.
  rewrite Htr, Hex in Hr. cbn [negb orb] in Hr.
  assert (Hs2 : Spec.inherit_cache s2 = Spec.inherit_cache s) by congruence.
  case_bool_decide as Hin; [contradiction|].
  cbv zeta in Hr.
  unfold bind at 1 in Hr. unfold modify at 1 in Hr.
  unfold bind at 1 in Hr. unfold log_event at 1, modify at 1 in Hr.
  set (s3 := upd_log _ _) in Hr.
  assert (H3 : Spec.occurrences c (Spec.inherit_cache s3) = 1%nat
               /\ Spec.dispatched c s3 = S (Spec.dispatched c s)).
  { destruct HR12 as (_ & _ & Hn1 & Hn2). rewrite Hs2, Hzero in Hn2.
    subst s3. unfold Spec.inherit_cache, Spec.dispatched,
      BBHandler.inherit_cache_or_nil in *. simpl.
    rewrite !occurrences_snoc_eq. rewrite Hzero. lia. }
  destruct H3 as [Ha3 Hn3].
  unfold bind at 1 in Hr. unfold try_except at 1 in Hr. unfold bind at 1 in Hr.
  pose proof (inherit_step_after _ _ (Hh c s3) Ha3) as [Ha4 Hn4].
  destruct (handle c true s3) as [[h|e] s4]; cbn [fst snd] in *.
  - unfold ret at 1 in Hr. unfold gets in Hr. injection Hr as <- <-.
    split; [exact Ha4|congruence].
  - destruct e; injection Hr as <- <-; (split; [exact Ha4|congruence]).
Qed.

Lemma inherit_first (depth : nat) (files fn : string) (lineno : Z) (deferred : bool)
  (file : string) (rest attempts : list string) (s : State) :
  (c ∉ Spec.inherit_cache s) ->
  Str.words (expand ext (d_vars (st_d s)) files) = file :: rest ->
  negb deferred && bool_decide (file ∈ Spec.defer_list ext s) = false ->
  fst (BBHandler._resolve_inherit_file os ext file s) = Ret (Some c, attempts) ->
  Str.truthy c = true ->
  exists_ os c = true ->
  let s' := snd (Dispatch.inherit os ext depth files fn lineno deferred s) in
  Spec.occurrences c (Spec.inherit_cache s') = 1%nat
  /\ Spec.dispatched c s' = S (Spec.dispatched c s).
Proof.
  intros Hnew Hw Hdef Hres Htr Hex. cbv zeta.
  set (handle := fun fn0 include => Dispatch.handle os ext depth fn0 include false).
  assert (Hh : forall f, Spec.evolves R (handle f true)).
  { intros f. apply handle_evolves. }
  assert (Hrun : Dispatch.inherit os ext depth files fn lineno deferred s =
                 bind (BBHandler.inherit_one os ext handle fn lineno deferred
                         (Spec.inherit_cache s) file)
                   (BBHandler.inherit_loop os ext handle fn lineno deferred rest) s).
  { unfold Dispatch.inherit, BBHandler.inherit. unfold bind at 1. unfold gets at 1.
    rewrite Hw. reflexivity. }
  rewrite Hrun. unfold bind.
  pose proof (inherit_one_first handle fn lineno deferred file attempts s
                Hh Hnew Hdef Hres Htr Hex) as [Ha Hn].
  destruct (inherit_one_step handle fn lineno deferred (Spec.inherit_cache s) file s
              Hh eq_refl) as [_ Hc'].
  destruct (BBHandler.inherit_one os ext handle fn lineno deferred
              (Spec.inherit_cache s) file s) as [[cache'|e] s1]; cbn [fst snd] in *.
  - pose proof (inherit_loop_step handle fn lineno deferred rest Hh cache' s1
                  (Hc' cache' eq_refl)) as HR.
    destruct (inherit_step_after _ _ HR Ha) as [Ha' Hn']. split; congruence.
  - split; assumption.
Qed.

End Inherit.

(** ** Inherit: the call of the dispatcher *)

Section InheritCall.
Context (os : OS) (ext : External).

Lemma for_each_marks_filtered (P : string -> Prop) `{!forall x, Decision (P x)}
  (l : list string) :
  forall s : State,
    for_each l (fun af => if bool_decide (P af) then Parse.mark_dependency os af else ret tt)
      s = (Ret tt, Spec.mark_all os (filter P l) s).
Proof.
  induction l as [|f l IH]; intros s.
  - cbn. rewrite mark_all_nil. reflexivity.
  - cbn [for_each]. unfold bind. case_bool_decide as Hf.
    + rewrite mark_dependency_run. rewrite IH.
      rewrite filter_cons_True by exact Hf.
      change (f :: filter P l) with ([f] ++ filter P l).
      rewrite mark_all_app. reflexivity.
    + unfold ret at 1. rewrite IH. rewrite filter_cons_False by exact Hf. reflexivity.
Qed.

(** One class of an [inherit] call that is not deferred and resolves
    to the existing file [c]: when [c] is on the list nothing more is
    done; when it is not, it is put there and the dispatcher is
    applied to it, once, and its outcome is the outcome of the step. *)
Lemma inherit_one_run (handle : string -> bool -> M Handled)
  (fn : string) (lineno : Z) (deferred : bool) (cache : list string)
  (file c : string) (attempts : list string) (s0 s1 : State) :
  negb deferred && bool_decide (file ∈ Spec.defer_list ext s0) = false ->
  BBHandler._resolve_inherit_file os ext file s0 = (Ret (Some c, attempts), s1) ->
  Str.truthy c = true ->
  exists_ os c = true ->
  let s2 := Spec.mark_all os (filter (fun af => Some af <> Some c) attempts) s1 in
  BBHandler.inherit_one os ext handle fn lineno deferred cache file s0 =
    if bool_decide (c ∈ cache) then (Ret cache, s2)
    else
      let s3 := upd_log (fun l => l ++ [InheritDispatched c])
                  (upd_d (Parse.set_inherit_cache (Some (cache ++ [c]))) s2) in
      match handle c true s3 with
      | (Ret _, s4) => (Ret (Spec.inherit_cache s4), s4)
      | (Raise (IOError _ _), s4) =>
          (Raise (ParseError (CouldNotInheritFrom fn) fn lineno), s4)
      | (Raise e, s4) => (Raise e, s4)
      end.
Proof.
  intros Hdef Hres Htr Hex. cbv zeta.
  unfold BBHandler.inherit_one.
  unfold bind at 1. rewrite getVar_run.
  unfold Spec.defer_list in Hdef. rewrite getVar_run in Hdef. cbn [fst] in Hdef.
  rewrite Hdef. cbv zeta. unfold bind at 1. rewrite Hres. cbn [fst snd].
  unfold bind at 1.
  rewrite (for_each_marks_filtered (fun af => Some af <> Some c) attempts s1).
  rewrite Htr, Hex. cbn [negb orb].
  destruct (bool_decide (c ∈ cache)); [reflexivity|].
  unfold bind at 1. unfold modify at 1.
  unfold bind at 1. unfold log_event at 1, modify at 1.
  unfold bind at 1. unfold try_except at 1. unfold bind at 1.
  destruct (handle c true _) as [[h|e] s4]; [reflexivity|].
  destruct e; reflexivity.
Qed.

(** The same for the whole call, whose first class it is. *)
Lemma inherit_run (handle : string -> bool -> M Handled)
  (files fn : string) (lineno : Z) (deferred : bool)
  (file c : string) (rest attempts : list string) (s0 s1 : State) :
  Str.words (expand ext (d_vars (st_d s0)) files) = file :: rest ->
  negb deferred && bool_decide (file ∈ Spec.defer_list ext s0) = false ->
  BBHandler._resolve_inherit_file os ext file s0 = (Ret (Some c, attempts), s1) ->
  Str.truthy c = true ->
  exists_ os c = true ->
  let cache := Spec.inherit_cache s0 in
  let s2 := Spec.mark_all os (filter (fun af => Some af <> Some c) attempts) s1 in
  BBHandler.inherit os ext handle files fn lineno deferred s0 =
    if bool_decide (c ∈ cache)
    then BBHandler.inherit_loop os ext handle fn lineno deferred rest cache s2
    else
      let s3 := upd_log (fun l => l ++ [InheritDispatched c])
                  (upd_d (Parse.set_inherit_cache (Some (cache ++ [c]))) s2) in
      match handle c true s3 with
      | (Ret _, s4) =>
          BBHandler.inherit_loop os ext handle fn lineno deferred rest
            (Spec.inherit_cache s4) s4
      | (Raise (IOError _ _), s4) =>
          (Raise (ParseError (CouldNotInheritFrom fn) fn lineno), s4)
      | (Raise e, s4) => (Raise e, s4)
      end.
Proof.
  intros Hw Hdef Hres Htr Hex. cbv zeta.
  assert (Hrun : BBHandler.inherit os ext handle files fn lineno deferred s0 =
                 bind (BBHandler.inherit_one os ext handle fn lineno deferred
                         (Spec.inherit_cache s0) file)
                   (BBHandler.inherit_loop os ext handle fn lineno deferred rest) s0).
  { unfold BBHandler.inherit. unfold bind at 1. unfold gets at 1.
    rewrite Hw. reflexivity. }
  rewrite Hrun. unfold bind.
  rewrite (inherit_one_run handle fn lineno deferred (Spec.inherit_cache s0) file c
             attempts s0 s1 Hdef Hres Htr Hex).
  cbv zeta.
  destruct (bool_decide (c ∈ Spec.inherit_cache s0)); [reflexivity|].
  destruct (handle c true _) as [[h|e] s4]; [reflexivity|].
  destruct e; reflexivity.
Qed.

(** *** With the class on the list the dispatcher for it is not used *)

Section Same.
Context (c : string) (h h' : string -> bool -> M Handled).
Hypothesis Hagree : forall f s, f <> c -> h' f true s = h f true s.
Hypothesis Hkeep :
  forall f s, c ∈ Spec.inherit_cache s -> c ∈ Spec.inherit_cache (snd (h f true s)).

Lemma inherit_one_same (fn : string) (lineno : Z) (deferred : bool)
  (cache : list string) (file : string) (s : State) :
  c ∈ cache ->
  BBHandler.inherit_one os ext h' fn lineno deferred cache file s =
    BBHandler.inherit_one os ext h fn lineno deferred cache file s.
Proof.
  intros Hc. unfold BBHandler.inherit_one, bind.
  rewrite getVar_run.
  destruct (negb deferred && _); [reflexivity|].
  cbv zeta.
  destruct (BBHandler._resolve_inherit_file os ext file s) as [[r|e] s1]; [|reflexivity].
  destruct (for_each _ _ s1) as [[[]|e] s2]; [|reflexivity].
  destruct (fst r) as [file'|]; [|reflexivity].
  destruct (negb (Str.truthy file') || negb (exists_ os file')); [reflexivity|].
  destruct (bool_decide (file' ∈ cache)) eqn:Hin; [reflexivity|].
  apply bool_decide_eq_false in Hin.
  assert (Hne : file' <> c) by (intros ->; contradiction).
  unfold log_event, modify, try_except. cbn beta iota.
  rewrite (Hagree file' _ Hne). reflexivity.
Qed.

Lemma inherit_one_member (fn : string) (lineno : Z) (deferred : bool)
  (cache : list string) (file : string) (s : State) (cache' : list string) :
  c ∈ cache ->
  fst (BBHandler.inherit_one os ext h fn lineno deferred cache file s) = Ret cache' ->
  c ∈ cache'.
Proof.
  intros Hc. unfold BBHandler.inherit_one, bind.
  rewrite getVar_run.
  destruct (negb deferred && _).
  - unfold BBHandler.inherit_defer, modify, ret. cbn [fst snd].
    intros [= <-]. exact Hc.
  - cbv zeta.
    destruct (BBHandler._resolve_inherit_file os ext file s) as [[r|e] s1];
      [|discriminate].
    destruct (for_each _ _ s1) as [[[]|e] s2]; [|discriminate].
    destruct (fst r) as [file'|]; [|discriminate].
    destruct (negb (Str.truthy file') || negb (exists_ os file')); [discriminate|].
    destruct (bool_decide (file' ∈ cache)) eqn:Hin.
    + intros [= <-]. exact Hc.
    + unfold log_event, modify, try_except, gets, ret. cbn beta iota.
      match goal with
      | |- context [h file' true ?s3] =>
          pose proof (Hkeep file' s3) as Hk; destruct (h file' true s3) as [[res|e] s4]
      end; cbn [fst snd] in *.
      * intros [= <-]. apply Hk. unfold Spec.inherit_cache, BBHandler.inherit_cache_or_nil.
        simpl. apply elem_of_app. left. exact Hc.
      * destruct e; discriminate.
Qed.

Lemma inherit_loop_same (fn : string) (lineno : Z) (deferred : bool)
  (files : list string) :
  forall (cache : list string) (s : State),
    c ∈ cache ->
    BBHandler.inherit_loop os ext h' fn lineno deferred files cache s =
      BBHandler.inherit_loop os ext h fn lineno deferred files cache s.
Proof.
  induction files as [|file files IH]; intros cache s Hc; [reflexivity|].
  cbn [BBHandler.inherit_loop]. unfold bind.
  rewrite (inherit_one_same fn lineno deferred cache file s Hc).
  pose proof (inherit_one_member fn lineno deferred cache file s) as Hm.
  destruct (BBHandler.inherit_one os ext h fn lineno deferred cache file s)
    as [[cache'|e] s1]; [|reflexivity].
  apply IH. apply Hm; [exact Hc|reflexivity].
Qed.

Lemma inherit_same (files fn : string) (lineno : Z) (deferred : bool) (s : State) :
  c ∈ Spec.inherit_cache s ->
  BBHandler.inherit os ext h' files fn lineno deferred s =
    BBHandler.inherit os ext h files fn lineno deferred s.
Proof.
  intros Hc. unfold BBHandler.inherit, bind, gets. cbn [fst snd].
  apply inherit_loop_same. exact Hc.
Qed.

(** The call whose first class resolves to [c]: the one application
    of the dispatcher to [c] apart, it runs the same whatever
    dispatcher it is given for [c]. *)
Lemma inherit_run_same (files fn : string) (lineno : Z) (deferred : bool)
  (file : string) (rest attempts : list string) (s0 s1 : State) :
  Str.words (expand ext (d_vars (st_d s0)) files) = file :: rest ->
  negb deferred && bool_decide (file ∈ Spec.defer_list ext s0) = false ->
  BBHandler._resolve_inherit_file os ext file s0 = (Ret (Some c, attempts), s1) ->
  Str.truthy c = true ->
  exists_ os c = true ->
  let cache := Spec.inherit_cache s0 in
  let s2 := Spec.mark_all os (filter (fun af => Some af <> Some c) attempts) s1 in
  BBHandler.inherit os ext h files fn lineno deferred s0 =
    if bool_decide (c ∈ cache)
    then BBHandler.inherit_loop os ext h' fn lineno deferred rest cache s2
    else
      let s3 := upd_log (fun l => l ++ [InheritDispatched c])
                  (upd_d (Parse.set_inherit_cache (Some (cache ++ [c]))) s2) in
      match h c true s3 with
      | (Ret _, s4) =>
          BBHandler.inherit_loop os ext h' fn lineno deferred rest
            (Spec.inherit_cache s4) s4
      | (Raise (IOError _ _), s4) =>
          (Raise (ParseError (CouldNotInheritFrom fn) fn lineno), s4)
      | (Raise e, s4) => (Raise e, s4)
      end.
Proof.
  intros Hw Hdef Hres Htr Hex. cbv zeta.
  rewrite (inherit_run h files fn lineno deferred file c rest attempts s0 s1
             Hw Hdef Hres Htr Hex). cbv zeta.
  destruct (bool_decide (c ∈ Spec.inherit_cache s0)) eqn:Hin.
  - apply bool_decide_eq_true in Hin.
    symmetry. apply inherit_loop_same. exact Hin.
  - match goal with
    | |- context [h c true ?s3] =>
        pose proof (Hkeep c s3) as Hk; destruct (h c true s3) as [[res|e] s4]
    end; cbn [fst snd] in Hk; [|reflexivity].
    symmetry. apply inherit_loop_same. apply Hk.
    unfold Spec.inherit_cache, BBHandler.inherit_cache_or_nil. simpl.
    apply elem_of_app. right. left.
Qed.

End Same.

End InheritCall.

(** ** Inherit: at most once for each datastore *)

Lemma sample_ext_leaves_inherit_cache : Spec.leaves_inherit_cache Sample.ext.
Proof.
  split.
  - intros n d d' H. simpl in H. unfold Sample.assign in H.
    repeat match type of H with
           | context [match ?x with _ => _ end] => destruct x
           end; injection H as <-; reflexivity.
  - intros f fn d Hf. simpl in Hf. inversion Hf.
Qed.

(** C4: a class file is inherited at most once for each datastore.  Over
    any number of calls of [inherit], of any depth and with any
    arguments, made in turn on one datastore (the external engine leaving
    [__inherit_cache] alone): a class file [c] already on the
    [__inherit_cache] list stays there as often as it was and [inherit]
    does not enter the dispatcher for it; a class file not on the list
    gets there at most once, and [inherit] enters the dispatcher for it
    at most once and only on adding it; and when the first call names,
    first, a class that is not deferred and resolves to the existing file
    [c], then after that call and all the others [c] is on the list
    exactly once and [inherit] has entered the dispatcher for it exactly
    once.  The entries counted are calls of the dispatcher.  A call of
    [inherit] whose first class resolves to [c] and finds [c] missing
    from the list puts it there and applies the dispatcher to [c] once,
    with the include flag set; the outcome of that application is the
    outcome of the step (an [OSError] turned into a [ParseError]), and
    the rest of the call runs the same whatever dispatcher it is given
    for [c].  And any call that finds [c] on the list runs the same
    whatever dispatcher it is given for [c]: it does not apply it. *)
Theorem inherit_at_most_once (os : OS) (ext : External) (c : string)
  (calls : list Spec.InheritCall) (s : State) :
  Spec.leaves_inherit_cache ext ->
  let s' := Spec.inherit_calls os ext calls s in
  (c ∈ Spec.inherit_cache s ->
   Spec.occurrences c (Spec.inherit_cache s') = Spec.occurrences c (Spec.inherit_cache s)
   /\ Spec.dispatched c s' = Spec.dispatched c s)
  /\ ((c ∉ Spec.inherit_cache s) ->
      (Spec.occurrences c (Spec.inherit_cache s') <= 1)%nat
      /\ (Spec.dispatched c s <= Spec.dispatched c s')%nat
      /\ (Spec.dispatched c s'
          <= Spec.dispatched c s + Spec.occurrences c (Spec.inherit_cache s'))%nat)
  /\ ((c ∉ Spec.inherit_cache s) ->
      forall (first : Spec.InheritCall) (more : list Spec.InheritCall)
             (file : string) (rest attempts : list string),
        calls = first :: more ->
        Str.words (expand ext (d_vars (st_d s)) (Spec.ic_files first)) = file :: rest ->
        negb (Spec.ic_deferred first) && bool_decide (file ∈ Spec.defer_list ext s) = false ->
        fst (BBHandler._resolve_inherit_file os ext file s) = Ret (Some c, attempts) ->
        Str.truthy c = true ->
        exists_ os c = true ->
        Spec.occurrences c (Spec.inherit_cache s') = 1%nat
        /\ Spec.dispatched c s' = S (Spec.dispatched c s))
  /\ (forall (depth : nat) (files fn : string) (lineno : Z) (deferred : bool)
             (file : string) (rest attempts : list string) (s0 s1 : State)
             (other : string -> bool -> M Handled),
        Str.words (expand ext (d_vars (st_d s0)) files) = file :: rest ->
        negb deferred && bool_decide (file ∈ Spec.defer_list ext s0) = false ->
        BBHandler._resolve_inherit_file os ext file s0 = (Ret (Some c, attempts), s1) ->
        Str.truthy c = true ->
        exists_ os c = true ->
        (forall f s2, f <> c -> other f true s2 = Dispatch.handle os ext depth f true false s2) ->
        let cache := Spec.inherit_cache s0 in
        let s2 := Spec.mark_all os (filter (fun af => Some af <> Some c) attempts) s1 in
        Dispatch.inherit os ext depth files fn lineno deferred s0 =
          if bool_decide (c ∈ cache)
          then BBHandler.inherit_loop os ext other fn lineno deferred rest cache s2
          else
            let s3 := upd_log (fun l => l ++ [InheritDispatched c])
                        (upd_d (Parse.set_inherit_cache (Some (cache ++ [c]))) s2) in
            match Dispatch.handle os ext depth c true false s3 with
            | (Ret _, s4) =>
                BBHandler.inherit_loop os ext other fn lineno deferred rest
                  (Spec.inherit_cache s4) s4
            | (Raise (IOError _ _), s4) =>
                (Raise (ParseError (CouldNotInheritFrom fn) fn lineno), s4)
            | (Raise e, s4) => (Raise e, s4)
            end)
  /\ (forall (depth : nat) (files fn : string) (lineno : Z) (deferred : bool)
             (other : string -> bool -> M Handled) (s0 : State),
        c ∈ Spec.inherit_cache s0 ->
        (forall f s1, f <> c -> other f true s1 = Dispatch.handle os ext depth f true false s1) ->
        BBHandler.inherit os ext other files fn lineno deferred s0 =
          Dispatch.inherit os ext depth files fn lineno deferred s0).
Proof.
  intros Hext. cbv zeta.
  pose proof (inherit_calls_step os ext c Hext calls s) as HR.
  assert (Hkeep : forall depth f s1,
            c ∈ Spec.inherit_cache s1 ->
            c ∈ Spec.inherit_cache (snd (Dispatch.handle os ext depth f true false s1))).
  { intros depth f s1 Hc. apply occurrences_pos. apply occurrences_pos in Hc.
    pose proof (handle_evolves os ext c Hext depth f false s1) as HR1.
    unfold Spec.inherit_step in HR1. lia. }
  split; [|split; [|split; [|split]]].
  - intros Hin. apply occurrences_pos in Hin.
    unfold Spec.inherit_step in HR. lia.
  - intros Hnew. apply occurrences_zero in Hnew.
    unfold Spec.inherit_step in HR. lia.
  - intros Hnew first more file rest attempts -> Hw Hdef Hres Htr Hex.
    simpl.
    destruct (inherit_first os ext c Hext (Spec.ic_depth first) (Spec.ic_files first)
                (Spec.ic_fn first) (Spec.ic_lineno first) (Spec.ic_deferred first)
                file rest attempts s Hnew Hw Hdef Hres Htr Hex) as [Ha Hn].
    destruct (inherit_step_after c _ _ (inherit_calls_step os ext c Hext more _) Ha)
      as [Ha' Hn'].
    split; congruence.
  - intros depth files fn lineno deferred file rest attempts s0 s1 other
      Hw Hdef Hres Htr Hex Hsame.
    unfold Dispatch.inherit.
    apply (inherit_run_same os ext c
             (fun fn0 include => Dispatch.handle os ext depth fn0 include false) other
             Hsame (Hkeep depth) files fn lineno deferred file rest attempts s0 s1
             Hw Hdef Hres Htr Hex).
  - intros depth files fn lineno deferred other s0 Hin Hsame.
    unfold Dispatch.inherit.
    apply (inherit_same os ext c
             (fun fn0 include => Dispatch.handle os ext depth fn0 include false) other
             Hsame (Hkeep depth)).
    exact Hin.
Qed.

Lemma inherit_at_most_once_witness :
  let c := "/L/classes/base.bbclass" in
  let call := {| Spec.ic_depth := 4; Spec.ic_files := "base"; Spec.ic_fn := "/r/x.bb";
                 Spec.ic_lineno := 1; Spec.ic_deferred := false |} in
  let s := Init.state (Init.datastore [("BBPATH", "/L")]) in
  let s' := Spec.inherit_calls Sample.os Sample.ext [call; call; call] s in
  Spec.occurrences c (Spec.inherit_cache s') = 1%nat
  /\ Spec.dispatched c s' = 1%nat
  /\ Spec.occurrences (Dispatched c) (st_log s') = 1%nat.
Proof.
  intros c call s s'.
  assert (H : Spec.occurrences c (Spec.inherit_cache s') = 1%nat
              /\ Spec.dispatched c s' = 1%nat).
  { apply (proj1 (proj2 (proj2 (inherit_at_most_once Sample.os Sample.ext c
                                  [call; call; call] s
                                  sample_ext_leaves_inherit_cache))))
      with (first := call) (more := [call; call]) (file := "base") (rest := [])
           (attempts := ["/L/classes-None/base.bbclass"; "/L/classes/base.bbclass"]).
    - vm_compute. intros H. inversion H.
    - reflexivity.
    - vm_compute. reflexivity.
    - vm_compute. reflexivity.
    - vm_compute. reflexivity.
    - vm_compute. reflexivity.
    - vm_compute. reflexivity. }
  destruct H as [H1 H2].
  split; [exact H1|]. split; [exact H2|]. vm_compute. reflexivity.
Defined.

(** * Further properties of the package *)

(** ** Text primitives *)

Lemma string_app_nil_r (s : string) : (s ++ "")%string = s.
Proof.
  induction s as [|c s IH]; [reflexivity|].
  change (String c (s ++ "")%string = String c s). rewrite IH. reflexivity.
Qed.

Lemma string_app_assoc (a b c : string) : ((a ++ b) ++ c)%string = (a ++ (b ++ c))%string.
Proof.
  induction a as [|x a IH]; [reflexivity|].
  change (String x ((a ++ b) ++ c)%string = String x (a ++ (b ++ c))%string).
  rewrite IH. reflexivity.
Qed.

Lemma rev_app_spec (s1 s2 : string) :
  String.rev_app s1 s2 = (String.rev s1 ++ s2)%string.
Proof.
  revert s2. induction s1 as [|a s1 IH]; intros s2; [reflexivity|].
  unfold String.rev. cbn [String.rev_app].
  rewrite (IH (String a s2)), (IH (String a "")).
  rewrite string_app_assoc. reflexivity.
Qed.

Lemma rev_cons (c : ascii) (s : string) :
  String.rev (String c s) = (String.rev s ++ String c "")%string.
Proof. unfold String.rev at 1. cbn [String.rev_app]. apply rev_app_spec. Qed.

Lemma startswith_drop (p s : string) :
  Str.startswith p s = true -> s = (p ++ Str.drop (String.length p) s)%string.
Proof.
  revert s. induction p as [|a p IH]; intros s H; simpl in *; [reflexivity|].
  destruct s as [|b s]; [discriminate|].
  destruct (Ascii.eqb a b) eqn:E; [|discriminate].
  apply Ascii.eqb_eq in E. subst b.
  change (String a s = String a (p ++ Str.drop (String.length p) s)%string).
  f_equal. apply IH. exact H.
Qed.

Lemma length_drop (n : nat) (s : string) :
  String.length (Str.drop n s) = (String.length s - n)%nat.
Proof.
  revert s. induction n as [|n IH]; intros s; simpl.
  - lia.
  - destruct s as [|c s]; simpl; [reflexivity|]. apply IH.
Qed.

Lemma split_go_nonempty (sep cur : string) (fuel : nat) (s : string) :
  Str.split_go sep cur fuel s <> [].
Proof.
  destruct fuel as [|fuel]; simpl; [discriminate|].
  destruct s as [|c s]; [discriminate|].
  destruct (Str.startswith sep (String c s)); [discriminate|].
  revert cur c s. induction fuel as [|fuel IH]; intros cur c s; simpl; [discriminate|].
  destruct s as [|c' s]; [discriminate|].
  destruct (Str.startswith sep (String c' s)); [discriminate|]. apply IH.
Qed.

Lemma concat_cons_nonempty (sep x : string) (l : list string) :
  l <> [] -> String.concat sep (x :: l) = (x ++ sep ++ String.concat sep l)%string.
Proof. destruct l; [congruence|reflexivity]. Qed.

(** Joining the pieces of a split with the separator gives the text
    back. *)
Lemma split_go_join (sep : string) (fuel : nat) :
  sep <> ""%string ->
  forall (s cur : string), (String.length s <= fuel)%nat ->
    String.concat sep (Str.split_go sep cur fuel s) = (String.rev cur ++ s)%string.
Proof.
  intros Hsep. induction fuel as [|fuel IH]; intros s cur Hlen.
  - destruct s; [|simpl in Hlen; lia]. rewrite string_app_nil_r. reflexivity.
  - destruct s as [|c s]; [rewrite string_app_nil_r; reflexivity|].
    cbn [Str.split_go].
    destruct (Str.startswith sep (String c s)) eqn:Hst.
    + rewrite concat_cons_nonempty by apply split_go_nonempty.
      rewrite IH.
      * change (String.rev "") with ""%string.
        change ("" ++ Str.drop (String.length sep) (String c s))%string
          with (Str.drop (String.length sep) (String c s)).
        rewrite <- (startswith_drop sep (String c s) Hst). reflexivity.
      * rewrite length_drop. destruct sep; [congruence|]. simpl in *. lia.
    + rewrite IH by (simpl in Hlen; lia).
      rewrite rev_cons, string_app_assoc. reflexivity.
Qed.

Lemma split_join (sep s : string) :
  sep <> ""%string -> Str.join sep (Str.split sep s) = s.
Proof.
  intros Hsep. unfold Str.join, Str.split.
  rewrite split_go_join by (auto; lia). reflexivity.
Qed.

Lemma split_nonempty (sep s : string) : Str.split sep s <> [].
Proof. apply split_go_nonempty. Qed.

(** ** The mtime cache *)

Section MtimeCache.
Context (os : OS) (ext : External).

#[local] Abbreviation coherent_cache := (Props.coherent_cache os).

Lemma coherent_cache_empty : coherent_cache ∅.
Proof. intros f t H. rewrite lookup_empty in H. discriminate. Qed.

Lemma coherent_cache_insert (c : gmap string MtimeTriple) (f : string) (r : stat_result) :
  os_stat os f = Some r -> coherent_cache c -> coherent_cache (<[f := triple_of r]> c).
Proof.
  intros Hr Hc g t Hg. destruct (decide (f = g)) as [<-|Hne].
  - rewrite lookup_insert_eq in Hg. injection Hg as <-.
    unfold Props.stat_stamp. rewrite Hr. reflexivity.
  - rewrite lookup_insert_ne in Hg by exact Hne. exact (Hc g t Hg).
Qed.

Lemma coherent_cache_delete (c : gmap string MtimeTriple) (f : string) :
  coherent_cache c -> coherent_cache (delete f c).
Proof.
  intros Hc g t Hg. destruct (decide (f = g)) as [<-|Hne].
  - rewrite lookup_delete_eq in Hg. discriminate.
  - rewrite lookup_delete_ne in Hg by exact Hne. exact (Hc g t Hg).
Qed.

Lemma coherent_cache_after (c : gmap string MtimeTriple) (p : string) :
  coherent_cache c -> coherent_cache (Spec.cache_after os c p).
Proof.
  intros Hc. unfold Spec.cache_after.
  destruct (c !! p); [exact Hc|].
  destruct (os_stat os p) as [r|] eqn:Hr; [|exact Hc].
  apply coherent_cache_insert; assumption.
Qed.

Lemma coherent_cache_marks (fs : list string) cd :
  coherent_cache (fst cd) -> coherent_cache (fst (Spec.marks os fs cd)).
Proof.
  revert cd. induction fs as [|f fs IH]; intros cd Hc; simpl; [exact Hc|].
  apply IH. simpl. apply coherent_cache_after. exact Hc.
Qed.

Lemma cached_mtime_noerror_coherent (f : string) (s : State) :
  Props.coherent os s -> Props.coherent os (snd (Parse.cached_mtime_noerror os f s)).
Proof.
  intros Hc. rewrite cached_mtime_noerror_run. simpl.
  apply coherent_cache_after. exact Hc.
Qed.

Lemma run_mtime_op_coherent (op : Props.MtimeOp) (s : State) :
  Props.coherent os s -> Props.coherent os (Props.run_mtime_op os ext op s).
Proof.
  intros Hc. destruct op as [f|f|f m|f|f| |f|f|fn]; simpl.
  - unfold Parse.cached_mtime, bind, gets.
    destruct (mtime_cache (st_parse s) !! f) eqn:Hf; simpl; [exact Hc|].
    unfold Parse.stat_or_raise.
    destruct (os_stat os f) as [r|] eqn:Hr; simpl; [|exact Hc].
    apply coherent_cache_insert; assumption.
  - apply cached_mtime_noerror_coherent. exact Hc.
  - unfold Parse.check_mtime.
    destruct (os_stat os f) as [r|] eqn:Hr; simpl; [|exact Hc].
    apply coherent_cache_insert; assumption.
  - unfold Parse.update_mtime.
    destruct (os_stat os f) as [r|] eqn:Hr; simpl.
    + apply coherent_cache_insert; assumption.
    + apply coherent_cache_delete. exact Hc.
  - unfold Parse.update_cache, bind, gets.
    destruct (mtime_cache (st_parse s) !! f) eqn:Hf; simpl; [|exact Hc].
    unfold Parse.update_mtime.
    destruct (os_stat os f) as [r|] eqn:Hr; simpl.
    + apply coherent_cache_insert; assumption.
    + apply coherent_cache_delete. exact Hc.
  - apply coherent_cache_empty.
  - rewrite mark_dependency_run. unfold Spec.mark_all.
    unfold Props.coherent.
    change (mtime_cache (st_parse (Spec.with_marked ?cd s))) with (fst cd).
    apply coherent_cache_marks. exact Hc.
  - unfold Parse.check_dependency. unfold bind at 1.
    pose proof (cached_mtime_noerror_coherent f s Hc) as H.
    destruct (Parse.cached_mtime_noerror os f s) as [[st|e] s1]; exact H.
  - unfold Parse.resolve_file. rewrite resolve_file_run. simpl snd.
    unfold Props.coherent.
    change (mtime_cache (st_parse ?x)) with (fst (Spec.marked x)).
    rewrite marked_resolve_state. apply coherent_cache_marks. exact Hc.
Qed.

Lemma run_mtime_ops_coherent (ops : list Props.MtimeOp) (s : State) :
  Props.coherent os s -> Props.coherent os (Props.run_mtime_ops os ext ops s).
Proof.
  revert s. induction ops as [|op ops IH]; intros s Hc; simpl; [exact Hc|].
  apply IH. apply run_mtime_op_coherent. exact Hc.
Qed.

End MtimeCache.

(** X1: with the file system as it is, the mtime cache never lies once it
    has been cleared.  After [clear_cache] and any calls of the functions
    that read or write the cache, every entry is the present stamp of its
    path, and [cached_mtime_noerror] answers with the present stamp of
    whatever path it is asked for. *)
Theorem mtime_cache_coherent (os : OS) (ext : External) (ops : list Props.MtimeOp)
  (s : State) (f : string) :
  let s' := Props.run_mtime_ops os ext ops (snd (Parse.clear_cache s)) in
  Props.coherent os s'
  /\ fst (Parse.cached_mtime_noerror os f s') = Ret (Props.stat_stamp os f).
Proof.
  cbv zeta.
  assert (Hc : Props.coherent os
                 (Props.run_mtime_ops os ext ops (snd (Parse.clear_cache s)))).
  { apply run_mtime_ops_coherent. apply coherent_cache_empty. }
  split; [exact Hc|].
  rewrite cached_mtime_noerror_run. simpl. unfold Spec.stamp_at, Props.stat_stamp.
  destruct (mtime_cache _ !! f) as [t|] eqn:Hf; [|reflexivity].
  specialize (Hc f t Hf). unfold Props.stat_stamp in Hc.
  destruct (os_stat os f); congruence.
Qed.

(** X2: [update_mtime] makes the cache agree with the file system for its
    path, whatever the cache held: it returns the present stamp, stores
    the triple or deletes the entry of a path that cannot be stat'd,
    touches no other entry, and a following [cached_mtime_noerror]
    returns the present stamp.  [update_cache] does the same for a path
    that has an entry and nothing at all for a path that has none. *)
Theorem update_mtime_refreshes (os : OS) (f : string) (s : State) :
  let r := Parse.update_mtime os f s in
  fst r = Ret (Props.stat_stamp os f)
  /\ mtime_cache (st_parse (snd r)) !! f = triple_of <$> os_stat os f
  /\ (forall g, g <> f ->
        mtime_cache (st_parse (snd r)) !! g = mtime_cache (st_parse s) !! g)
  /\ fst (Parse.cached_mtime_noerror os f (snd r)) = Ret (Props.stat_stamp os f)
  /\ (is_Some (mtime_cache (st_parse s) !! f) ->
      snd (Parse.update_cache os f s) = snd r)
  /\ (mtime_cache (st_parse s) !! f = None ->
      Parse.update_cache os f s = (Ret tt, s)).
Proof.
  cbv zeta.
  assert (Hup : forall t, mtime_cache (st_parse s) !! f = Some t ->
                  snd (Parse.update_cache os f s) = snd (Parse.update_mtime os f s)).
  { intros t Ht. unfold Parse.update_cache. unfold bind at 1. unfold gets at 1.
    rewrite Ht. unfold bind.
    destruct (Parse.update_mtime os f s) as [[st|e] s1]; reflexivity. }
  assert (Hno : mtime_cache (st_parse s) !! f = None ->
                Parse.update_cache os f s = (Ret tt, s)).
  { intros Hn. unfold Parse.update_cache, bind, gets. rewrite Hn. reflexivity. }
  unfold Parse.update_mtime, Props.stat_stamp in *.
  rewrite cached_mtime_noerror_run. unfold Spec.stamp_at.
  destruct (os_stat os f) as [r|] eqn:Hr; simpl.
  - rewrite lookup_insert_eq. repeat split; try assumption.
    + intros g Hg. apply lookup_insert_ne. congruence.
    + intros [t Ht]. apply (Hup t Ht).
  - rewrite lookup_delete_eq. repeat split; try assumption.
    + intros g Hg. apply lookup_delete_ne. congruence.
    + intros [t Ht]. apply (Hup t Ht).
Qed.

(** X3: [check_mtime] compares the given stamp with the file system, not
    with the cache, and refreshes the entry of a file it could stat.  For
    a path that cannot be stat'd it compares with [0] and leaves the cache
    as it is: an entry the path had stays, and [cached_mtime_noerror]
    goes on returning it. *)
Theorem check_mtime_compares_with_stat (os : OS) (f : string) (mtime : Stamp) (s : State) :
  let r := Parse.check_mtime os f mtime s in
  fst r = Ret (bool_decide (Props.stat_stamp os f = mtime))
  /\ (forall res, os_stat os f = Some res ->
        mtime_cache (st_parse (snd r)) = <[f := triple_of res]> (mtime_cache (st_parse s)))
  /\ (os_stat os f = None ->
      snd r = s
      /\ forall t, mtime_cache (st_parse s) !! f = Some t ->
           fst (Parse.cached_mtime_noerror os f (snd r)) = Ret (StampOf t)
           /\ fst (Parse.check_mtime os f (StampOf t) s) = Ret false).
Proof.
  cbv zeta. unfold Parse.check_mtime, Props.stat_stamp.
  destruct (os_stat os f) as [r|] eqn:Hr; simpl.
  - split; [reflexivity|]. split; [|discriminate].
    intros res [= <-]. reflexivity.
  - split; [reflexivity|]. split; [discriminate|].
    intros _. split; [reflexivity|]. intros t Ht.
    rewrite cached_mtime_noerror_run. unfold Spec.stamp_at. rewrite Ht.
    split; reflexivity.
Qed.

(** ** Dependency marking *)

Section Dependencies.
Context (os : OS).

Lemma cache_after_twice (c : gmap string MtimeTriple) (p : string) :
  Spec.cache_after os (Spec.cache_after os c p) p = Spec.cache_after os c p.
Proof.
  unfold Spec.cache_after.
  destruct (c !! p) as [t|] eqn:Hp; [rewrite ?Hp; reflexivity|].
  destruct (os_stat os p) as [r|] eqn:Hs.
  - rewrite lookup_insert_eq. reflexivity.
  - rewrite ?Hp, ?Hs. reflexivity.
Qed.

Lemma check_dependency_run (f : string) (s : State) :
  Parse.check_dependency os f s =
    (Ret (bool_decide ((f, Spec.stamp_at os (mtime_cache (st_parse s)) f)
                       ∈ Parse.depends_or_nil (st_d s))),
     upd_parse (Parse.set_mtime_cache
                  (Spec.cache_after os (mtime_cache (st_parse s)) f)) s).
Proof.
  unfold Parse.check_dependency. unfold bind at 1.
  rewrite cached_mtime_noerror_run. reflexivity.
Qed.

End Dependencies.

(** X4: [mark_dependency] never raises and only ever appends to
    [__depends]: the pairs recorded before stay, in their order, and at
    most one pair is added.  The path it records is [dep_path f] (the
    working directory put in place of a leading [./]); right after the
    call [check_dependency] finds that path, and marking [f] again
    changes nothing at all. *)
Theorem mark_dependency_then_check (os : OS) (f : string) (s : State) :
  let r := Parse.mark_dependency os f s in
  fst r = Ret tt
  /\ (exists added,
        Parse.depends_or_nil (st_d (snd r)) = Parse.depends_or_nil (st_d s) ++ added
        /\ (length added <= 1)%nat)
  /\ fst (Parse.check_dependency os (Parse.dep_path os f) (snd r)) = Ret true
  /\ Parse.mark_dependency os f (snd r) = (Ret tt, snd r).
Proof.
  cbv zeta. rewrite !mark_dependency_run. cbn [fst snd].
  set (cd := Spec.marked s).
  assert (Hrec : Spec.dep_of os (fst cd) f ∈ Spec.or_nil (snd (Spec.marks os [f] cd))).
  { apply marks_recorded. left. }
  split; [reflexivity|]. split; [|split].
  - change (Parse.depends_or_nil (st_d (Spec.mark_all os [f] s)))
      with (Spec.or_nil (snd (Spec.mark1 os f cd))).
    rewrite mark1_deps. case_bool_decide.
    + exists []. rewrite app_nil_r. split; [reflexivity|simpl; lia].
    + eexists. split; [reflexivity|simpl; lia].
  - rewrite check_dependency_run. cbn [fst]. f_equal. apply bool_decide_eq_true_2.
    change (mtime_cache (st_parse (Spec.mark_all os [f] s)))
      with (fst (Spec.marks os [f] cd)).
    change (Parse.depends_or_nil (st_d (Spec.mark_all os [f] s)))
      with (Spec.or_nil (snd (Spec.marks os [f] cd))).
    rewrite stamp_at_marks. exact Hrec.
  - f_equal. unfold Spec.mark_all at 1.
    rewrite marked_mark_all. fold cd.
    assert (Hfix : Spec.marks os [f] (Spec.marks os [f] cd) = Spec.marks os [f] cd).
    { apply injective_projections.
      - simpl. apply cache_after_twice.
      - apply marks_fixed. intros g Hg. apply list_elem_of_singleton in Hg as ->.
        rewrite dep_of_marks. exact Hrec. }
    rewrite Hfix. unfold Spec.mark_all. fold cd. reflexivity.
Qed.

(** ** The dispatcher and its handler cache *)

Section Dispatcher.
Context (os : OS).

Lemma get_handler_run (fn : string) (s : State) :
  Dispatch._get_handler os fn s =
    let ext_ := Path.splitext_ext fn in
    let c := supports_cache (st_parse s) in
    if env_on os "BB_OPT_DISABLE_SUPPORTS_CACHE"
    then (Ret (Props.handler_for fn),
          upd_metrics (Metrics.bump_totals "supports" "misses" 1) s)
    else match c !! ext_ with
         | Some h => (Ret h, upd_metrics (Metrics.bump_totals "supports" "hits" 1) s)
         | None =>
             (Ret (Props.handler_for fn),
              upd_metrics (Metrics.bump_totals "supports" "misses" 1)
                (upd_parse (Parse.set_supports_cache
                              (<[ext_ := Props.handler_for fn]> c)) s))
         end.
Proof.
  unfold Dispatch._get_handler, Props.handler_for. cbv zeta.
  unfold bind at 1. unfold gets at 1.
  destruct (env_on os "BB_OPT_DISABLE_SUPPORTS_CACHE"); [reflexivity|].
  destruct (supports_cache (st_parse s) !! Path.splitext_ext fn) as [h|]; reflexivity.
Qed.

End Dispatcher.

(** X5: the handler cache is keyed by the extension alone.  With the
    cache in use, a lookup for a name gives the answer of the lookup
    before it for any name of the same extension: the handlers are not
    asked again, the cache stays as it is and the hit is counted.  With
    [BB_OPT_DISABLE_SUPPORTS_CACHE] set the handlers are asked every time
    and the cache is never written. *)
Theorem supports_cache_by_extension (os : OS) (fn1 fn2 : string) (s : State) :
  Path.splitext_ext fn1 = Path.splitext_ext fn2 ->
  let r1 := Dispatch._get_handler os fn1 s in
  let r2 := Dispatch._get_handler os fn2 (snd r1) in
  if env_on os "BB_OPT_DISABLE_SUPPORTS_CACHE"
  then fst r2 = Ret (Props.handler_for fn2)
       /\ supports_cache (st_parse (snd r2)) = supports_cache (st_parse s)
  else fst r2 = fst r1
       /\ supports_cache (st_parse (snd r2)) = supports_cache (st_parse (snd r1))
       /\ Spec.counter "supports" "hits" (snd r2) =
            (fun v => v + 1) <$> Spec.counter "supports" "hits" (snd r1).
Proof.
  intros Hext. cbv zeta. rewrite !get_handler_run. cbv zeta.
  destruct (env_on os "BB_OPT_DISABLE_SUPPORTS_CACHE") eqn:Hen.
  - cbn [fst snd]. split; reflexivity.
  - rewrite <- Hext.
    destruct (supports_cache (st_parse s) !! Path.splitext_ext fn1) as [h|] eqn:Hc;
      cbn [fst snd].
    + change (supports_cache (st_parse (upd_metrics ?g s))) with (supports_cache (st_parse s)).
      rewrite Hc. cbn [fst snd]. split; [reflexivity|]. split; [reflexivity|].
      apply counter_bump_same.
    + match goal with
      | |- context [supports_cache (st_parse (upd_metrics ?g (upd_parse ?h s)))] =>
          change (supports_cache (st_parse (upd_metrics g (upd_parse h s))))
            with (<[Path.splitext_ext fn1 := Props.handler_for fn1]>
                    (supports_cache (st_parse s)))
      end.
      rewrite lookup_insert_eq. cbn [fst snd]. split; [reflexivity|].
      split; [reflexivity|]. apply counter_bump_same.
Qed.

Lemma supports_cache_by_extension_witness :
  let s := Init.state (Init.datastore []) in
  let r1 := Dispatch._get_handler Sample.os ".conf" s in
  let r2 := Dispatch._get_handler Sample.os "README" (snd r1) in
  fst r2 = fst r1
  /\ supports_cache (st_parse (snd r2)) = supports_cache (st_parse (snd r1))
  /\ Spec.counter "supports" "hits" (snd r2) =
       (fun v => v + 1) <$> Spec.counter "supports" "hits" (snd r1).
Proof.
  intros s r1 r2.
  exact (supports_cache_by_extension Sample.os ".conf" "README" s eq_refl).
Defined.

(** X6: [supports] and [handle] agree on what is not a BitBake file.
    When [supports] answers [0] for a name, [handle] for that name raises
    [ParseError("not a BitBake file", fn)] with line number 0, whatever
    its other arguments, without entering a handler: the datastore, the
    statement caches and the mtime cache are as they were, and no file is
    opened. *)
Theorem handle_unsupported (os : OS) (ext : External) (depth : nat) (fn : string)
  (include baseconfig : bool) (s : State) :
  fst (Dispatch.supports os fn s) = Ret 0 ->
  let s1 := snd (Dispatch.supports os fn s) in
  let r := Dispatch.handle os ext (S depth) fn include baseconfig s1 in
  fst r = Raise (ParseError NotABitBakeFile fn 0)
  /\ st_d (snd r) = st_d s
  /\ st_bb (snd r) = st_bb s
  /\ st_conf (snd r) = st_conf s
  /\ mtime_cache (st_parse (snd r)) = mtime_cache (st_parse s)
  /\ st_log (snd r) = st_log s ++ [Dispatched fn].
Proof.
  intros Hsup. cbv zeta.
  assert (Hcase : exists s1,
             snd (Dispatch.supports os fn s) = s1
             /\ Dispatch._get_handler os fn (upd_log (fun l => l ++ [Dispatched fn]) s1) =
                  (Ret None,
                   upd_metrics (Metrics.bump_totals "supports"
                                  (if env_on os "BB_OPT_DISABLE_SUPPORTS_CACHE"
                                   then "misses" else "hits") 1)
                     (upd_log (fun l => l ++ [Dispatched fn]) s1))
             /\ st_d s1 = st_d s /\ st_bb s1 = st_bb s /\ st_conf s1 = st_conf s
             /\ mtime_cache (st_parse s1) = mtime_cache (st_parse s)
             /\ st_log s1 = st_log s).
  { revert Hsup. unfold Dispatch.supports, bind, ret. rewrite get_handler_run. cbv zeta.
    destruct (env_on os "BB_OPT_DISABLE_SUPPORTS_CACHE") eqn:Hen.
    - cbn [fst snd]. destruct (Props.handler_for fn) as [h|] eqn:Hh; [discriminate|].
      intros _. eexists. split; [reflexivity|].
      rewrite get_handler_run, Hen, Hh. repeat split; reflexivity.
    - destruct (supports_cache (st_parse s) !! Path.splitext_ext fn) as [[h|]|] eqn:Hc;
        cbn [fst snd].
      + discriminate.
      + intros _. eexists. split; [reflexivity|].
        rewrite get_handler_run, Hen. cbv zeta.
        cbn [st_parse upd_log upd_metrics upd_parse supports_cache fst snd].
        rewrite Hc. repeat split; reflexivity.
      + destruct (Props.handler_for fn) as [h|] eqn:Hh; [discriminate|].
        intros _. eexists. split; [reflexivity|].
        rewrite get_handler_run, Hen. cbv zeta.
        cbn [st_parse upd_log upd_metrics upd_parse supports_cache
             Parse.set_supports_cache fst snd].
        rewrite lookup_insert_eq. repeat split; reflexivity. }
  destruct Hcase as (s1 & -> & Hget & Hd & Hbb & Hconf & Hmt & Hlog).
  destruct (Dispatch.handle os ext (S depth) fn include baseconfig s1) as [res s2] eqn:Hr.
  cbn [Dispatch.handle] in Hr. unfold Dispatch.handle_step in Hr.
  unfold bind at 1 in Hr. unfold log_event at 1, modify at 1 in Hr.
  unfold bind at 1 in Hr. rewrite Hget in Hr.
  injection Hr as <- <-. cbn [fst snd].
  repeat split; cbn; congruence.
Qed.

Lemma handle_unsupported_witness :
  let s := Init.state (Init.datastore []) in
  let s1 := snd (Dispatch.supports Sample.os "README" s) in
  let r := Dispatch.handle Sample.os Sample.ext 3 "README" true false s1 in
  fst r = Raise (ParseError NotABitBakeFile "README" 0)
  /\ st_d (snd r) = st_d s
  /\ st_bb (snd r) = st_bb s
  /\ st_conf (snd r) = st_conf s
  /\ mtime_cache (st_parse (snd r)) = mtime_cache (st_parse s)
  /\ st_log (snd r) = st_log s ++ [Dispatched "README"].
Proof.
  intros s s1 r.
  apply (handle_unsupported Sample.os Sample.ext 2 "README" true false s).
  vm_compute. reflexivity.
Defined.

(** ** Splitting a recipe file name *)

Lemma tmplist_replicate (n : nat) : ParseUtil.tmplist n = replicate n None.
Proof. induction n as [|n IH]; simpl; [reflexivity|]. rewrite IH. reflexivity. Qed.

(** X7: for a recipe file name ([.bb] or [.bbappend]) not split before and
    with at most two underscores in its root, [vars_from_file] gives
    exactly three entries: the pieces of the root of the base name
    between the underscores, which joined with underscores give that root
    back, then [None] for each missing one.  The cache then holds that
    list, and asking again gives the same answer and leaves the cache as
    it is. *)
Theorem vars_from_file_parts (p : string) (cache : ParseUtil.PkgsplitCache) :
  let names := Str.split "_" (Path.splitext_root (Path.basename p)) in
  let r := ParseUtil.vars_from_file (Some p) cache in
  Str.truthy p = true ->
  Str.endswith p ".bb" || Str.endswith p ".bbappend" = true ->
  cache !! p = None ->
  (length names <= 3)%nat ->
  fst r = ParseUtil.Parts (map Some names ++ replicate (3 - length names) None)
  /\ length (map Some names ++ replicate (3 - length names) (@None string)) = 3%nat
  /\ Str.join "_" names = Path.splitext_root (Path.basename p)
  /\ ParseUtil.vars_from_file (Some p) (snd r) = r.
Proof.
  intros names r Htr Hend Hnew Hlen. subst r.
  unfold ParseUtil.vars_from_file. rewrite Htr, Hend, Hnew. cbn [negb orb].
  fold names. rewrite length_map.
  assert (Hlt : (3 <? length names)%nat = false) by (apply Nat.ltb_ge; exact Hlen).
  rewrite Hlt. cbn [fst snd]. rewrite tmplist_replicate.
  assert (Hpos : (1 <= length names)%nat).
  { pose proof (split_nonempty "_" (Path.splitext_root (Path.basename p))) as Hne.
    fold names in Hne. destruct names; [congruence|simpl; lia]. }
  split; [reflexivity|]. split.
  - rewrite length_app, length_map, length_replicate. lia.
  - split.
    + apply split_join. discriminate.
    + rewrite lookup_insert_eq. reflexivity.
Qed.

Lemma vars_from_file_parts_witness :
  fst (ParseUtil.vars_from_file (Some "/r/busybox_1.36.1.bb") ∅) =
    ParseUtil.Parts [Some "busybox"; Some "1.36.1"; None].
Proof.
  apply (proj1 (vars_from_file_parts "/r/busybox_1.36.1.bb" ∅ eq_refl eq_refl (lookup_empty _)
                  ltac:(vm_compute; lia))).
Defined.

(** X8: a name with more than two underscores in its root is an error
    only the first time.  [vars_from_file] stores the pieces in the cache
    before it raises [ParseError]; asked again for the same name it
    returns those pieces, more than three of them and none missing,
    without raising. *)
Theorem vars_from_file_error_once (p : string) (cache : ParseUtil.PkgsplitCache) :
  let names := Str.split "_" (Path.splitext_root (Path.basename p)) in
  let r := ParseUtil.vars_from_file (Some p) cache in
  Str.truthy p = true ->
  Str.endswith p ".bb" || Str.endswith p ".bbappend" = true ->
  cache !! p = None ->
  (3 < length names)%nat ->
  fst r = ParseUtil.TooManyUnderscores p
  /\ ParseUtil.vars_from_file (Some p) (snd r) = (ParseUtil.Parts (map Some names), snd r).
Proof.
  intros names r Htr Hend Hnew Hlen. subst r.
  unfold ParseUtil.vars_from_file. rewrite Htr, Hend, Hnew. cbn [negb orb].
  fold names. rewrite length_map.
  assert (Hlt : (3 <? length names)%nat = true) by (apply Nat.ltb_lt; exact Hlen).
  rewrite Hlt. cbn [fst snd]. rewrite lookup_insert_eq. split; reflexivity.
Qed.

Lemma vars_from_file_error_once_witness :
  let r := ParseUtil.vars_from_file (Some "a_b_c_d.bb") ∅ in
  fst r = ParseUtil.TooManyUnderscores "a_b_c_d.bb"
  /\ ParseUtil.vars_from_file (Some "a_b_c_d.bb") (snd r) =
       (ParseUtil.Parts [Some "a"; Some "b"; Some "c"; Some "d"], snd r).
Proof.
  intros r.
  apply (vars_from_file_error_once "a_b_c_d.bb" ∅ eq_refl eq_refl (lookup_empty _)
           ltac:(vm_compute; lia)).
Defined.

(** ** Counters and timers *)

Section Counters.

Lemma counter_bump (section field : string) (n : Z) (sec f : string) (s : State) :
  Spec.counter sec f (upd_metrics (Metrics.bump_totals section field n) s) =
    if bool_decide (sec = section /\ f = field)
    then (fun v => v + n) <$> Spec.counter sec f s
    else Spec.counter sec f s.
Proof.
  case_bool_decide as H.
  - destruct H as [-> ->]. apply counter_bump_same.
  - destruct (decide (sec = section)) as [->|Hsec].
    + apply counter_bump_other. intros ->. apply H. split; reflexivity.
    + unfold Spec.counter, Metrics.bump_totals. simpl.
      destruct (m_totals (st_metrics s) !! section) as [ent|]; [|reflexivity].
      destruct (ent !! field); [|reflexivity].
      simpl. rewrite lookup_insert_ne by congruence. reflexivity.
Qed.

Lemma bump_only_counters (section field : string) (n : Z) (s : State) :
  Props.only_counters s (upd_metrics (Metrics.bump_totals section field n) s).
Proof.
  unfold Props.only_counters, Metrics.bump_totals, upd_metrics.
  destruct s as [d m c p b cf fl lg]. destruct m as [tot tim pa sq]. cbn.
  destruct (tot !! section) as [ent|]; [|reflexivity].
  destruct (ent !! field); reflexivity.
Qed.

Lemma bump_unknown (section field : string) (n : Z) (s : State) :
  Spec.counter section field s = None ->
  upd_metrics (Metrics.bump_totals section field n) s = s.
Proof.
  unfold Spec.counter, Metrics.bump_totals, upd_metrics.
  destruct s as [d m c p b cf fl lg]. destruct m as [tot tim pa sq]. cbn.
  destruct (tot !! section) as [ent|]; cbn; [|reflexivity].
  intros ->. reflexivity.
Qed.

End Counters.

(** X9: the counters count exactly.  [hit], [miss] and [evict] add one to
    their own field of the named section and to nothing else: every other
    counter keeps its value and nothing but the table of counters changes
    in the whole state.  For a section (or field) the table does not have
    the call changes nothing, and no section is created. *)
Theorem counters_count_exactly (section : string) (s : State) :
  let bumped (field : string) (s' : State) :=
    (forall sec f,
       Spec.counter sec f s' =
         if bool_decide (sec = section /\ f = field)
         then (fun v => v + 1) <$> Spec.counter sec f s
         else Spec.counter sec f s)
    /\ Props.only_counters s s'
    /\ (Spec.counter section field s = None -> s' = s) in
  Metrics.hit section s = (Ret tt, snd (Metrics.hit section s))
  /\ bumped "hits" (snd (Metrics.hit section s))
  /\ Metrics.miss section s = (Ret tt, snd (Metrics.miss section s))
  /\ bumped "misses" (snd (Metrics.miss section s))
  /\ Metrics.evict section s = (Ret tt, snd (Metrics.evict section s))
  /\ bumped "evictions" (snd (Metrics.evict section s)).
Proof.
  cbv zeta.
  repeat split;
    try (intros sec f; apply counter_bump);
    try apply bump_only_counters;
    try apply bump_unknown.
Qed.

(** X10: [time_end] files the interval under the section of the token,
    not under the section it is called with: the two calls of it with
    different section arguments and the same token do the same.  With a
    token [(sec, t0)] the timer of [sec] gains the clock reading minus
    [t0] and one count (a section not timed before starts from zero), no
    other timer changes and no counter does; without a token nothing
    happens, the clock is not even read. *)
Theorem time_end_files_under_token (os : OS) (section section' : string)
  (token : option (string * Q)) (s : State) :
  Metrics.time_end os section token s = Metrics.time_end os section' token s
  /\ match token with
     | None => Metrics.time_end os section token s = (Ret tt, s)
     | Some (sec, t0) =>
         let s' := snd (Metrics.time_end os section token s) in
         Props.timer sec s' =
           {| seconds := seconds (Props.timer sec s) + (Props.clock_now s - t0);
              count := count (Props.timer sec s) + 1 |}
         /\ (forall other, other <> sec ->
               m_times (st_metrics s') !! other = m_times (st_metrics s) !! other)
         /\ m_totals (st_metrics s') = m_totals (st_metrics s)
     end.
Proof.
  split.
  - destruct token as [[sec t0]|]; [|reflexivity].
    unfold Metrics.time_end.
    assert (H : forall x : string, (if bool_decide (sec <> x) then sec else x) = sec).
    { intros x. case_bool_decide as Hx; [reflexivity|].
      destruct (decide (sec = x)); [congruence|contradiction]. }
    rewrite !H. reflexivity.
  - destruct token as [[sec t0]|]; [|reflexivity].
    cbv zeta. unfold Metrics.time_end.
    assert (H : (if bool_decide (sec <> section) then sec else section) = sec).
    { case_bool_decide as Hx; [reflexivity|].
      destruct (decide (sec = section)); [congruence|contradiction]. }
    rewrite H. unfold bind, Metrics.perf_counter, modify, Props.timer, Props.clock_now.
    cbn. rewrite lookup_insert_eq. split; [reflexivity|]. split; [|reflexivity].
    intros other Hne. apply lookup_insert_ne. congruence.
Qed.

(** X11: once [set_tmpdir] has been given a non-empty directory, [flush]
    appends its record to [bb-cache-metrics.jsonl] in that directory and
    to no other file; a later [set_tmpdir] with [None] or the empty
    string does not take the path back.  The record carries the sequence
    number, the note and the tables as they stand; [flush] resets
    neither table, and when the write fails the files stay as they
    were. *)
Theorem flush_goes_to_tmpdir (os : OS) (c : ascii) (t' : string) (note : option string)
  (s : State) :
  let t := String c t' in
  let p := Path.join t "bb-cache-metrics.jsonl" in
  let s1 := snd (Metrics.set_tmpdir (Some t) s) in
  let s2 := snd (Metrics.flush os note s1) in
  Metrics.set_tmpdir None s1 = (Ret tt, s1)
  /\ Metrics.set_tmpdir (Some "") s1 = (Ret tt, s1)
  /\ (exists r,
        rec_seq r = m_seq (st_metrics s) /\ rec_note r = note
        /\ rec_totals r = m_totals (st_metrics s) /\ rec_time r = m_times (st_metrics s)
        /\ st_files s2 = (if appendable os p
                          then <[p := default [] (st_files s !! p) ++ [r]]> (st_files s)
                          else st_files s))
  /\ m_totals (st_metrics s2) = m_totals (st_metrics s)
  /\ m_times (st_metrics s2) = m_times (st_metrics s)
  /\ m_path (st_metrics s2) = Some p.
Proof.
  cbv zeta. split; [reflexivity|]. split; [reflexivity|].
  assert (Hj : exists rest, Path.join (String c t') "bb-cache-metrics.jsonl" = String c rest).
  { unfold Path.join.
    change (Str.startswith "/" "bb-cache-metrics.jsonl") with false. cbn [Str.truthy negb orb].
    destruct (Str.endswith (String c t') "/"); eexists; reflexivity. }
  destruct Hj as [rest Hj].
  unfold Metrics.set_tmpdir. cbn [Str.truthy].
  unfold Metrics.flush, Metrics.time, Metrics.append_line, bind, gets, modify, when, ret.
  change Metrics.metrics_file with "bb-cache-metrics.jsonl".
  cbn -[Path.join]. rewrite !Hj. cbn [Str.truthy].
  destruct (appendable os (String c rest)); cbn.
  - split; [|repeat split; reflexivity].
    exists {| rec_ts := wall_time os (wall_reads (st_clock s)); rec_pid := getpid os;
              rec_seq := m_seq (st_metrics s); rec_note := note;
              rec_totals := m_totals (st_metrics s); rec_time := m_times (st_metrics s) |}.
    repeat split; reflexivity.
  - split; [|repeat split; reflexivity].
    exists {| rec_ts := wall_time os (wall_reads (st_clock s)); rec_pid := getpid os;
              rec_seq := m_seq (st_metrics s); rec_note := note;
              rec_totals := m_totals (st_metrics s); rec_time := m_times (st_metrics s) |}.
    repeat split; reflexivity.
Qed.

(** ** The configuration handler *)

Section ConfFeeder.

(** One call of the line feeder: one node more, located at the line it
    was given, or a [ParseError] located there; only the log can
    change. *)
Lemma conf_feeder_shape lineno l fn statements baseconfig conffile (s : State) :
  let r := ConfHandler.feeder lineno l fn statements baseconfig conffile s in
  match fst r with
  | Ret out =>
      exists p, out = statements ++ [{| n_file := fn; n_line := lineno; n_payload := p |}]
  | Raise e => exists msg, e = ParseError msg fn lineno
  end
  /\ (snd r = s \/ snd r = upd_log (fun l => l ++ [Warned fn lineno]) s).
Proof.
  cbv zeta. unfold ConfHandler.feeder, ConfHandler.emit.
  destruct (Re.run ConfHandler.__config_regexp__ l) as [m|].
  { case_bool_decide; [cbn; split; [eexists; reflexivity|auto]|].
    unfold bind, when.
    destruct (negb _ || negb _); cbn; (split; [eexists; reflexivity|auto]). }
  repeat match goal with
         | |- context [match Re.run ?x l with Some _ => _ | None => _ end] =>
             destruct (Re.run x l);
             [cbn; split; [eexists; reflexivity|auto]|]
         end.
  destruct (if baseconfig && conffile then Re.run ConfHandler.__addpylib_regexp__ l else None);
    [cbn; split; [eexists; reflexivity|auto]|].
  destruct (Re.run ConfHandler.__addfragments_regexp__ l);
    cbn; (split; [eexists; reflexivity|auto]).
Qed.

End ConfFeeder.

Section ConfLines.

Lemma parse_located_weaken fn lo hi lo' hi' statements r :
  lo' <= lo -> hi <= hi' ->
  Props.parse_located fn lo hi statements r -> Props.parse_located fn lo' hi' statements r.
Proof.
  intros Hlo Hhi. destruct r as [out|e]; simpl.
  - intros (added & -> & Hall). exists added. split; [reflexivity|].
    eapply Forall_impl; [exact Hall|]. intros n [Hf Hl]. split; [exact Hf|lia].
  - destruct e as [errno msg|msg f ln| |ln f| | |]; simpl; try tauto.
    + intros [Hf Hl]. split; [exact Hf|lia].
    + intros [Hf Hl]. split; [exact Hf|lia].
Qed.

Lemma parse_located_refl fn lo hi statements :
  Props.parse_located fn lo hi statements (Ret statements).
Proof. exists []. rewrite app_nil_r. split; [reflexivity|constructor]. Qed.

(** Sequencing: a located step followed by a located rest. *)
Lemma parse_located_bind fn lo hi statements (c : M StatementGroup)
  (k : StatementGroup -> M StatementGroup) (s : State) :
  Props.parse_located fn lo hi statements (fst (c s)) ->
  (forall out s', Props.parse_located fn lo hi out (fst (k out s'))) ->
  Props.parse_located fn lo hi statements (fst (bind c k s)).
Proof.
  intros Hc Hk. unfold bind. destruct (c s) as [[out|e] s1]; simpl in *; [|exact Hc].
  destruct Hc as (added & -> & Hall). specialize (Hk (statements ++ added) s1).
  destruct (k (statements ++ added) s1) as [[out2|e2] s2]; simpl in *; [|exact Hk].
  destruct Hk as (added2 & -> & Hall2). exists (added ++ added2).
  rewrite app_assoc. split; [reflexivity|]. apply Forall_app. split; assumption.
Qed.

Lemma conf_feeder_located lineno l fn statements baseconfig conffile lo hi (s : State) :
  lo <= lineno <= hi ->
  Props.parse_located fn lo hi statements
    (fst (ConfHandler.feeder lineno l fn statements baseconfig conffile s)).
Proof.
  intros Hl. destruct (conf_feeder_shape lineno l fn statements baseconfig conffile s)
    as [H _].
  destruct (fst (ConfHandler.feeder lineno l fn statements baseconfig conffile s))
    as [out|e]; simpl.
  - destruct H as [p ->]. eexists. split; [reflexivity|].
    constructor; [|constructor]. split; [reflexivity|exact Hl].
  - destruct H as [msg ->]. simpl. split; [reflexivity|exact Hl].
Qed.

Lemma finish_line_located abs_fn baseconfig lineno l statements lo hi (s : State) :
  lo <= lineno <= hi ->
  Props.parse_located abs_fn lo hi statements
    (fst (ConfHandler.finish_line abs_fn baseconfig lineno l statements s)).
Proof.
  intros Hl. unfold ConfHandler.finish_line.
  destruct (bool_decide _); [apply parse_located_refl|].
  apply conf_feeder_located. exact Hl.
Qed.

Lemma conf_lines_located abs_fn baseconfig (lines : list string) :
  forall (i n0 : Z) pending statements (s : State),
    0 <= i <= n0 ->
    (forall l ln o, pending = Some (l, ln, o) -> 1 <= ln <= n0 /\ 1 <= o <= n0) ->
    Props.parse_located abs_fn 1 (n0 + Z.of_nat (length lines)) statements
      (fst (ConfHandler.conf_lines abs_fn baseconfig lines i pending statements s)).
Proof.
  induction lines as [|line rest IH]; intros i n0 pending statements s Hi Hp.
  - cbn [ConfHandler.conf_lines]. destruct pending as [[[l ln] o]|].
    + apply finish_line_located. destruct (Hp l ln o eq_refl). simpl. lia.
    + apply parse_located_refl.
  - assert (Hlen : n0 + Z.of_nat (length (line :: rest)) =
                   (n0 + 1) + Z.of_nat (length rest)) by (simpl; lia).
    rewrite Hlen. cbn [ConfHandler.conf_lines].
    destruct pending as [[[l ln] o]|].
    + destruct (Hp l ln o eq_refl) as [Hln Ho].
      destruct (negb (Str.truthy line)).
      * apply parse_located_bind.
        -- apply finish_line_located. lia.
        -- intros out s'. apply IH; [lia|discriminate].
      * cbv zeta.
        destruct (_ && bool_decide (Str.first l = Some "#"%char)).
        { simpl. split; [reflexivity|lia]. }
        destruct (negb (Str.truthy _)); [exact I|].
        destruct (ConfHandler.ends_with_backslash _).
        -- apply IH; [lia|]. intros l' ln' o' [= <- <- <-]. lia.
        -- apply parse_located_bind.
           ++ apply finish_line_located. lia.
           ++ intros out s'. apply IH; [lia|discriminate].
    + cbv zeta. destruct (negb (Str.truthy (Str.strip line))).
      * apply IH; [lia|discriminate].
      * destruct (ConfHandler.ends_with_backslash _).
        -- apply IH; [lia|]. intros l' ln' o' [= <- <- <-]. lia.
        -- apply parse_located_bind.
           ++ apply finish_line_located. lia.
           ++ intros out s'. apply IH; [lia|discriminate].
Qed.

End ConfLines.

Section ConfStatements.
Context (os : OS).

(** [_get_conf_statements], step by step. *)
Lemma get_conf_statements_run (abs_fn : string) (baseconfig : bool) (s : State) :
  let key := (abs_fn, baseconfig) in
  let disabled := env_on os "BB_OPT_DISABLE_CONF_AST_CACHE" in
  let r := ConfHandler._get_conf_statements os abs_fn baseconfig s in
  match (if disabled then None else conf_statements_cache (st_conf s) !! key) with
  | Some st => r = (Ret st, snd (Metrics.hit "conf_ast" s))
  | None =>
      let s1 := snd (log_event (Opened abs_fn)
                       (snd (Metrics.time_start os "conf_ast_parse" s))) in
      match open_read os abs_fn with
      | None => r = (Raise (IOError (os_errno os abs_fn) (OpenFailed abs_fn)), s1)
      | Some lines =>
          let p := ConfHandler.conf_lines abs_fn baseconfig lines 0 None [] s1 in
          match fst p with
          | Raise e => r = (Raise e, snd p)
          | Ret statements =>
              fst r = Ret statements
              /\ conf_statements_cache (st_conf (snd r)) =
                   (if disabled then conf_statements_cache (st_conf (snd p))
                    else <[key := statements]> (conf_statements_cache (st_conf (snd p))))
          end
      end
  end.
Proof.
  cbv zeta.
  destruct (ConfHandler._get_conf_statements os abs_fn baseconfig s) as [res sf] eqn:Hr.
  unfold ConfHandler._get_conf_statements in Hr.
  unfold bind at 1 in Hr. unfold gets at 1 in Hr.
  destruct (if env_on os "BB_OPT_DISABLE_CONF_AST_CACHE" then None
            else conf_statements_cache (st_conf s) !! (abs_fn, baseconfig)) as [st|].
  { rewrite <- Hr. reflexivity. }
  unfold bind at 1 in Hr.
  destruct (Metrics.time_start os "conf_ast_parse" s) as [[tok|e] s0] eqn:Hts.
  2: { unfold Metrics.time_start, Metrics.perf_counter, bind in Hts. discriminate. }
  cbn [snd]. unfold bind at 1 in Hr. unfold ConfHandler.open_lines in Hr.
  unfold bind at 1 in Hr. unfold log_event at 1, modify at 1 in Hr.
  unfold log_event, modify. cbn [snd].
  destruct (open_read os abs_fn) as [lines|]; [|rewrite <- Hr; reflexivity].
  unfold ret at 1 in Hr. unfold bind at 1 in Hr.
  destruct (ConfHandler.conf_lines abs_fn baseconfig lines 0 None [] _)
    as [[statements|e] s2]; cbn [fst snd]; [|rewrite <- Hr; reflexivity].
  unfold Metrics.time_start, bind, Metrics.perf_counter, ret in Hts.
  injection Hts as <- <-.
  revert Hr. unfold bind, when, modify, Metrics.miss, Metrics._bump, Metrics.time_end,
    Metrics.perf_counter, ret.
  assert (Hb : (if bool_decide ("conf_ast_parse" <> "conf_ast_parse")
                then "conf_ast_parse" else "conf_ast_parse") = "conf_ast_parse")
    by (destruct (bool_decide _); reflexivity).
  destruct (env_on os "BB_OPT_DISABLE_CONF_AST_CACHE"); cbn [negb];
    intros [= <- <-]; split; reflexivity.
Qed.

End ConfStatements.

(** X12: the statements of a configuration file are located.  When
    [_get_conf_statements] parses the file (no tree is cached for it, or
    the cache is switched off), every node of the tree it returns carries
    the path it was given and a line number from 1 to the number of lines
    of the file, and a [ParseError] or fatal error it ends in carries
    that path and such a line; a file that cannot be opened is the
    [OSError] of the open.  When a tree is cached under the path and the
    [baseconfig] flag, that tree is returned. *)
Theorem conf_statements_located (os : OS) (abs_fn : string) (baseconfig : bool) (s : State) :
  let r := ConfHandler._get_conf_statements os abs_fn baseconfig s in
  match (if env_on os "BB_OPT_DISABLE_CONF_AST_CACHE" then None
         else conf_statements_cache (st_conf s) !! (abs_fn, baseconfig)) with
  | Some st => fst r = Ret st
  | None =>
      match open_read os abs_fn with
      | Some lines =>
          Props.parse_located abs_fn 1 (Z.of_nat (length lines)) [] (fst r)
      | None => fst r = Raise (IOError (os_errno os abs_fn) (OpenFailed abs_fn))
      end
  end.
Proof.
  cbv zeta. pose proof (get_conf_statements_run os abs_fn baseconfig s) as H.
  cbv zeta in H.
  destruct (if env_on os "BB_OPT_DISABLE_CONF_AST_CACHE" then None
            else conf_statements_cache (st_conf s) !! (abs_fn, baseconfig)) as [st|].
  { rewrite H. reflexivity. }
  destruct (open_read os abs_fn) as [lines|]; [|rewrite H; reflexivity].
  match type of H with
  | match fst (ConfHandler.conf_lines ?a ?b ?l 0 None [] ?s1) with _ => _ end =>
      pose proof (conf_lines_located a b l 0 0 None [] s1 ltac:(lia)
                    ltac:(discriminate)) as Hloc;
      destruct (ConfHandler.conf_lines a b l 0 None [] s1) as [[statements|e] s2]
  end; cbn [fst snd] in *.
  - destruct H as [-> _]. exact Hloc.
  - rewrite H. exact Hloc.
Qed.

Section ConfCacheFrame.

#[local] Abbreviation conf_cache := (fun s : State => conf_statements_cache (st_conf s)).

Lemma conf_feeder_keeps_conf_cache lineno l fn statements baseconfig conffile :
  Spec.keeps conf_cache (ConfHandler.feeder lineno l fn statements baseconfig conffile).
Proof.
  assert (Hlog : forall e, Spec.keeps conf_cache (log_event e)).
  { intros e. unfold log_event. keeps_tac. }
  unfold ConfHandler.feeder. keeps_tac; auto.
Qed.

Lemma conf_lines_keeps_conf_cache abs_fn baseconfig lines i pending statements :
  Spec.keeps conf_cache (ConfHandler.conf_lines abs_fn baseconfig lines i pending statements).
Proof.
  pose proof conf_feeder_keeps_conf_cache as Hf.
  assert (Hfin : forall ln l st,
             Spec.keeps conf_cache (ConfHandler.finish_line abs_fn baseconfig ln l st)).
  { intros. unfold ConfHandler.finish_line. keeps_tac; auto. }
  revert i pending statements.
  induction lines as [|line rest IH]; intros i pending statements; simpl.
  - keeps_tac; auto.
  - destruct pending as [[[l lineno] origlineno]|]; keeps_tac; auto.
Qed.

End ConfCacheFrame.

(** X13: the cache of configuration statement trees is keyed on the path
    and the [baseconfig] flag.  A call that returns a tree leaves that
    tree stored under its key, and asking again returns it from the
    cache, counted as a hit; a call that raises stores nothing; the entry
    for the same path with the other flag is never touched.  With
    [BB_OPT_DISABLE_CONF_AST_CACHE] set the cache is neither read nor
    written. *)
Theorem conf_ast_cache (os : OS) (abs_fn : string) (baseconfig : bool) (s : State) :
  let key := (abs_fn, baseconfig) in
  let disabled := env_on os "BB_OPT_DISABLE_CONF_AST_CACHE" in
  let r := ConfHandler._get_conf_statements os abs_fn baseconfig s in
  let cache := conf_statements_cache (st_conf s) in
  let cache' := conf_statements_cache (st_conf (snd r)) in
  cache' !! (abs_fn, negb baseconfig) = cache !! (abs_fn, negb baseconfig)
  /\ match fst r with
     | Ret st =>
         if disabled then cache' = cache
         else cache' = <[key := st]> cache
              /\ ConfHandler._get_conf_statements os abs_fn baseconfig (snd r) =
                   (Ret st, snd (Metrics.hit "conf_ast" (snd r)))
     | Raise _ => cache' = cache
     end.
Proof.
  cbv zeta.
  assert (Hmain :
    match fst (ConfHandler._get_conf_statements os abs_fn baseconfig s) with
    | Ret st =>
        conf_statements_cache (st_conf (snd (ConfHandler._get_conf_statements os abs_fn
                                               baseconfig s))) =
          (if env_on os "BB_OPT_DISABLE_CONF_AST_CACHE"
           then conf_statements_cache (st_conf s)
           else <[(abs_fn, baseconfig) := st]> (conf_statements_cache (st_conf s)))
    | Raise _ =>
        conf_statements_cache (st_conf (snd (ConfHandler._get_conf_statements os abs_fn
                                               baseconfig s))) =
          conf_statements_cache (st_conf s)
    end).
  { pose proof (get_conf_statements_run os abs_fn baseconfig s) as H. cbv zeta in H.
    destruct (env_on os "BB_OPT_DISABLE_CONF_AST_CACHE") eqn:Hen.
    - destruct (open_read os abs_fn) as [lines|]; [|rewrite H; reflexivity].
      match type of H with
      | match fst (ConfHandler.conf_lines ?a ?b ?l 0 None [] ?s1) with _ => _ end =>
          pose proof (conf_lines_keeps_conf_cache a b l 0 None [] s1) as Hk;
          destruct (ConfHandler.conf_lines a b l 0 None [] s1) as [[st|e] s2]
      end; cbn [fst snd] in *.
      + destruct H as [-> ->]. exact Hk.
      + rewrite H. exact Hk.
    - destruct (conf_statements_cache (st_conf s) !! (abs_fn, baseconfig)) as [st|] eqn:Hc.
      + rewrite H. cbn [fst snd]. symmetry. apply insert_id. exact Hc.
      + destruct (open_read os abs_fn) as [lines|]; [|rewrite H; reflexivity].
        match type of H with
        | match fst (ConfHandler.conf_lines ?a ?b ?l 0 None [] ?s1) with _ => _ end =>
            pose proof (conf_lines_keeps_conf_cache a b l 0 None [] s1) as Hk;
            destruct (ConfHandler.conf_lines a b l 0 None [] s1) as [[st|e] s2]
        end; cbn [fst snd] in *.
        * destruct H as [-> ->]. rewrite Hk. reflexivity.
        * rewrite H. exact Hk. }
  destruct (ConfHandler._get_conf_statements os abs_fn baseconfig s) as [[st|e] s'] eqn:Hr;
    cbn [fst snd] in *.
  - destruct (env_on os "BB_OPT_DISABLE_CONF_AST_CACHE") eqn:Hen.
    + split; [rewrite Hmain; reflexivity|exact Hmain].
    + split; [rewrite Hmain; apply lookup_insert_ne; destruct baseconfig; discriminate|].
      split; [exact Hmain|].
      pose proof (get_conf_statements_run os abs_fn baseconfig s') as H. cbv zeta in H.
      rewrite Hen, Hmain, lookup_insert_eq in H. exact H.
  - split; [rewrite Hmain; reflexivity|exact Hmain].
Qed.

(** X14: in a configuration file without continuation lines every
    statement is fed under the number of its own line.  When no line
    ends in a backslash, the reading loop of the handler is the plain
    loop over the lines: blank lines and lines starting with [#] are
    passed over and each other line is fed, right-stripped, with its
    position in the file as line number. *)
Theorem conf_lines_plain (abs_fn : string) (baseconfig : bool) (lines : list string)
  (i : Z) (statements : StatementGroup) (s : State) :
  Props.no_continuation lines = true ->
  ConfHandler.conf_lines abs_fn baseconfig lines i None statements s =
    Props.feed_each_line abs_fn baseconfig lines i statements s.
Proof.
  revert i statements s. induction lines as [|line rest IH]; intros i statements s Hall.
  - reflexivity.
  - simpl in Hall. apply andb_true_iff in Hall as [Hline Hrest].
    apply negb_true_iff in Hline.
    cbn [ConfHandler.conf_lines Props.feed_each_line]. cbv zeta.
    destruct (negb (Str.truthy (Str.strip line))); [apply IH; exact Hrest|].
    rewrite Hline. unfold ConfHandler.finish_line.
    destruct (bool_decide (Str.first (Str.rstrip line) = Some "#"%char)).
    + unfold bind, ret. apply IH. exact Hrest.
    + unfold bind.
      destruct (ConfHandler.feeder (i + 1) (Str.rstrip line) abs_fn statements baseconfig
                  true s) as [[out|e] s1]; [|reflexivity].
      apply IH. exact Hrest.
Qed.

Lemma conf_lines_plain_witness :
  fst (ConfHandler.conf_lines "/b/foo.conf" false
         ["# a comment"; ""; "B = 'two'"] 0 None [] (Init.state (Init.datastore []))) =
    Ret [{| n_file := "/b/foo.conf"; n_line := 3;
            n_payload := DataAssign
                           (ConfHandler.groupdict
                              [("value", "two"); ("apo", "'"); ("whitespace2", " ");
                               ("whitespace", " "); ("var", "B")]) |}].
Proof.
  rewrite (conf_lines_plain "/b/foo.conf" false ["# a comment"; ""; "B = 'two'"] 0 []
             (Init.state (Init.datastore [])) eq_refl).
  vm_compute. reflexivity.
Defined.

(** X15: a continuation line is not counted.  A line ending in a
    backslash is joined with the line after it and the statement is fed
    under the number of that second line, but the counter of the reading
    loop has moved on by one only: the lines that follow are numbered
    from one less than their position, so the line right after the
    two-line statement is fed under the same number as that statement. *)
Theorem conf_lines_continuation (abs_fn : string) (baseconfig : bool) (a b : string)
  (rest : list string) (i : Z) (statements : StatementGroup) (s : State) :
  let sa := Str.rstrip a in
  let sb := Str.rstrip b in
  let joined := (Str.drop_last sa +:+ sb)%string in
  Str.truthy (Str.strip a) = true ->
  ConfHandler.ends_with_backslash sa = true ->
  Str.truthy b = true ->
  (negb (Str.truthy sb) || negb (bool_decide (Str.first sb = Some "#"%char)))
    && bool_decide (Str.first sa = Some "#"%char) = false ->
  Str.truthy joined = true ->
  ConfHandler.ends_with_backslash joined = false ->
  ConfHandler.conf_lines abs_fn baseconfig (a :: b :: rest) i None statements s =
    bind (ConfHandler.finish_line abs_fn baseconfig (i + 2) joined statements)
      (fun statements => ConfHandler.conf_lines abs_fn baseconfig rest (i + 1) None statements)
      s.
Proof.
  intros sa sb joined Ha Hbs Hb Hc Hj Hje.
  cbn [ConfHandler.conf_lines]. cbv zeta.
  rewrite Ha. cbn [negb]. fold sa. rewrite Hbs.
  rewrite Hb. cbn [negb]. fold sb. rewrite Hc.
  fold joined. rewrite Hj. cbn [negb]. rewrite Hje.
  replace (i + 1 + 1) with (i + 2) by lia. reflexivity.
Qed.

Lemma conf_lines_continuation_witness :
  let BS := String ConfHandler.BACKSLASH "" in
  let lines := ["A = 'x " +:+ BS; "y'"; "B = 'z'"]%string in
  map n_line
    (match fst (ConfHandler.conf_lines "/b/foo.conf" false lines 0 None []
                  (Init.state (Init.datastore []))) with
     | Ret out => out
     | Raise _ => []
     end) = [2; 2].
Proof.
  intros BS lines. subst lines.
  rewrite (conf_lines_continuation "/b/foo.conf" false ("A = 'x " +:+ BS) "y'" ["B = 'z'"]
             0 [] (Init.state (Init.datastore []))
             eq_refl eq_refl eq_refl eq_refl eq_refl eq_refl).
  vm_compute. reflexivity.
Defined.

(** ** Including a file that is not there *)

Section MissingFile.
Context (os : OS) (ext : External).

#[local] Abbreviation after_resolve :=
  (Spec.resolve_state os ext Parse._RESOLVE_CACHE_MAX).

Lemma resolve_file_missing_abs (fn : string) (s : State) :
  Path.isabs fn = true -> isfile os fn = false ->
  Parse.resolve_file os ext fn s =
    (Raise (IOError ENOENT (NotFound fn)), after_resolve fn s).
Proof.
  intros Habs Hfile. unfold Parse.resolve_file. rewrite resolve_file_run.
  unfold Spec.outcome, Spec.candidate. rewrite Habs. cbn [negb andb].
  rewrite Hfile. reflexivity.
Qed.

(** A missing file is still recorded as a dependency. *)
Lemma missing_abs_recorded (fn : string) (s : State) :
  Path.isabs fn = true ->
  exists stamp, (fn, stamp) ∈ Parse.depends_or_nil (st_d (after_resolve fn s)).
Proof.
  intros Habs. unfold Parse.depends_or_nil. rewrite depends_resolve_state.
  unfold Spec.attempts. rewrite Habs.
  pose proof (marks_recorded os [fn] (Spec.marked (Spec.start_state os s)) fn
                ltac:(left)) as H.
  unfold Spec.dep_of in H. unfold Parse.dep_path in H.
  assert (Hds : Str.startswith "./" fn = false).
  { destruct fn as [|c fn]; [reflexivity|]. cbn [Path.isabs Str.startswith] in Habs.
    cbn [Str.startswith]. destruct (Ascii.eqb "/" c) eqn:E; [|discriminate].
    apply Ascii.eqb_eq in E. subst c. reflexivity. }
  rewrite Hds in H. eexists. exact H.
Qed.

Lemma conf_handle_missing_abs (eval : StatementGroup -> M unit) (fn : string)
  (include baseconfig : bool) (s : State) :
  Path.isabs fn = true -> isfile os fn = false ->
  exists s2, ConfHandler.handle os ext eval fn include baseconfig s =
               (Raise (IOError ENOENT (NotFound fn)), after_resolve fn s2).
Proof.
  intros Habs Hfile. unfold ConfHandler.handle, ConfHandler.init.
  unfold bind at 1. unfold ret at 1. unfold bind at 1. rewrite getVar_run.
  unfold bind at 1.
  destruct (Metrics.set_tmpdir _ s) as [[[]|e] s1] eqn:H1.
  2: { unfold Metrics.set_tmpdir in H1.
       repeat match type of H1 with
              | context [match ?x with _ => _ end] => destruct x
              end; discriminate. }
  unfold bind at 1.
  assert (H2 : exists old, (if include then Parse.getVar ext "FILE" false else ret None) s1
                           = (Ret old, s1)).
  { destruct include; [rewrite getVar_run|]; eexists; reflexivity. }
  destruct H2 as [old ->]. unfold bind at 1.
  rewrite (resolve_file_missing_abs fn s1 Habs Hfile). eexists. reflexivity.
Qed.

Lemma bb_handle_missing_abs (eval : StatementGroup -> M unit) (fn : string)
  (include baseconfig : bool) (s : State) :
  Path.isabs fn = true -> isfile os fn = false ->
  exists s2, BBHandler.handle os ext eval fn include baseconfig s =
               (Raise (IOError ENOENT (NotFound fn)), after_resolve fn s2).
Proof.
  intros Habs Hfile. unfold BBHandler.handle, ConfHandler.init. cbv zeta.
  unfold bind at 1. unfold modify at 1. unfold bind at 1. unfold ret at 1.
  unfold bind at 1. rewrite getVar_run. unfold bind at 1.
  destruct (Metrics.set_tmpdir _ _) as [[[]|e] s1] eqn:H1.
  2: { unfold Metrics.set_tmpdir in H1.
       repeat match type of H1 with
              | context [match ?x with _ => _ end] => destruct x
              end; discriminate. }
  unfold bind at 1.
  match goal with
  | |- context [when ?b ?c s1] =>
      assert (H2 : exists s2, when b c s1 = (Ret tt, s2))
  end.
  { unfold when. destruct (bool_decide _); [|eexists; reflexivity].
    unfold bind, modify, gets, when.
    destruct (negb _); eexists; reflexivity. }
  destruct H2 as [s2 ->]. unfold bind at 1.
  assert (H3 : exists old, (if include then Parse.getVar ext "FILE" false else ret None) s2
                           = (Ret old, s2)).
  { destruct include; [rewrite getVar_run|]; eexists; reflexivity. }
  destruct H3 as [old ->]. unfold bind at 1.
  rewrite (resolve_file_missing_abs fn s2 Habs Hfile). eexists. reflexivity.
Qed.

Lemma get_handler_from_supports (fn : string) (s s' : State) :
  fst (Dispatch.supports os fn s) = Ret 1 ->
  supports_cache (st_parse s') = supports_cache (st_parse s) ->
  exists h s'', Dispatch._get_handler os fn s' = (Ret (Some h), s'').
Proof.
  unfold Dispatch.supports, bind, ret. rewrite !get_handler_run. cbv zeta.
  intros Hs Hc. rewrite Hc.
  destruct (env_on os "BB_OPT_DISABLE_SUPPORTS_CACHE").
  - cbn [fst] in Hs. destruct (Props.handler_for fn) as [h|]; [|discriminate].
    eexists _, _. reflexivity.
  - destruct (supports_cache (st_parse s) !! Path.splitext_ext fn) as [[h|]|];
      cbn [fst] in Hs; try discriminate.
    + eexists _, _. reflexivity.
    + destruct (Props.handler_for fn) as [h|]; [|discriminate].
      eexists _, _. reflexivity.
Qed.

Lemma dispatch_handle_missing_abs (depth : nat) (fn : string) (include baseconfig : bool)
  (s0 s : State) :
  fst (Dispatch.supports os fn s0) = Ret 1 ->
  supports_cache (st_parse s) = supports_cache (st_parse s0) ->
  Path.isabs fn = true -> isfile os fn = false ->
  exists s2, Dispatch.handle os ext (S depth) fn include baseconfig s =
               (Raise (IOError ENOENT (NotFound fn)), after_resolve fn s2).
Proof.
  intros Hsup Hc Habs Hfile. cbn [Dispatch.handle]. unfold Dispatch.handle_step.
  unfold bind at 1. unfold log_event at 1, modify at 1. unfold bind at 1.
  destruct (get_handler_from_supports fn s0
              (upd_log (fun l => l ++ [Dispatched fn]) s) Hsup Hc) as (h & s1 & ->).
  destruct h.
  - apply conf_handle_missing_abs; assumption.
  - apply bb_handle_missing_abs; assumption.
Qed.

End MissingFile.

(** X16: [include] of a file that is not there is not an error, [require]
    of it is.  For an absolute name of a kind the parser handles that is
    not a regular file, [include_single_file] without an [error_out]
    verb returns normally, and with a verb (a required file) raises
    [ParseError("Could not <verb> file <fn>")] located at the including
    file and line.  Either way the missing file has been recorded in
    [__depends]. *)
Theorem include_missing_file (os : OS) (ext : External) (depth : nat)
  (parentfn fn : string) (lineno : Z) (s : State) :
  parentfn <> fn ->
  Path.isabs fn = true ->
  isfile os fn = false ->
  fst (Dispatch.supports os fn s) = Ret 1 ->
  let run error_out :=
    Dispatch.include_single_file os ext (S depth) parentfn fn lineno error_out s in
  fst (run None) = Ret tt
  /\ (exists stamp, (fn, stamp) ∈ Parse.depends_or_nil (st_d (snd (run None))))
  /\ forall verb, Str.truthy verb = true ->
       fst (run (Some verb)) = Raise (ParseError (CouldNot verb fn) parentfn lineno)
       /\ exists stamp, (fn, stamp) ∈ Parse.depends_or_nil (st_d (snd (run (Some verb)))).
Proof.
  intros Hne Habs Hfile Hsup. cbv zeta.
  assert (Hrun : forall error_out, exists s2,
             Dispatch.include_single_file os ext (S depth) parentfn fn lineno error_out s =
               (match error_out with
                | Some verb => if Str.truthy verb
                               then Raise (ParseError (CouldNot verb fn) parentfn lineno)
                               else Ret tt
                | None => Ret tt
                end,
                Spec.resolve_state os ext Parse._RESOLVE_CACHE_MAX fn s2)).
  { intros error_out.
    unfold Dispatch.include_single_file, ConfHandler.include_single_file.
    rewrite bool_decide_eq_false_2 by exact Hne. rewrite Habs. cbn [negb].
    unfold bind at 1. unfold bind at 1. rewrite check_dependency_run.
    unfold bind at 1.
    match goal with
    | |- context [when ?b ?c ?s1] =>
        assert (Hw : exists s2, when b c s1 = (Ret tt, s2)
                                /\ supports_cache (st_parse s2) = supports_cache (st_parse s))
    end.
    { unfold when, log_event, modify.
      destruct (bool_decide _); eexists; (split; [reflexivity|reflexivity]). }
    destruct Hw as (s2 & -> & Hc). unfold ret at 1. unfold try_except. unfold bind at 1.
    destruct (dispatch_handle_missing_abs os ext depth fn true false s s2 Hsup Hc Habs Hfile)
      as [s3 ->].
    rewrite bool_decide_eq_true_2 by reflexivity.
    exists s3. destruct error_out as [verb|]; [|reflexivity].
    destruct (Str.truthy verb); reflexivity. }
  split; [|split].
  - destruct (Hrun None) as [s2 ->]. reflexivity.
  - destruct (Hrun None) as [s2 ->]. apply missing_abs_recorded. exact Habs.
  - intros verb Hv. destruct (Hrun (Some verb)) as [s2 ->]. rewrite Hv. split; [reflexivity|].
    apply missing_abs_recorded. exact Habs.
Qed.

Lemma include_missing_file_witness :
  let s := Init.state (Init.datastore []) in
  let run error_out :=
    Dispatch.include_single_file Sample.os Sample.ext 3 "/b/foo.conf" "/b/gone.conf" 4
      error_out s in
  fst (run None) = Ret tt
  /\ fst (run (Some "include required")) =
       Raise (ParseError (CouldNot "include required" "/b/gone.conf") "/b/foo.conf" 4).
Proof.
  intros s run.
  destruct (include_missing_file Sample.os Sample.ext 2 "/b/foo.conf" "/b/gone.conf" 4 s
              ltac:(discriminate) eq_refl eq_refl eq_refl) as (H1 & _ & H3).
  split; [exact H1|]. exact (proj1 (H3 "include required" eq_refl)).
Defined.

(** ** The recipe handler: function bodies *)

Section FunctionBodies.
Context (ext : External).

(** The feeder with a shell function open. *)
Lemma feeder_infunc (f : InFunc) lineno l fn root statements eof (s : State) :
  infunc (st_bb s) = Some f ->
  exists s',
    BBHandler.feeder ext lineno l fn root statements eof s =
      (Ret (if bool_decide (l = "}")
            then ConfHandler.emit statements fn lineno
                   (ShellMethod (if_name f) (body (st_bb s) ++ [""]) (if_py f) (if_fr f))
            else statements), s')
    /\ st_bb s' =
         (if bool_decide (l = "}")
          then BBHandler.set_parser None (inpython (st_bb s)) [] (classname (st_bb s))
                 (residue (st_bb s)) (st_bb s)
          else BBHandler.set_parser (Some f) (inpython (st_bb s)) (body (st_bb s) ++ [l])
                 (classname (st_bb s)) (residue (st_bb s)) (st_bb s)).
Proof.
  intros Hf. unfold BBHandler.feeder. unfold bind at 1. unfold gets at 1.
  rewrite Hf. unfold bind at 1.
  match goal with
  | |- context [when ?b ?c s] =>
      assert (Hw : exists s1, when b c s = (Ret tt, s1) /\ st_bb s1 = st_bb s)
  end.
  { unfold when, log_event, modify.
    destruct (_ || _); [destruct (bool_decide _)|]; eexists; split; reflexivity. }
  destruct Hw as (s1 & -> & Hbb).
  destruct (bool_decide (l = "}")); unfold bind, modify, ret; eexists;
    (split; [reflexivity|]); cbn; rewrite Hbb; reflexivity.
Qed.

End FunctionBodies.

(** X17: what stands between the braces of a shell or python function is
    taken as it is.  With a function open, the lines up to the first one
    that is a closing brace on its own are appended to the body,
    right-stripped and otherwise untouched: a line that looks like a
    statement, a comment or a continuation is not interpreted.  The
    closing brace gives one method node, located at its line, whose body
    is the lines gathered followed by an empty line, and leaves no
    function open. *)
Theorem shell_function_captured (ext : External) (filename base_name : string) (f : InFunc)
  (lines : list string) (closing : string) (lineno : Z) (statements : StatementGroup)
  (s : State) :
  infunc (st_bb s) = Some f ->
  forallb (fun l => negb (bool_decide (Str.rstrip l = "}"))) lines = true ->
  Str.rstrip closing = "}" ->
  let r := BBHandler.feed_lines ext filename base_name (lines ++ [closing]) lineno
             statements s in
  let last := lineno + Z.of_nat (length lines) + 1 in
  fst r =
    Ret (statements ++
           [{| n_file := filename; n_line := last;
               n_payload := ShellMethod (if_name f)
                              (body (st_bb s) ++ map Str.rstrip lines ++ [""])
                              (if_py f) (if_fr f) |}],
         last)
  /\ infunc (st_bb (snd r)) = None
  /\ body (st_bb (snd r)) = [].
Proof.
  intros Hf Hall Hclose. cbv zeta.
  revert s lineno Hf Hall. induction lines as [|l lines IH]; intros s lineno Hf Hall.
  - cbn [app BBHandler.feed_lines]. cbv zeta. unfold bind.
    destruct (feeder_infunc ext f (lineno + 1) (Str.rstrip closing) filename base_name
                statements false s Hf) as (s' & -> & Hbb).
    rewrite Hclose in *. rewrite bool_decide_eq_true_2 in * by reflexivity.
    cbn [BBHandler.feed_lines ret fst snd]. unfold ret. cbn [fst snd].
    rewrite Hbb. cbn [length map app]. unfold ConfHandler.emit.
    replace (lineno + Z.of_nat 0 + 1) with (lineno + 1) by lia.
    repeat split; reflexivity.
  - cbn [forallb] in Hall. apply andb_true_iff in Hall as [Hl Hall].
    apply negb_true_iff in Hl. apply bool_decide_eq_false in Hl.
    cbn [app BBHandler.feed_lines]. cbv zeta. unfold bind at 1 2 3.
    destruct (feeder_infunc ext f (lineno + 1) (Str.rstrip l) filename base_name
                statements false s Hf) as (s' & -> & Hbb).
    rewrite bool_decide_eq_false_2 in * by exact Hl.
    assert (Hf' : infunc (st_bb s') = Some f) by (rewrite Hbb; reflexivity).
    specialize (IH s' (lineno + 1) Hf' Hall).
    assert (Hbody : body (st_bb s') = body (st_bb s) ++ [Str.rstrip l])
      by (rewrite Hbb; reflexivity).
    rewrite Hbody in IH. cbn [length map].
    replace (lineno + Z.of_nat (S (length lines)) + 1)
      with (lineno + 1 + Z.of_nat (length lines) + 1) by lia.
    rewrite <- app_assoc in IH. exact IH.
Qed.

Lemma shell_function_captured_witness :
  let s := upd_bb (BBHandler.set_parser
                     (Some {| if_name := "do_build"; if_fn := "x.bb"; if_lineno := 1;
                              if_py := false; if_fr := false |}) None [] "" [])
             (Init.state (Init.datastore [])) in
  fst (BBHandler.feed_lines Sample.ext "x.bb" "x.bb"
         ["inherit base"; "# not a comment here"; "}"] 1 [] s) =
    Ret ([{| n_file := "x.bb"; n_line := 4;
             n_payload := ShellMethod "do_build"
                            ["inherit base"; "# not a comment here"; ""]
                            false false |}], 4).
Proof.
  intros s.
  exact (proj1 (shell_function_captured Sample.ext "x.bb" "x.bb" _
                  ["inherit base"; "# not a comment here"] "}" 1 [] s
                  eq_refl eq_refl eq_refl)).
Defined.

(** ** The recipe handler: where the statements come from *)

Section Adds.
Context (fn : string) (lo hi : Z).

Lemma adds_ret statements : Props.adds fn lo hi statements (ret statements).
Proof. intros s. exists []. rewrite app_nil_r. split; [reflexivity|constructor]. Qed.

Lemma adds_raise statements e : Props.adds fn lo hi statements (raise e).
Proof. intros s. exact I. Qed.

Lemma adds_emit statements lineno p :
  lo <= lineno <= hi ->
  Props.adds fn lo hi statements (ret (ConfHandler.emit statements fn lineno p)).
Proof.
  intros Hl s. eexists. split; [reflexivity|].
  constructor; [|constructor]. split; [reflexivity|exact Hl].
Qed.

Lemma adds_bind {A} statements (c : M A) (k : A -> M StatementGroup) :
  (forall a, Props.adds fn lo hi statements (k a)) ->
  Props.adds fn lo hi statements (bind c k).
Proof.
  intros Hk s. unfold bind. destruct (c s) as [[a|e] s1]; [apply Hk|exact I].
Qed.

Lemma adds_after_emit statements lineno p (c : M StatementGroup) :
  lo <= lineno <= hi ->
  Props.adds fn lo hi (ConfHandler.emit statements fn lineno p) c ->
  Props.adds fn lo hi statements c.
Proof.
  intros Hl Hc s. specialize (Hc s). destruct (fst (c s)) as [out|e]; [|exact I].
  destruct Hc as (added & -> & Hall). unfold ConfHandler.emit.
  eexists. rewrite <- app_assoc. split; [reflexivity|].
  constructor; [split; [reflexivity|exact Hl]|exact Hall].
Qed.

Lemma adds_seq statements (c : M StatementGroup) (k : StatementGroup -> M StatementGroup) :
  Props.adds fn lo hi statements c ->
  (forall out, Props.adds fn lo hi out (k out)) ->
  Props.adds fn lo hi statements (bind c k).
Proof.
  intros Hc Hk s. unfold bind. specialize (Hc s).
  destruct (c s) as [[out|e] s1]; cbn [fst] in *; [|exact I].
  destruct Hc as (added & -> & Hall). specialize (Hk (statements ++ added) s1).
  destruct (fst (k (statements ++ added) s1)) as [out2|e2]; [|exact I].
  destruct Hk as (added2 & -> & Hall2). exists (added ++ added2).
  rewrite app_assoc. split; [reflexivity|]. apply Forall_app. split; assumption.
Qed.

End Adds.

Lemma adds_weaken fn lo hi lo' hi' statements c :
  lo' <= lo -> hi <= hi' ->
  Props.adds fn lo hi statements c -> Props.adds fn lo' hi' statements c.
Proof.
  intros Hlo Hhi Hc s. specialize (Hc s). destruct (fst (c s)) as [out|e]; [|exact I].
  destruct Hc as (added & -> & Hall). exists added. split; [reflexivity|].
  eapply Forall_impl; [exact Hall|]. intros n [Hf Hl]. split; [exact Hf|lia].
Qed.

Lemma conf_feeder_adds lineno l fn statements baseconfig conffile :
  Props.adds fn lineno lineno statements
    (ConfHandler.feeder lineno l fn statements baseconfig conffile).
Proof.
  intros s.
  pose proof (conf_feeder_located lineno l fn statements baseconfig conffile lineno lineno s
                ltac:(lia)) as H.
  destruct (fst (ConfHandler.feeder lineno l fn statements baseconfig conffile s));
    [exact H|exact I].
Qed.

Ltac adds_step :=
  first
    [ apply adds_ret
    | apply adds_raise
    | apply adds_emit; lia
    | apply conf_feeder_adds
    | apply adds_bind; intros ?
    | match goal with
      | |- Props.adds _ _ _ _ (if ?b then _ else _) => destruct b
      | |- Props.adds _ _ _ _ (match ?x with _ => _ end) => destruct x
      | |- Props.adds _ _ _ _ (let _ := _ in _) => cbv zeta
      end ].

Lemma bb_feeder_adds (ext : External) lineno l fn root statements eof :
  Props.adds fn lineno lineno statements (BBHandler.feeder ext lineno l fn root statements eof).
Proof.
  unfold BBHandler.feeder.
  apply adds_bind. intros st. apply adds_bind. intros _.
  destruct (infunc st) as [f|].
  { repeat adds_step. }
  cbv zeta.
  destruct (inpython st) as [name|].
  - destruct (_ && negb eof); [repeat adds_step|].
    apply adds_bind. intros _. cbv zeta.
    destruct eof; [repeat adds_step|].
    eapply adds_after_emit; [|repeat adds_step]. lia.
  - repeat adds_step.
Qed.

Lemma feed_lines_adds (ext : External) filename base_name (lines : list string) :
  forall lineno statements (s : State),
    match fst (BBHandler.feed_lines ext filename base_name lines lineno statements s) with
    | Ret (out, ln) =>
        ln = lineno + Z.of_nat (length lines)
        /\ exists added,
             out = statements ++ added
             /\ Forall (Props.located filename (lineno + 1)
                          (lineno + Z.of_nat (length lines))) added
    | Raise _ => True
    end.
Proof.
  induction lines as [|line rest IH]; intros lineno statements s.
  - cbn. split; [lia|]. exists []. rewrite app_nil_r. split; [reflexivity|constructor].
  - cbn [BBHandler.feed_lines]. cbv zeta. unfold bind.
    pose proof (bb_feeder_adds ext (lineno + 1) (Str.rstrip line) filename base_name
                  statements false s) as Hf.
    destruct (BBHandler.feeder ext (lineno + 1) (Str.rstrip line) filename base_name
                statements false s) as [[out|e] s1]; cbn [fst] in *; [|exact I].
    destruct Hf as (added & -> & Hall).
    specialize (IH (lineno + 1) (statements ++ added) s1).
    destruct (fst (BBHandler.feed_lines ext filename base_name rest (lineno + 1)
                     (statements ++ added) s1)) as [[out2 ln]|e2]; [|exact I].
    destruct IH as (-> & added2 & -> & Hall2).
    split; [cbn [length]; lia|]. exists (added ++ added2).
    rewrite app_assoc. split; [reflexivity|]. apply Forall_app. split.
    + eapply Forall_impl; [exact Hall|]. intros n [Hn Hl]. split; [exact Hn|].
      cbn [length]. lia.
    + eapply Forall_impl; [exact Hall2|]. intros n [Hn Hl]. split; [exact Hn|].
      cbn [length]. lia.
Qed.

(** X18: the statements of a recipe file are located.  When
    [get_statements] parses the file (no tree is cached under its
    absolute path), every node of the tree it returns carries the name
    the file was asked for under (not the absolute path) and a line
    number from 1 to the number of lines of the file; only for an empty
    file, where a python function left open is closed at line 0, is the
    number 0.  A file that cannot be opened is the [OSError] of the open,
    and a cached tree is returned as it is. *)
Theorem recipe_statements_located (os : OS) (ext : External)
  (filename absolute_filename base_name : string) (s : State) :
  let r := BBHandler.get_statements os ext filename absolute_filename base_name s in
  match cached_statements (st_bb s) !! absolute_filename with
  | Some st => fst r = Ret st
  | None =>
      match open_read os absolute_filename with
      | Some lines =>
          match fst r with
          | Ret out =>
              Forall (Props.located filename (Z.min 1 (Z.of_nat (length lines)))
                        (Z.of_nat (length lines))) out
          | Raise _ => True
          end
      | None =>
          fst r = Raise (IOError (os_errno os absolute_filename)
                           (OpenFailed absolute_filename))
      end
  end.
Proof.
  cbv zeta.
  destruct (BBHandler.get_statements os ext filename absolute_filename base_name s)
    as [res sf] eqn:Hr.
  unfold BBHandler.get_statements in Hr. unfold bind at 1 in Hr. unfold gets at 1 in Hr.
  destruct (cached_statements (st_bb s) !! absolute_filename) as [st|].
  { injection Hr as <- <-. reflexivity. }
  unfold bind at 1 in Hr. unfold ConfHandler.open_lines in Hr.
  unfold bind at 1 in Hr. unfold log_event at 1, modify at 1 in Hr.
  destruct (open_read os absolute_filename) as [lines|];
    [|injection Hr as <- <-; reflexivity].
  unfold ret at 1 in Hr. unfold bind at 1 in Hr.
  match type of Hr with
  | context [BBHandler.feed_lines ext filename base_name lines 0 [] ?s1] =>
      pose proof (feed_lines_adds ext filename base_name lines 0 [] s1) as Hfl;
      destruct (BBHandler.feed_lines ext filename base_name lines 0 [] s1)
        as [[[out ln]|e] s2]
  end; cbn [fst snd] in *; [|injection Hr as <- <-; exact I].
  destruct Hfl as (-> & added & -> & Hall). cbn [app] in *.
  unfold bind at 1 in Hr. unfold gets at 1 in Hr. unfold bind at 1 in Hr.
  assert (Hloc : forall n, Props.located filename 1 (Z.of_nat (length lines)) n ->
                   Props.located filename (Z.min 1 (Z.of_nat (length lines)))
                     (Z.of_nat (length lines)) n).
  { intros n [Hn Hl]. split; [exact Hn|lia]. }
  assert (Hstep : Props.adds filename (Z.min 1 (Z.of_nat (length lines)))
                    (Z.of_nat (length lines)) added
                    (if bool_decide (is_Some (inpython (st_bb s2)))
                     then BBHandler.feeder ext (0 + Z.of_nat (length lines)) "" filename
                            base_name added true
                     else ret added)).
  { destruct (bool_decide _); [|apply adds_ret].
    eapply adds_weaken; [| |apply bb_feeder_adds]; lia. }
  specialize (Hstep s2).
  destruct ((if bool_decide (is_Some (inpython (st_bb s2)))
             then BBHandler.feeder ext (0 + Z.of_nat (length lines)) "" filename
                    base_name added true
             else ret added) s2) as [[out|e] s3]; cbn [fst] in *;
    [|injection Hr as <- <-; exact I].
  destruct Hstep as (added2 & -> & Hall2).
  assert (Hout : Forall (Props.located filename (Z.min 1 (Z.of_nat (length lines)))
                           (Z.of_nat (length lines))) (added ++ added2)).
  { apply Forall_app. split; [|exact Hall2].
    eapply Forall_impl; [exact Hall|]. intros n Hn. apply Hloc.
    destruct Hn as [Hn Hl]. split; [exact Hn|lia]. }
  revert Hr. unfold bind, gets, when, modify, ret, raise.
  repeat match goal with
         | |- context [if ?b then _ else _] => destruct b
         end; intros [= <- <-]; try exact I; exact Hout.
Qed.

(** ** Inherit: deferred and unresolved classes *)

Section Deferred.
Context (os : OS) (ext : External).

Lemma defer_list_definherits (l : option (list (string * string * Z))) (s : State) :
  Spec.defer_list ext (upd_d (Parse.set_definherits l) s) = Spec.defer_list ext s.
Proof. reflexivity. Qed.

(** One class of the defer list, met by [inherit] outside the deferred
    pass. *)
Lemma inherit_one_deferred (handle : string -> bool -> M Handled) fn lineno cache file
  (s : State) :
  file ∈ Spec.defer_list ext s ->
  BBHandler.inherit_one os ext handle fn lineno false cache file s =
    (Ret cache,
     upd_d (fun d => Parse.set_definherits
                       (Some (default [] (d_definherits d) ++ [(file, fn, lineno)])) d) s).
Proof.
  intros Hin. unfold BBHandler.inherit_one. unfold bind at 1. rewrite getVar_run.
  unfold Spec.defer_list in Hin. rewrite getVar_run in Hin. cbn [fst] in Hin.
  cbn [negb andb]. rewrite bool_decide_eq_true_2 by exact Hin.
  reflexivity.
Qed.

Lemma inherit_loop_deferred (handle : string -> bool -> M Handled) fn lineno
  (ws : list string) :
  forall cache (s : State),
    Forall (fun w => w ∈ Spec.defer_list ext s) ws ->
    exists s',
      BBHandler.inherit_loop os ext handle fn lineno false ws cache s = (Ret tt, s')
      /\ Spec.or_nil (d_definherits (st_d s')) =
           Spec.or_nil (d_definherits (st_d s)) ++ map (fun w => (w, fn, lineno)) ws
      /\ (ws = [] -> s' = s)
      /\ d_vars (st_d s') = d_vars (st_d s)
      /\ d_depends (st_d s') = d_depends (st_d s)
      /\ d_inherit_cache (st_d s') = d_inherit_cache (st_d s)
      /\ d_skipped (st_d s') = d_skipped (st_d s)
      /\ upd_d (fun _ => st_d s) s' = s.
Proof.
  induction ws as [|w ws IH]; intros cache s Hall.
  - exists s. cbn. rewrite app_nil_r. repeat split; try reflexivity.
    destruct s; reflexivity.
  - apply Forall_cons in Hall as [Hw Hall].
    cbn [BBHandler.inherit_loop]. unfold bind.
    rewrite (inherit_one_deferred handle fn lineno cache w s Hw). cbv beta iota.
    match goal with
    | |- context [BBHandler.inherit_loop os ext handle fn lineno false ws cache ?s1] =>
        destruct (IH cache s1) as (s' & -> & Hd & _ & Hv & Hdep & Hic & Hsk & Hrest)
    end.
    { eapply Forall_impl; [exact Hall|]. intros x Hx. exact Hx. }
    exists s'. split; [reflexivity|]. split.
    { rewrite Hd. cbn. unfold Spec.or_nil. rewrite <- app_assoc. reflexivity. }
    split; [discriminate|].
    repeat split; try assumption.
    apply (f_equal (upd_d (fun _ => st_d s))) in Hrest.
    etransitivity; [exact Hrest|]. destruct s; reflexivity.
Qed.

End Deferred.

(** X19: a class named in [BB_DEFER_BBCLASSES] is not inherited on the
    spot.  When every class an [inherit] call names (outside the deferred
    pass) is in that list, the call returns normally and all it does is
    append one [(class, fn, lineno)] entry for each name, in order, to
    [__BBDEFINHERITS]: no class file is resolved or parsed,
    [__inherit_cache], [__depends] and the string variables stay as they
    are, and so does everything outside the datastore. *)
Theorem inherit_deferred (os : OS) (ext : External) (depth : nat) (files fn : string)
  (lineno : Z) (s : State) :
  let ws := Str.words (expand ext (d_vars (st_d s)) files) in
  let r := Dispatch.inherit os ext depth files fn lineno false s in
  Forall (fun w => w ∈ Spec.defer_list ext s) ws ->
  fst r = Ret tt
  /\ Spec.or_nil (d_definherits (st_d (snd r))) =
       Spec.or_nil (d_definherits (st_d s)) ++ map (fun w => (w, fn, lineno)) ws
  /\ d_vars (st_d (snd r)) = d_vars (st_d s)
  /\ d_depends (st_d (snd r)) = d_depends (st_d s)
  /\ d_inherit_cache (st_d (snd r)) = d_inherit_cache (st_d s)
  /\ upd_d (fun _ => st_d s) (snd r) = s.
Proof.
  intros ws r Hall. subst r.
  unfold Dispatch.inherit, BBHandler.inherit. unfold bind, gets. cbn [fst snd]. fold ws.
  destruct (inherit_loop_deferred os ext
              (fun fn0 include => Dispatch.handle os ext depth fn0 include false)
              fn lineno ws (BBHandler.inherit_cache_or_nil (st_d s)) s Hall)
    as (s' & -> & Hd & _ & Hv & Hdep & Hic & _ & Hrest).
  cbn [fst snd]. repeat split; assumption.
Qed.

Lemma inherit_deferred_witness :
  let s := Init.state (Init.datastore [("BB_DEFER_BBCLASSES", "native cross")]) in
  let r := Dispatch.inherit Sample.os Sample.ext 3 "cross native" "/r/x.bb" 7 false s in
  fst r = Ret tt
  /\ d_definherits (st_d (snd r)) = Some [("cross", "/r/x.bb", 7); ("native", "/r/x.bb", 7)]
  /\ d_inherit_cache (st_d (snd r)) = None
  /\ st_log (snd r) = [].
Proof.
  intros s r.
  destruct (inherit_deferred Sample.os Sample.ext 3 "cross native" "/r/x.bb" 7 s) as [H _].
  - repeat constructor; vm_compute; auto using elem_of_list_here, elem_of_list_further.
  - split; [exact H|]. vm_compute. repeat split; reflexivity.
Defined.

Section Unresolved.
Context (os : OS) (ext : External).

Lemma mark_all_recorded (fs : list string) (s : State) (f : string) :
  f ∈ fs ->
  exists stamp,
    (Parse.dep_path os f, stamp) ∈ Parse.depends_or_nil (st_d (Spec.mark_all os fs s)).
Proof.
  intros Hf. pose proof (marks_recorded os fs (Spec.marked s) f Hf) as H.
  unfold Spec.dep_of in H. eexists. exact H.
Qed.

Lemma mark_all_keeps_view (c : string) (fs : list string) (s : State) :
  Spec.inherit_view c (Spec.mark_all os fs s) = Spec.inherit_view c s.
Proof. reflexivity. Qed.

End Unresolved.

(** X20: a class that cannot be inherited is an error that leaves its
    traces.  When the first class an [inherit] call names is not deferred
    and does not resolve to an existing file, the call raises
    [ParseError("Could not inherit file ...")] located at the inheriting
    file and line; [__inherit_cache] stays as it is and nothing is
    dispatched, but every path that was tried, other than the one
    resolved, has been recorded in [__depends]. *)
Theorem inherit_unresolved (os : OS) (ext : External) (depth : nat) (files fn : string)
  (lineno : Z) (deferred : bool) (file : string) (rest : list string)
  (resolved : option string) (attempts : list string) (s : State) :
  Str.words (expand ext (d_vars (st_d s)) files) = file :: rest ->
  negb deferred && bool_decide (file ∈ Spec.defer_list ext s) = false ->
  fst (BBHandler._resolve_inherit_file os ext file s) = Ret (resolved, attempts) ->
  from_option (fun f => Str.truthy f && exists_ os f) false resolved = false ->
  let r := Dispatch.inherit os ext depth files fn lineno deferred s in
  fst r = Raise (ParseError (CouldNotInherit resolved) fn lineno)
  /\ (forall c, Spec.inherit_view c (snd r) = Spec.inherit_view c s)
  /\ forall af, af ∈ attempts -> Some af <> resolved ->
       exists stamp, (Parse.dep_path os af, stamp) ∈ Parse.depends_or_nil (st_d (snd r)).
Proof.
  intros Hw Hdef Hres Hbad. cbv zeta.
  destruct (Dispatch.inherit os ext depth files fn lineno deferred s) as [res sf] eqn:Hr.
  unfold Dispatch.inherit, BBHandler.inherit in Hr.
  unfold bind at 1 in Hr. unfold gets at 1 in Hr. rewrite Hw in Hr.
  cbn [BBHandler.inherit_loop] in Hr. unfold bind at 1 in Hr.
  unfold BBHandler.inherit_one in Hr. unfold bind at 1 in Hr. rewrite getVar_run in Hr.
  unfold Spec.defer_list in Hdef. rewrite getVar_run in Hdef. cbn [fst] in Hdef.
  rewrite Hdef in Hr. cbv zeta in Hr. unfold bind at 1 in Hr.
  assert (Hview : forall c, Spec.inherit_view c
                              (snd (BBHandler._resolve_inherit_file os ext file s)) =
                            Spec.inherit_view c s).
  { intros c. apply _resolve_inherit_file_keeps_view. }
  destruct (BBHandler._resolve_inherit_file os ext file s) as [[rr|e] s1];
    cbn [fst snd] in *; [|discriminate].
  injection Hres as ->. cbn [fst snd] in Hr.
  unfold bind at 1 in Hr.
  rewrite (for_each_marks_filtered os (fun af => Some af <> resolved) attempts s1) in Hr.
  assert (Hfin : (res, sf) =
                 (Raise (ParseError (CouldNotInherit resolved) fn lineno),
                  Spec.mark_all os (filter (fun af => Some af <> resolved) attempts) s1)).
  { rewrite <- Hr. destruct resolved as [f|]; [|reflexivity].
    cbn [from_option] in Hbad.
    destruct (Str.truthy f); cbn [andb negb orb] in *; [|reflexivity].
    rewrite Hbad. reflexivity. }
  injection Hfin as -> ->. cbn [fst snd].
  split; [reflexivity|]. split.
  - intros c. rewrite mark_all_keeps_view. apply Hview.
  - intros af Haf Hne. apply mark_all_recorded.
    apply list_elem_of_filter. split; assumption.
Qed.

Lemma inherit_unresolved_witness :
  let s := Init.state (Init.datastore [("BBPATH", "/L")]) in
  let r := Dispatch.inherit Sample.os Sample.ext 3 "nosuch" "/r/x.bb" 2 false s in
  fst r = Raise (ParseError (CouldNotInherit None) "/r/x.bb" 2)
  /\ exists stamp,
       ("/L/classes/nosuch.bbclass", stamp) ∈ Parse.depends_or_nil (st_d (snd r)).
Proof.
  intros s r.
  destruct (inherit_unresolved Sample.os Sample.ext 3 "nosuch" "/r/x.bb" 2 false
              "nosuch" [] None
              ["/L/classes-None/nosuch.bbclass"; "/L/classes/nosuch.bbclass"] s
              eq_refl eq_refl eq_refl eq_refl) as (H1 & _ & H3).
  split; [exact H1|].
  apply (H3 "/L/classes/nosuch.bbclass"); [right; left|discriminate].
Defined.

(** ** One handler for a name *)

Lemma drop_suffix (n : nat) (s : string) : exists pre, s = (pre +:+ Str.drop n s)%string.
Proof.
  revert s. induction n as [|n IH]; intros s.
  - exists ""%string. reflexivity.
  - destruct s as [|c s]; [exists ""%string; reflexivity|].
    destruct (IH s) as [pre Hpre]. exists (String c pre).
    cbn [Str.drop]. change (String c s = String c (pre +:+ Str.drop n s)).
    rewrite <- Hpre. reflexivity.
Qed.

Lemma after_last_slash_conf (p acc : string) :
  exists q, Path.after_last_slash acc (p +:+ ".conf") = (q +:+ ".conf")%string.
Proof.
  revert acc. induction p as [|c p IH]; intros acc.
  - exists (String.rev acc).
    change (String.rev (String "f" (String "n" (String "o" (String "c" (String "." acc))))) =
            (String.rev acc +:+ ".conf")%string).
    rewrite !rev_cons. rewrite !string_app_assoc. reflexivity.
  - change (String c p +:+ ".conf")%string with (String c (p +:+ ".conf")).
    cbn [Path.after_last_slash]. destruct (Ascii.eqb c "/"); apply IH.
Qed.

Lemma ext_go_conf_seen (q : string) (best : option string) :
  Path.ext_go true best (q +:+ ".conf") = Some ".conf"%string.
Proof.
  revert best. induction q as [|c q IH]; intros best.
  - reflexivity.
  - change (String c q +:+ ".conf")%string with (String c (q +:+ ".conf")).
    cbn [Path.ext_go]. destruct (Ascii.eqb c "."); apply IH.
Qed.

Lemma ext_go_conf (q : string) (best : option string) :
  Path.ext_go false best (q +:+ ".conf") = Some ".conf"%string
  \/ Path.ext_go false best (q +:+ ".conf") = best.
Proof.
  induction q as [|c q IH].
  - right. reflexivity.
  - change (String c q +:+ ".conf")%string with (String c (q +:+ ".conf")).
    cbn [Path.ext_go]. destruct (Ascii.eqb c ".").
    + exact IH.
    + left. apply ext_go_conf_seen.
Qed.

(** The extension [os.path.splitext] finds in a name ending in [.conf]
    is [.conf], or none when only dots precede it in the base name. *)
Lemma splitext_ext_conf (fn : string) :
  ConfHandler.supports fn = true ->
  Path.splitext_ext fn = ".conf"%string \/ Path.splitext_ext fn = ""%string.
Proof.
  unfold ConfHandler.supports. intros H. apply bool_decide_eq_true in H.
  destruct (drop_suffix (String.length fn - 5) fn) as [pre Hpre]. rewrite H in Hpre.
  unfold Path.splitext_ext, Path.basename. rewrite Hpre.
  destruct (after_last_slash_conf pre "") as [q ->].
  destruct (ext_go_conf q None) as [-> | ->]; [left|right]; reflexivity.
Qed.

(** X21: no name has two handlers.  A name the configuration handler
    accepts (it ends in [.conf]) is never accepted by the recipe handler
    (its extension is none of [.bb], [.bbclass], [.inc]), so the handler
    the registry loop settles on does not depend on the order in which
    the two handlers were registered. *)
Theorem handlers_disjoint (fn : string) :
  ConfHandler.supports fn && BBHandler.supports fn = false
  /\ head (filter (fun h => Dispatch.handler_supports h fn = true) (rev Dispatch.handlers))
     = Props.handler_for fn.
Proof.
  assert (Hd : ConfHandler.supports fn && BBHandler.supports fn = false).
  { destruct (ConfHandler.supports fn) eqn:Hc; [|reflexivity]. cbn [andb].
    unfold BBHandler.supports.
    destruct (splitext_ext_conf fn Hc) as [-> | ->]; reflexivity. }
  split; [exact Hd|].
  unfold Props.handler_for, Dispatch.handlers. cbn [rev app].
  destruct (ConfHandler.supports fn) eqn:Hc, (BBHandler.supports fn) eqn:Hb;
    cbn [andb] in Hd; try discriminate;
    repeat first
      [ rewrite filter_cons_True by (cbn [Dispatch.handler_supports]; assumption)
      | rewrite filter_cons_False by (cbn [Dispatch.handler_supports]; congruence) ];
    reflexivity.
Qed.

(** ** The bounded memos stay bounded *)

Section LruOk.
Context {K V : Type} `{Countable K}.
Implicit Types (c : gmap K V) (o : list K).

Lemma keys_in_list_size o : forall c,
  (forall k, is_Some (c !! k) -> k ∈ o) -> (size c <= length o)%nat.
Proof.
  induction o as [|x o IH]; intros c Hc.
  - assert (c = ∅) as ->.
    { apply map_empty. intros i. apply eq_None_not_Some. intros Hi.
      specialize (Hc i Hi). inversion Hc. }
    rewrite map_size_empty. simpl. lia.
  - assert (Hd : (size (delete x c) <= length o)%nat).
    { apply IH. intros k Hk. apply lookup_delete_is_Some in Hk as [Hne Hk].
      specialize (Hc k Hk). inversion Hc; subst; [congruence|assumption]. }
    rewrite map_size_delete in Hd. simpl.
    destruct (c !! x); simpl in Hd; lia.
Qed.

Lemma lru_ok_size cap c o : Props.lru_ok cap c o -> Z.of_nat (size c) <= cap.
Proof.
  intros [Hk Hl]. pose proof (keys_in_list_size o c Hk). lia.
Qed.

Lemma lru_ok_empty cap : 0 <= cap -> Props.lru_ok cap (∅ : gmap K V) [].
Proof.
  intros Hcap. split; [|simpl; lia].
  intros k [v Hv]. rewrite lookup_empty in Hv. discriminate.
Qed.

Lemma touch_elem (k y : K) o : y ∈ o -> y ∈ (Parse.remove_first k o ++ [k])%list.
Proof.
  induction o as [|z o IH]; intros Hy; [inversion Hy|]. simpl.
  destruct (decide (k = z)) as [->|Hne].
  - apply elem_of_app. inversion Hy; subst; [right; left|left; assumption].
  - simpl. inversion Hy; subst; [left|right; auto].
Qed.

Lemma touch_length (k : K) o :
  k ∈ o -> length (Parse.remove_first k o ++ [k])%list = length o.
Proof.
  induction o as [|z o IH]; intros Hk; [inversion Hk|]. simpl.
  destruct (decide (k = z)) as [->|Hne].
  - rewrite length_app. simpl. lia.
  - simpl. rewrite IH; [reflexivity|]. inversion Hk; subst; [congruence|assumption].
Qed.

(** A hit moves the key to the end of the order. *)
Lemma lru_ok_touch cap c o (k : K) :
  Props.lru_ok cap c o -> k ∈ o -> Props.lru_ok cap c (Parse.remove_first k o ++ [k])%list.
Proof.
  intros [Hk Hl] Hin. split.
  - intros y Hy. apply touch_elem. auto.
  - rewrite touch_length by exact Hin. exact Hl.
Qed.

(** A new entry while there is room. *)
Lemma lru_ok_put_room cap c o (k : K) (v : V) :
  Props.lru_ok cap c o -> (cap <? Z.of_nat (length (o ++ [k])%list)) = false ->
  Props.lru_ok cap (<[k := v]> c) (o ++ [k])%list.
Proof.
  intros [Hk Hl] Hroom. apply Z.ltb_ge in Hroom. split; [|exact Hroom].
  intros y Hy. apply lookup_insert_is_Some in Hy as [->|[_ Hy]]; apply elem_of_app.
  - right. left.
  - left. auto.
Qed.

(** A new entry past the capacity: the head of the order goes. *)
Lemma lru_ok_put_full cap c o (k old : K) (v : V) (rest : list K) :
  Props.lru_ok cap c o -> (o ++ [k])%list = old :: rest ->
  Props.lru_ok cap (delete old (<[k := v]> c)) rest.
Proof.
  intros [Hk Hl] Ho. split.
  - intros y Hy. apply lookup_delete_is_Some in Hy as [Hne Hy].
    assert (Hin : y ∈ (o ++ [k])%list).
    { apply lookup_insert_is_Some in Hy as [->|[_ Hy]]; apply elem_of_app.
      - right. left.
      - left. auto. }
    rewrite Ho in Hin. inversion Hin; subst; [congruence|assumption].
  - apply (f_equal (@length K)) in Ho. rewrite length_app in Ho. simpl in Ho. lia.
Qed.

(** The shape the handlers give the insertion. *)
Lemma lru_ok_put cap c o (k : K) (v : V) :
  Props.lru_ok cap c o ->
  let c' := <[k := v]> c in
  let o' := (o ++ [k])%list in
  if cap <? Z.of_nat (length o')
  then Props.lru_ok cap (delete (default k (head o')) c') (tail o')
  else Props.lru_ok cap c' o'.
Proof.
  intros Hok. cbv zeta.
  destruct (cap <? Z.of_nat (length (o ++ [k])%list)) eqn:Hfull.
  - destruct (o ++ [k])%list as [|old rest] eqn:Ho.
    + destruct o; discriminate.
    + simpl. eapply lru_ok_put_full; eassumption.
  - apply lru_ok_put_room; assumption.
Qed.

End LruOk.

Section Preserves.
Context (I : State -> Prop).

Lemma preserves_ret {A} (a : A) : Props.preserves I (ret a).
Proof. intros s Hs. exact Hs. Qed.

Lemma preserves_raise {A} (e : Exn) : Props.preserves I (@raise A e).
Proof. intros s Hs. exact Hs. Qed.

Lemma preserves_gets {A} (f : State -> A) : Props.preserves I (gets f).
Proof. intros s Hs. exact Hs. Qed.

Lemma preserves_modify (f : State -> State) :
  (forall s, I s -> I (f s)) -> Props.preserves I (modify f).
Proof. intros Hf s Hs. apply Hf, Hs. Qed.

Lemma preserves_bind {A B} (c : M A) (k : A -> M B) :
  Props.preserves I c -> (forall a, Props.preserves I (k a)) -> Props.preserves I (bind c k).
Proof.
  intros Hc Hk s Hs. unfold bind. specialize (Hc s Hs).
  destruct (c s) as [[a|e] s1]; simpl in *; [|exact Hc].
  exact (Hk a s1 Hc).
Qed.

Lemma preserves_when (b : bool) (c : M unit) :
  Props.preserves I c -> Props.preserves I (when b c).
Proof. destruct b; [auto|]. intros _. apply preserves_ret. Qed.

Lemma preserves_for_each {A} (l : list A) (body : A -> M unit) :
  (forall x, Props.preserves I (body x)) -> Props.preserves I (for_each l body).
Proof.
  intros Hb. induction l as [|x l IH]; simpl.
  - apply preserves_ret.
  - apply preserves_bind; [apply Hb|]. intros _. exact IH.
Qed.

Lemma preserves_try_except {A} (c : M A) (h : Exn -> option (M A)) :
  Props.preserves I c ->
  (forall e, match h e with Some c' => Props.preserves I c' | None => True end) ->
  Props.preserves I (try_except c h).
Proof.
  intros Hc Hh s Hs. unfold try_except. specialize (Hc s Hs).
  destruct (c s) as [[a|e] s1]; simpl in *; [exact Hc|].
  specialize (Hh e). destruct (h e) as [c'|]; simpl; [|exact Hc].
  exact (Hh s1 Hc).
Qed.

Lemma preserves_try_finally {A} (c : M A) (f : M unit) :
  Props.preserves I c -> Props.preserves I f -> Props.preserves I (try_finally c f).
Proof.
  intros Hc Hf s Hs. unfold try_finally. specialize (Hc s Hs).
  destruct (c s) as [r s1]; simpl in *.
  exact (Hf s1 Hc).
Qed.

Lemma preserves_from_state {A B} (f : State -> A) (k : A -> M B) :
  (forall s, I s -> I (snd (k (f s) s))) -> Props.preserves I (bind (gets f) k).
Proof. intros Hk s Hs. exact (Hk s Hs). Qed.

Lemma at_bind {A B} (c : M A) (k : A -> M B) (s : State) :
  I (snd (c s)) -> (forall a, Props.preserves I (k a)) -> I (snd (bind c k s)).
Proof.
  intros Hc Hk. unfold bind.
  destruct (c s) as [[a|e] s1]; simpl in *; [|exact Hc].
  exact (Hk a s1 Hc).
Qed.

Lemma at_modify (g : State -> State) (s : State) : I (g s) -> I (snd (modify g s)).
Proof. intros Hg. exact Hg. Qed.

End Preserves.

Create HintDb pres discriminated.
#[global] Hint Constants Opaque : pres.
#[global] Hint Variables Opaque : pres.

(** One step of an invariance proof: a known computation, the
    combinators of the monad, a change of the state that leaves the
    memos alone, then a case analysis on what the computation branches
    on. *)
Ltac pres_step :=
  first
    [ solve [auto 4 with pres nocore]
    | exact Logic.I
    | apply preserves_ret | apply preserves_raise | apply preserves_gets
    | apply preserves_bind; [|intros ?] | apply preserves_when
    | apply preserves_for_each; intros ? | apply preserves_try_finally
    | apply preserves_try_except; [|intros ?]
    | apply preserves_modify; let H := fresh in intros ? H; exact H
    | match goal with
      | |- Props.preserves _ (if ?b then _ else _) => destruct b
      | |- Props.preserves _ (match ?x with _ => _ end) => destruct x
      | |- Props.preserves _ (let _ := _ in _) => cbv zeta
      | |- match match ?x with _ => _ end with _ => _ end => destruct x
      | |- match (if ?b then _ else _) with _ => _ end => destruct b
      end ].

Ltac pres_tac := repeat pres_step.

Section CachesBounded.
Context (os : OS) (ext : External).

#[local] Abbreviation ok := (Props.preserves Props.caches_bounded).

Lemma log_event_ok (e : Event) : ok (log_event e).
Proof. unfold log_event. pres_tac. Qed.

(** *** The counters and timers *)

Lemma set_tmpdir_ok t : ok (Metrics.set_tmpdir t).
Proof. unfold Metrics.set_tmpdir. pres_tac. Qed.

Lemma _bump_ok sec f n : ok (Metrics._bump sec f n).
Proof. unfold Metrics._bump. pres_tac. Qed.

Lemma hit_ok sec : ok (Metrics.hit sec).
Proof. apply _bump_ok. Qed.

Lemma miss_ok sec : ok (Metrics.miss sec).
Proof. apply _bump_ok. Qed.

Lemma evict_ok sec : ok (Metrics.evict sec).
Proof. apply _bump_ok. Qed.

Lemma perf_counter_ok : ok (Metrics.perf_counter os).
Proof. unfold Metrics.perf_counter. pres_tac. Qed.

#[local] Hint Resolve log_event_ok set_tmpdir_ok _bump_ok hit_ok miss_ok evict_ok
  perf_counter_ok : pres.

Lemma time_start_ok sec : ok (Metrics.time_start os sec).
Proof. unfold Metrics.time_start. pres_tac. Qed.

Lemma time_end_ok sec tok : ok (Metrics.time_end os sec tok).
Proof. unfold Metrics.time_end, Metrics.add_time. pres_tac. Qed.

Lemma flush_ok note : ok (Metrics.flush os note).
Proof. unfold Metrics.flush, Metrics.time, Metrics.append_line. pres_tac. Qed.

#[local] Hint Resolve time_start_ok time_end_ok flush_ok : pres.

(** *** The package *)

Lemma stat_or_raise_ok f : ok (Parse.stat_or_raise os f).
Proof. unfold Parse.stat_or_raise. pres_tac. Qed.

Lemma store_mtime_ok f t : ok (Parse.store_mtime f t).
Proof. unfold Parse.store_mtime. pres_tac. Qed.

#[local] Hint Resolve stat_or_raise_ok store_mtime_ok : pres.

Lemma cached_mtime_ok f : ok (Parse.cached_mtime os f).
Proof. unfold Parse.cached_mtime. pres_tac. Qed.

Lemma cached_mtime_noerror_ok f : ok (Parse.cached_mtime_noerror os f).
Proof. unfold Parse.cached_mtime_noerror. pres_tac. Qed.

Lemma getVar_ok name e : ok (Parse.getVar ext name e).
Proof. unfold Parse.getVar. pres_tac. Qed.

Lemma setVar_ok name value : ok (Parse.setVar name value).
Proof. unfold Parse.setVar. pres_tac. Qed.

#[local] Hint Resolve cached_mtime_ok cached_mtime_noerror_ok getVar_ok setVar_ok : pres.

Lemma mark_dependency_ok f : ok (Parse.mark_dependency os f).
Proof. unfold Parse.mark_dependency. pres_tac. Qed.

Lemma check_dependency_ok f : ok (Parse.check_dependency os f).
Proof. unfold Parse.check_dependency. pres_tac. Qed.

#[local] Hint Resolve mark_dependency_ok check_dependency_ok : pres.

(** *** The memo of [resolve_file] *)

Lemma resolve_lookup_ok fn bbpath :
  ok (Parse.resolve_lookup os Parse._RESOLVE_CACHE_MAX fn bbpath).
Proof.
  unfold Parse.resolve_lookup. cbv zeta. apply preserves_from_state. intros s Hs.
  pose proof Hs as (H1 & H2 & H3 & H4 & H5).
  destruct (env_on os "BB_OPT_DISABLE_RESOLVE_CACHE").
  - refine ((_ : ok _) s Hs). pres_tac.
  - destruct (resolve_cache (st_parse s) !! (fn, false, bbpath)) as [cached|] eqn:Hc.
    + apply at_bind; [|intros; pres_tac]. apply at_modify.
      refine (conj _ (conj H2 (conj H3 (conj H4 H5)))). simpl.
      apply lru_ok_touch; [exact H1|]. apply H1. eexists. exact Hc.
    + cbn [negb when]. apply at_bind; [|intros; pres_tac].
      pose proof (lru_ok_put Parse._RESOLVE_CACHE_MAX _ _ (fn, false, bbpath)
                    (Parse.which os bbpath fn) H1) as Hput.
      cbv zeta in Hput.
      destruct (Parse._RESOLVE_CACHE_MAX <? _).
      * destruct (resolve_cache_order (st_parse s) ++ [(fn, false, bbpath)])%list
          as [|old rest] eqn:Ho; [destruct (resolve_cache_order (st_parse s)); discriminate|].
        apply at_bind; [|intros; pres_tac]. apply at_modify.
        exact (conj Hput (conj H2 (conj H3 (conj H4 H5)))).
      * apply at_modify. exact (conj Hput (conj H2 (conj H3 (conj H4 H5)))).
Qed.

#[local] Hint Resolve resolve_lookup_ok : pres.

Lemma resolve_file_ok fn : ok (Parse.resolve_file os ext fn).
Proof. unfold Parse.resolve_file, Parse.resolve_file_with. pres_tac. Qed.

#[local] Hint Resolve resolve_file_ok : pres.

(** *** The configuration handler *)

Lemma conf_feeder_ok lineno l fn statements baseconfig conffile :
  ok (ConfHandler.feeder lineno l fn statements baseconfig conffile).
Proof. unfold ConfHandler.feeder. pres_tac. Qed.

#[local] Hint Resolve conf_feeder_ok : pres.

Lemma finish_line_ok abs_fn baseconfig lineno l statements :
  ok (ConfHandler.finish_line abs_fn baseconfig lineno l statements).
Proof. unfold ConfHandler.finish_line. pres_tac. Qed.

#[local] Hint Resolve finish_line_ok : pres.

Lemma conf_lines_ok abs_fn baseconfig lines i pending statements :
  ok (ConfHandler.conf_lines abs_fn baseconfig lines i pending statements).
Proof.
  revert i pending statements.
  induction lines as [|line rest IH]; intros i pending statements; simpl.
  - pres_tac.
  - destruct pending as [[[l lineno] origlineno]|]; pres_tac; apply IH.
Qed.

Lemma open_lines_ok path : ok (ConfHandler.open_lines os path).
Proof. unfold ConfHandler.open_lines. pres_tac. Qed.

#[local] Hint Resolve conf_lines_ok open_lines_ok : pres.

Lemma _get_conf_statements_ok abs_fn baseconfig :
  ok (ConfHandler._get_conf_statements os abs_fn baseconfig).
Proof. unfold ConfHandler._get_conf_statements. pres_tac. Qed.

Lemma _get_include_index_ok dname bbpath :
  ok (ConfHandler._get_include_index os dname bbpath).
Proof.
  unfold ConfHandler._get_include_index. cbv zeta. apply preserves_from_state.
  intros s Hs. pose proof Hs as (H1 & H2 & H3 & H4 & H5).
  set (key := (dname, default "" bbpath)).
  assert (Hrebuild :
            forall built,
              Props.caches_bounded
                (snd ((modify
                         (upd_conf
                            (if ConfHandler._include_index_max <?
                                  Z.of_nat (length (include_index_order (st_conf s) ++ [key])%list)
                             then ConfHandler.set_include_index
                                    (delete (default key
                                               (head (include_index_order (st_conf s) ++ [key])%list))
                                       (<[key := built]> (include_index_cache (st_conf s))))
                                    (tail (include_index_order (st_conf s) ++ [key])%list)
                             else ConfHandler.set_include_index
                                    (<[key := built]> (include_index_cache (st_conf s)))
                                    (include_index_order (st_conf s) ++ [key])%list)) ;;;
                       ret (snd built)) s))).
  { intros built. apply at_bind; [|intros; pres_tac]. apply at_modify.
    pose proof (lru_ok_put ConfHandler._include_index_max _ _ key built H2) as Hput.
    cbv zeta in Hput.
    destruct (ConfHandler._include_index_max <? _);
      exact (conj H1 (conj Hput (conj H3 (conj H4 H5)))). }
  destruct (include_index_cache (st_conf s) !! key) as [[cfp cmap]|] eqn:Hc;
    [|apply Hrebuild].
  case_bool_decide; [|apply Hrebuild].
  apply at_bind; [|intros; pres_tac]. apply at_modify.
  refine (conj H1 (conj _ (conj H3 (conj H4 H5)))). simpl.
  apply lru_ok_touch; [exact H2|]. apply H2. eexists. exact Hc.
Qed.

#[local] Hint Resolve _get_conf_statements_ok _get_include_index_ok : pres.

Lemma _include_index_resolve_ok dname bbpath filename :
  ok (ConfHandler._include_index_resolve os dname bbpath filename).
Proof. unfold ConfHandler._include_index_resolve. pres_tac. Qed.

Lemma include_cache_get_ok key : ok (ConfHandler.include_cache_get os key).
Proof.
  unfold ConfHandler.include_cache_get.
  destruct (env_on os "BB_OPT_DISABLE_INCLUDE_LRU"); [pres_tac|].
  apply preserves_from_state. intros s Hs. pose proof Hs as (H1 & H2 & H3 & H4 & H5).
  case_bool_decide as Hin; [|exact Hs].
  apply at_bind; [|intros; pres_tac]. apply at_modify.
  refine (conj H1 (conj H2 (conj _ (conj H4 H5)))). simpl.
  apply lru_ok_touch; assumption.
Qed.

Lemma include_cache_put_ok key v : ok (ConfHandler.include_cache_put os key v).
Proof.
  unfold ConfHandler.include_cache_put. cbv zeta.
  destruct (env_on os "BB_OPT_DISABLE_INCLUDE_LRU"); [pres_tac|].
  apply preserves_from_state. intros s Hs. pose proof Hs as (H1 & H2 & H3 & H4 & H5).
  pose proof (lru_ok_put ConfHandler._include_resolve_max _ _ key v H3) as Hput.
  cbv zeta in Hput.
  destruct (ConfHandler._include_resolve_max <? _).
  - apply at_bind; [|intros; pres_tac]. apply at_modify.
    exact (conj H1 (conj H2 (conj Hput (conj H4 H5)))).
  - apply at_modify. exact (conj H1 (conj H2 (conj Hput (conj H4 H5)))).
Qed.

#[local] Hint Resolve _include_index_resolve_ok include_cache_get_ok include_cache_put_ok
  : pres.

Lemma include_resolve_ok dname fn bbpath_var :
  ok (ConfHandler.include_resolve os dname fn bbpath_var).
Proof. unfold ConfHandler.include_resolve. pres_tac. Qed.

#[local] Hint Resolve include_resolve_ok : pres.

(** *** The recipe handler *)

Lemma _get_class_index_ok bbpath classtype :
  ok (BBHandler._get_class_index os bbpath classtype).
Proof.
  unfold BBHandler._get_class_index. cbv zeta. apply preserves_from_state.
  intros s Hs. pose proof Hs as (H1 & H2 & H3 & H4 & H5).
  set (key := (BBHandler.str_of classtype, default "" bbpath)).
  assert (Hrebuild :
            forall built,
              Props.caches_bounded
                (snd ((modify
                         (upd_bb
                            (if BBHandler._class_index_max <?
                                  Z.of_nat (length (class_index_order (st_bb s) ++ [key])%list)
                             then BBHandler.set_class_index
                                    (delete (default key
                                               (head (class_index_order (st_bb s) ++ [key])%list))
                                       (<[key := built]> (class_index_cache (st_bb s))))
                                    (tail (class_index_order (st_bb s) ++ [key])%list)
                             else BBHandler.set_class_index
                                    (<[key := built]> (class_index_cache (st_bb s)))
                                    (class_index_order (st_bb s) ++ [key])%list)) ;;;
                       ret (snd built)) s))).
  { intros built. apply at_bind; [|intros; pres_tac]. apply at_modify.
    pose proof (lru_ok_put BBHandler._class_index_max _ _ key built H4) as Hput.
    cbv zeta in Hput.
    destruct (BBHandler._class_index_max <? _);
      exact (conj H1 (conj H2 (conj H3 (conj Hput H5)))). }
  destruct (class_index_cache (st_bb s) !! key) as [[cfp cmap]|] eqn:Hc;
    [|apply Hrebuild].
  case_bool_decide; [|apply Hrebuild].
  apply at_bind; [|intros; pres_tac]. apply at_modify.
  refine (conj H1 (conj H2 (conj H3 (conj _ H5)))). simpl.
  apply lru_ok_touch; [exact H4|]. apply H4. eexists. exact Hc.
Qed.

Lemma _inherit_cache_get_ok key : ok (BBHandler._inherit_cache_get key).
Proof.
  unfold BBHandler._inherit_cache_get.
  apply preserves_from_state. intros s Hs. pose proof Hs as (H1 & H2 & H3 & H4 & H5).
  case_bool_decide as Hin; [|refine ((_ : ok _) s Hs); pres_tac].
  apply at_bind; [|intros; pres_tac]. apply at_modify.
  refine (conj H1 (conj H2 (conj H3 (conj H4 _)))). simpl.
  apply lru_ok_touch; assumption.
Qed.

Lemma _inherit_cache_put_ok key value : ok (BBHandler._inherit_cache_put key value).
Proof.
  unfold BBHandler._inherit_cache_put. cbv zeta.
  apply preserves_from_state. intros s Hs. pose proof Hs as (H1 & H2 & H3 & H4 & H5).
  pose proof (lru_ok_put BBHandler._inherit_resolved_max _ _ key value H5) as Hput.
  cbv zeta in Hput.
  destruct (BBHandler._inherit_resolved_max <? _).
  - apply at_bind; [|intros; pres_tac]. apply at_modify.
    exact (conj H1 (conj H2 (conj H3 (conj H4 Hput)))).
  - apply at_modify. exact (conj H1 (conj H2 (conj H3 (conj H4 Hput)))).
Qed.

#[local] Hint Resolve _get_class_index_ok _inherit_cache_get_ok _inherit_cache_put_ok : pres.

Lemma _resolve_inherit_file_ok origfile : ok (BBHandler._resolve_inherit_file os ext origfile).
Proof. unfold BBHandler._resolve_inherit_file. pres_tac. Qed.

Lemma inherit_defer_ok expression fn lineno :
  ok (BBHandler.inherit_defer expression fn lineno).
Proof. unfold BBHandler.inherit_defer. pres_tac. Qed.

Lemma bb_feeder_ok lineno l fn root statements eof :
  ok (BBHandler.feeder ext lineno l fn root statements eof).
Proof. unfold BBHandler.feeder, BBHandler.residue_starts_with_hash. pres_tac. Qed.

#[local] Hint Resolve _resolve_inherit_file_ok inherit_defer_ok bb_feeder_ok : pres.

Lemma feed_lines_ok filename base_name lines lineno statements :
  ok (BBHandler.feed_lines ext filename base_name lines lineno statements).
Proof.
  revert lineno statements. induction lines as [|line rest IH]; intros; simpl; pres_tac.
Qed.

#[local] Hint Resolve feed_lines_ok : pres.

Lemma get_statements_ok filename abs base :
  ok (BBHandler.get_statements os ext filename abs base).
Proof. unfold BBHandler.get_statements. pres_tac. Qed.

Lemma _get_handler_ok fn : ok (Dispatch._get_handler os fn).
Proof. unfold Dispatch._get_handler. pres_tac. Qed.

#[local] Hint Resolve get_statements_ok _get_handler_ok : pres.

(** *** The dispatcher and what it enters *)

Section Handle.
Context (handle : string -> bool -> M Handled).
Hypothesis Hh : forall f include, ok (handle f include).

Lemma inherit_one_ok fn lineno deferred cache file :
  ok (BBHandler.inherit_one os ext handle fn lineno deferred cache file).
Proof. unfold BBHandler.inherit_one. pres_tac. Qed.

Lemma inherit_loop_ok fn lineno deferred files cache :
  ok (BBHandler.inherit_loop os ext handle fn lineno deferred files cache).
Proof.
  revert cache. induction files as [|file files IH]; intros cache; simpl.
  - pres_tac.
  - apply preserves_bind; [apply inherit_one_ok|]. intros cache'. apply IH.
Qed.

Lemma inherit_ok files fn lineno deferred :
  ok (BBHandler.inherit os ext handle files fn lineno deferred).
Proof. pose proof inherit_loop_ok. unfold BBHandler.inherit. pres_tac. Qed.

Lemma include_single_file_ok parentfn fn lineno error_out :
  ok (ConfHandler.include_single_file os ext handle parentfn fn lineno error_out).
Proof. unfold ConfHandler.include_single_file. pres_tac. Qed.

Lemma include_ok parentfn fns lineno error_out :
  ok (ConfHandler.include os ext handle parentfn fns lineno error_out).
Proof. pose proof include_single_file_ok. unfold ConfHandler.include. pres_tac. Qed.

Lemma eval_leaf_ok (n : Node) :
  ok (fun s => match eval_leaf ext n (st_d s) with
               | inr d => (Ret tt, upd_d (fun _ => d) s)
               | inl e => (Raise e, s)
               end).
Proof. intros s Hs. destruct (eval_leaf ext n (st_d s)); exact Hs. Qed.

Lemma eval_node_ok (n : Node) : ok (Dispatch.eval_node os ext handle n).
Proof.
  pose proof inherit_ok. pose proof include_ok. pose proof eval_leaf_ok.
  unfold Dispatch.eval_node. pres_tac.
Qed.

Lemma eval_ok (statements : StatementGroup) : ok (Dispatch.eval os ext handle statements).
Proof. pose proof eval_node_ok. unfold Dispatch.eval. pres_tac. Qed.

End Handle.

Lemma conf_handle_ok (eval : StatementGroup -> M unit) fn include baseconfig :
  (forall statements, ok (eval statements)) ->
  ok (ConfHandler.handle os ext eval fn include baseconfig).
Proof. intros He. unfold ConfHandler.handle, ConfHandler.init. pres_tac. Qed.

Lemma bb_handle_ok (eval : StatementGroup -> M unit) fn include baseconfig :
  (forall statements, ok (eval statements)) ->
  ok (BBHandler.handle os ext eval fn include baseconfig).
Proof. intros He. unfold BBHandler.handle, ConfHandler.init. pres_tac. Qed.

Lemma handle_step_ok (again : string -> bool -> M Handled) fn include baseconfig :
  (forall f inc, ok (again f inc)) ->
  ok (Dispatch.handle_step os ext again fn include baseconfig).
Proof.
  intros Hh. pose proof (eval_ok again Hh).
  pose proof conf_handle_ok. pose proof bb_handle_ok.
  unfold Dispatch.handle_step. pres_tac.
Qed.

Lemma handle_ok depth fn include baseconfig :
  ok (Dispatch.handle os ext depth fn include baseconfig).
Proof.
  revert fn include baseconfig.
  induction depth as [|depth IH]; intros fn include baseconfig; simpl.
  - pres_tac.
  - apply handle_step_ok. intros f inc. apply IH.
Qed.

End CachesBounded.

(** The memos are empty, and so within their capacities, when the
    package has just been imported. *)
Lemma caches_bounded_init (d : Datastore) : Props.caches_bounded (Init.state d).
Proof.
  unfold Props.caches_bounded. simpl.
  refine (conj _ (conj _ (conj _ (conj _ _)))); apply lru_ok_empty; discriminate.
Qed.

(** X22: the bounded memos stay bounded.  The package keeps five memos
    with an eviction order: the one of [resolve_file] (8192 entries), the
    include index (256) and the include memo (8192) of the configuration
    handler, the class index (128) and the inherit memo (8192) of the
    recipe handler.  When each of them has every key on its order list
    and an order list within its capacity, as at import, this is so
    again after [handle] has parsed a file, with whatever it included
    and inherited, whether it returned or raised; so none of the five
    tables ever holds more entries than its capacity. *)
Theorem caches_stay_bounded (os : OS) (ext : External) (depth : nat) (fn : string)
  (include baseconfig : bool) (s : State) :
  Props.caches_bounded s ->
  let s' := snd (Dispatch.handle os ext depth fn include baseconfig s) in
  Props.caches_bounded s'
  /\ Z.of_nat (size (resolve_cache (st_parse s'))) <= Parse._RESOLVE_CACHE_MAX
  /\ Z.of_nat (size (include_index_cache (st_conf s'))) <= ConfHandler._include_index_max
  /\ Z.of_nat (size (include_resolve_cache (st_conf s'))) <= ConfHandler._include_resolve_max
  /\ Z.of_nat (size (class_index_cache (st_bb s'))) <= BBHandler._class_index_max
  /\ Z.of_nat (size (inherit_resolved_cache (st_bb s'))) <= BBHandler._inherit_resolved_max.
Proof.
  intros Hs. cbv zeta.
  pose proof (handle_ok os ext depth fn include baseconfig s Hs) as Hs'.
  split; [exact Hs'|].
  destruct Hs' as (H1 & H2 & H3 & H4 & H5).
  refine (conj _ (conj _ (conj _ (conj _ _)))); eapply lru_ok_size; eassumption.
Qed.

Lemma caches_stay_bounded_witness :
  let s := Init.state (Init.datastore [("BBPATH", "/L")]) in
  let s' := snd (Dispatch.handle Sample.os Sample.ext 4 "/r/x.bb" true false s) in
  Props.caches_bounded s'
  /\ class_index_order (st_bb s') = [("None", "/L")]
  /\ Z.of_nat (size (class_index_cache (st_bb s'))) <= 128.
Proof.
  intros s s'.
  destruct (caches_stay_bounded Sample.os Sample.ext 4 "/r/x.bb" true false s
              (caches_bounded_init _)) as (H & _ & _ & _ & H4 & _).
  split; [exact H|]. split; [vm_compute; reflexivity|exact H4].
Defined.
